(* ===== verification/_CoqProject ===== *)
-Q . S2P
Prelude.v
Nest.v
Modules.v
Json.v
Program.v
RelyGuarantee.v
Schema.v
Services.v
JsDate.v
Memory.v
Report.v
Zod.v
Config.v
Bytes.v
Media.v
Queue.v
BullBoard.v
Health.v
JobsRepository.v
Dto.v
Auth.v
JobsService.v
Tenancy.v
Concurrent.v
Sessions.v
Api.v
JobsProperties.v
Transcription.v
Compiler.v
ToolSchema.v
ReportHtml.v
PdfRenderer.v
Browser.v
Pipeline.v
PipelineProperties.v
Processor.v
Bootstrap.v
Wire.v
Http.v
HttpProperties.v
Contract.v
Deliveries.v
Server.v
Notebook.v
HttpNotebook.v
SharedPdf.v
