(* ===== verification/Prelude.v ===== *)
(** * FieldNote server: a verification development

    FieldNote turns a recorded inspection walkthrough into a structured report and
    a PDF.  This development models the TypeScript server under [server/src]: the
    NestJS API (accounts, jobs, presigned uploads), the BullMQ queue, and the worker
    that transcribes, compiles and renders.  The iOS client is not modelled.

    ** How the code is modelled

    A method that awaits is a [prog] ([Program]): the finite tree of the external
    calls it awaits, written with [x <- p;; q], [TRY .. CATCH], [Throw] and loops in
    the order of the source.  [Services] lists the calls (Prisma, S3, BullMQ, jose,
    the clock, the AI SDKs, Puppeteer) with the arguments the code passes, the state
    they act on ([Schema.Store]: the tables of [prisma/schema.prisma], the bucket,
    the queues, the issued URLs and a clock) and the contract of each ([call_spec]),
    which states what the services' documentation promises.  With [faults = true]
    any call may also fail without effect and any timer may be due.

    A theorem [ensures p w Q] holds for every implementation of the class [Services]
    that keeps the contract: running [p] in the world [w] ends in a result and an
    observable state related by [Q].  Programs are finite trees, so running one
    always ends; loops over data are structural.  Proofs use the weakest
    precondition [wp], compositional in the methods ([foo_spec] lemmas), and [wpg],
    which also bounds every single step between two awaits.  [Memory] implements the
    contract by an executable in-memory store with scripted faults, which shows that
    it can be kept and evaluates the witnesses.

    Concurrency is explicit.  [RelyGuarantee] gives the interleaving semantics: a pool
    of programs over one state, any of which may make its next call; programs arrive
    and may leave others running.  [rg] verifies one program under interference
    (every call keeps the invariant and makes a step of the guarantee, from any state
    the rely may have produced), and [pool_sound] composes.  [Concurrent] does this
    for every request to the jobs API, [Sessions] for sign-ins and refreshes,
    [Deliveries] for the worker, with the bodies that timed-out stages abandon;
    [rg_frame] puts the three invariants together, and [Server] is the open pool
    [server_step] in which raw HTTP requests - sign-ins and
    refreshes too - and deliveries arrive at any time.

    The set-up of the two processes and the health probes have signatures of their own
    ([Bootstrap.boot], [Health.probe]): what they call is not what requests call.
    The modules are data ([Modules.modules], with what every constructor injects);
    [Nest] states which parts an injected token may stand for and in which orders the
    framework may construct the parts, and [Bootstrap] runs the constructors in any
    such order.  A raw HTTP request - verb, path, query, headers, JSON body - goes
    through [Http.respond]: the router over the controllers' declared routes, the
    guards, the pipes, the handler, the exception filter.

    [Browser] is a state machine of its own: the renders of one worker share the fields
    of one service, and the events of its runs are the code between two awaits, the
    launches that settle and the browsers that die.

    Strings are lists of UTF-16 code units; integers of the code are [Z] (the
    modelled arithmetic adds times, lifetimes and counts, far below 2^53); dates
    are milliseconds.  The AI providers, the PDF renderer, zod's and validator.js's
    checks, [JSON.parse], the cryptographic primitives and Apple's keys are classes
    ([TranscriptionProvider], [ReportCompilerProvider], [PdfRenderer], [Zod],
    [Validator], [JsonParser], [Crypto]) whose laws are stated there; the providers
    under [server/src] are instances of the first three.  [new URL], what counts as an
    [Error], Express's matching of a path, Nest's validation and UUID pipes and
    Terminus's verdict are classes too ([UrlParser], [Throwables], [Router.Express],
    [Pipes], [Terminus]), each with a reference instance; what the packages' modules
    export is an argument bounded by [Modules.promised].

    ** Files

    - [Prelude]: strings, stable sorting, automation.  [Program]: exceptions,
      programs, execution, interleaving, [wp], [wpg].  [RelyGuarantee]: [rg], pools.
      [Bytes]: UTF-8 and base64.  [Json]: JSON values.  [Nest]: modules and injection.
    - [Schema], [Services], [Memory]: the data model, the contract, and the
      in-memory implementation.  [JsDate]: [Date] and [toISOString].
    - [Report]: [jobs/severity.ts], [report.types.ts], [job.mapper.ts] and the
      response DTOs.  [Dto]: the request DTOs and their validators.
    - [Zod], [Config]: the schema language and [config/env.ts].
    - [Auth]: [auth/*], [users/users.service.ts] and [common/auth/*].
    - [Media]: [media/media.service.ts].  [Queue]: [queue/queue.constants.ts] and
      [queue/processing-queue.service.ts].
    - [JobsRepository], [JobsService]: [jobs/jobs.repository.ts],
      [jobs/jobs.service.ts], [jobs/jobs.controller.ts]; [Tenancy] and
      [JobsProperties]: the theorems about them.
    - [Api]: a request from the guard through the controller to
      [common/filters/all-exceptions.filter.ts].
    - [Transcription], [Compiler], [ReportHtml], [PdfRenderer]: the stages'
      services under [processing/]; [Browser]: concurrent renders.  [ToolSchema]: the JSON Schema the model is given
      against the zod schema its answer is checked with.
    - [Pipeline], [PipelineProperties]: [processing/pipeline/pipeline.service.ts].
    - [Processor]: [processing/worker/processing.processor.ts] and the deliveries of
      one queue entry as BullMQ documents its retries.
    - [Concurrent], [Sessions], [Deliveries]: requests, sessions and deliveries under
      interference; [Server]: the server they make up, and an executable run of it.
      [Notebook]: the abstract specification of the API, for the handlers;
      [HttpNotebook]: the same for raw requests, from router to answer; [SharedPdf]:
      what such histories do to a finished PDF.
    - [BullBoard]: [queue/redis.connection.ts] and [queue/bull-board.ts].  [Health]:
      [health/].  [Modules]: [app.module.ts], every other module file, and the
      constructors' injections.  [Bootstrap]: [main.ts], [worker.ts], [openapi.ts],
      [swagger.ts], the clients that constructors and factories make, the lifecycle
      hooks, the logger's options.
    - [Wire]: JSON bodies and queries, and the pipes.  [Http]: the routes of the three
      controllers and one request through them.  [HttpProperties]: its theorems.
      [Contract]: the published [openapi.json] against the routes.

    ** What is shown

    - The server as a whole, in every state any interleaving of requests, deliveries,
      timeouts and failures reaches: users who are not served keep exactly what they
      had, responses show jobs of the user their token names, the columns of every job
      agree, a READY job that was not deleted has its PDF in the store, and sessions
      stay apart: revoked tokens stay revoked, and only the account that a token or an
      Apple identity was presented for gets or loses one.
    - Refinement: any history of raw HTTP requests and pipeline runs is a history of
      [Notebook]s - per user, a map of notes and the keys spent - in which each
      request of a live token does what [api_effect] says, without tables, sort orders
      or objects, is answered so, and is kept from its handler only for the reasons
      that [refusal] lists.  Along every such history a READY job keeps the PDF it
      has until it is deleted - edits of the report do not reach it.
    - HTTP: at most one route matches a request; a jobs route runs only with a live
      access token and for the user that token names; every request is answered, by
      its handler with the declared status or by a problem drawn from a fixed list,
      and under the id it came with; a request of the API's vocabulary written as
      path and JSON reaches its handler with the very arguments; readiness says
      which backend is down; the operations of [openapi.json] are the routes, with
      their statuses and their guard.
    - The API: whatever a user asks, other users' data are untouched; editing,
      creation, processing requests, deletion and pagination do what they promise.
    - Sessions: refresh tokens rotate, replaying one ends the session, access tokens
      are accepted exactly until they expire, a production sign-in rests on a token
      Apple signed for the app.
    - The worker: every step is confined to its job and follows the status machine;
      a run that returns leaves the job READY with its report and PDF; an
      interrupted run resumes without losing its transcript; with working services
      every delivered job ends READY, or FAILED with one dead letter.
    - The stages: transcripts are never blank, compiled reports contain what the
      model emitted and nothing else, the document is injection-safe and counts
      correctly, concurrent renders share one browser and one launch.
    - The configuration: exactly which environments boot, and what production may
      assume.
    - Operations: the dashboard's guard lets in exactly the configured credentials and
      lets those in; both processes can always be constructed, whatever order the
      framework chooses, with one instance of each class, and neither holds a part of
      the other; the API opens its port only behind its guards; the worker consumes
      the queue the API fills, with exactly the clients of the providers selected.
    - Limits of the code, as theorems: a timed-out stage keeps running, rotation is
      not atomic, a queue failure strands a QUEUED job, a wrong payload or a late
      failure can fail a READY job, deleted jobs keep their idempotency keys, a [null]
      list clears a report, a user name with a colon locks the dashboard, a shutdown
      disconnects the database before the worker is drained, a service destroyed
      during a launch leaves a browser, a failed readiness check names internal errors.

    ** Fuel

    Two definitions of the program take fuel: [JobsProperties.all_pages] (following
    the cursor; one more page than there are jobs is enough, which the theorem proves)
    and [ProcessingProcessor.deliveries] (the configured number of attempts is enough,
    likewise).  [Nest.reach] and [Nest.build] compute the modules a root loads and an
    order of construction; that 100 and 50 steps are enough for both roots is checked
    ([Modules.process_loaded], [Modules.build_order_complete]).

    ** Not modelled

    The engine of Prisma, log lines, the throttler's counting (its verdict is an
    argument), what Express does before the router (CORS preflight, headers, parsing,
    the mounts of the documentation and of the dashboard), JSON numbers that are not
    integers, the dashboard behind its guard, the settings of the linter and the test
    runner, and the iOS client.  BullMQ's own bookkeeping (an entry's state, delays,
    stalled entries) is not tracked: [Server] lets any entry in the queue be delivered
    at any time, any number of times. *)

From stdpp Require Export gmap list strings sorting pretty fin_maps.
From Stdlib Require Export Ascii Sorting.Permutation Sorting.Sorted.

Create HintDb fieldnote.
Create Rewrite HintDb fieldnote.

(** ** JavaScript strings

    A string is its sequence of UTF-16 code units, so that [length], [slice]
    and the length limits of the validators count what the code counts. *)
Abbreviation jstr := (list N).

(** A literal, written with the characters of a Rocq string (one unit per
    ASCII character). *)
Fixpoint js (s : string) : jstr :=
  match s with
  | EmptyString => []
  | String c s => Ascii.N_of_ascii c :: js s
  end.

Arguments js : simpl never.

(** A literal in which the back quote stands for the double quote. *)
Definition jsq (s : string) : jstr := (λ c, if decide (c = 96%N) then 34%N else c) <$> js s.

(** A number as it appears in a template literal. *)
Definition js_of_N (n : N) : jstr := js (pretty n).
Definition js_of_nat (n : nat) : jstr := js (pretty (N.of_nat n)).
Definition js_of_Z (z : Z) : jstr := js (pretty z).

(** The white space and line terminators that [String.prototype.trim] strips. *)
Definition is_space (c : N) : bool :=
  ((9 <=? c) && (c <=? 13) || (c =? 32) || (c =? 160) || (c =? 5760)
   || ((8192 <=? c) && (c <=? 8202)) || (c =? 8232) || (c =? 8233) || (c =? 8239)
   || (c =? 8287) || (c =? 12288) || (c =? 65279))%N.

Fixpoint trimStart (s : jstr) : jstr :=
  match s with
  | [] => []
  | c :: s' => if is_space c then trimStart s' else s
  end.
Definition trimEnd (s : jstr) : jstr := reverse (trimStart (reverse s)).
Definition trim (s : jstr) : jstr := trimEnd (trimStart s).

(** [s.slice(0, n)] for a non-negative [n]. *)
Definition slice0 (n : nat) (s : jstr) : jstr := take n s.

(** [parts.join(sep)] *)
Fixpoint join (sep : jstr) (parts : list jstr) : jstr :=
  match parts with
  | [] => []
  | [p] => p
  | p :: ps => p ++ sep ++ join sep ps
  end.

(** [s.split(c)] for a one-unit separator. *)
Fixpoint split (c : N) (s : jstr) : list jstr :=
  match s with
  | [] => [[]]
  | x :: s' =>
      if decide (x = c) then [] :: split c s'
      else match split c s' with
           | [] => [[x]]
           | p :: ps => (x :: p) :: ps
           end
  end.

(** [s.toLowerCase()], on the ASCII letters (the literals the code compares
    the result with contain no other cased character). *)
Definition lower_unit (c : N) : N := if ((65 <=? c) && (c <=? 90))%N then (c + 32)%N else c.
Definition toLowerCase (s : jstr) : jstr := lower_unit <$> s.

(** [s.startsWith(p)] and [s.includes(p)] *)
Definition startsWith (p s : jstr) : bool := bool_decide (take (length p) s = p).
Fixpoint includes (p s : jstr) : bool :=
  startsWith p s || match s with [] => false | _ :: s' => includes p s' end.

(** A string is truthy when it is not empty. *)
Definition truthy (s : jstr) : bool := match s with [] => false | _ => true end.

(** The lexicographic order of code units. *)
Fixpoint jstr_ltb (a b : jstr) : bool :=
  match a, b with
  | _, [] => false
  | [], _ :: _ => true
  | x :: a', y :: b' => if (x =? y)%N then jstr_ltb a' b' else (x <? y)%N
  end.

(** ** Lemmas on strings *)
Section Strings.
Implicit Types s : jstr.

Lemma trimStart_suffix s : ∃ p, s = p ++ trimStart s ∧ Forall (λ c, is_space c = true) p.
Proof.
  induction s as [|c s (p & Hp & Hall)]; simpl; [by (exists nil)|].
  destruct (is_space c) eqn:Hc; [|by (exists nil)].
  exists (c :: p). split; [simpl; congruence|by constructor].
Qed.

Lemma trimStart_length s : length (trimStart s) ≤ length s.
Proof. induction s as [|c s IH]; simpl; [lia|]. case_match; simpl; lia. Qed.

Lemma trimStart_head s c s' : trimStart s = c :: s' → is_space c = false.
Proof.
  induction s as [|d s IH]; simpl; [done|]. destruct (is_space d) eqn:Hd; [done|].
  by intros [= -> ->].
Qed.

Lemma trimStart_id s : (∀ c s', s = c :: s' → is_space c = false) → trimStart s = s.
Proof. destruct s as [|c s]; simpl; [done|]. intros H. by rewrite (H c s). Qed.

Lemma trimEnd_length s : length (trimEnd s) ≤ length s.
Proof.
  unfold trimEnd. rewrite length_reverse. etrans; [apply trimStart_length|].
  by rewrite length_reverse.
Qed.

Lemma trim_length s : length (trim s) ≤ length s.
Proof. unfold trim. etrans; [apply trimEnd_length|apply trimStart_length]. Qed.

Lemma trimEnd_prefix s : ∃ q, s = trimEnd s ++ q.
Proof.
  destruct (trimStart_suffix (reverse s)) as (p & Hp & _). exists (reverse p).
  unfold trimEnd. by rewrite <- reverse_app, <- Hp, reverse_involutive.
Qed.

Lemma trim_head s c s' : trim s = c :: s' → is_space c = false.
Proof.
  unfold trim. intros H. destruct (trimEnd_prefix (trimStart s)) as [q Hq].
  rewrite H in Hq. by eapply trimStart_head.
Qed.

Lemma trimEnd_last s : trimEnd (trimEnd s) = trimEnd s.
Proof.
  unfold trimEnd. rewrite reverse_involutive. f_equal. apply trimStart_id.
  intros c s' H. by eapply trimStart_head.
Qed.

(** Trimming twice is trimming once. *)
Lemma trim_idemp s : trim (trim s) = trim s.
Proof.
  unfold trim at 1. rewrite (trimStart_id (trim s)); [apply trimEnd_last|].
  intros c s' H. by eapply trim_head.
Qed.

Lemma slice0_length n s : length (slice0 n s) ≤ n.
Proof. unfold slice0. rewrite length_take. lia. Qed.

Lemma jstr_ltb_irrefl s : jstr_ltb s s = false.
Proof. induction s as [|c s IH]; simpl; [done|]. by rewrite N.eqb_refl. Qed.

Lemma jstr_ltb_trans a b c : jstr_ltb a b = true → jstr_ltb b c = true → jstr_ltb a c = true.
Proof.
  revert b c. induction a as [|x a IH]; intros [|y b] [|z c]; simpl; try done.
  destruct (N.eqb_spec x y) as [->|Hxy], (N.eqb_spec y z) as [->|Hyz]; simpl.
  - apply IH.
  - done.
  - destruct (N.eqb_spec x z); done.
  - rewrite !N.ltb_lt. intros H1 H2. destruct (N.eqb_spec x z) as [->|]; [lia|].
    apply N.ltb_lt. lia.
Qed.

Lemma jstr_ltb_total a b : jstr_ltb a b = false → jstr_ltb b a = false → a = b.
Proof.
  revert b. induction a as [|x a IH]; intros [|y b]; simpl; try done.
  rewrite (N.eqb_sym y x). destruct (N.eqb_spec x y) as [->|Hxy].
  - intros H1 H2. f_equal. by apply IH.
  - rewrite !N.ltb_ge. lia.
Qed.

Lemma split_no_separator c s : c ∉ s → split c s = [s].
Proof.
  induction s as [|x s IH]; simpl; [done|]. intros Hc. rewrite not_elem_of_cons in Hc.
  destruct Hc as [Hx Hs]. by rewrite decide_False, (IH Hs) by done.
Qed.

Lemma split_app c p s : c ∉ p → split c (p ++ c :: s) = p :: split c s.
Proof.
  induction p as [|x p IH]; simpl; intros Hc; [by rewrite decide_True by done|].
  rewrite not_elem_of_cons in Hc. destruct Hc as [Hx Hp]. by rewrite decide_False, (IH Hp) by done.
Qed.

Lemma truthy_true s : truthy s = true ↔ s ≠ [].
Proof. by destruct s. Qed.
End Strings.

#[export] Hint Resolve trim_idemp trim_length slice0_length : fieldnote.

(** ** [Array.prototype.sort] with a numeric comparator

    [xs.sort((a, b) => key(a) - key(b))] is a stable sort (ECMAScript 2019):
    an element goes in front of the elements after it whose key is not
    smaller. *)
Section SortOn.
Context {A : Type} (key : A → Z).
Implicit Types l : list A.

Fixpoint insertOn (x : A) (l : list A) : list A :=
  match l with
  | [] => [x]
  | y :: l' => if decide (key x ≤ key y)%Z then x :: l else y :: insertOn x l'
  end.
Definition sortOn (l : list A) : list A := foldr insertOn [] l.

(** The two orders a sorted list may be in. *)
Definition ordered : list A → Prop := StronglySorted (λ x y, (key x ≤ key y)%Z).
Definition strictly_ordered : list A → Prop := StronglySorted (λ x y, (key x < key y)%Z).

Lemma insertOn_perm x l : insertOn x l ≡ₚ x :: l.
Proof.
  induction l as [|y l IH]; simpl; [done|]. case_decide; [done|].
  rewrite IH. apply Permutation_swap.
Qed.

Lemma sortOn_perm l : sortOn l ≡ₚ l.
Proof.
  induction l as [|x l IH]; simpl; [done|]. fold (sortOn l). by rewrite insertOn_perm, IH.
Qed.

Lemma insertOn_ordered x l : ordered l → ordered (insertOn x l).
Proof.
  unfold ordered. induction 1 as [|y l Hs IH Hy]; simpl; [by repeat constructor|].
  case_decide as Hxy.
  - constructor; [by constructor|]. constructor; [done|].
    eapply Forall_impl; [exact Hy|]. simpl. lia.
  - constructor; [done|]. rewrite insertOn_perm. constructor; [lia|done].
Qed.

Lemma sortOn_ordered l : ordered (sortOn l).
Proof. induction l as [|x l IH]; simpl; [constructor|by apply insertOn_ordered]. Qed.

Lemma sortOn_id l : ordered l → sortOn l = l.
Proof.
  unfold ordered. induction 1 as [|x l Hs IH Hx]; simpl; [done|]. fold (sortOn l). rewrite IH.
  destruct l as [|y l]; simpl; [done|]. inversion Hx; subst. by case_decide.
Qed.

Lemma insertOn_stable k x l :
  filter (λ y, key y = k) (insertOn x l) = filter (λ y, key y = k) (x :: l).
Proof.
  induction l as [|y l IH]; simpl; [done|]. case_decide; [done|].
  rewrite (filter_cons _ y (insertOn x l)), IH, !filter_cons.
  repeat case_decide; try done; lia.
Qed.

(** Elements with equal keys keep their relative order. *)
Lemma sortOn_stable k l : filter (λ y, key y = k) (sortOn l) = filter (λ y, key y = k) l.
Proof.
  induction l as [|x l IH]; simpl; [done|]. fold (sortOn l).
  rewrite insertOn_stable, !filter_cons, IH. done.
Qed.

Lemma strictly_ordered_ordered l : strictly_ordered l → ordered l.
Proof.
  induction 1 as [|x l Hs IH Hx]; constructor; [done|].
  eapply Forall_impl; [exact Hx|]. simpl. lia.
Qed.

(** A list with pairwise different keys has one ordered permutation. *)
Lemma ordered_unique l l' : strictly_ordered l → ordered l' → l' ≡ₚ l → l' = l.
Proof.
  intros Hs. revert l'. induction Hs as [|x l Hs IH Hx]; intros l' Ho Hp.
  { by apply Permutation_nil_r in Hp. }
  destruct l' as [|y l']; [by apply Permutation_nil_l in Hp|].
  inversion Ho as [|?? Ho' Hy]; subst.
  assert (y = x) as ->.
  { assert (y ∈ x :: l) as Hin by (rewrite <- Hp; apply elem_of_cons; by left).
    apply elem_of_cons in Hin as [->|Hin]; [done|].
    rewrite Forall_forall in Hx. specialize (Hx _ Hin).
    assert (x ∈ y :: l') as Hin' by (rewrite Hp; apply elem_of_cons; by left).
    apply elem_of_cons in Hin' as [->|Hin']; [done|].
    rewrite Forall_forall in Hy. specialize (Hy _ Hin'). simpl in *. lia. }
  f_equal. apply IH; [done|]. by apply Permutation_cons_inv in Hp.
Qed.
End SortOn.

Lemma sortOn_fmap {A B} (key : B → Z) (f : A → B) (l : list A) :
  sortOn key (f <$> l) = f <$> sortOn (λ x, key (f x)) l.
Proof.
  induction l as [|x l IH]; [done|]. rewrite fmap_cons. cbn [sortOn foldr].
  fold (sortOn key (f <$> l)) (sortOn (λ x, key (f x)) l). rewrite IH.
  generalize (sortOn (λ x, key (f x)) l). intros m.
  induction m as [|y m IHm]; [done|]. rewrite fmap_cons. cbn [insertOn].
  case_decide; rewrite !fmap_cons; [done|]. by rewrite IHm.
Qed.

(** Numbering a list gives strictly increasing keys. *)
Lemma imap_strictly_ordered {A B} (key : B → Z) (f : nat → A → B) (n : nat) (l : list A) :
  (∀ i x, key (f i x) = Z.of_nat (n + i)) → strictly_ordered key (imap f l).
Proof.
  revert n f. induction l as [|x l IH]; intros n f Hf; simpl; [constructor|].
  constructor.
  - apply (IH (S n)). intros i y. unfold compose. rewrite Hf. lia.
  - apply Forall_forall. intros y (i & z & -> & _)%elem_of_lookup_imap.
    unfold compose. rewrite !Hf. lia.
Qed.

(** An optional field of a request: missing, [null] or a value. *)
Inductive nullable (A : Type) := Undefined | Null | Value (a : A).
Arguments Undefined {A}.
Arguments Null {A}.
Arguments Value {A} a.
#[export] Instance nullable_eq_dec {A} `{EqDecision A} : EqDecision (nullable A).
Proof. solve_decision. Defined.

(** ** Small lemmas on lists shared by the components *)
Lemma list_filter_app_none {A} (P : A → Prop) `{!∀ x, Decision (P x)} (l k : list A) :
  Forall (λ x, ¬ P x) l → filter P (l ++ k) = filter P k.
Proof.
  induction 1 as [|x l Hx Hl IH]; simpl; [done|]. rewrite filter_cons_False; done.
Qed.

Lemma list_filter_all {A} (P : A → Prop) `{!∀ x, Decision (P x)} (l : list A) :
  Forall P l → filter P l = l.
Proof.
  induction 1 as [|x l Hx Hl IH]; simpl; [done|]. rewrite filter_cons_True; [by f_equal|done].
Qed.

Lemma list_filter_none {A} (P : A → Prop) `{!∀ x, Decision (P x)} (l : list A) :
  Forall (λ x, ¬ P x) l → filter P l = [].
Proof.
  induction 1 as [|x l Hx Hl IH]; simpl; [done|]. rewrite filter_cons_False; done.
Qed.

#[export] Hint Resolve sortOn_perm sortOn_ordered : fieldnote.
