(* ===== verification/Nest.v ===== *)
(** * Modules and injection

    What Nest documents of modules: a module sees the providers of its own, those that
    the modules it imports export, and those that global modules export; a provider is
    constructed once, after everything it injects.  The packages' own modules are a
    parameter. *)
From S2P Require Import Prelude.

(** ** Declarations *)

(** What something is injected under: a class, a symbol, the n-th application-wide
    guard or filter, or a token that a package provides. *)
Inductive Token :=
  | Class_ (name : jstr)
  | Symbol (description : jstr)
  | Enhancer (kind : jstr) (n : nat)
  | Package (name : jstr).
#[export] Instance Token_eq_dec : EqDecision Token.
Proof. solve_decision. Defined.

(** A provider or controller: its token, and what its constructor or factory injects. *)
Record Provider := mkProvider { provide : Token; inject : list Token }.

Record ModuleDecl := mkModule {
  module_name : jstr;
  is_global : bool;
  imports : list jstr;
  controllers : list Provider;
  providers : list Provider;
  exports : list Token;
  module_inject : list Token;
}.

(** Everything a module constructs; the module class itself is one of its parts. *)
Definition parts (m : ModuleDecl) : list Provider :=
  providers m ++ controllers m ++ [mkProvider (Class_ (module_name m)) (module_inject m)].

(** What packages export, and what the core gives every module. *)
Record Packages := mkPackages { exported : jstr → list jstr; global_packages : list jstr; core : list jstr }.

(** ** Processes *)
Definition Node : Type := jstr * Token.

Section Graph.
Context (modules : list ModuleDecl).

Definition module_named (name : jstr) : option ModuleDecl :=
  List.find (λ m, bool_decide (module_name m = name)) modules.
Definition imports_of (name : jstr) : list jstr := from_option imports [] (module_named name).

(** The modules and packages that a root loads. *)
Definition loaded (root name : jstr) : Prop := rtc (λ a b, b ∈ imports_of a) root name.

Fixpoint reach (fuel : nat) (seen todo : list jstr) : list jstr :=
  match fuel, todo with
  | S fuel, x :: todo =>
      if decide (x ∈ seen) then reach fuel seen todo else reach fuel (x :: seen) (imports_of x ++ todo)
  | _, _ => seen
  end.

Definition closed (root : jstr) (l : list jstr) : bool :=
  bool_decide (root ∈ l) && forallb (λ x, forallb (λ y, bool_decide (y ∈ l)) (imports_of x)) l.

Lemma reach_loaded root fuel seen todo :
  (∀ x, x ∈ seen → loaded root x) → (∀ x, x ∈ todo → loaded root x) → ∀ x, x ∈ reach fuel seen todo → loaded root x.
Proof.
  revert seen todo. induction fuel as [|fuel IH]; intros seen todo Hs Ht x; [apply Hs|].
  destruct todo as [|y todo]; [apply Hs|]. cbn [reach]. case_decide; apply IH; try done.
  - intros z Hz. apply Ht. by right.
  - intros z [->|Hz]%elem_of_cons; [apply Ht; by left|by apply Hs].
  - intros z [Hz|Hz]%elem_of_app; [|apply Ht; by right]. eapply rtc_r; [apply Ht; by left|done].
Qed.

Lemma closed_loaded root l x : closed root l = true → loaded root x → x ∈ l.
Proof.
  unfold closed. rewrite andb_true_iff, bool_decide_eq_true, forallb_forall. intros [Hr Hc] Hx.
  revert x Hx. apply (rtc_ind_r (λ x, x ∈ l)); [done|]. intros y z _ Hz IH.
  specialize (Hc y (proj1 (list_elem_of_In _ _) IH)). rewrite forallb_forall in Hc.
  exact (proj1 (bool_decide_eq_true _) (Hc z (proj1 (list_elem_of_In _ _) Hz))).
Qed.

(** ** Injection *)
Section Injection.
Context (packages : Packages) (root : jstr).

(** The node that an injected token of the repository's own stands for. *)
Inductive binds (m : jstr) (t : Token) : Node → Prop :=
  | binds_own d p :
      module_named m = Some d → p ∈ parts d → provide p = t → binds m t (m, t)
  | binds_import m' d' p :
      m' ∈ imports_of m → module_named m' = Some d' → t ∈ exports d' → p ∈ parts d' → provide p = t →
      binds m t (m', t)
  | binds_global m' d' p :
      loaded root m' → module_named m' = Some d' → is_global d' = true → t ∈ exports d' → p ∈ parts d' →
      provide p = t → binds m t (m', t).

(** A token that the core or a visible package provides. *)
Definition packaged (m : jstr) (t : Token) : Prop :=
  ∃ x, t = Package x ∧ (x ∈ core packages
    ∨ ∃ p, x ∈ exported packages p ∧ (p ∈ imports_of m ∨ p ∈ global_packages packages ∧ loaded root p)).

(** Everything the process constructs. *)
Definition instance (n : Node) : Prop :=
  loaded root n.1 ∧ ∃ d p, module_named n.1 = Some d ∧ p ∈ parts d ∧ provide p = n.2.

Definition injects (n : Node) (t : Token) : Prop :=
  ∃ d p, module_named n.1 = Some d ∧ p ∈ parts d ∧ provide p = n.2 ∧ t ∈ inject p.

(** [n] can be constructed once [built] are. *)
Definition ready (built : list Node) (n : Node) : Prop :=
  ∀ t, injects n t → packaged n.1 t ∨ ∃ n', binds n.1 t n' ∧ n' ∈ built.

(** The orders in which the process may construct its parts: the framework chooses. *)
Inductive construction : list Node → Prop :=
  | construct_nothing : construction []
  | construct_next o n : construction o → instance n → n ∉ o → ready o n → construction (o ++ [n]).

(** A run that has constructed everything. *)
Definition constructed (o : list Node) : Prop := construction o ∧ ∀ n, instance n → n ∈ o.

Lemma construction_instances o : construction o → ∀ n, n ∈ o → instance n.
Proof.
  induction 1 as [|o n Ho IH Hn _ _]; [by intros n ?%not_elem_of_nil|].
  intros n' [Hin| ->%list_elem_of_singleton]%elem_of_app; [by apply IH|done].
Qed.

Lemma construction_NoDup o : construction o → NoDup o.
Proof.
  induction 1 as [|o n Ho IH Hn Hnew _]; [apply NoDup_nil_2|]. apply NoDup_app. split; [done|].
  split; [|apply NoDup_singleton]. by intros x Hx ->%list_elem_of_singleton.
Qed.

(** A part comes after everything of the repository's that it injects. *)
Lemma construction_ready o n :
  construction o → n ∈ o → ∃ before after, o = before ++ n :: after ∧ ready before n.
Proof.
  induction 1 as [|o n' Ho IH Hn' Hnew Hready]; [by intros ?%not_elem_of_nil|].
  intros [Hin| ->%list_elem_of_singleton]%elem_of_app.
  - destruct (IH Hin) as (b & a & -> & Hr). exists b, (a ++ [n']). by rewrite <-app_assoc.
  - by exists o, [].
Qed.

Lemma ready_mono o o' n : o ⊆ o' → ready o n → ready o' n.
Proof. intros Ho Hr t Ht. destruct (Hr t Ht) as [?|(n' & Hb & Hn')]; [by left|right; exists n'; auto]. Qed.

(** If one order constructs everything, no order gets stuck. *)
Lemma never_stuck full o :
  construction full → (∀ n, instance n → n ∈ full) → construction o →
  (∀ n, instance n → n ∈ o) ∨ ∃ n, construction (o ++ [n]).
Proof.
  intros Hfull Hall Ho. destruct (decide (Forall (λ n, n ∈ o) full)) as [Hdone|Hmore].
  { left. intros n Hn. rewrite Forall_forall in Hdone. by apply Hdone, Hall. }
  right. clear Hall. induction Hfull as [|full n Hfull IH Hn _ Hr]; [by destruct Hmore; constructor|].
  destruct (decide (Forall (λ n, n ∈ o) full)) as [Hd|Hm]; [|by apply IH].
  assert (n ∉ o) as Hno.
  { intros Hin. apply Hmore, Forall_app. split; [done|]. by repeat constructor. }
  exists n. constructor; [done..|]. eapply ready_mono; [|exact Hr]. rewrite Forall_forall in Hd. exact Hd.
Qed.
End Injection.

(** ** Checking a process *)
Section Checker.
Context (packages : Packages) (root : jstr) (names : list jstr).

(** The nodes a token may stand for in a module, of the modules [names]. *)
Definition sources (m : jstr) (t : Token) : list Node :=
  let provided (d : ModuleDecl) := bool_decide (t ∈ provide <$> parts d) in
  let exporting (d : ModuleDecl) := bool_decide (t ∈ exports d) && provided d in
  (if from_option provided false (module_named m) then [(m, t)] else [])
  ++ ((λ m', (m', t)) <$> List.filter (λ m', from_option exporting false (module_named m')) (imports_of m))
  ++ ((λ m', (m', t)) <$> List.filter (λ m', from_option (λ d, is_global d && exporting d) false (module_named m')) names).

Definition packagedb (m : jstr) (t : Token) : bool :=
  match t with
  | Package x =>
      bool_decide (x ∈ core packages)
      || existsb (λ p, bool_decide (x ∈ exported packages p)) (imports_of m)
      || existsb (λ p, bool_decide (x ∈ exported packages p) && bool_decide (p ∈ global_packages packages)) names
  | _ => false
  end.

Definition nodes : list Node :=
  names ≫= λ m, from_option (λ d, (λ p, (m, provide p)) <$> parts d) [] (module_named m).

Definition injected (n : Node) : list Token :=
  from_option (λ d, List.filter (λ p, bool_decide (provide p = n.2)) (parts d) ≫= inject) [] (module_named n.1).

Definition readyb (built : list Node) (n : Node) : bool :=
  forallb (λ t, packagedb n.1 t || existsb (λ n', bool_decide (n' ∈ built)) (sources n.1 t)) (injected n).

(** The first part that is ready, again and again. *)
Fixpoint build (fuel : nat) (built : list Node) : list Node :=
  match fuel with
  | 0 => built
  | S fuel =>
      match List.find (λ n, negb (bool_decide (n ∈ built)) && readyb built n) nodes with
      | Some n => build fuel (built ++ [n])
      | None => built
      end
  end.

Hypothesis names_loaded : ∀ x, x ∈ names ↔ loaded root x.

Lemma provided_part t d : bool_decide (t ∈ provide <$> parts d) = true ↔ ∃ p, p ∈ parts d ∧ provide p = t.
Proof. rewrite bool_decide_eq_true, list_elem_of_fmap. naive_solver. Qed.

Lemma sources_binds m t n : n ∈ sources m t ↔ binds root m t n.
Proof.
  assert (∀ (b : ModuleDecl → bool) l x, x ∈ (λ m', (m', t)) <$> List.filter (λ m', from_option b false (module_named m')) l ↔
    ∃ m' d, x = (m', t) ∧ m' ∈ l ∧ module_named m' = Some d ∧ b d = true) as Hf.
  { intros b l x. rewrite list_elem_of_fmap. setoid_rewrite list_elem_of_In. setoid_rewrite filter_In. split.
    - intros (m' & -> & Hin & Hb). destruct (module_named m') as [d|] eqn:Hd; [|done]. by exists m', d.
    - intros (m' & d & -> & Hin & Hd & Hb). exists m'. by rewrite Hd. }
  unfold sources. rewrite !elem_of_app, !Hf. split.
  - intros [Hown|[(m' & d & -> & Hin & Hd & Hb)|(m' & d & -> & Hin & Hd & Hb)]].
    + destruct (module_named m) as [d|] eqn:Hd; cbn [from_option] in Hown; [|by apply not_elem_of_nil in Hown].
      destruct (bool_decide _) eqn:Hp; [|by apply not_elem_of_nil in Hown].
      apply list_elem_of_singleton in Hown as ->. apply provided_part in Hp as (p & Hp & Ht). by eapply binds_own.
    + apply andb_true_iff in Hb as [He%bool_decide_eq_true (p & Hp & Ht)%provided_part]. by eapply binds_import.
    + apply andb_true_iff in Hb as [Hg Hb]. apply andb_true_iff in Hb as [He%bool_decide_eq_true (p & Hp & Ht)%provided_part].
      apply binds_global with d p; [by apply names_loaded|done..].
  - intros [d p Hd Hp Ht|m' d' p Hi Hd He Hp Ht|m' d' p Hl Hd Hg He Hp Ht].
    + left. rewrite Hd. cbn [from_option]. rewrite (proj2 (provided_part t d)) by eauto. by left.
    + right; left. exists m', d'. split_and!; [done..|]. rewrite bool_decide_true by done. apply provided_part. eauto.
    + right; right. exists m', d'. split_and!; [done|by apply names_loaded|done|].
      rewrite Hg, bool_decide_true by done. apply provided_part. eauto.
Qed.

Lemma injected_injects n t : t ∈ injected n ↔ injects n t.
Proof.
  unfold injected, injects. destruct (module_named n.1) as [d|]; cbn [from_option].
  - rewrite list_elem_of_bind. setoid_rewrite list_elem_of_In. setoid_rewrite filter_In.
    setoid_rewrite bool_decide_eq_true. split.
    + intros (p & Ht & Hp & Hn). by exists d, p.
    + intros (d' & p & [= <-] & Hp & Hn & Ht). by exists p.
  - split; [by intros ?%not_elem_of_nil|by intros (? & ? & ? & _)].
Qed.

Lemma nodes_instance n : n ∈ nodes ↔ instance root n.
Proof.
  unfold nodes, instance. rewrite list_elem_of_bind. split.
  - intros (m & Hn & Hm). destruct (module_named m) as [d|] eqn:Hd; cbn [from_option] in Hn; [|by apply not_elem_of_nil in Hn].
    apply list_elem_of_fmap in Hn as (p & -> & Hp). split; [by apply names_loaded|]. by exists d, p.
  - intros [Hl (d & p & Hd & Hp & Ht)]. exists n.1. split; [|by apply names_loaded]. rewrite Hd. cbn [from_option].
    apply list_elem_of_fmap. exists p. split; [|done]. rewrite Ht. by destruct n.
Qed.

Lemma packagedb_packaged m t : packagedb m t = true → packaged packages root m t.
Proof.
  destruct t as [| | |x]; try done. cbn [packagedb]. rewrite !orb_true_iff, !existsb_exists. intros H. exists x. split; [done|].
  destruct H as [[Hc|(p & Hp & He)]|(p & Hp & He)].
  - left. by apply bool_decide_eq_true in Hc.
  - right. exists p. apply bool_decide_eq_true in He. split; [done|]. left. by apply list_elem_of_In.
  - right. exists p. rewrite andb_true_iff, !bool_decide_eq_true in He. destruct He as [He Hg]. split; [done|].
    right. split; [done|]. by apply names_loaded, list_elem_of_In.
Qed.

Lemma readyb_ready built n : readyb built n = true → ready packages root built n.
Proof.
  unfold readyb. rewrite forallb_forall. intros H t Ht%injected_injects%list_elem_of_In.
  apply H, orb_true_iff in Ht as [Hp|Hs]; [left; by apply packagedb_packaged|right].
  apply existsb_exists in Hs as (n' & Hn' & Hb%bool_decide_eq_true). exists n'.
  split; [|done]. by apply sources_binds, list_elem_of_In.
Qed.

Lemma build_construction fuel built :
  construction packages root built → construction packages root (build fuel built).
Proof.
  revert built. induction fuel as [|fuel IH]; intros built Hb; [done|]. cbn [build].
  destruct (List.find _ nodes) as [n|] eqn:Hf; [|done]. apply List.find_some in Hf as [Hin Hn].
  apply andb_true_iff in Hn as [Hnew Hr]. apply negb_true_iff, bool_decide_eq_false in Hnew.
  apply IH. constructor; [done| |done|by apply readyb_ready]. by apply nodes_instance, list_elem_of_In.
Qed.
End Checker.

(** More packages take nothing away. *)
Definition at_least (p q : Packages) : Prop :=
  core p ⊆ core q ∧ global_packages p ⊆ global_packages q ∧ ∀ x, exported p x ⊆ exported q x.

Lemma construction_mono p q root o : at_least p q → construction p root o → construction q root o.
Proof.
  intros (Hc & Hg & He). induction 1 as [|o n Ho IH Hn Hnew Hr]; [constructor|]. constructor; [done..|].
  intros t Ht. destruct (Hr t Ht) as [(x & -> & Hx)|Hb]; [left|by right]. exists x. split; [done|].
  destruct Hx as [Hx|(y & Hy & Hv)]; [left; by apply Hc|right]. exists y. split; [by apply He|].
  destruct Hv as [?|[Hv ?]]; [by left|right]. split; [by apply Hg|done].
Qed.
End Graph.
