(* ===== verification/Modules.v ===== *)
(** * The modules of the two processes

    The [@Module] declarations under [server/src/], with what each constructor and
    factory injects: the API starts from [AppModule], the worker from [WorkerModule]. *)
From S2P Require Import Prelude Nest.

(** ** Tokens *)
Abbreviation service name := (Class_ (js name)).
Definition appConfig_KEY : Token := Package (js "CONFIGURATION(app)").
Definition PROCESSING_QUEUE_TOKEN : Token := Symbol (js "PROCESSING_QUEUE_TOKEN").
Definition APPLE_TOKEN_VERIFIER : Token := Symbol (js "APPLE_TOKEN_VERIFIER").
Definition TRANSCRIPTION_PROVIDER : Token := Symbol (js "TRANSCRIPTION_PROVIDER").
Definition REPORT_COMPILER_PROVIDER : Token := Symbol (js "REPORT_COMPILER_PROVIDER").

(** ** [config/config.module.ts] *)
Record ConfigModuleOptions := mkConfigModule {
  isGlobal : bool; config_cache : bool; ignoreEnvFile : bool; envFilePath : list jstr; expandVariables : bool }.

Definition forRoot (nodeEnv : option jstr) : ConfigModuleOptions := {|
  isGlobal := true;
  config_cache := true;
  ignoreEnvFile := bool_decide (nodeEnv = Some (js "production"));
  envFilePath := [js ".env"];
  expandVariables := true;
|}.

(** ** What the constructors inject *)
Module Constructors.
Definition PrismaService : Provider := mkProvider (service "PrismaService") [appConfig_KEY].
Definition MediaService : Provider := mkProvider (service "MediaService") [appConfig_KEY].
Definition ProcessingQueueService : Provider :=
  mkProvider (service "ProcessingQueueService") [PROCESSING_QUEUE_TOKEN; appConfig_KEY].
Definition UsersService : Provider := mkProvider (service "UsersService") [service "PrismaService"].
Definition HealthController : Provider :=
  mkProvider (service "HealthController")
    [Package (js "HealthCheckService"); service "PrismaHealthIndicator"; service "RedisHealthIndicator"].
Definition PrismaHealthIndicator : Provider :=
  mkProvider (service "PrismaHealthIndicator") [Package (js "HealthIndicatorService"); service "PrismaService"].
Definition RedisHealthIndicator : Provider :=
  mkProvider (service "RedisHealthIndicator") [Package (js "HealthIndicatorService"); appConfig_KEY].
Definition AuthController : Provider := mkProvider (service "AuthController") [service "AuthService"].
Definition AuthService : Provider :=
  mkProvider (service "AuthService")
    [service "PrismaService"; service "UsersService"; service "TokenService"; APPLE_TOKEN_VERIFIER].
Definition TokenService : Provider := mkProvider (service "TokenService") [appConfig_KEY].
Definition JobsController : Provider := mkProvider (service "JobsController") [service "JobsService"].
Definition JobsService : Provider :=
  mkProvider (service "JobsService") [service "JobsRepository"; service "MediaService"; service "ProcessingQueueService"].
Definition JobsRepository : Provider := mkProvider (service "JobsRepository") [service "PrismaService"].
Definition TranscriptionService : Provider := mkProvider (service "TranscriptionService") [TRANSCRIPTION_PROVIDER].
Definition ReportCompilerService : Provider := mkProvider (service "ReportCompilerService") [REPORT_COMPILER_PROVIDER].
Definition PdfRendererService : Provider := mkProvider (service "PdfRendererService") [].
Definition PipelineService : Provider :=
  mkProvider (service "PipelineService")
    [service "JobsRepository"; service "MediaService"; service "TranscriptionService";
     service "ReportCompilerService"; service "PdfRendererService"; appConfig_KEY].
Definition ProcessingProcessor : Provider :=
  mkProvider (service "ProcessingProcessor") [service "PipelineService"; appConfig_KEY].
Definition QueueModule : list Token := [PROCESSING_QUEUE_TOKEN].
Definition JwtAuthGuard : list Token := [Package (js "Reflector"); appConfig_KEY].
End Constructors.

(** ** [config/config.module.ts], [common/] *)
Definition ConfigModule : ModuleDecl := mkModule (js "ConfigModule") true [js "NestConfigModule"] [] [] [] [].

(** [forRootAsync] gives the package's module an import and a factory. *)
Definition LoggerModule : ModuleDecl := mkModule (js "LoggerModule") false [js "PinoLoggerModule"] [] [] [] [].
Definition PinoLoggerModule : ModuleDecl :=
  mkModule (js "PinoLoggerModule") false [js "ConfigModule"] []
    [mkProvider (Symbol (js "pino-params")) [appConfig_KEY]] [] [].

Definition PrismaModule : ModuleDecl :=
  mkModule (js "PrismaModule") true [] [] [Constructors.PrismaService] [service "PrismaService"] [].

(** ** [media/], [queue/], [users/] *)
Definition MediaModule : ModuleDecl :=
  mkModule (js "MediaModule") true [] [] [Constructors.MediaService] [service "MediaService"] [].

Definition QueueModule : ModuleDecl :=
  mkModule (js "QueueModule") true [] []
    [mkProvider PROCESSING_QUEUE_TOKEN [appConfig_KEY]; Constructors.ProcessingQueueService]
    [service "ProcessingQueueService"; PROCESSING_QUEUE_TOKEN] Constructors.QueueModule.

Definition UsersModule : ModuleDecl :=
  mkModule (js "UsersModule") false [] [] [Constructors.UsersService] [service "UsersService"] [].

(** ** [health/], [auth/], [jobs/] *)
Definition HealthModule : ModuleDecl :=
  mkModule (js "HealthModule") false [js "TerminusModule"] [Constructors.HealthController]
    [Constructors.PrismaHealthIndicator; Constructors.RedisHealthIndicator] [] [].

Definition AuthModule : ModuleDecl :=
  mkModule (js "AuthModule") false [js "UsersModule"] [Constructors.AuthController]
    [Constructors.AuthService; Constructors.TokenService; mkProvider APPLE_TOKEN_VERIFIER [appConfig_KEY]]
    [service "TokenService"] [].

Definition JobsModule : ModuleDecl :=
  mkModule (js "JobsModule") false [] [Constructors.JobsController]
    [Constructors.JobsService; Constructors.JobsRepository] [service "JobsRepository"] [].

(** ** [processing/] *)
Definition TranscriptionModule : ModuleDecl :=
  mkModule (js "TranscriptionModule") false [] []
    [mkProvider TRANSCRIPTION_PROVIDER [appConfig_KEY]; Constructors.TranscriptionService]
    [service "TranscriptionService"] [].

Definition CompilerModule : ModuleDecl :=
  mkModule (js "CompilerModule") false [] []
    [mkProvider REPORT_COMPILER_PROVIDER [appConfig_KEY]; Constructors.ReportCompilerService]
    [service "ReportCompilerService"] [].

Definition PdfModule : ModuleDecl :=
  mkModule (js "PdfModule") false [] [] [Constructors.PdfRendererService] [service "PdfRendererService"] [].

Definition PipelineModule : ModuleDecl :=
  mkModule (js "PipelineModule") false [js "TranscriptionModule"; js "CompilerModule"; js "PdfModule"] []
    [Constructors.PipelineService; Constructors.JobsRepository] [service "PipelineService"] [].

(** ** The roots *)
Module AppModule.
Inductive Guard := ThrottlerGuard | JwtAuthGuard.

(** Per address: milliseconds and requests. *)
Definition throttlers : list (Z * Z) := [(60000, 100)%Z].
(** In the order they are asked. *)
Definition guards : list Guard := [ThrottlerGuard; JwtAuthGuard].

Definition guard_injects (g : Guard) : list Token :=
  match g with
  | ThrottlerGuard => Package <$> [js "THROTTLER:MODULE_OPTIONS"; js "ThrottlerStorage"; js "Reflector"]
  | JwtAuthGuard => Constructors.JwtAuthGuard
  end.

Definition decl : ModuleDecl :=
  mkModule (js "AppModule") false
    (js <$> ["ConfigModule"; "LoggerModule"; "PrismaModule"; "MediaModule"; "QueueModule"; "ThrottlerModule";
             "HealthModule"; "UsersModule"; "AuthModule"; "JobsModule"]) []
    (imap (λ n g, mkProvider (Enhancer (js "APP_GUARD") n) (guard_injects g)) guards
     ++ [mkProvider (Enhancer (js "APP_FILTER") 0) []]) [] [].
End AppModule.

Definition WorkerModule : ModuleDecl :=
  mkModule (js "WorkerModule") false
    (js <$> ["ConfigModule"; "LoggerModule"; "PrismaModule"; "MediaModule"; "PipelineModule"]) []
    [Constructors.ProcessingProcessor] [] [].

Definition modules : list ModuleDecl :=
  [AppModule.decl; WorkerModule; ConfigModule; LoggerModule; PinoLoggerModule; PrismaModule; MediaModule; QueueModule;
   HealthModule; UsersModule; AuthModule; JobsModule; TranscriptionModule; CompilerModule; PdfModule; PipelineModule].

(** What the code relies on of the packages' modules: the configuration under its key,
    in every module when it is global, the health services, the throttler's settings
    and storage, and the core's reflector. *)
Definition promised (o : ConfigModuleOptions) : Packages := {|
  exported := λ p,
    if decide (p = js "NestConfigModule") then [js "CONFIGURATION(app)"]
    else if decide (p = js "TerminusModule") then [js "HealthCheckService"; js "HealthIndicatorService"]
    else if decide (p = js "ThrottlerModule") then [js "THROTTLER:MODULE_OPTIONS"; js "ThrottlerStorage"]
    else [];
  global_packages := if isGlobal o then [js "NestConfigModule"] else [];
  core := [js "Reflector"];
|}.

(** ** The processes *)
Definition process (root : jstr) : list jstr := reach modules 100 [] [root].
Definition roots : list jstr := [js "AppModule"; js "WorkerModule"].

Lemma check_roots (b : jstr → bool) : forallb b roots = true → ∀ root, root ∈ roots → b root = true.
Proof. intros Hb root Hr. rewrite forallb_forall in Hb. by apply Hb, list_elem_of_In. Qed.

Lemma process_loaded root : root ∈ roots → ∀ x, x ∈ process root ↔ loaded modules root x.
Proof.
  intros Hr x. split.
  - apply reach_loaded; [by intros y ?%not_elem_of_nil|]. intros y ->%list_elem_of_singleton. apply rtc_refl.
  - apply closed_loaded. revert root Hr. apply Forall_forall. repeat constructor; by vm_compute.
Qed.

(** The parts of a process, in one order that constructs them. *)
Definition parts_of (root : jstr) : list Node := nodes modules (process root).
Definition build_order (root : jstr) : list Node :=
  build modules (promised (forRoot None)) (process root) 50 [].

Lemma parts_instances root n : root ∈ roots → n ∈ parts_of root ↔ instance modules root n.
Proof. intros Hr. apply nodes_instance. by apply process_loaded. Qed.

(** A property of every part is checked part by part. *)
Lemma check_parts root (b : Node → bool) n :
  root ∈ roots → forallb b (parts_of root) = true → instance modules root n → b n = true.
Proof.
  intros Hr Hb Hn. rewrite forallb_forall in Hb. apply Hb, list_elem_of_In. by apply parts_instances.
Qed.

Lemma build_order_constructs root nodeEnv packages :
  root ∈ roots → at_least (promised (forRoot nodeEnv)) packages →
  construction modules packages root (build_order root).
Proof.
  intros Hr Hp. eapply construction_mono; [exact Hp|]. apply build_construction; [by apply process_loaded|constructor].
Qed.

Definition covers (o : list Node) : list Node → bool := forallb (λ n, bool_decide (n ∈ o)).

Lemma covers_spec o l n : covers o l = true → n ∈ l → n ∈ o.
Proof.
  unfold covers. rewrite forallb_forall. intros H Hn.
  exact (proj1 (bool_decide_eq_true _) (H n (proj1 (list_elem_of_In _ _) Hn))).
Qed.

Lemma build_order_covers : forallb (λ root, covers (build_order root) (parts_of root)) roots = true.
Proof. by vm_compute. Qed.

Lemma build_order_complete root n : root ∈ roots → instance modules root n → n ∈ build_order root.
Proof.
  intros Hr Hn. apply (covers_spec (build_order root) (parts_of root)); [|by apply parts_instances].
  exact (check_roots (λ root, covers (build_order root) (parts_of root)) build_order_covers root Hr).
Qed.

Lemma build_order_constructed root nodeEnv packages :
  root ∈ roots → at_least (promised (forRoot nodeEnv)) packages → constructed modules packages root (build_order root).
Proof.
  intros Hr Hp. split; [by eapply build_order_constructs|]. intros n Hn. by apply build_order_complete.
Qed.

Definition from_package (t : Token) : bool := match t with Package _ => true | _ => false end.

(** Every token a part injects stands for one part, or is a package's. *)
Definition one_source (root : jstr) (n : Node) : bool :=
  forallb (λ t, if from_package t then packagedb modules (promised (forRoot None)) (process root) n.1 t
                else match sources modules (process root) n.1 t with
                     | n' :: l => forallb (λ n'', bool_decide (n'' = n')) l
                     | [] => false
                     end) (injected modules n).
(** No other module constructs the same class. *)
Definition alone (l : list Node) (n : Node) : bool :=
  forallb (λ n', negb (bool_decide (n'.2 = n.2)) || bool_decide (n' = n)) l.

Lemma alone_spec l n n' : alone l n = true → n' ∈ l → n'.2 = n.2 → n' = n.
Proof.
  unfold alone. rewrite forallb_forall. intros Ha Hn' He. specialize (Ha n' (proj1 (list_elem_of_In _ _) Hn')).
  cbn beta in Ha. rewrite bool_decide_true in Ha by done. exact (proj1 (bool_decide_eq_true _) Ha).
Qed.

Lemma parts_checked root n : root ∈ roots → instance modules root n → one_source root n = true ∧ alone (parts_of root) n = true.
Proof.
  intros Hr Hn. apply andb_true_iff. revert Hn. apply (check_parts root (λ n, one_source root n && alone (parts_of root) n)); [done|].
  revert root Hr.
  apply (check_roots (λ root, forallb (λ n, one_source root n && alone (parts_of root) n) (parts_of root))). by vm_compute.
Qed.

Lemma injected_once root n t :
  root ∈ roots → instance modules root n → injects modules n t → from_package t = false →
  ∃ n', binds modules root n.1 t n' ∧ ∀ n'', binds modules root n.1 t n'' → n'' = n'.
Proof.
  intros Hr Hn Ht Hp. destruct (parts_checked root n Hr Hn) as [Hone _]. unfold one_source in Hone.
  rewrite forallb_forall in Hone. apply injected_injects in Ht. specialize (Hone t (proj1 (list_elem_of_In _ _) Ht)). cbn beta in Hone.
  pose proof (sources_binds modules root (process root) (process_loaded root Hr) n.1 t) as Hs. setoid_rewrite <-Hs. clear Hs.
  rewrite Hp in Hone. revert Hone. destruct (sources modules (process root) n.1 t) as [|n' l]; intros Hl; [done|].
  exists n'. split; [by left|]. intros n'' [->|Hin]%elem_of_cons; [done|]. rewrite forallb_forall in Hl.
  exact (proj1 (bool_decide_eq_true _) (Hl _ (proj1 (list_elem_of_In _ _) Hin))).
Qed.

Lemma constructed_once root n n' :
  root ∈ roots → instance modules root n → instance modules root n' → n'.2 = n.2 → n' = n.
Proof.
  intros Hr Hn Hn'. apply (alone_spec (parts_of root)); [by apply parts_checked|by apply parts_instances].
Qed.

(** Only the API serves requests and fills the queue; only the worker processes. *)
Definition api_only : list Token :=
  (provide <$> (modules ≫= controllers)) ++ (provide <$> providers AppModule.decl)
  ++ [service "JobsService"; service "AuthService"; service "TokenService"; service "UsersService"; APPLE_TOKEN_VERIFIER;
      service "ProcessingQueueService"; PROCESSING_QUEUE_TOKEN].
Definition worker_only : list Token :=
  [service "ProcessingProcessor"; service "PipelineService"; service "TranscriptionService"; TRANSCRIPTION_PROVIDER;
   service "ReportCompilerService"; REPORT_COMPILER_PROVIDER; service "PdfRendererService"].

Lemma apart root n :
  root ∈ roots → instance modules root n →
  (root = js "WorkerModule" → n.2 ∉ api_only) ∧ (root = js "AppModule" → n.2 ∉ worker_only).
Proof.
  intros Hr Hn. split; intros ->; refine (proj1 (bool_decide_eq_true _) _).
  - apply (check_parts (js "WorkerModule") (λ n, bool_decide (n.2 ∉ api_only)) n Hr); [by vm_compute|done].
  - apply (check_parts (js "AppModule") (λ n, bool_decide (n.2 ∉ worker_only)) n Hr); [by vm_compute|done].
Qed.

(** C36: Both processes can always be constructed.  Whatever the packages export besides
    what the code relies on, and in whatever order the framework constructs the
    parts, it never gets stuck: a part is constructed once and after everything of
    the repository's that it injects, and until all are constructed there is a next
    one - no injection is unresolved, and none is circular. *)
Theorem processes_construct root nodeEnv packages o :
  root ∈ roots → at_least (promised (forRoot nodeEnv)) packages → construction modules packages root o →
  NoDup o ∧ (∀ n, n ∈ o → instance modules root n)
  ∧ (∀ n, n ∈ o → ∃ before after, o = before ++ n :: after ∧ ready modules packages root before n)
  ∧ ((∀ n, instance modules root n → n ∈ o) ∨ ∃ n, construction modules packages root (o ++ [n])).
Proof.
  intros Hr Hp Ho. split; [by eapply construction_NoDup|]. split; [by apply (construction_instances _ _ _ _ Ho)|].
  split; [intros n Hn; by eapply construction_ready|].
  destruct (build_order_constructed root nodeEnv packages Hr Hp) as [Hc Ha]. by apply (never_stuck _ _ _ (build_order root)).
Qed.

(** C35: One of each, and each where it belongs.  In either process a class is
    constructed by one module only - so there is one database client and one object
    store client - and every part gets the one instance its token stands for.  The
    worker has no controller, no guard, and nothing of the producer's queue; the API
    has nothing that transcribes, compiles, renders or consumes. *)
Theorem processes_apart root n :
  root ∈ roots → instance modules root n →
  (∀ n', instance modules root n' → n'.2 = n.2 → n' = n)
  ∧ (∀ t, injects modules n t → from_package t = false →
       ∃ n', binds modules root n.1 t n' ∧ ∀ n'', binds modules root n.1 t n'' → n'' = n')
  ∧ (root = js "WorkerModule" → n.2 ∉ api_only)
  ∧ (root = js "AppModule" → n.2 ∉ worker_only).
Proof.
  intros Hr Hn. split; [intros n' Hn' He; by eapply constructed_once|].
  split; [intros t; by apply injected_once|by apply apart].
Qed.

Lemma processes_construct_witness :
  ∃ n, construction modules (promised (forRoot None)) (js "AppModule") ([] ++ [n]).
Proof.
  destruct (processes_construct (js "AppModule") None (promised (forRoot None)) []) as (_ & _ & _ & [H|H]).
  - unfold roots. set_solver.
  - split; [|split]; set_solver.
  - constructor.
  - exfalso. apply (not_elem_of_nil (js "PrismaModule", service "PrismaService")), H.
    apply parts_instances; [unfold roots; set_solver|]. apply (bool_decide_unpack _). vm_compute. exact I.
  - exact H.
Defined.

Lemma processes_apart_witness :
  instance modules (js "WorkerModule") (js "PipelineModule", service "JobsRepository")
  ∧ service "JobsRepository" ∉ api_only.
Proof.
  assert (instance modules (js "WorkerModule") (js "PipelineModule", service "JobsRepository")) as Hn.
  { apply parts_instances; [unfold roots; set_solver|]. apply (bool_decide_unpack _). vm_compute. exact I. }
  split; [exact Hn|].
  assert (js "WorkerModule" ∈ roots) as Hr by (unfold roots; set_solver).
  destruct (processes_apart (js "WorkerModule") (js "PipelineModule", service "JobsRepository") Hr Hn) as (_ & _ & Hw & _).
  apply Hw. reflexivity.
Defined.
