(* ===== verification/Json.v ===== *)
(** * JSON values

    Request bodies, claims of tokens, model output and response documents.  Objects
    keep their keys in order; numbers are integers, the only ones the server reads. *)
From S2P Require Import Prelude.

#[warnings="-register-all"]
Inductive json :=
  | JNull
  | JBool (b : bool)
  | JNum (n : Z)
  | JStr (s : jstr)
  | JArr (items : list json)
  | JObj (fields : list (jstr * json)).

Definition claims : Type := list (jstr * json).

Fixpoint jget (k : jstr) (c : claims) : option json :=
  match c with
  | [] => None
  | (k', v) :: c => if decide (k' = k) then Some v else jget k c
  end.

Fixpoint json_to_tree (j : json) : gen_tree (bool + Z + jstr) :=
  match j with
  | JNull => GenNode 0 []
  | JBool b => GenLeaf (inl (inl b))
  | JNum n => GenLeaf (inl (inr n))
  | JStr s => GenLeaf (inr s)
  | JArr l => GenNode 1 (json_to_tree <$> l)
  | JObj l => GenNode 2 ((λ p, GenNode 3 [GenLeaf (inr p.1); json_to_tree p.2]) <$> l)
  end.

Fixpoint tree_to_json (t : gen_tree (bool + Z + jstr)) : json :=
  match t with
  | GenLeaf (inl (inl b)) => JBool b
  | GenLeaf (inl (inr n)) => JNum n
  | GenLeaf (inr s) => JStr s
  | GenNode 1 l => JArr (tree_to_json <$> l)
  | GenNode 2 l =>
      JObj ((λ t, match t with
                  | GenNode 3 [GenLeaf (inr k); v] => (k, tree_to_json v)
                  | _ => ([], JNull)
                  end) <$> l)
  | _ => JNull
  end.

Fixpoint json_tree_inv (j : json) : tree_to_json (json_to_tree j) = j.
Proof.
  destruct j as [|b|n|s|l|l]; simpl; try done.
  - f_equal. induction l as [|x l IH]; simpl; [done|]. by f_equal.
  - f_equal. induction l as [|[k x] l IH]; simpl; [done|]. f_equal; [by f_equal|exact IH].
Qed.

#[export] Instance json_eq_dec : EqDecision json.
Proof.
  intros x y. destruct (decide (json_to_tree x = json_to_tree y)) as [H|H].
  - left. rewrite <- (json_tree_inv x), <- (json_tree_inv y). by rewrite H.
  - right. by intros ->.
Defined.
#[export] Instance json_countable : Countable json.
Proof. exact (inj_countable' json_to_tree tree_to_json json_tree_inv). Defined.

(** ** Lookup *)
Lemma jget_here k v c : jget k ((k, v) :: c) = Some v.
Proof. simpl. by rewrite decide_True by done. Qed.
Lemma jget_there k k' v c : k' ≠ k → jget k ((k', v) :: c) = jget k c.
Proof. intros H. simpl. by rewrite decide_False by done. Qed.
Lemma jget_app k a b : jget k (a ++ b) = match jget k a with Some v => Some v | None => jget k b end.
Proof. induction a as [|[k' v] a IH]; simpl; [done|]. by case_decide. Qed.
Lemma jget_not_in k c : k ∉ c.*1 → jget k c = None.
Proof. induction c as [|[k' v] c IH]; simpl; [done|]. intros [Hk Hc]%not_elem_of_cons. rewrite decide_False by done. auto. Qed.
Lemma jget_Some_in k c v : jget k c = Some v → k ∈ c.*1.
Proof. intros H. destruct (decide (k ∈ c.*1)) as [|Hn]; [done|]. apply jget_not_in in Hn. congruence. Qed.

(** Look a literal key up in a literal object. *)
Ltac jget_fields :=
  repeat first [rewrite jget_here | rewrite jget_there by (by vm_compute) | rewrite jget_app].
