(* ===== verification/Program.v ===== *)
(** * Asynchronous code as programs of external calls

    The server's methods are [async] functions that await calls to code outside
    the repository (Prisma, S3, BullMQ, the clock, the AI providers).  A method
    is modelled as a [prog]: the finite tree of the calls it awaits, whose
    branches are the answers (a value, or the exception the await throws).
    The same tree is executed by a handler ([exec]) and reasoned about against
    a contract of the external code ([wp]). *)
From S2P Require Import Prelude Json.

(** ** Exceptions *)

(** An exception thrown by code outside the repository.  [f_text] is its
    [message] (or its [String(err)] when it is not an [Error]); [f_permanent]
    and [f_status] are the fields the code probes on unknown errors. *)
Record foreign := Foreign {
  f_name : jstr;
  f_text : jstr;
  f_permanent : bool;
  f_status : option Z;
}.

(** Nest's HTTP exceptions the code throws by name, any other [HttpException] (its
    status, [name], [message] and [getResponse()]), and the rest. *)
Inductive exn :=
  | UnauthorizedException (message : jstr)
  | NotFoundException (message : jstr)
  | BadRequestException (message : jstr)
  | ConflictException (message : jstr)
  | PrismaClientKnownRequestError (message code : jstr)
  | UnrecoverableError (message : jstr)
  | EmptyTranscriptError
  | MalformedReportError (issues : jstr)
  | StageTimeoutError (stage : jstr) (ms : Z)
  | JsError (message : jstr)
  | HttpException (status : Z) (name message : jstr) (response : jstr + list (jstr * json))
  | External (e : foreign).

#[export] Instance foreign_eq_dec : EqDecision foreign.
Proof. solve_decision. Defined.
#[export] Instance exn_eq_dec : EqDecision exn.
Proof. solve_decision. Defined.

(** [err.message] (or [String(err)] for a thrown value that is no [Error]) and
    [err.name]. *)
Definition exn_message (e : exn) : jstr :=
  match e with
  | UnauthorizedException m | NotFoundException m | BadRequestException m | ConflictException m
  | UnrecoverableError m | JsError m | PrismaClientKnownRequestError m _ | HttpException _ _ m _ => m
  | EmptyTranscriptError =>
      js "Transcription produced no text " ++ [8212%N] ++ js " the recording appears to be silent or empty."
  | MalformedReportError issues =>
      js "Report compiler returned malformed output after one retry:" ++ [10%N] ++ issues
  | StageTimeoutError stage ms =>
      jsq "Stage `" ++ stage ++ jsq "` exceeded " ++ js_of_Z ms ++ js "ms timeout"
  | External f => f_text f
  end.

Definition exn_name (e : exn) : jstr :=
  match e with
  | UnauthorizedException _ => js "UnauthorizedException"
  | NotFoundException _ => js "NotFoundException"
  | BadRequestException _ => js "BadRequestException"
  | ConflictException _ => js "ConflictException"
  | PrismaClientKnownRequestError _ _ => js "PrismaClientKnownRequestError"
  | UnrecoverableError _ => js "UnrecoverableError"
  | EmptyTranscriptError => js "EmptyTranscriptError"
  | MalformedReportError _ => js "MalformedReportError"
  | StageTimeoutError _ _ => js "StageTimeoutError"
  | JsError _ => js "Error"
  | HttpException _ n _ _ => n
  | External f => f_name f
  end.

(** ** Programs *)

Inductive prog (E : Type → Type) (A : Type) : Type :=
  | Ret (a : A)
  | Throw (e : exn)
  | Vis {X : Type} (call : E X) (k : exn + X → prog E A).
Arguments Ret {E A} a.
Arguments Throw {E A} e.
Arguments Vis {E A X} call k.

Section Combinators.
Context {E : Type → Type}.

(** [await call] *)
Definition perform {X} (call : E X) : prog E X :=
  Vis call (λ r, match r with inl e => Throw e | inr x => Ret x end).

(** [const x = await p; q(x)] *)
Fixpoint bind {A B} (p : prog E A) (q : A → prog E B) : prog E B :=
  match p with
  | Ret a => q a
  | Throw e => Throw e
  | Vis c k => Vis c (λ r, bind (k r) q)
  end.

(** [try { p } catch (e) { h(e) }] *)
Fixpoint try_catch {A} (p : prog E A) (h : exn → prog E A) : prog E A :=
  match p with
  | Ret a => Ret a
  | Throw e => h e
  | Vis c k => Vis c (λ r, try_catch (k r) h)
  end.

(** The outcome of a program as a value, and back. *)
Definition attempt {A} (p : prog E A) : prog E (exn + A) :=
  try_catch (bind p (λ a, Ret (inr a))) (λ e, Ret (inl e)).
Definition settle {A} (r : exn + A) : prog E A :=
  match r with inr a => Ret a | inl e => Throw e end.

(** [try { p } finally { fin }]: an exception of [fin] replaces the outcome. *)
Definition try_finally {A} (p : prog E A) (fin : prog E unit) : prog E A :=
  bind (attempt p) (λ r, bind fin (λ _, settle r)).

(** [for (const x of xs) await f(x)] *)
Fixpoint for_each {A} (xs : list A) (f : A → prog E unit) : prog E unit :=
  match xs with
  | [] => Ret tt
  | x :: xs => bind (f x) (λ _, for_each xs f)
  end.
End Combinators.

Declare Scope prog_scope.
Delimit Scope prog_scope with prog.
Open Scope prog_scope.
Notation "x <- p ;; q" := (bind p (λ x, q))
  (at level 100, p at next level, right associativity) : prog_scope.
Notation "p ;; q" := (bind p (λ _, q))
  (at level 100, right associativity) : prog_scope.
Notation "'TRY' p 'CATCH' e => h" := (try_catch p (λ e, h))
  (at level 100, e name, h at level 200) : prog_scope.

(** ** Execution by a handler *)

(** A handler answers every call from its own world [W]. *)
Definition handler (E : Type → Type) (W : Type) : Type := ∀ X, E X → W → (exn + X) * W.

Section Exec.
Context {E : Type → Type} {W : Type} (h : handler E W).

Fixpoint exec {A} (p : prog E A) (w : W) : (exn + A) * W :=
  match p with
  | Ret a => (inr a, w)
  | Throw e => (inl e, w)
  | Vis c k => let '(r, w') := h _ c w in exec (k r) w'
  end.

Lemma exec_bind {A B} (p : prog E A) (q : A → prog E B) w :
  exec (bind p q) w =
    match exec p w with
    | (inr a, w') => exec (q a) w'
    | (inl e, w') => (inl e, w')
    end.
Proof.
  revert w. induction p as [a|e|X c k IH]; intros w; simpl; [done..|].
  destruct (h X c w) as [r w']. apply IH.
Qed.

Lemma exec_try_catch {A} (p : prog E A) (f : exn → prog E A) w :
  exec (try_catch p f) w =
    match exec p w with
    | (inr a, w') => (inr a, w')
    | (inl e, w') => exec (f e) w'
    end.
Proof.
  revert w. induction p as [a|e|X c k IH]; intros w; simpl; [done..|].
  destruct (h X c w) as [r w']. apply IH.
Qed.
End Exec.

(** On every path at most [n] calls are made. *)
Fixpoint calls_at_most {E A} (n : nat) (p : prog E A) {struct p} : Prop :=
  match p with
  | Vis c k => match n with 0 => False | S n => ∀ r, calls_at_most n (k r) end
  | _ => True
  end.

Lemma calls_at_most_weaken {E A} (p : prog E A) n n' : n ≤ n' → calls_at_most n p → calls_at_most n' p.
Proof.
  revert n n'. induction p as [a|e|X c k IH]; intros [|n] [|n'] Hn; simpl; try done; [lia|].
  intros H r. eapply IH; [|apply H]. lia.
Qed.

Lemma calls_at_most_bind {E A B} (p : prog E A) (q : A → prog E B) n m :
  calls_at_most n p → (∀ a, calls_at_most m (q a)) → calls_at_most (n + m) (bind p q).
Proof.
  intros Hp Hq. revert n Hp. induction p as [a|e|X c k IH]; intros n Hp; simpl; [|done|].
  - eapply calls_at_most_weaken, Hq. lia.
  - destruct n as [|n]; [done|]. intros r. apply IH, Hp.
Qed.

(** A test of the outcome, to evaluate concrete runs with. *)
Definition returns {A} (ok : A → bool) (r : exn + A) : bool :=
  match r with inr a => ok a | inl _ => false end.

(** ** Interleaving

    Between two awaits a method runs alone; at an await any other method may run.
    A schedule says whose call is answered next ([true] for the second program);
    when it is used up the programs run to their ends, the first one first. *)
Section Interleave.
Context {E : Type → Type} {W : Type} (h : handler E W).

Definition step {A} (p : prog E A) (w : W) : prog E A * W :=
  match p with
  | Vis c k => let '(r, w') := h _ c w in (k r, w')
  | _ => (p, w)
  end.

Fixpoint interleave {A B} (schedule : list bool) (p : prog E A) (q : prog E B) (w : W)
    : (exn + A) * (exn + B) * W :=
  match schedule with
  | [] => let '(a, w1) := exec h p w in let '(b, w2) := exec h q w1 in (a, b, w2)
  | false :: schedule => let '(p', w') := step p w in interleave schedule p' q w'
  | true :: schedule => let '(q', w') := step q w in interleave schedule p q' w'
  end.
End Interleave.

(** ** Contracts and weakest preconditions *)

(** [C X c s r s'] says that the external code may answer the call [c] made in
    the observable state [s] with [r], leaving the state [s']. *)
Definition contract (E : Type → Type) (S : Type) : Type := ∀ X, E X → S → exn + X → S → Prop.

Section Wp.
Context {E : Type → Type} {S : Type} (C : contract E S).

(** Every execution of [p] from [s] that the contract allows ends in a result
    and a state related by [Q]. *)
Fixpoint wp {A} (p : prog E A) (s : S) (Q : exn + A → S → Prop) : Prop :=
  match p with
  | Ret a => Q (inr a) s
  | Throw e => Q (inl e) s
  | Vis c k => ∀ r s', C _ c s r s' → wp (k r) s' Q
  end.

(** The executions themselves. *)
Fixpoint runs {A} (p : prog E A) (s : S) (r : exn + A) (s' : S) : Prop :=
  match p with
  | Ret a => r = inr a ∧ s' = s
  | Throw e => r = inl e ∧ s' = s
  | Vis c k => ∃ r1 s1, C _ c s r1 s1 ∧ runs (k r1) s1 r s'
  end.

Lemma wp_runs {A} (p : prog E A) s Q :
  wp p s Q ↔ ∀ r s', runs p s r s' → Q r s'.
Proof.
  revert s. induction p as [a|e|X c k IH]; intros s; simpl.
  - split; [by intros ? r s' [-> ->]|eauto].
  - split; [by intros ? r s' [-> ->]|eauto].
  - split.
    + intros Hwp r s' (r1 & s1 & HC & Hr). by apply (IH r1 s1); [apply Hwp|].
    + intros Hr r1 s1 HC. apply IH. eauto.
Qed.

Lemma wp_mono {A} (p : prog E A) s (P Q : exn + A → S → Prop) :
  wp p s P → (∀ r s', P r s' → Q r s') → wp p s Q.
Proof. rewrite !wp_runs. eauto. Qed.

Lemma wp_and {A} (p : prog E A) s (P Q : exn + A → S → Prop) :
  wp p s P → wp p s Q → wp p s (λ r s', P r s' ∧ Q r s').
Proof. rewrite !wp_runs. eauto. Qed.

Lemma wp_perform {X} (c : E X) s Q :
  (∀ r s', C _ c s r s' → Q r s') → wp (perform c) s Q.
Proof. intros H [e|x] s' HC; apply H, HC. Qed.

Lemma wp_bind {A B} (p : prog E A) (q : A → prog E B) s Q :
  wp p s (λ r s', match r with inr a => wp (q a) s' Q | inl e => Q (inl e) s' end) →
  wp (bind p q) s Q.
Proof.
  revert s. induction p as [a|e|X c k IH]; intros s; simpl; [done..|]. eauto.
Qed.

Lemma wp_try_catch {A} (p : prog E A) (f : exn → prog E A) s Q :
  wp p s (λ r s', match r with inr a => Q (inr a) s' | inl e => wp (f e) s' Q end) →
  wp (try_catch p f) s Q.
Proof.
  revert s. induction p as [a|e|X c k IH]; intros s; simpl; [done..|]. eauto.
Qed.

(** Sequencing through an intermediate assertion. *)
Lemma wp_seq {A B} (p : prog E A) (q : A → prog E B) s (P : exn + A → S → Prop) Q :
  wp p s P →
  (∀ e s', P (inl e) s' → Q (inl e) s') →
  (∀ a s', P (inr a) s' → wp (q a) s' Q) →
  wp (bind p q) s Q.
Proof.
  intros Hp He Ha. apply wp_bind. eapply wp_mono; [exact Hp|]. intros [e|a] s'; eauto.
Qed.

(** A loop is verified by an invariant indexed by what remains. *)
Lemma wp_for_each {A} (xs : list A) (f : A → prog E unit) (I : list A → S → Prop) Q s :
  I xs s →
  (∀ x xs' s1, I (x :: xs') s1 →
     wp (f x) s1 (λ r s2, match r with inr _ => I xs' s2 | inl e => Q (inl e) s2 end)) →
  (∀ s1, I [] s1 → Q (inr tt) s1) →
  wp (for_each xs f) s Q.
Proof.
  intros HI Hstep Hend. revert s HI. induction xs as [|x xs IH]; intros s HI; simpl; [auto|].
  apply wp_bind. eapply wp_mono; [by apply Hstep|]. intros [e|[]] s'; eauto.
Qed.
End Wp.

(** ** Guarantees

    [wpg C G p s Q] is [wp C p s Q] where moreover every single call leads from
    one state to the next by [G]: what the program may do between two awaits. *)
Section Wpg.
Context {E : Type → Type} {S : Type} (C : contract E S) (G : S → S → Prop).

Fixpoint wpg {A} (p : prog E A) (s : S) (Q : exn + A → S → Prop) : Prop :=
  match p with
  | Ret a => Q (inr a) s
  | Throw e => Q (inl e) s
  | Vis c k => ∀ r s', C _ c s r s' → G s s' ∧ wpg (k r) s' Q
  end.

(** The sequence of states a run goes through is a chain of [G]. *)
Fixpoint trace {A} (p : prog E A) (s : S) (states : list S) : Prop :=
  match p, states with
  | Vis c k, s' :: states => ∃ r, C _ c s r s' ∧ trace (k r) s' states
  | _, [] => True
  | _, _ :: _ => False
  end.

Fixpoint chain (s : S) (states : list S) : Prop :=
  match states with
  | [] => True
  | s' :: states => G s s' ∧ chain s' states
  end.

Lemma wpg_chain {A} (p : prog E A) s Q states : wpg p s Q → trace p s states → chain s states.
Proof.
  revert s states. induction p as [a|e|X c k IH]; intros s [|s' states]; simpl; try done.
  intros Hw (r & HC & Ht). destruct (Hw _ _ HC) as [HG Hk]. split; [done|]. by eapply IH.
Qed.

Lemma wpg_wp {A} (p : prog E A) s Q : wpg p s Q → wp C p s Q.
Proof.
  revert s. induction p as [a|e|X c k IH]; intros s; simpl; [done..|].
  intros Hw r s' HC. apply IH. by apply Hw.
Qed.

Lemma wpg_mono {A} (p : prog E A) s (P Q : exn + A → S → Prop) :
  wpg p s P → (∀ r s', P r s' → Q r s') → wpg p s Q.
Proof.
  revert s. induction p as [a|e|X c k IH]; intros s; simpl; [auto..|].
  intros Hw HPQ r s' HC. destruct (Hw _ _ HC). split; [done|]. by apply IH.
Qed.

(** The final state is reached from the first one by steps of [G]. *)
Lemma wpg_reach {A} (p : prog E A) s Q :
  wpg p s Q → wpg p s (λ r s', Q r s' ∧ rtc G s s').
Proof.
  enough (∀ s0, rtc G s0 s → wpg p s Q → wpg p s (λ r s', Q r s' ∧ rtc G s0 s')) as H by (by apply H).
  intros s0. revert s. induction p as [a|e|X c k IH]; intros s Hs; simpl; [done..|].
  intros Hw r s' HC. destruct (Hw _ _ HC). split; [done|]. apply IH; [|done]. by eapply rtc_r.
Qed.

Lemma wpg_bind {A B} (p : prog E A) (q : A → prog E B) s Q :
  wpg p s (λ r s', match r with inr a => wpg (q a) s' Q | inl e => Q (inl e) s' end) →
  wpg (bind p q) s Q.
Proof.
  revert s. induction p as [a|e|X c k IH]; intros s; simpl; [done..|].
  intros Hw r s' HC. destruct (Hw _ _ HC). auto.
Qed.

Lemma wpg_try_catch {A} (p : prog E A) (f : exn → prog E A) s Q :
  wpg p s (λ r s', match r with inr a => Q (inr a) s' | inl e => wpg (f e) s' Q end) →
  wpg (try_catch p f) s Q.
Proof.
  revert s. induction p as [a|e|X c k IH]; intros s; simpl; [done..|].
  intros Hw r s' HC. destruct (Hw _ _ HC). auto.
Qed.

Lemma wpg_attempt {A} (p : prog E A) s Q :
  wpg p s (λ r s', Q (inr r) s') → wpg (attempt p) s Q.
Proof.
  intros Hw. apply wpg_try_catch, wpg_bind. eapply wpg_mono; [exact Hw|]. by intros [e|a] s'.
Qed.

(** A method of one call: its specification gives the guarantee. *)
Definition leaf {A} (p : prog E A) : Prop := match p with Vis _ _ => False | _ => True end.
Definition single {A} (p : prog E A) : Prop :=
  match p with Vis c k => ∀ r, leaf (k r) | _ => True end.

Lemma wpg_single {A} (p : prog E A) s Q :
  single p → wp C p s Q → (∀ r s', Q r s' → G s s') → wpg p s Q.
Proof.
  destruct p as [a|e|X c k]; simpl; [done..|]. intros Hl Hw HQ r s' HC.
  specialize (Hw _ _ HC). specialize (Hl r). destruct (k r) as [a|e|]; simpl in *; [..|done]; eauto.
Qed.
End Wpg.

Lemma wpg_weaken {E S A} (C : contract E S) (G G' : S → S → Prop) (p : prog E A) s Q :
  (∀ s s', G s s' → G' s s') → wpg C G p s Q → wpg C G' p s Q.
Proof.
  intros HG. revert s. induction p as [a|e|X c k IH]; intros s; simpl; [done..|].
  intros Hw r s' HC. destruct (Hw _ _ HC). auto.
Qed.

(** ** Programs that change nothing

    Whatever the state is at each call, the call leaves it as it is. *)
Section Inert.
Context {E : Type → Type} {S : Type} (C : contract E S).

Fixpoint inert {A} (p : prog E A) (Q : exn + A → Prop) : Prop :=
  match p with
  | Ret a => Q (inr a)
  | Throw e => Q (inl e)
  | Vis c k => ∀ s r s', C _ c s r s' → s' = s ∧ inert (k r) Q
  end.

Lemma inert_mono {A} (p : prog E A) (P Q : exn + A → Prop) :
  inert p P → (∀ r, P r → Q r) → inert p Q.
Proof.
  induction p as [a|e|X c k IH]; simpl; intros Hp HPQ; [auto..|].
  intros s r s' HC. destruct (Hp _ _ _ HC). auto.
Qed.

Lemma inert_bind {A B} (p : prog E A) (q : A → prog E B) Q :
  inert p (λ r, match r with inr a => inert (q a) Q | inl e => Q (inl e) end) → inert (bind p q) Q.
Proof.
  induction p as [a|e|X c k IH]; simpl; intros Hp; [done..|].
  intros s r s' HC. destruct (Hp _ _ _ HC). auto.
Qed.

Lemma inert_try_catch {A} (p : prog E A) (h : exn → prog E A) Q :
  inert p (λ r, match r with inr a => Q (inr a) | inl e => inert (h e) Q end) → inert (try_catch p h) Q.
Proof.
  induction p as [a|e|X c k IH]; simpl; intros Hp; [done..|].
  intros s r s' HC. destruct (Hp _ _ _ HC). auto.
Qed.

Lemma inert_attempt {A} (p : prog E A) Q : inert p (λ r, Q (inr r)) → inert (attempt p) Q.
Proof.
  intros Hp. apply inert_try_catch, inert_bind. eapply inert_mono; [exact Hp|]. by intros [e|a].
Qed.

Lemma inert_wpg {A} (p : prog E A) s Q :
  inert p Q → wpg C (λ s s', s' = s) p s (λ r s', s' = s ∧ Q r).
Proof.
  induction p as [a|e|X c k IH]; simpl; intros Hp; [done..|].
  intros r s' HC. destruct (Hp _ _ _ HC) as [-> ?]. auto.
Qed.
End Inert.

(** A handler that obeys a contract executes every program as its [wp] says. *)
Section Adequacy.
Context {E : Type → Type} {S W : Type} (C : contract E S) (h : handler E W) (view : W → S).
Hypothesis obeys : ∀ X (c : E X) w, C X c (view w) (h X c w).1 (view (h X c w).2).

Lemma exec_runs {A} (p : prog E A) w :
  runs C p (view w) (exec h p w).1 (view (exec h p w).2).
Proof.
  revert w. induction p as [a|e|X c k IH]; intros w; simpl; [done..|].
  specialize (obeys X c w). destruct (h X c w) as [r w']. simpl in *. eauto.
Qed.

Lemma exec_wp {A} (p : prog E A) w Q :
  wp C p (view w) Q → Q (exec h p w).1 (view (exec h p w).2).
Proof. rewrite wp_runs. intros H. apply H, exec_runs. Qed.
End Adequacy.

(** ** Tactics *)

Ltac wp_focus :=
  lazymatch goal with
  | |- wp _ (bind _ _) _ _ => apply wp_bind; wp_focus
  | |- wp _ (try_catch _ _) _ _ => apply wp_try_catch; wp_focus
  | |- _ => idtac
  end.

Ltac wpg_focus :=
  lazymatch goal with
  | |- wpg _ _ (bind _ _) _ _ => apply wpg_bind; wpg_focus
  | |- wpg _ _ (try_catch _ _) _ _ => apply wpg_try_catch; wpg_focus
  | |- _ => idtac
  end.
Tactic Notation "wpg_apply" uconstr(H) :=
  cbn [wpg bind try_catch for_each]; wpg_focus; eapply wpg_mono; [apply H|].

(** Use the specification [H : wp C p s P] of a called method. *)
Tactic Notation "wp_apply" uconstr(H) :=
  cbn [wp bind try_catch for_each]; wp_focus; eapply wp_mono; [apply H|].
