(* ===== verification/RelyGuarantee.v ===== *)
(** * Rely and guarantee

    Requests and deliveries run concurrently: between two awaits of one program
    any other may run.  [pool_step] is that semantics for a pool of programs over
    one state.  [rg] verifies one program under interference: at each of its calls
    the state may have moved by any steps of the rely [R] that keep the invariant
    [I]; the call must then keep [I] and make a step of the guarantee [G].
    [pool_sound] puts verified programs together. *)
From S2P Require Import Prelude Json Program.

(** One call of one program, and the outcome of a program that has ended. *)
Definition thread_step {E S A} (C : contract E S) (p : prog E A) (s : S) (p' : prog E A) (s' : S) : Prop :=
  match p with
  | Vis c k => ∃ r, C _ c s r s' ∧ p' = k r
  | _ => False
  end.

Definition ended {E A} (p : prog E A) : option (exn + A) :=
  match p with Ret a => Some (inr a) | Throw e => Some (inl e) | Vis _ _ => None end.

(** ** One program *)
Section Rg.
Context {E : Type → Type} {S : Type} (C : contract E S) (I : S → Prop) (R G : S → S → Prop).

Fixpoint rg {A} (p : prog E A) (s : S) (Q : exn + A → S → Prop) : Prop :=
  match p with
  | Ret a => ∀ s', R s s' → I s' → Q (inr a) s'
  | Throw e => ∀ s', R s s' → I s' → Q (inl e) s'
  | Vis c k => ∀ s1, R s s1 → I s1 → ∀ r s2, C _ c s1 r s2 → I s2 ∧ G s1 s2 ∧ rg (k r) s2 Q
  end.

(** An assertion that the environment cannot falsify. *)
Definition stable (P : S → Prop) : Prop := ∀ s s', P s → R s s' → I s' → P s'.

Lemma rg_mono {A} (p : prog E A) s (P Q : exn + A → S → Prop) :
  rg p s P → (∀ r s', P r s' → Q r s') → rg p s Q.
Proof.
  revert s. induction p as [a|e|X c k IH]; intros s Hp HPQ; simpl in *; [auto..|].
  intros s1 HR HI r s2 HC. destruct (Hp s1 HR HI r s2 HC) as (? & ? & ?). eauto.
Qed.

Context `{!PreOrder R}.

Lemma rg_stable {A} (p : prog E A) s s' Q : rg p s Q → R s s' → rg p s' Q.
Proof.
  destruct p; simpl; intros Hp HR; intros; eapply Hp; try done; by etrans.
Qed.

(** A finished program needs an assertion that is stable. *)
Lemma rg_ret {A} (a : A) s Q : stable (Q (inr a)) → Q (inr a) s → rg (Ret a) s Q.
Proof. intros HQ Hs s' HR HI. by eapply HQ. Qed.
Lemma rg_throw {A} e s (Q : exn + A → S → Prop) : stable (Q (inl e)) → Q (inl e) s → rg (Throw e) s Q.
Proof. intros HQ Hs s' HR HI. by eapply HQ. Qed.

Lemma rg_bind {A B} (p : prog E A) (q : A → prog E B) s Q :
  I s →
  rg p s (λ r s', match r with inr a => I s' → rg (q a) s' Q | inl e => Q (inl e) s' end) →
  rg (bind p q) s Q.
Proof.
  revert s. induction p as [a|e|X c k IH]; intros s HI Hp; simpl in *; [by apply Hp|done|].
  intros s1 HR HI1 r s2 HC. destruct (Hp s1 HR HI1 r s2 HC) as (? & ? & ?). auto.
Qed.

Lemma rg_try_catch {A} (p : prog E A) (h : exn → prog E A) s Q :
  I s →
  rg p s (λ r s', match r with inr a => Q (inr a) s' | inl e => I s' → rg (h e) s' Q end) →
  rg (try_catch p h) s Q.
Proof.
  revert s. induction p as [a|e|X c k IH]; intros s HI Hp; simpl in *; [done|by apply Hp|].
  intros s1 HR HI1 r s2 HC. destruct (Hp s1 HR HI1 r s2 HC) as (? & ? & ?). auto.
Qed.

(** A call, from any state the environment may have produced. *)
Lemma rg_call {X} (c : E X) s (Q : exn + X → S → Prop) :
  (∀ r, stable (Q r)) →
  (∀ s1, R s s1 → I s1 → ∀ r s2, C _ c s1 r s2 → I s2 ∧ G s1 s2 ∧ Q r s2) →
  rg (perform c) s Q.
Proof.
  intros Hst Hc s1 HR HI r s2 HC. destruct (Hc s1 HR HI r s2 HC) as (HI2 & HG & HQ).
  split; [done|]. split; [done|]. destruct r; simpl; intros s3 HR3 HI3; by eapply Hst.
Qed.

(** A method of one call is verified by its sequential specification. *)
Lemma rg_single {A} (p : prog E A) s Q :
  single p → (∀ r, stable (Q r)) →
  (∀ s1, R s s1 → I s1 → wp C p s1 (λ r s2, I s2 ∧ G s1 s2 ∧ Q r s2)) →
  rg p s Q.
Proof.
  intros Hp Hst Hw. destruct p as [a|e|X c k]; simpl in *.
  - intros s' HR HI. by apply Hw.
  - intros s' HR HI. by apply Hw.
  - intros s1 HR HI r s2 HC. specialize (Hw s1 HR HI r s2 HC). specialize (Hp r).
    destruct (k r) as [a|e|]; simpl in *; [| |done]; destruct Hw as (? & ? & HQ);
      (split; [done|]); (split; [done|]); intros s3 HR3 HI3; by eapply Hst.
Qed.

(** A step of a verified program. *)
Lemma rg_step {A} (p p' : prog E A) s s' Q :
  I s → rg p s Q → thread_step C p s p' s' → I s' ∧ G s s' ∧ rg p' s' Q.
Proof. destruct p as [| |X c k]; simpl; [done..|]. intros HI Hp (r & HC & ->). by apply (Hp s). Qed.

(** The postcondition holds after any further interference. *)
Lemma rg_settled {A} (p : prog E A) s Q :
  rg p s Q → rg p s (λ r s', ∀ s2, R s' s2 → I s2 → Q r s2).
Proof.
  revert s. induction p as [a|e|X c k IH]; intros s Hp; simpl in *.
  - intros s1 HR1 _ s2 HR2 HI2. apply Hp; [by etrans|done].
  - intros s1 HR1 _ s2 HR2 HI2. apply Hp; [by etrans|done].
  - intros s1 HR HI r s2 HC. destruct (Hp s1 HR HI r s2 HC) as (? & ? & ?). auto.
Qed.

(** What is known of the state before a program is known of it after each call. *)
Lemma rg_keep {A} (p : prog E A) (K : S → Prop) s Q :
  stable K → (∀ s s', G s s' → K s → K s') → K s → rg p s Q → rg p s (λ r s', K s' ∧ Q r s').
Proof.
  intros HK HG. revert s. induction p as [a|e|X c k IH]; intros s Hs Hp; simpl in *.
  - intros s' HR HI. split; [by eapply HK|auto].
  - intros s' HR HI. split; [by eapply HK|auto].
  - intros s1 HR HI r s2 HC. destruct (Hp s1 HR HI r s2 HC) as (? & ? & ?). split; [done|]. split; [done|].
    apply IH; [|done]. by eapply HG, HK.
Qed.

Lemma rg_since {A} (p : prog E A) s Q :
  (∀ s s', G s s' → R s s') → rg p s Q → rg p s (λ r s', R s s' ∧ Q r s').
Proof.
  intros HG. apply rg_keep; [|intros s1 s2 H12 Hs; etrans; [exact Hs|by apply HG]|done].
  intros s1 s2 Hs HR _. by etrans.
Qed.

(** A sequence that may end at any exception; what was stable stays known. *)
Lemma rg_then {A B} (p : prog E A) (q : A → prog E B) s (P : exn + A → S → Prop) Q :
  (∀ s s', G s s' → R s s') → I s → rg p s P → (∀ e s', Q (inl e) s') →
  (∀ a s', R s s' → I s' → P (inr a) s' → rg (q a) s' Q) → rg (bind p q) s Q.
Proof.
  intros HG HI Hp He Hq. apply rg_bind; [done|]. eapply rg_mono; [by apply rg_since|].
  intros [e|a] s' [HR HP]; auto.
Qed.

Lemma rg_attempt {A} (p : prog E A) s Q :
  I s → rg p s (λ r s', Q (inr r) s') → rg (attempt p) s Q.
Proof.
  intros HI Hp%rg_settled. unfold attempt. apply rg_try_catch; [done|]. apply rg_bind; [done|].
  eapply rg_mono; [exact Hp|]. intros [e|a] s' HQ; [by intros _ s2; apply HQ|].
  intros _ s2 HR HI2. by apply HQ.
Qed.

Lemma rg_ended {A} (p : prog E A) r s Q : I s → rg p s Q → ended p = Some r → Q r s.
Proof. destruct p; simpl; intros HI Hp [= <-]; by apply Hp. Qed.
End Rg.

(** A verified sequence has a verified beginning. *)
Section Inversion.
Context {E : Type → Type} {S : Type} (C : contract E S) (I : S → Prop) (R G : S → S → Prop).
Context `{!PreOrder R}.

Lemma rg_bind_inv {A B} (p : prog E A) (q : A → prog E B) s Q :
  rg C I R G (bind p q) s Q →
  rg C I R G p s (λ r s', match r with inr a => rg C I R G (q a) s' Q | inl e => Q (inl e) s' end).
Proof.
  revert s. induction p as [a|e|X c k IH]; intros s Hp; simpl in *; [|done|].
  - intros s' HR _. by eapply rg_stable.
  - intros s1 HR HI r s2 HC. destruct (Hp s1 HR HI r s2 HC) as (? & ? & ?). auto.
Qed.

Lemma rg_try_catch_inv {A} (p : prog E A) (h : exn → prog E A) s Q :
  rg C I R G (try_catch p h) s Q →
  rg C I R G p s (λ r s', match r with inr a => Q (inr a) s' | inl e => rg C I R G (h e) s' Q end).
Proof.
  revert s. induction p as [a|e|X c k IH]; intros s Hp; simpl in *; [done| |].
  - intros s' HR _. by eapply rg_stable.
  - intros s1 HR HI r s2 HC. destruct (Hp s1 HR HI r s2 HC) as (? & ? & ?). auto.
Qed.
End Inversion.

Lemma rg_weaken {E S A} (C : contract E S) I (R R' G G' : S → S → Prop) (p : prog E A) s Q :
  (∀ s s', R' s s' → R s s') → (∀ s s', G s s' → G' s s') → rg C I R G p s Q → rg C I R' G' p s Q.
Proof.
  intros HR HG. revert s. induction p as [a|e|X c k IH]; intros s Hp; simpl in *; [auto..|].
  intros s1 HR1 HI r s2 HC. destruct (Hp s1 (HR _ _ HR1) HI r s2 HC) as (? & ? & ?). auto.
Qed.

(** Verified against one invariant, and put next to others that its steps keep. *)
Lemma rg_frame {E S A} (C : contract E S) (I K : S → Prop) (R R' G G' : S → S → Prop) (p : prog E A) s Q :
  (∀ s, K s → I s) → (∀ s s', R' s s' → R s s') → (∀ s s', K s → I s' → G s s' → K s' ∧ G' s s') →
  rg C I R G p s Q → rg C K R' G' p s Q.
Proof.
  intros HK HR HG. revert s. induction p as [a|e|X c k IH]; intros s Hp; simpl in *; [auto..|].
  intros s1 HR1 HK1 r s2 HC. destruct (Hp s1 (HR _ _ HR1) (HK _ HK1) r s2 HC) as (HI2 & HG2 & Hk).
  destruct (HG _ _ HK1 HI2 HG2). auto.
Qed.

(** Without interference, a verified program is correct. *)
Lemma rg_wpg {E S A} (C : contract E S) I (R G : S → S → Prop) `{!Reflexive R} (p : prog E A) s Q :
  I s → rg C I R G p s Q → wpg C G p s Q.
Proof.
  revert s. induction p as [a|e|X c k IH]; intros s HI Hp; simpl in *; [by apply Hp..|].
  intros r s' HC. destruct (Hp s (reflexivity s) HI r s' HC) as (? & ? & ?). auto.
Qed.

(** And it ends in the invariant, after steps of the guarantee. *)
Lemma rg_wp {E S A} (C : contract E S) I (R G : S → S → Prop) `{!Reflexive R} (p : prog E A) s Q :
  I s → rg C I R G p s Q → wp C p s (λ r s', I s' ∧ rtc G s s' ∧ Q r s').
Proof.
  revert s. induction p as [a|e|X c k IH]; intros s HI Hp; simpl in *;
    [split; [done|]; split; [done|by apply Hp]..|].
  intros r s' HC. destruct (Hp s (reflexivity s) HI r s' HC) as (HI' & HG & Hk).
  eapply wp_mono; [by apply IH|]. intros r2 s2 (HI2 & Hr & HQ). split; [done|]. split; [|done]. by eapply rtc_l.
Qed.

(** A program that never changes the state may run anywhere. *)
Lemma inert_rg {E S A} (C : contract E S) (I : S → Prop) (R G : S → S → Prop) `{!Reflexive G}
    (p : prog E A) s Q :
  inert C p Q → rg C I R G p s (λ r _, Q r).
Proof.
  revert s. induction p as [a|e|X c k IH]; intros s Hp; simpl in *; [done..|].
  intros s1 HR HI r s2 HC. destruct (Hp _ _ _ HC) as [-> Hk]. auto.
Qed.

(** ** Pools

    Programs arrive, make calls, and may leave behind programs that go on by
    themselves ([forks p p' q]: [p] goes on as [p'] and leaves [q] running). *)
Section Pool.
Context {E : Type → Type} {S : Type} (C : contract E S) {A : Type}.
Context (arrives : S → prog E A → Prop) (forks : prog E A → prog E A → prog E A → Prop).

Inductive pool_step : list (prog E A) * S → list (prog E A) * S → Prop :=
  | pool_call i p p' ts s s' :
      ts !! i = Some p → thread_step C p s p' s' → pool_step (ts, s) (<[i := p']> ts, s')
  | pool_arrive p ts s : arrives s p → pool_step (ts, s) (ts ++ [p], s)
  | pool_fork i p p' q ts s :
      ts !! i = Some p → forks p p' q → pool_step (ts, s) (<[i := p']> ts ++ [q], s).

Context (I : S → Prop) (R G : S → S → Prop) `{!PreOrder R} (Q : exn + A → S → Prop).
Hypothesis guarantee_in_rely : ∀ s s', G s s' → R s s'.
Hypothesis arrives_ok : ∀ s p, I s → arrives s p → rg C I R G p s Q.
Hypothesis forks_ok : ∀ s p p' q,
  I s → rg C I R G p s Q → forks p p' q → rg C I R G p' s Q ∧ rg C I R G q s Q.

Definition verified (ts : list (prog E A)) (s : S) : Prop :=
  I s ∧ Forall (λ p, rg C I R G p s Q) ts.

Lemma verified_step ts s ts' s' :
  verified ts s → pool_step (ts, s) (ts', s') → verified ts' s' ∧ (s' = s ∨ G s s').
Proof.
  intros [HI Hts] Hst. inversion Hst as [i p p' ? ? ? Hp Hstep|p ? ? Hp|i p p' q ? ? Hp Hf]; subst.
  - pose proof (Forall_lookup_1 _ _ _ _ Hts Hp) as Hrg. cbn beta in Hrg.
    destruct (rg_step _ _ _ _ p p' s s' _ HI Hrg Hstep) as (HI' & HG & Hp').
    split; [split; [done|]|by right]. apply Forall_insert; [|done].
    eapply Forall_impl; [exact Hts|]. intros q Hq. eapply rg_stable; [done|exact Hq|by apply guarantee_in_rely].
  - split; [split; [done|]|by left]. apply Forall_app. split; [done|]. constructor; [by apply arrives_ok|done].
  - destruct (forks_ok s' p p' q HI (Forall_lookup_1 _ _ _ _ Hts Hp) Hf) as [Hp' Hq].
    split; [split; [done|]|by left]. apply Forall_app. split; [by apply Forall_insert|by constructor].
Qed.

(** Every state a pool reaches satisfies the invariant and is reached by steps of
    the guarantee; the programs that have ended satisfy the postcondition. *)
Theorem pool_sound ts s ts' s' :
  verified ts s → rtc pool_step (ts, s) (ts', s') →
  I s' ∧ rtc G s s' ∧ ∀ p r, p ∈ ts' → ended p = Some r → Q r s'.
Proof.
  intros Hv Hr. remember (ts, s) as a eqn:Ha. remember (ts', s') as b eqn:Hb. revert ts s Hv Ha.
  induction Hr as [x|x [ts1 s1] z Hst _ IH]; intros ts s Hv ->.
  - injection Hb as <- <-. destruct Hv as [HI Hts]. split; [done|]. split; [done|].
    intros p r Hp He. rewrite Forall_forall in Hts.
    exact (rg_ended C I R G p r s Q HI (Hts p Hp) He).
  - destruct (verified_step _ _ _ _ Hv Hst) as [Hv1 Hg].
    destruct (IH Hb _ _ Hv1 eq_refl) as (HI' & Hrt & HQ). split; [done|]. split; [|done].
    destruct Hg as [->|Hg]; [done|by eapply rtc_l].
Qed.
End Pool.

(** ** Executable schedules

    Which program makes the next call, as a list of positions, answered by a handler
    that keeps the contract: a schedule is a run of the pool. *)
Section Schedules.
Context {E : Type → Type} {S W : Type} (C : contract E S) (h : handler E W) (view : W → S).
Hypothesis handler_ok : ∀ X (c : E X) w, C X c (view w) (h X c w).1 (view (h X c w).2).
Context {A : Type} (arrives : S → prog E A → Prop) (forks : prog E A → prog E A → prog E A → Prop).

Fixpoint schedule (turns : list nat) (ts : list (prog E A)) (w : W) : list (prog E A) * W :=
  match turns with
  | [] => (ts, w)
  | i :: turns =>
      match ts !! i with
      | Some (Vis c k) => let '(r, w') := h _ c w in schedule turns (<[i := k r]> ts) w'
      | _ => schedule turns ts w
      end
  end.

Lemma schedule_steps turns ts w :
  rtc (pool_step C arrives forks) (ts, view w) ((schedule turns ts w).1, view (schedule turns ts w).2).
Proof.
  revert ts w. induction turns as [|i turns IH]; intros ts w; cbn [schedule]; [done|].
  destruct (ts !! i) as [[a|e|X c k]|] eqn:Hi; try apply IH.
  pose proof (handler_ok _ c w) as Hc. destruct (h X c w) as [r w']. cbn [fst snd] in Hc.
  eapply rtc_l; [|apply IH]. eapply pool_call; [exact Hi|]. by exists r.
Qed.
End Schedules.

Ltac rg_focus :=
  lazymatch goal with
  | |- rg _ _ _ _ (bind _ _) _ _ => apply rg_bind; [apply _|done|rg_focus]
  | |- rg _ _ _ _ (try_catch _ _) _ _ => apply rg_try_catch; [apply _|done|rg_focus]
  | |- _ => idtac
  end.

(** Use the specification of a called method. *)
Tactic Notation "rg_apply" uconstr(H) :=
  cbn [bind try_catch]; rg_focus; eapply rg_mono; [apply H|].
