(* ===== verification/Schema.v ===== *)
(** * The canonical data model

    The tables of [server/prisma/schema.prisma] as the server reads and writes
    them (columns no TypeScript code reads, such as a finding's [createdAt], are
    left out), the objects in R2, the entries of the BullMQ queues, and the
    plain data types the components exchange. *)
From S2P Require Import Prelude.

(** ** Enumerations *)

Inductive JobStatus :=
  | CREATED | UPLOADING | QUEUED | TRANSCRIBING | COMPILING | RENDERING | READY | FAILED.

Inductive Severity := INFO | MAINTENANCE | REPAIR | SAFETY.

#[export] Instance JobStatus_eq_dec : EqDecision JobStatus.
Proof. solve_decision. Defined.
#[export] Instance Severity_eq_dec : EqDecision Severity.
Proof. solve_decision. Defined.

(** ** Tables

    A table is a map from its primary (or unique) key to the other columns. *)

Record User := mkUser {
  appleSub : jstr;
  email : option jstr;
}.

(** Keyed by [tokenHash], which is unique. *)
Record RefreshToken := mkRefreshToken {
  rt_userId : jstr;
  expiresAt : Z;
  revokedAt : option Z;
  replacedByTokenHash : option jstr;
}.

Record Job := mkJob {
  job_userId : jstr;
  job_label : jstr;
  job_status : JobStatus;
  job_transcript : option jstr;
  job_audioKey : option jstr;
  job_pdfKey : option jstr;
  job_errorMessage : option jstr;
  job_idempotencyKey : option jstr;
  job_createdAt : Z;
  job_updatedAt : Z;
  job_deletedAt : option Z;
}.

#[export] Instance Job_eq_dec : EqDecision Job.
Proof. solve_decision. Defined.

Record ReportSection := mkReportSection {
  section_id : jstr;
  section_jobId : jstr;
  section_title : jstr;
  section_sortOrder : Z;
}.

Record Finding := mkFinding {
  finding_id : jstr;
  finding_sectionId : jstr;
  finding_text : jstr;
  finding_severity : Severity;
  finding_sortOrder : Z;
}.

Record ProcessingEvent := mkProcessingEvent {
  event_jobId : jstr;
  event_stage : jstr;
  event_status : jstr;
  event_message : option jstr;
}.

(** A job loaded with its report tree ([JobWithReport] of the mapper). *)
Record SectionWithFindings := mkSectionWithFindings {
  swf_section : ReportSection;
  swf_findings : list Finding;
}.
Record JobWithReport := mkJobWithReport {
  jwr_id : jstr;
  jwr_job : Job;
  jwr_sections : list SectionWithFindings;
}.

(** ** Arguments of the Prisma queries *)

(** A [where] on jobs: an absent field is no condition. *)
Record JobWhere := mkJobWhere {
  where_id : option jstr;
  where_userId : option jstr;
  where_idempotencyKey : option jstr;
  where_deletedAt : option (option Z);
}.

Definition opt_cond {A} `{EqDecision A} (o : option A) (v : A) : bool :=
  match o with None => true | Some x => bool_decide (x = v) end.

Definition job_matches (w : JobWhere) (id : jstr) (j : Job) : bool :=
  opt_cond (where_id w) id && opt_cond (where_userId w) (job_userId j)
  && match where_idempotencyKey w with
     | None => true
     | Some k => bool_decide (job_idempotencyKey j = Some k)
     end
  && opt_cond (where_deletedAt w) (job_deletedAt j).

(** The [data] of a job update: an absent field is left as it is. *)
Record JobData := mkJobData {
  data_label : option jstr;
  data_status : option JobStatus;
  data_transcript : option jstr;
  data_pdfKey : option jstr;
  data_errorMessage : option (option jstr);
  data_updatedAt : option Z;
  data_deletedAt : option Z;
}.
Definition no_data : JobData := mkJobData None None None None None None None.

Definition set_or_keep {A} (o : option A) (old : A) : A := default old o.

(** [now] is the time of the update: Prisma maintains [updatedAt] itself. *)
Definition apply_data (d : JobData) (now : Z) (j : Job) : Job :=
  {| job_userId := job_userId j;
     job_label := set_or_keep (data_label d) (job_label j);
     job_status := set_or_keep (data_status d) (job_status j);
     job_transcript := match data_transcript d with Some t => Some t | None => job_transcript j end;
     job_audioKey := job_audioKey j;
     job_pdfKey := match data_pdfKey d with Some k => Some k | None => job_pdfKey j end;
     job_errorMessage := set_or_keep (data_errorMessage d) (job_errorMessage j);
     job_idempotencyKey := job_idempotencyKey j;
     job_createdAt := job_createdAt j;
     job_updatedAt := set_or_keep (data_updatedAt d) now;
     job_deletedAt := match data_deletedAt d with Some t => Some t | None => job_deletedAt j end |}.

Record JobCreateData := mkJobCreateData {
  create_id : jstr;
  create_userId : jstr;
  create_label : jstr;
  create_audioKey : jstr;
  create_idempotencyKey : option jstr;
  create_status : JobStatus;
}.

Definition created_job (d : JobCreateData) (now : Z) : Job :=
  {| job_userId := create_userId d; job_label := create_label d;
     job_status := create_status d; job_transcript := None;
     job_audioKey := Some (create_audioKey d); job_pdfKey := None; job_errorMessage := None;
     job_idempotencyKey := create_idempotencyKey d; job_createdAt := now; job_updatedAt := now;
     job_deletedAt := None |}.

Record FindingCreateData := mkFindingCreateData {
  fc_sectionId : jstr;
  fc_text : jstr;
  fc_severity : Severity;
  fc_sortOrder : Z;
}.

(** ** Object storage and queues *)

Record StoredObject := mkStoredObject { object_body : list N; object_contentType : jstr }.

(** A presigned URL that has been issued, with what it authorises. *)
Inductive PresignedMethod := PUT (contentType : jstr) | GET.
Record Presigned := mkPresigned {
  presigned_url : jstr;
  presigned_method : PresignedMethod;
  presigned_key : jstr;
  presigned_ttl : Z;
}.

Record ProcessJobData := mkProcessJobData { data_jobId : jstr; data_userId : jstr }.

Record JobsOptions := mkJobsOptions {
  opts_jobId : jstr;
  opts_attempts : Z;
  opts_backoff : jstr * Z;
  opts_removeOnComplete : Z * Z;
  opts_removeOnFail : bool;
}.
Record BullJob := mkBullJob {
  bull_name : jstr;
  bull_data : ProcessJobData;
  bull_opts : JobsOptions;
  bull_state : jstr;
}.

(** An entry of the dead-letter queue. *)
Record DeadLetter := mkDeadLetter {
  dead_jobId : jstr;
  dead_userId : jstr;
  dead_error : jstr;
  dead_attemptsMade : Z;
}.

(** ** The observable state of the external services *)
Record Store := mkStore {
  users : gmap jstr User;
  refreshTokens : gmap jstr RefreshToken;
  jobs : gmap jstr Job;
  reportSections : list ReportSection;
  findings : list Finding;
  processingEvents : list ProcessingEvent;
  objects : gmap jstr StoredObject;
  presigned : list Presigned;
  queue : gmap jstr BullJob;
  dlq : list DeadLetter;
  clock : Z;
}.

(** Each setter replaces one part of the store. *)
Definition with_users (x : gmap jstr User) (s : Store) : Store :=
  mkStore x (refreshTokens s) (jobs s) (reportSections s) (findings s) (processingEvents s)
    (objects s) (presigned s) (queue s) (dlq s) (clock s).
Definition with_refreshTokens (x : gmap jstr RefreshToken) (s : Store) : Store :=
  mkStore (users s) x (jobs s) (reportSections s) (findings s) (processingEvents s)
    (objects s) (presigned s) (queue s) (dlq s) (clock s).
Definition with_jobs (x : gmap jstr Job) (s : Store) : Store :=
  mkStore (users s) (refreshTokens s) x (reportSections s) (findings s) (processingEvents s)
    (objects s) (presigned s) (queue s) (dlq s) (clock s).
Definition with_report (x : list ReportSection) (y : list Finding) (s : Store) : Store :=
  mkStore (users s) (refreshTokens s) (jobs s) x y (processingEvents s)
    (objects s) (presigned s) (queue s) (dlq s) (clock s).
Definition with_events (x : list ProcessingEvent) (s : Store) : Store :=
  mkStore (users s) (refreshTokens s) (jobs s) (reportSections s) (findings s) x
    (objects s) (presigned s) (queue s) (dlq s) (clock s).
Definition with_objects (x : gmap jstr StoredObject) (s : Store) : Store :=
  mkStore (users s) (refreshTokens s) (jobs s) (reportSections s) (findings s)
    (processingEvents s) x (presigned s) (queue s) (dlq s) (clock s).
Definition with_presigned (x : list Presigned) (s : Store) : Store :=
  mkStore (users s) (refreshTokens s) (jobs s) (reportSections s) (findings s)
    (processingEvents s) (objects s) x (queue s) (dlq s) (clock s).
Definition with_queue (x : gmap jstr BullJob) (s : Store) : Store :=
  mkStore (users s) (refreshTokens s) (jobs s) (reportSections s) (findings s)
    (processingEvents s) (objects s) (presigned s) x (dlq s) (clock s).
Definition with_dlq (x : list DeadLetter) (s : Store) : Store :=
  mkStore (users s) (refreshTokens s) (jobs s) (reportSections s) (findings s)
    (processingEvents s) (objects s) (presigned s) (queue s) x (clock s).
Definition with_clock (x : Z) (s : Store) : Store :=
  mkStore (users s) (refreshTokens s) (jobs s) (reportSections s) (findings s)
    (processingEvents s) (objects s) (presigned s) (queue s) (dlq s) x.

Definition empty_store : Store := mkStore ∅ ∅ ∅ [] [] [] ∅ [] ∅ [] 0.
