(* ===== verification/Services.v ===== *)
(** * The external services and their contract

    Everything the server awaits that is not under [src/]: Prisma over
    Postgres, the S3 client and presigner, BullMQ, node's clock and random
    generator, jose, the AI SDKs and Puppeteer.  [call] lists the calls the
    code makes with the arguments it passes; [call_spec] states what the
    documentation of each service promises about the answer and the state; an
    instance of [Services] is any implementation that keeps the promise. *)
From S2P Require Import Prelude Json Program Schema.

(** ** The shapes the SDKs return *)

(** Deepgram's [{ result, error }], with every optional link of
    [result?.results?.channels?.[0]?.alternatives?.[0]?.transcript]. *)
Record DeepgramAlternative := mkAlternative { transcript : option jstr }.
Record DeepgramChannel := mkChannel { alternatives : option (list DeepgramAlternative) }.
Record DeepgramResults := mkResults { channels : option (list DeepgramChannel) }.
Record DeepgramResult := mkResult { results : option DeepgramResults }.
Record DeepgramResponse := mkDeepgram {
  deepgram_result : option DeepgramResult;
  deepgram_error : option jstr;
}.

(** The part of a chat completion the report compiler reads. *)
Record ToolCall := mkToolCall { tool_name : jstr; tool_arguments : jstr }.
Record Choice := mkChoice { tool_calls : option (list ToolCall); finish_reason : option jstr }.
Record ChatRequest := mkChatRequest {
  chat_model : jstr;
  chat_max_tokens : Z;
  chat_temperature : Z;
  chat_messages : list (jstr * jstr);
  chat_tool : jstr;
  chat_tool_schema : json;
  chat_tool_choice : jstr;
}.

(** Cryptographic primitives the code treats as functions. *)
Class Crypto := {
  hmac_sha256_hex : jstr → jstr → jstr;
  sha256_hex : jstr → jstr;
  jwt_sign : jstr → claims → jstr;
  jwt_payload : jstr → jstr → option claims;
  (** the claims of a token signed with one of Apple's published keys *)
  apple_payload : jstr → option claims;
  jwt_payload_sign : ∀ key c, jwt_payload key (jwt_sign key c) = Some c;
  (** a compact serialization: base64url segments and dots *)
  jwt_sign_compact : ∀ key c, jwt_sign key c ≠ [] ∧ 32%N ∉ jwt_sign key c;
}.

(** ** The calls *)
Inductive call : Type → Type :=
  (* node and the JavaScript runtime *)
  | DateNow : call Z
  | RandomUUID : call jstr
  | RandomBytes48 : call jstr
  | TimerFired (ms : Z) : call bool
  | DrainStream (stream : list N) : call unit
  (* jose *)
  | SignJwt (key : jstr) (c : claims) : call jstr
  | JwtVerify (token key issuer audience : jstr) : call claims
  | AppleJwtVerify (token issuer audience : jstr) : call claims
  | DecodeJwt (token : jstr) : call claims
  (* Prisma: users and refresh tokens *)
  | UserUpsert (sub : jstr) (create_email : option jstr) (update_email : option jstr)
      : call (jstr * User)
  | UserFindUnique (id : jstr) : call (option User)
  | TokenFindUnique (hash : jstr) : call (option RefreshToken)
  | TokenUpdateManyActive (userId : jstr) (revoked : Z) : call nat
  | TokenUpdate (hash : jstr) (revoked : Z) (replacedBy : jstr) : call RefreshToken
  | TokenCreate (userId hash : jstr) (expires : Z) : call RefreshToken
  (* Prisma: jobs and their report *)
  | JobCreate (d : JobCreateData) : call JobWithReport
  | JobFindFirst (w : JobWhere) : call (option JobWithReport)
  | JobFindMany (w : JobWhere) (take : nat) (cursor : option jstr) : call (list JobWithReport)
  | JobUpdateMany (w : JobWhere) (d : JobData) : call nat
  | JobUpdate (w : JobWhere) (d : JobData) : call Job
  | JobFindUniqueRaw (id : jstr) : call (option Job)
  | FindingDeleteMany (jobId : jstr) : call nat
  | SectionDeleteMany (jobId : jstr) : call nat
  | SectionCreate (jobId title : jstr) (sortOrder : Z) : call ReportSection
  | FindingCreateMany (d : list FindingCreateData) : call nat
  | EventCreate (e : ProcessingEvent) : call unit
  | InvalidQuery : call unit
  (* S3 *)
  | HeadObject (key : jstr) : call unit
  | GetObject (key : jstr) : call (option (list N))
  | PutObject (key : jstr) (body : list N) (contentType : jstr) : call unit
  | DeleteObjects (keys : list jstr) : call unit
  | PresignPut (key contentType : jstr) (ttl : Z) : call jstr
  | PresignGet (key : jstr) (ttl : Z) : call jstr
  | CreateBucket (bucket : jstr) : call unit
  (* BullMQ *)
  | QueueGetJob (id : jstr) : call bool
  | QueueGetState (id : jstr) : call jstr
  | QueueRemove (id : jstr) : call unit
  | QueueAdd (name : jstr) (d : ProcessJobData) (opts : JobsOptions) : call unit
  | DlqAdd (name : jstr) (d : DeadLetter) : call unit
  (* AI SDKs and Puppeteer *)
  | DeepgramTranscribe (audio : list N) (model language : jstr) : call DeepgramResponse
  | OpenAiTranscribe (audio : list N) (filename model : jstr) (language : option jstr)
      : call (option jstr)
  | ChatCompletion (req : ChatRequest) : call (list Choice)
  | BrowserLaunch : call nat
  | BrowserConnected (browser : nat) : call bool
  | BrowserClose (browser : nat) : call unit
  | NewPage (browser : nat) : call nat
  | SetContent (page : nat) (html : jstr) : call unit
  | PagePdf (page : nat) : call (list N)
  | ClosePage (page : nat) : call unit.

(** A program awaits single calls and interactive Prisma transactions, whose
    callback is itself a program of calls. *)
Inductive eff : Type → Type :=
  | Do {X} (c : call X) : eff X
  | Transaction {X} (body : prog call X) : eff X.

Definition await {X} (c : call X) : prog eff X := perform (Do c).
Definition transaction {X} (body : prog call X) : prog eff X := perform (Transaction body).

(** ** What the queries mean *)

(** The orders of [JOB_REPORT_INCLUDE] leave ties to the database. *)
Definition findings_of (s : Store) (sid : jstr) (fs : list Finding) : Prop :=
  fs ≡ₚ filter (λ f, finding_sectionId f = sid) (findings s) ∧ ordered finding_sortOrder fs.

Definition report_of (s : Store) (id : jstr) (secs : list SectionWithFindings) : Prop :=
  (swf_section <$> secs) ≡ₚ filter (λ x, section_jobId x = id) (reportSections s)
  ∧ ordered section_sortOrder (swf_section <$> secs)
  ∧ Forall (λ x, findings_of s (section_id (swf_section x)) (swf_findings x)) secs.

Definition loaded (s : Store) (j : JobWithReport) : Prop :=
  jobs s !! jwr_id j = Some (jwr_job j) ∧ report_of s (jwr_id j) (jwr_sections j).

(** [orderBy: [{ createdAt: 'desc' }, { id: 'desc' }]] *)
Definition page_before (a b : jstr * Job) : Prop :=
  (job_createdAt b.2 < job_createdAt a.2)%Z
  ∨ (job_createdAt a.2 = job_createdAt b.2 ∧ jstr_ltb b.1 a.1 = true).

Definition matching_jobs (s : Store) (w : JobWhere) : list (jstr * Job) :=
  filter (λ p, job_matches w p.1 p.2 = true) (map_to_list (jobs s)).

(** [take] rows of the ordered selection, after the cursor's row when the
    cursor is one of its rows.  For a cursor outside the selection only the
    scope and the length of the page are promised. *)
Definition page_of {A} (full : list (jstr * A)) (n : nat) (cursor : option jstr)
    (rows : list (jstr * A)) : Prop :=
  match cursor with
  | None => rows = take n full
  | Some c =>
      match list_find (λ p, p.1 = c) full with
      | Some (k, _) => rows = take n (drop (S k) full)
      | None => rows `sublist_of` full ∧ length rows ≤ n
      end
  end.

(** Errors of the services themselves (lost connections, throttling, bad keys).
    None carries the application's [permanent] mark, and only S3's own "not
    found" looks like one. *)
Definition isNotFound_like (f : foreign) : bool :=
  bool_decide (f_name f = js "NotFound") || bool_decide (f_name f = js "NoSuchKey")
  || bool_decide (f_status f = Some 404%Z).
Definition infra (e : exn) : Prop :=
  ∃ f, e = External f ∧ isNotFound_like f = false ∧ f_permanent f = false
       ∧ f_name f ≠ js "UnrecoverableError".
Definition not_found (e : exn) : Prop :=
  ∃ f, e = External f ∧ isNotFound_like f = true ∧ f_permanent f = false.

Definition prisma_error (code : string) (e : exn) : Prop :=
  ∃ message, e = PrismaClientKnownRequestError message (js code).

(** A write happens at a time of the database's clock, which never runs back. *)
Definition at_time (s : Store) (P : Z → Prop) : Prop := ∃ t, (clock s ≤ t)%Z ∧ P t.

Definition duplicate_job (s : Store) (d : JobCreateData) : Prop :=
  is_Some (jobs s !! create_id d)
  ∨ ∃ k id j, create_idempotencyKey d = Some k ∧ jobs s !! id = Some j
              ∧ job_userId j = create_userId d ∧ job_idempotencyKey j = Some k.

Definition add_findings (ids : list jstr) (d : list FindingCreateData) : list Finding :=
  zip_with (λ id x, mkFinding id (fc_sectionId x) (fc_text x) (fc_severity x) (fc_sortOrder x)) ids d.

(** ** The contract of one call *)
Section Contract.
Context {Cr : Crypto}.

Definition read {X} (s : Store) (r : exn + X) (s' : Store) (P : X → Prop) : Prop :=
  s' = s ∧ ∃ x, r = inr x ∧ P x.
Definition rejects {X} (s : Store) (r : exn + X) (s' : Store) (P : exn → Prop) : Prop :=
  s' = s ∧ ∃ e, r = inl e ∧ P e.

(** The numeric date claim [exp], compared in whole seconds by jose. *)
Definition jwt_accepts (c : claims) (issuer audience : jstr) (now : Z) : Prop :=
  jget (js "iss") c = Some (JStr issuer) ∧ jget (js "aud") c = Some (JStr audience)
  ∧ ∀ v, jget (js "exp") c = Some v → ∃ t, v = JNum t ∧ (now / 1000 < t)%Z.

Definition call_spec {X} (c : call X) : Store → exn + X → Store → Prop :=
  match c in call X return Store → exn + X → Store → Prop with
  | DateNow => λ s r s', at_time s (λ t, r = inr t ∧ s' = with_clock t s)
  | RandomUUID => λ s r s', read s r s' (λ id, jobs s !! id = None)
  | RandomBytes48 => λ s r s', read s r s' (λ t,
      ∀ secret, refreshTokens s !! hmac_sha256_hex secret t = None)
  | TimerFired _ => λ s r s', read s r s' (λ b, b = false)
  | DrainStream _ => λ s r s', read s r s' (λ _, True)
  | SignJwt key c => λ s r s', read s r s' (λ t, t = jwt_sign key c)
  | JwtVerify tok key iss aud => λ s r s',
      read s r s' (λ c, jwt_payload key tok = Some c ∧ jwt_accepts c iss aud (clock s))
      ∨ rejects s r s' infra ∧ (∀ c, jwt_payload key tok = Some c → ¬ jwt_accepts c iss aud (clock s))
  | AppleJwtVerify tok iss aud => λ s r s',
      read s r s' (λ c, apple_payload tok = Some c ∧ jwt_accepts c iss aud (clock s))
      ∨ rejects s r s' infra
  | DecodeJwt _ => λ s r s', read s r s' (λ _, True) ∨ rejects s r s' infra
  | UserUpsert sub ce ue => λ s r s',
      (∃ id u, users s !! id = Some u ∧ appleSub u = sub
         ∧ let u' := mkUser sub (match ue with Some x => Some x | None => email u end) in
           r = inr (id, u') ∧ s' = with_users (<[id := u']> (users s)) s)
      ∨ (∃ id, users s !! id = None ∧ (∀ i u, users s !! i = Some u → appleSub u ≠ sub)
           ∧ let u' := mkUser sub ce in r = inr (id, u') ∧ s' = with_users (<[id := u']> (users s)) s)
  | UserFindUnique id => λ s r s', read s r s' (λ o, o = users s !! id)
  | TokenFindUnique h => λ s r s', read s r s' (λ o, o = refreshTokens s !! h)
  | TokenUpdateManyActive uid t => λ s r s', ∃ n, r = inr n
      ∧ s' = with_refreshTokens
               ((λ x, if bool_decide (rt_userId x = uid ∧ revokedAt x = None)
                      then mkRefreshToken (rt_userId x) (expiresAt x) (Some t) (replacedByTokenHash x)
                      else x) <$> refreshTokens s) s
  | TokenUpdate h t by_ => λ s r s',
      (∃ x, refreshTokens s !! h = Some x
        ∧ let x' := mkRefreshToken (rt_userId x) (expiresAt x) (Some t) (Some by_) in
          r = inr x' ∧ s' = with_refreshTokens (<[h := x']> (refreshTokens s)) s)
      ∨ refreshTokens s !! h = None ∧ rejects s r s' (prisma_error "P2025")
  | TokenCreate uid h e => λ s r s',
      (refreshTokens s !! h = None ∧ is_Some (users s !! uid)
        ∧ let x := mkRefreshToken uid e None None in
          r = inr x ∧ s' = with_refreshTokens (<[h := x]> (refreshTokens s)) s)
      ∨ is_Some (refreshTokens s !! h) ∧ rejects s r s' (prisma_error "P2002")
      ∨ users s !! uid = None ∧ rejects s r s' (prisma_error "P2003")
  | JobCreate d => λ s r s',
      (¬ duplicate_job s d ∧ is_Some (users s !! create_userId d)
        ∧ at_time s (λ t, let j := created_job d t in
            s' = with_clock t (with_jobs (<[create_id d := j]> (jobs s)) s)
            ∧ ∃ secs, r = inr (mkJobWithReport (create_id d) j secs) ∧ report_of s' (create_id d) secs))
      ∨ duplicate_job s d ∧ rejects s r s' (prisma_error "P2002")
      ∨ users s !! create_userId d = None ∧ rejects s r s' (prisma_error "P2003")
  | JobFindFirst w => λ s r s', read s r s' (λ o,
      match o with
      | Some j => loaded s j ∧ job_matches w (jwr_id j) (jwr_job j) = true
      | None => ∀ id j, jobs s !! id = Some j → job_matches w id j = false
      end)
  | JobFindMany w n cursor => λ s r s', read s r s' (λ l,
      Forall (loaded s) l
      ∧ ∃ full, full ≡ₚ matching_jobs s w ∧ StronglySorted (λ a b, ¬ page_before b a) full
                ∧ page_of full n cursor ((λ x, (jwr_id x, jwr_job x)) <$> l))
  | JobUpdateMany w d => λ s r s', at_time s (λ t,
      r = inr (length (matching_jobs s w))
      ∧ s' = with_clock t (with_jobs
               (map_imap (λ id j, Some (if job_matches w id j then apply_data d t j else j)) (jobs s)) s))
  | JobUpdate w d => λ s r s',
      (∃ id j, jobs s !! id = Some j ∧ job_matches w id j = true
        ∧ at_time s (λ t, r = inr (apply_data d t j)
             ∧ s' = with_clock t (with_jobs (<[id := apply_data d t j]> (jobs s)) s)))
      ∨ (∀ id j, jobs s !! id = Some j → job_matches w id j = false)
        ∧ rejects s r s' (prisma_error "P2025")
  | JobFindUniqueRaw id => λ s r s', read s r s' (λ o, o = jobs s !! id)
  | FindingDeleteMany jid => λ s r s', ∃ n, r = inr n
      ∧ s' = with_report (reportSections s)
               (filter (λ f, Forall (λ x, section_jobId x = jid → section_id x ≠ finding_sectionId f)
                               (reportSections s)) (findings s)) s
  | SectionDeleteMany jid => λ s r s', ∃ n, r = inr n
      ∧ s' = with_report (filter (λ x, section_jobId x ≠ jid) (reportSections s))
               (filter (λ f, Forall (λ x, section_jobId x = jid → section_id x ≠ finding_sectionId f)
                               (reportSections s)) (findings s)) s
  | SectionCreate jid title so => λ s r s',
      (is_Some (jobs s !! jid)
        ∧ ∃ id, Forall (λ x, section_id x ≠ id) (reportSections s)
             ∧ Forall (λ f, finding_sectionId f ≠ id) (findings s)
             ∧ let x := mkReportSection id jid title so in
               r = inr x ∧ s' = with_report (reportSections s ++ [x]) (findings s) s)
      ∨ jobs s !! jid = None ∧ rejects s r s' (prisma_error "P2003")
  | FindingCreateMany d => λ s r s',
      (∃ ids, length ids = length d ∧ NoDup ids
           ∧ Forall (λ i, Forall (λ f, finding_id f ≠ i) (findings s)) ids
           ∧ r = inr (length d)
           ∧ s' = with_report (reportSections s) (findings s ++ add_findings ids d) s)
      ∨ (¬ Forall (λ x, Exists (λ y, section_id y = fc_sectionId x) (reportSections s)) d)
        ∧ rejects s r s' (prisma_error "P2003")
  | EventCreate e => λ s r s',
      (is_Some (jobs s !! event_jobId e) ∧ r = inr tt
        ∧ s' = with_events (processingEvents s ++ [e]) s)
      ∨ jobs s !! event_jobId e = None ∧ rejects s r s' (prisma_error "P2003")
  | InvalidQuery => λ s r s', rejects s r s' infra
  | HeadObject k => λ s r s',
      is_Some (objects s !! k) ∧ read s r s' (λ _, True)
      ∨ objects s !! k = None ∧ rejects s r s' not_found
  | GetObject k => λ s r s',
      (∃ o, objects s !! k = Some o ∧ read s r s' (λ b, b = Some (object_body o)))
      ∨ objects s !! k = None ∧ rejects s r s' not_found
  | PutObject k b ct => λ s r s', r = inr tt
      ∧ s' = with_objects (<[k := mkStoredObject b ct]> (objects s)) s
  | DeleteObjects ks => λ s r s', r = inr tt
      ∧ s' = with_objects (filter (λ p, p.1 ∉ ks) (objects s)) s
  | PresignPut k ct ttl => λ s r s', ∃ url, r = inr url
      ∧ s' = with_presigned (presigned s ++ [mkPresigned url (PUT ct) k ttl]) s
  | PresignGet k ttl => λ s r s', ∃ url, r = inr url
      ∧ s' = with_presigned (presigned s ++ [mkPresigned url GET k ttl]) s
  | CreateBucket _ => λ s r s', read s r s' (λ _, True) ∨ rejects s r s' infra
  | QueueGetJob id => λ s r s', read s r s' (λ b, b = bool_decide (is_Some (queue s !! id)))
  | QueueGetState id => λ s r s', read s r s' (λ st,
      match queue s !! id with Some j => st = bull_state j | None => st = js "unknown" end)
  | QueueRemove id => λ s r s', r = inr tt ∧ s' = with_queue (delete id (queue s)) s
  | QueueAdd name d opts => λ s r s', r = inr tt
      ∧ s' = (match queue s !! opts_jobId opts with
              | Some _ => s
              | None => with_queue (<[opts_jobId opts := mkBullJob name d opts (js "waiting")]> (queue s)) s
              end)
  | DlqAdd _ d => λ s r s', r = inr tt ∧ s' = with_dlq (dlq s ++ [d]) s
  | DeepgramTranscribe _ _ _ => λ s r s', read s r s' (λ _, True)
  | OpenAiTranscribe _ _ _ _ => λ s r s', read s r s' (λ _, True)
  | ChatCompletion _ => λ s r s', read s r s' (λ _, True)
  | BrowserLaunch => λ s r s', read s r s' (λ _, True)
  | BrowserConnected _ => λ s r s', read s r s' (λ _, True)
  | BrowserClose _ => λ s r s', read s r s' (λ _, True)
  | NewPage _ => λ s r s', read s r s' (λ _, True)
  | SetContent _ _ => λ s r s', read s r s' (λ _, True)
  | PagePdf _ => λ s r s', read s r s' (λ _, True)
  | ClosePage _ => λ s r s', read s r s' (λ _, True)
  end.

(** Unreliable services ([faults = true]) may also reject any call without
    having had an effect, and any timer may be due; the clock and the random
    generator do not fail. *)
Definition call_fault {X} (c : call X) : Store → exn + X → Store → Prop :=
  match c in call X return Store → exn + X → Store → Prop with
  | TimerFired _ => λ s r s', read s r s' (λ b, b = true)
  | DateNow | RandomUUID | RandomBytes48 => λ _ _ _, False
  | _ => λ s r s', rejects s r s' infra
  end.

Definition call_contract (faults : bool) : contract call Store := λ X c s r s',
  call_spec c s r s' ∨ faults = true ∧ call_fault c s r s'.

(** A transaction commits the effect of its callback, or leaves the database
    as it was when the callback throws or the commit fails. *)
Definition eff_contract (faults : bool) : contract eff Store := λ X e,
  match e in eff X return Store → exn + X → Store → Prop with
  | Do c => call_contract faults _ c
  | Transaction body => λ s r s',
      (∃ x, r = inr x ∧ runs (call_contract faults) body s r s')
      ∨ (∃ e s1, r = inl e ∧ runs (call_contract faults) body s r s1
                 ∧ s' = with_clock (clock s1) s)
      ∨ faults = true ∧ rejects s r s' infra
  end.
End Contract.

(** ** Implementations *)

(** A world, what of it can be observed, and handlers that keep the contract. *)
Class Services `{Cr : Crypto} := {
  world : Type;
  view : world → Store;
  faults : bool;
  handle : handler eff world;
  handle_ok : ∀ X (c : eff X) w,
    eff_contract faults X c (view w) (handle X c w).1 (view (handle X c w).2);
}.

(** [ensures p w Q]: running [p] in the world [w] ends in a result and an
    observable state related by [Q]. *)
Definition ensures `{Hs : Services} {A} (p : prog eff A) (w : world) (Q : exn + A → Store → Prop) : Prop :=
  Q (exec handle p w).1 (view (exec handle p w).2).

Lemma ensures_wp `{Hs : Services} {A} (p : prog eff A) w Q :
  wp (eff_contract faults) p (view w) Q → ensures p w Q.
Proof. exact (exec_wp (eff_contract faults) handle view handle_ok p w Q). Qed.

(** ** Stepping through a program *)

Lemma wp_await (C : contract eff Store) {X} (c : call X) s Q :
  (∀ r s', C _ (Do c) s r s' → Q r s') → wp C (await c) s Q.
Proof. apply wp_perform. Qed.

(** A transaction: its callback runs call by call, and is undone if it throws. *)
Lemma wp_transaction `{Cr : Crypto} f {X} (body : prog call X) s Q :
  wp (call_contract f) body s (λ r s1,
    match r with
    | inr x => Q (inr x) s1
    | inl e => Q (inl e) (with_clock (clock s1) s)
    end) →
  (∀ e, f = true → infra e → Q (inl e) s) →
  wp (eff_contract f) (transaction body) s Q.
Proof.
  rewrite (wp_runs (call_contract f)). intros Hb Hf. apply wp_perform.
  intros r s' [(x & -> & Hr)|[(e & s1 & -> & Hr & ->)|(Ht & -> & e & -> & He)]].
  - apply (Hb _ _ Hr).
  - apply (Hb _ _ Hr).
  - by apply Hf.
Qed.

(** Reduce the finished parts of a program. *)
Ltac wp_simpl := cbn [wp bind try_catch for_each].

(** One await: expose the contract of the call. *)
Ltac wp_call :=
  wp_simpl;
  lazymatch goal with
  | |- wp _ (bind _ _) _ _ => apply wp_bind; wp_call
  | |- wp _ (try_catch _ _) _ _ => apply wp_try_catch; wp_call
  | |- wp _ (await _) _ _ => apply wp_await
  | |- wp _ (perform _) _ _ => apply wp_perform
  end.
