(* ===== verification/JsDate.v ===== *)
(** * JavaScript dates

    A [Date] is a number of milliseconds since 1970-01-01T00:00:00Z.  This file
    gives the UTC accessors and [toISOString] that the job mapper and the report
    renderer use, over the proleptic Gregorian calendar. *)
From S2P Require Import Prelude.

Local Open Scope Z_scope.

Definition ms_per_day : Z := 86400000.

(** Day number of the Unix epoch to year, month (1-12) and day of the month,
    by 400-year eras that start on the first of March. *)
Definition civil_of_doe (doe : Z) : Z * Z * Z :=
  let yoe := (doe - doe / 1460 + doe / 36524 - doe / 146096) / 365 in
  let doy := doe - (365 * yoe + yoe / 4 - yoe / 100) in
  let mp := (5 * doy + 2) / 153 in
  let d := doy - (153 * mp + 2) / 5 + 1 in
  let m := if decide (mp < 10) then mp + 3 else mp - 9 in
  (if decide (m ≤ 2) then yoe + 1 else yoe, m, d).

Definition civil_from_days (z : Z) : Z * Z * Z :=
  let z := z + 719468 in
  let '(y, m, d) := civil_of_doe (z mod 146097) in
  (y + 400 * (z / 146097), m, d).

(** The day number of a date, the specification of the conversion. *)
Definition days_from_civil (y m d : Z) : Z :=
  let y := if decide (m ≤ 2) then y - 1 else y in
  let era := y / 400 in
  let yoe := y mod 400 in
  let doy := (153 * (if decide (2 < m) then m - 3 else m + 9) + 2) / 5 + d - 1 in
  let doe := yoe * 365 + yoe / 4 - yoe / 100 + doy in
  era * 146097 + doe - 719468.

(** ** The accessors *)
Definition getUTCFullYear (ms : Z) : Z := (civil_from_days (ms / ms_per_day)).1.1.
(** [getUTCMonth] counts from zero. *)
Definition getUTCMonth (ms : Z) : Z := (civil_from_days (ms / ms_per_day)).1.2 - 1.
Definition getUTCDate (ms : Z) : Z := (civil_from_days (ms / ms_per_day)).2.
Definition getUTCHours (ms : Z) : Z := (ms mod ms_per_day) / 3600000.
Definition getUTCMinutes (ms : Z) : Z := (ms mod 3600000) / 60000.
Definition getUTCSeconds (ms : Z) : Z := (ms mod 60000) / 1000.
Definition getUTCMilliseconds (ms : Z) : Z := ms mod 1000.

(** [String(n).padStart(w, '0')] *)
Definition padStart0 (w : nat) (s : jstr) : jstr := replicate (w - length s) 48%N ++ s.
Definition pad (w : nat) (n : Z) : jstr := padStart0 w (js_of_Z n).

Definition iso_year (y : Z) : jstr :=
  if decide (0 ≤ y ≤ 9999) then pad 4 y
  else (if decide (y < 0) then js "-" else js "+") ++ pad 6 (Z.abs y).

Definition toISOString (ms : Z) : jstr :=
  iso_year (getUTCFullYear ms) ++ js "-" ++ pad 2 (getUTCMonth ms + 1) ++ js "-"
  ++ pad 2 (getUTCDate ms) ++ js "T" ++ pad 2 (getUTCHours ms) ++ js ":"
  ++ pad 2 (getUTCMinutes ms) ++ js ":" ++ pad 2 (getUTCSeconds ms) ++ js "."
  ++ pad 3 (getUTCMilliseconds ms) ++ js "Z".

(** ** The calendar is right *)

(** The year of the era and the day of that year, by linear arithmetic. *)
Lemma year_of_era_ok doe :
  0 ≤ doe < 146097 →
  let yoe := (doe - doe / 1460 + doe / 36524 - doe / 146096) / 365 in
  let doy := doe - (365 * yoe + yoe / 4 - yoe / 100) in
  0 ≤ doy ≤ 365 ∧ 0 ≤ yoe < 400.
Proof.
  intros H. cbv zeta.
  assert (Hm : doe / 146096 = if (doe =? 146096)%Z then 1 else 0).
  { destruct (Z.eqb_spec doe 146096); Z.to_euclidean_division_equations; lia. }
  rewrite Hm. clear Hm. set (c := doe / 36524). set (q := doe / 1460).
  assert (0 ≤ c ≤ 4) as Hc by (subst c; Z.to_euclidean_division_equations; lia).
  assert (1460 * q ≤ doe < 1460 * q + 1460) as Hq
    by (subst q; Z.to_euclidean_division_equations; lia).
  assert (36524 * c ≤ doe < 36524 * c + 36524) as Hcc
    by (subst c; Z.to_euclidean_division_equations; lia).
  clearbody c q. destruct (Z.eqb_spec doe 146096); Z.to_euclidean_division_equations; lia.
Qed.

(** Month and day of every day of the year, by evaluation. *)
Definition month_day_ok (doy : Z) : bool :=
  let mp := (5 * doy + 2) / 153 in
  let d := doy - (153 * mp + 2) / 5 + 1 in
  let m := if decide (mp < 10) then mp + 3 else mp - 9 in
  (1 <=? m) && (m <=? 12) && (1 <=? d) && (d <=? 31)
  && ((153 * (if decide (2 < m) then m - 3 else m + 9) + 2) / 5 + d - 1 =? doy).

Lemma month_day_checked : forallb month_day_ok (Z.of_nat <$> seq 0 366) = true.
Proof. vm_compute. reflexivity. Qed.

Lemma month_day_spec doy : 0 ≤ doy ≤ 365 → month_day_ok doy = true.
Proof.
  intros H. pose proof month_day_checked as Hc. rewrite forallb_forall in Hc.
  apply Hc, list_elem_of_In, list_elem_of_fmap. exists (Z.to_nat doy).
  split; [lia|]. apply elem_of_seq. lia.
Qed.

Lemma civil_of_doe_ok doe : 0 ≤ doe < 146097 →
  let '(y, m, d) := civil_of_doe doe in
  days_from_civil y m d + 719468 = doe ∧ 1 ≤ m ≤ 12 ∧ 1 ≤ d ≤ 31.
Proof.
  intros H. destruct (year_of_era_ok doe H) as [Hdoy Hyoe]. unfold civil_of_doe.
  set (yoe := (doe - _ + _ - _) / 365) in *. set (doy := doe - (365 * yoe + yoe / 4 - yoe / 100)) in *.
  pose proof (month_day_spec doy Hdoy) as Hmd. unfold month_day_ok in Hmd.
  repeat rewrite andb_true_iff in Hmd.
  set (mp := (5 * doy + 2) / 153) in *. set (d := doy - (153 * mp + 2) / 5 + 1) in *.
  set (m := if decide (mp < 10) then mp + 3 else mp - 9) in *.
  destruct Hmd as [[[[H1%Z.leb_le H2%Z.leb_le] H3%Z.leb_le] H4%Z.leb_le] H5%Z.eqb_eq].
  clearbody m. split; [|clearbody d; lia]. unfold days_from_civil. cbv zeta.
  assert ((if decide (m ≤ 2) then (if decide (m ≤ 2) then yoe + 1 else yoe) - 1
           else if decide (m ≤ 2) then yoe + 1 else yoe) = yoe) as ->.
  { clear. destruct (decide (m ≤ 2)); lia. }
  rewrite (Z.div_small yoe 400), (Z.mod_small yoe 400) by lia.
  assert (doe = 365 * yoe + yoe / 4 - yoe / 100 + doy) by (unfold doy; lia).
  clearbody d doy yoe. lia.
Qed.

Lemma days_from_civil_era y m d k :
  days_from_civil (y + 400 * k) m d = days_from_civil y m d + 146097 * k.
Proof.
  unfold days_from_civil. cbv zeta.
  assert (∀ a, (a + 400 * k) / 400 = a / 400 + k) as Hdiv.
  { intros a. replace (a + 400 * k) with (a + k * 400) by lia. by rewrite Z.div_add. }
  assert (∀ a, (a + 400 * k) mod 400 = a mod 400) as Hmod.
  { intros a. replace (a + 400 * k) with (a + k * 400) by lia. by rewrite Z.mod_add. }
  destruct (decide (m ≤ 2)).
  - replace (y + 400 * k - 1) with (y - 1 + 400 * k) by lia. rewrite Hdiv, Hmod. lia.
  - rewrite Hdiv, Hmod. lia.
Qed.

Lemma civil_from_days_ok z :
  let '(y, m, d) := civil_from_days z in
  days_from_civil y m d = z ∧ 1 ≤ m ≤ 12 ∧ 1 ≤ d ≤ 31.
Proof.
  unfold civil_from_days. set (u := z + 719468).
  pose proof (Z.mod_pos_bound u 146097 eq_refl) as Hb.
  pose proof (civil_of_doe_ok _ Hb) as Hok.
  destruct (civil_of_doe (u mod 146097)) as [[y m] d]. destruct Hok as (Hd & Hm & Hday).
  rewrite days_from_civil_era. pose proof (Z.div_mod u 146097 ltac:(lia)). unfold u in *. lia.
Qed.

Lemma getUTCMonth_range ms : 0 ≤ getUTCMonth ms < 12.
Proof.
  unfold getUTCMonth. pose proof (civil_from_days_ok (ms / ms_per_day)) as H.
  destruct (civil_from_days _) as [[y m] d]. simpl in *. lia.
Qed.

(** The date and the time of day determine the instant to the minute. *)
Lemma utc_fields_ok ms :
  days_from_civil (getUTCFullYear ms) (getUTCMonth ms + 1) (getUTCDate ms) = ms / ms_per_day
  ∧ ms mod ms_per_day =
      3600000 * getUTCHours ms + 60000 * getUTCMinutes ms + 1000 * getUTCSeconds ms
      + getUTCMilliseconds ms
  ∧ 0 ≤ getUTCHours ms < 24 ∧ 0 ≤ getUTCMinutes ms < 60.
Proof.
  split.
  - unfold getUTCFullYear, getUTCMonth, getUTCDate.
    pose proof (civil_from_days_ok (ms / ms_per_day)) as H.
    destruct (civil_from_days _) as [[y m] d]. simpl.
    replace (m - 1 + 1) with m by lia. tauto.
  - unfold getUTCHours, getUTCMinutes, getUTCSeconds, getUTCMilliseconds, ms_per_day.
    split; [|split]; Z.to_euclidean_division_equations; lia.
Qed.

Example iso_epoch : toISOString 0 = js "1970-01-01T00:00:00.000Z".
Proof. reflexivity. Qed.
Example iso_2026 : toISOString 1780581900123 = js "2026-06-04T14:05:00.123Z".
Proof. reflexivity. Qed.
