(* ===== verification/Memory.v ===== *)
(** * An in-memory implementation of the external services

    The services of the contract kept in a [Store], with the answers of the AI
    SDKs read from a script and faults injected by a schedule.  It shows that
    the contract can be kept, and runs the concrete scenarios of the
    development. *)
From S2P Require Import Prelude Json Program Schema Services.

(** ** Toy cryptography *)

Definition toy_sign (key : jstr) (c : claims) : jstr := [Npos (xI (encode (key, c)))].
Definition toy_payload (key tok : jstr) : option claims :=
  match tok with
  | [Npos (xI p)] =>
      match decode p with
      | Some (key', c) => if decide (key' = key) then Some c else None
      | None => None
      end
  | _ => None
  end.

#[export] Instance toy_crypto : Crypto.
Proof.
  refine {| hmac_sha256_hex := λ secret t, secret ++ t;
            sha256_hex := λ s, js "sha256:" ++ s;
            jwt_sign := toy_sign; jwt_payload := toy_payload;
            apple_payload := toy_payload (js "apple") |}.
  - intros key c. unfold toy_payload, toy_sign. rewrite decode_encode.
    by rewrite decide_True by done.
  - intros key c. split; [done|]. intros [H|H%not_elem_of_nil]%elem_of_cons; done.
Defined.

(** ** Fresh keys *)

Definition longer (ks : list jstr) (n : nat) : jstr :=
  replicate (S (max_list (length <$> ks) + n)) 97%N.

Lemma longer_fresh ks n k : k ∈ ks → length k < length (longer ks n).
Proof.
  intros Hk. unfold longer. rewrite length_replicate.
  assert (length k ≤ max_list (length <$> ks)); [|lia].
  apply max_list_elem_of_le. by apply list_elem_of_fmap_2.
Qed.

Lemma longer_notin ks n : longer ks n ∉ ks.
Proof. intros H. apply (longer_fresh ks n) in H. lia. Qed.

Definition keys {V} (m : gmap jstr V) : list jstr := (map_to_list m).*1.

Lemma longer_lookup {V} (m : gmap jstr V) n k : length (longer (keys m) n) ≤ length k → m !! k = None.
Proof.
  intros Hle. apply eq_None_not_Some. intros [v Hv].
  assert (k ∈ keys m) as Hk.
  { unfold keys. apply list_elem_of_fmap. exists (k, v). split; [done|]. by apply elem_of_map_to_list. }
  apply (longer_fresh _ n) in Hk. lia.
Qed.

(** ** The state and the answers of the services *)

Record Script := mkScript {
  sc_deepgram : list DeepgramResponse;
  sc_openai : list (option jstr);
  sc_chat : list (list Choice);
  sc_claims : list claims;
  (** one entry per call: whether the call fails (or its timer is due) *)
  sc_faults : list bool;
}.
Definition quiet : Script := mkScript [] [] [] [] [].

Record memory := mkMemory { m_store : Store; m_script : Script }.

Definition service_down : exn := External (Foreign (js "Error") (js "service unavailable") false None).
Definition no_such_key : exn := External (Foreign (js "NotFound") (js "not found") false (Some 404%Z)).
Definition prisma_reject (code : string) : exn :=
  PrismaClientKnownRequestError (js "constraint failed") (js code).

Definition load_report (s : Store) (id : jstr) : list SectionWithFindings :=
  (λ x, mkSectionWithFindings x
     (sortOn finding_sortOrder (filter (λ f, finding_sectionId f = section_id x) (findings s))))
  <$> sortOn section_sortOrder (filter (λ x, section_jobId x = id) (reportSections s)).
Definition load_job (s : Store) (p : jstr * Job) : JobWithReport :=
  mkJobWithReport p.1 p.2 (load_report s p.1).

#[export] Instance page_before_dec a b : Decision (page_before a b).
Proof. unfold page_before. apply _. Defined.
Definition page_le (a b : jstr * Job) : Prop := ¬ page_before b a.
#[export] Instance page_le_dec a b : Decision (page_le a b).
Proof. unfold page_le. apply _. Defined.

Definition full_page (s : Store) (w : JobWhere) : list (jstr * Job) :=
  merge_sort page_le (matching_jobs s w).
Definition mem_page (full : list (jstr * Job)) (n : nat) (cursor : option jstr) : list (jstr * Job) :=
  match cursor with
  | None => take n full
  | Some c =>
      match list_find (λ p, p.1 = c) full with
      | Some (k, _) => take n (drop (S k) full)
      | None => []
      end
  end.

Definition jwt_acceptsb (c : claims) (iss aud : jstr) (now : Z) : bool :=
  bool_decide (jget (js "iss") c = Some (JStr iss))
  && bool_decide (jget (js "aud") c = Some (JStr aud))
  && match jget (js "exp") c with
     | None => true
     | Some (JNum t) => bool_decide (now / 1000 < t)%Z
     | Some _ => false
     end.

Definition duplicateb (s : Store) (d : JobCreateData) : bool :=
  bool_decide (is_Some (jobs s !! create_id d))
  || match create_idempotencyKey d with
     | None => false
     | Some k => bool_decide (Exists (λ p, job_userId p.2 = create_userId d
                                           ∧ job_idempotencyKey p.2 = Some k) (map_to_list (jobs s)))
     end.

(** The answer of a working service. *)
Definition mem_ok {X} (c : call X) (m : memory) : (exn + X) * memory :=
  let s := m_store m in
  let sc := m_script m in
  let put s' := mkMemory s' sc in
  match c in call X return (exn + X) * memory with
  | DateNow => (inr (clock s + 1)%Z, put (with_clock (clock s + 1) s))
  | RandomUUID => (inr (longer (keys (jobs s)) 0), m)
  | RandomBytes48 => (inr (longer (keys (refreshTokens s)) 0), m)
  | TimerFired _ => (inr false, m)
  | DrainStream _ => (inr tt, m)
  | SignJwt key c => (inr (jwt_sign key c), m)
  | JwtVerify tok key iss aud =>
      match jwt_payload key tok with
      | Some c => if jwt_acceptsb c iss aud (clock s) then (inr c, m) else (inl service_down, m)
      | None => (inl service_down, m)
      end
  | AppleJwtVerify tok iss aud =>
      match apple_payload tok with
      | Some c => if jwt_acceptsb c iss aud (clock s) then (inr c, m) else (inl service_down, m)
      | None => (inl service_down, m)
      end
  | DecodeJwt _ =>
      match sc_claims sc with
      | c :: cs => (inr c, mkMemory s (mkScript (sc_deepgram sc) (sc_openai sc) (sc_chat sc) cs (sc_faults sc)))
      | [] => (inl service_down, m)
      end
  | UserUpsert sub ce ue =>
      match list_find (λ p, appleSub p.2 = sub) (map_to_list (users s)) with
      | Some (_, (id, u)) =>
          let u' := mkUser sub (match ue with Some x => Some x | None => email u end) in
          (inr (id, u'), put (with_users (<[id := u']> (users s)) s))
      | None =>
          let id := longer (keys (users s)) 0 in
          (inr (id, mkUser sub ce), put (with_users (<[id := mkUser sub ce]> (users s)) s))
      end
  | UserFindUnique id => (inr (users s !! id), m)
  | TokenFindUnique h => (inr (refreshTokens s !! h), m)
  | TokenUpdateManyActive uid t =>
      (inr 0, put (with_refreshTokens
        ((λ x, if bool_decide (rt_userId x = uid ∧ revokedAt x = None)
               then mkRefreshToken (rt_userId x) (expiresAt x) (Some t) (replacedByTokenHash x)
               else x) <$> refreshTokens s) s))
  | TokenUpdate h t by_ =>
      match refreshTokens s !! h with
      | Some x =>
          let x' := mkRefreshToken (rt_userId x) (expiresAt x) (Some t) (Some by_) in
          (inr x', put (with_refreshTokens (<[h := x']> (refreshTokens s)) s))
      | None => (inl (prisma_reject "P2025"), m)
      end
  | TokenCreate uid h e =>
      match refreshTokens s !! h, users s !! uid with
      | Some _, _ => (inl (prisma_reject "P2002"), m)
      | None, None => (inl (prisma_reject "P2003"), m)
      | None, Some _ =>
          let x := mkRefreshToken uid e None None in
          (inr x, put (with_refreshTokens (<[h := x]> (refreshTokens s)) s))
      end
  | JobCreate d =>
      if duplicateb s d then (inl (prisma_reject "P2002"), m)
      else match users s !! create_userId d with
           | None => (inl (prisma_reject "P2003"), m)
           | Some _ =>
               let t := (clock s + 1)%Z in
               let s' := with_clock t (with_jobs (<[create_id d := created_job d t]> (jobs s)) s) in
               (inr (load_job s' (create_id d, created_job d t)), put s')
           end
  | JobFindFirst w =>
      (inr (match list_find (λ p, job_matches w p.1 p.2 = true) (map_to_list (jobs s)) with
            | Some (_, p) => Some (load_job s p)
            | None => None
            end), m)
  | JobFindMany w n cursor => (inr (load_job s <$> mem_page (full_page s w) n cursor), m)
  | JobUpdateMany w d =>
      let t := (clock s + 1)%Z in
      (inr (length (matching_jobs s w)),
       put (with_clock t (with_jobs
         (map_imap (λ id j, Some (if job_matches w id j then apply_data d t j else j)) (jobs s)) s)))
  | JobUpdate w d =>
      match list_find (λ p, job_matches w p.1 p.2 = true) (map_to_list (jobs s)) with
      | Some (_, (id, j)) =>
          let t := (clock s + 1)%Z in
          (inr (apply_data d t j), put (with_clock t (with_jobs (<[id := apply_data d t j]> (jobs s)) s)))
      | None => (inl (prisma_reject "P2025"), m)
      end
  | JobFindUniqueRaw id => (inr (jobs s !! id), m)
  | FindingDeleteMany jid =>
      (inr 0, put (with_report (reportSections s)
        (filter (λ f, Forall (λ x, section_jobId x = jid → section_id x ≠ finding_sectionId f)
                        (reportSections s)) (findings s)) s))
  | SectionDeleteMany jid =>
      (inr 0, put (with_report (filter (λ x, section_jobId x ≠ jid) (reportSections s))
        (filter (λ f, Forall (λ x, section_jobId x = jid → section_id x ≠ finding_sectionId f)
                        (reportSections s)) (findings s)) s))
  | SectionCreate jid title so =>
      match jobs s !! jid with
      | None => (inl (prisma_reject "P2003"), m)
      | Some _ =>
          let id := longer ((section_id <$> reportSections s) ++ (finding_sectionId <$> findings s)) 0 in
          let x := mkReportSection id jid title so in
          (inr x, put (with_report (reportSections s ++ [x]) (findings s) s))
      end
  | FindingCreateMany d =>
      if decide (Forall (λ x, Exists (λ y, section_id y = fc_sectionId x) (reportSections s)) d)
      then let ids := longer (finding_id <$> findings s) <$> seq 0 (length d) in
           (inr (length d), put (with_report (reportSections s) (findings s ++ add_findings ids d) s))
      else (inl (prisma_reject "P2003"), m)
  | InvalidQuery => (inl service_down, m)
  | EventCreate e =>
      match jobs s !! event_jobId e with
      | None => (inl (prisma_reject "P2003"), m)
      | Some _ => (inr tt, put (with_events (processingEvents s ++ [e]) s))
      end
  | HeadObject k =>
      match objects s !! k with Some _ => (inr tt, m) | None => (inl no_such_key, m) end
  | GetObject k =>
      match objects s !! k with
      | Some o => (inr (Some (object_body o)), m)
      | None => (inl no_such_key, m)
      end
  | PutObject k b ct => (inr tt, put (with_objects (<[k := mkStoredObject b ct]> (objects s)) s))
  | DeleteObjects ks => (inr tt, put (with_objects (filter (λ p, p.1 ∉ ks) (objects s)) s))
  | PresignPut k ct ttl =>
      let url := js "https://r2/put/" ++ k in
      (inr url, put (with_presigned (presigned s ++ [mkPresigned url (PUT ct) k ttl]) s))
  | PresignGet k ttl =>
      let url := js "https://r2/get/" ++ k in
      (inr url, put (with_presigned (presigned s ++ [mkPresigned url GET k ttl]) s))
  | CreateBucket _ => (inr tt, m)
  | QueueGetJob id => (inr (bool_decide (is_Some (queue s !! id))), m)
  | QueueGetState id =>
      (inr (match queue s !! id with Some j => bull_state j | None => js "unknown" end), m)
  | QueueRemove id => (inr tt, put (with_queue (delete id (queue s)) s))
  | QueueAdd name d opts =>
      (inr tt, put (match queue s !! opts_jobId opts with
                    | Some _ => s
                    | None => with_queue (<[opts_jobId opts := mkBullJob name d opts (js "waiting")]> (queue s)) s
                    end))
  | DlqAdd _ d => (inr tt, put (with_dlq (dlq s ++ [d]) s))
  | DeepgramTranscribe _ _ _ =>
      match sc_deepgram sc with
      | r :: rs => (inr r, mkMemory s (mkScript rs (sc_openai sc) (sc_chat sc) (sc_claims sc) (sc_faults sc)))
      | [] => (inr (mkDeepgram None None), m)
      end
  | OpenAiTranscribe _ _ _ _ =>
      match sc_openai sc with
      | r :: rs => (inr r, mkMemory s (mkScript (sc_deepgram sc) rs (sc_chat sc) (sc_claims sc) (sc_faults sc)))
      | [] => (inr None, m)
      end
  | ChatCompletion _ =>
      match sc_chat sc with
      | r :: rs => (inr r, mkMemory s (mkScript (sc_deepgram sc) (sc_openai sc) rs (sc_claims sc) (sc_faults sc)))
      | [] => (inr [], m)
      end
  | BrowserLaunch => (inr 1, m)
  | BrowserConnected _ => (inr true, m)
  | BrowserClose _ => (inr tt, m)
  | NewPage _ => (inr 1, m)
  | SetContent _ _ => (inr tt, m)
  | PagePdf _ => (inr [37%N; 80%N; 68%N; 70%N], m)
  | ClosePage _ => (inr tt, m)
  end.

(** The answer of a failing service. *)
Definition mem_fault {X} (c : call X) (m : memory) : (exn + X) * memory :=
  match c in call X return (exn + X) * memory with
  | TimerFired _ => (inr true, m)
  | DateNow => mem_ok DateNow m
  | RandomUUID => mem_ok RandomUUID m
  | RandomBytes48 => mem_ok RandomBytes48 m
  | _ => (inl service_down, m)
  end.

Definition pop_fault (m : memory) : bool * memory :=
  let sc := m_script m in
  match sc_faults sc with
  | [] => (false, m)
  | b :: bs => (b, mkMemory (m_store m) (mkScript (sc_deepgram sc) (sc_openai sc) (sc_chat sc) (sc_claims sc) bs))
  end.

Section MemoryHandler.
Context (faulty : bool).

Definition mem_call : handler call memory := λ X c m,
  let '(b, m) := pop_fault m in
  if b && faulty then mem_fault c m else mem_ok c m.

(** A transaction keeps the database of its start when its callback throws. *)
Definition mem_handle : handler eff memory := λ X e,
  match e in eff X return memory → (exn + X) * memory with
  | Do c => mem_call _ c
  | Transaction body => λ m,
      match exec mem_call body m with
      | (inr x, m') => (inr x, m')
      | (inl e, m') => (inl e, mkMemory (with_clock (clock (m_store m')) (m_store m)) (m_script m'))
      end
  end.
End MemoryHandler.

(** ** The contract is kept *)

Lemma service_down_infra : infra service_down.
Proof. eexists. repeat split; vm_compute; congruence. Qed.
Lemma no_such_key_not_found : not_found no_such_key.
Proof. eexists. repeat split; vm_compute; congruence. Qed.
Lemma prisma_reject_error code : prisma_error code (prisma_reject code).
Proof. by eexists. Qed.
#[local] Hint Resolve service_down_infra no_such_key_not_found prisma_reject_error : fieldnote.

Lemma load_report_of s id : report_of s id (load_report s id).
Proof.
  unfold load_report, report_of. rewrite <- list_fmap_compose. unfold compose. simpl.
  rewrite list_fmap_id. split_and!; [apply sortOn_perm|apply sortOn_ordered|].
  apply Forall_fmap, Forall_true. intros x. split; [apply sortOn_perm|apply sortOn_ordered].
Qed.

Lemma load_job_loaded s id j : jobs s !! id = Some j → loaded s (load_job s (id, j)).
Proof. intros H. split; [done|apply load_report_of]. Qed.

Lemma page_before_total a b : page_le a b ∨ page_le b a.
Proof.
  unfold page_le, page_before. destruct (Z.lt_total (job_createdAt a.2) (job_createdAt b.2)) as [H|[H|H]];
    [right; lia| |left; lia].
  destruct (jstr_ltb a.1 b.1) eqn:Hab.
  - right. intros [?|[? Hba]]; [lia|]. pose proof (jstr_ltb_trans _ _ _ Hab Hba) as Haa.
    by rewrite jstr_ltb_irrefl in Haa.
  - left. intros [?|[? Hba]]; [lia|congruence].
Qed.

Lemma page_le_trans : Transitive page_le.
Proof.
  intros a b c Hab Hbc. unfold page_le, page_before in *. intros Hca.
  assert (job_createdAt b.2 ≤ job_createdAt a.2)%Z by lia.
  assert (job_createdAt c.2 ≤ job_createdAt b.2)%Z by lia.
  destruct Hca as [?|[Heq Hl]]; [lia|].
  assert (jstr_ltb a.1 b.1 = false) as H1.
  { apply not_true_iff_false. intros ?. apply Hab. right. split; [lia|done]. }
  assert (jstr_ltb b.1 c.1 = false) as H2.
  { apply not_true_iff_false. intros ?. apply Hbc. right. split; [lia|done]. }
  destruct (jstr_ltb b.1 a.1) eqn:H3.
  - pose proof (jstr_ltb_trans _ _ _ H3 Hl) as H4. congruence.
  - rewrite (jstr_ltb_total _ _ H1 H3) in Hl. congruence.
Qed.

Lemma full_page_sorted s w : StronglySorted (λ a b, ¬ page_before b a) (full_page s w).
Proof.
  pose proof page_le_trans. assert (Total page_le) by (intros ??; apply page_before_total).
  change (StronglySorted page_le (full_page s w)). apply StronglySorted_merge_sort; apply _.
Qed.

Lemma full_page_perm s w : full_page s w ≡ₚ matching_jobs s w.
Proof. apply merge_sort_Permutation. Qed.

Lemma mem_page_of full n cursor : page_of full n cursor (mem_page full n cursor).
Proof.
  destruct cursor as [c|]; simpl; [|done].
  destruct (list_find _ full) as [[k p]|]; [done|]. simpl. split; [apply sublist_nil_l|lia].
Qed.

Lemma full_page_lookup s w p : p ∈ full_page s w → jobs s !! p.1 = Some p.2.
Proof.
  rewrite full_page_perm. unfold matching_jobs. rewrite list_elem_of_filter.
  intros [_ Hp]. destruct p. by apply elem_of_map_to_list.
Qed.

Lemma mem_page_elem full n cursor p : p ∈ mem_page full n cursor → p ∈ full.
Proof.
  destruct cursor as [c|]; simpl.
  - destruct (list_find _ full) as [[k q]|]; [|by intros ?%not_elem_of_nil].
    intros (i & Hi & _)%elem_of_take. rewrite lookup_drop in Hi. by eapply list_elem_of_lookup_2.
  - intros (i & Hi & _)%elem_of_take. by eapply list_elem_of_lookup_2.
Qed.

Lemma jwt_acceptsb_accepts c iss aud now : jwt_acceptsb c iss aud now = true ↔ jwt_accepts c iss aud now.
Proof.
  unfold jwt_acceptsb, jwt_accepts. rewrite !andb_true_iff, !bool_decide_eq_true.
  rewrite Logic.and_assoc. apply and_iff_compat_l, and_iff_compat_l.
  destruct (jget (js "exp") c) as [v|]; [|done].
  split.
  - intros H v' [= <-]. destruct v; try done. eexists. split; [done|]. by apply bool_decide_eq_true in H.
  - intros H. destruct (H v eq_refl) as (t & -> & Ht). by apply bool_decide_eq_true.
Qed.

Lemma duplicateb_duplicate s d : duplicateb s d = true ↔ duplicate_job s d.
Proof.
  unfold duplicateb, duplicate_job. rewrite orb_true_iff, bool_decide_eq_true.
  apply or_iff_compat_l. destruct (create_idempotencyKey d) as [k|];
    [|split; [done|by intros (?&?&?&?&?)]].
  rewrite bool_decide_eq_true, Exists_exists. split.
  - intros ([id j] & Hp%elem_of_map_to_list & Hu & Hk). naive_solver.
  - intros (k' & id & j & [= <-] & Hj & Hu & Hk). exists (id, j).
    split; [by apply elem_of_map_to_list|done].
Qed.

Lemma find_job_some s w k p :
  list_find (λ p, job_matches w p.1 p.2 = true) (map_to_list (jobs s)) = Some (k, p) →
  jobs s !! p.1 = Some p.2 ∧ job_matches w p.1 p.2 = true.
Proof.
  intros (Hk & Hm & _)%list_find_Some. split; [|done].
  apply elem_of_map_to_list. destruct p. by eapply list_elem_of_lookup_2.
Qed.

Lemma find_job_none s w id j :
  list_find (λ p, job_matches w p.1 p.2 = true) (map_to_list (jobs s)) = None →
  jobs s !! id = Some j → job_matches w id j = false.
Proof.
  intros Hn Hj. rewrite list_find_None, Forall_forall in Hn.
  apply not_true_iff_false. apply (Hn (id, j)). by apply elem_of_map_to_list.
Qed.

Lemma find_user_some s sub k id u :
  list_find (λ p, appleSub p.2 = sub) (map_to_list (users s)) = Some (k, (id, u)) →
  users s !! id = Some u ∧ appleSub u = sub.
Proof.
  intros (Hk & Hm & _)%list_find_Some. split; [|done].
  apply elem_of_map_to_list. by eapply list_elem_of_lookup_2.
Qed.

Lemma find_user_none s sub id u :
  list_find (λ p, appleSub p.2 = sub) (map_to_list (users s)) = None →
  users s !! id = Some u → appleSub u ≠ sub.
Proof.
  intros Hn Hu. rewrite list_find_None, Forall_forall in Hn.
  apply (Hn (id, u)). by apply elem_of_map_to_list.
Qed.

Lemma longer_seq_fresh ks n i : i ∈ (longer ks <$> seq 0 n) → i ∉ ks.
Proof. intros (k & -> & _)%list_elem_of_fmap. apply longer_notin. Qed.

Lemma longer_seq_nodup ks n : NoDup (longer ks <$> seq 0 n).
Proof.
  apply NoDup_fmap_2_strong; [|apply NoDup_seq].
  intros i j _ _ H. apply (f_equal length) in H. unfold longer in H.
  rewrite !length_replicate in H. lia.
Qed.

(** Close the goal of a call that reads, possibly with a named fact. *)
Ltac reads := split; [done|eexists; split; [done|try done]].
Ltac rejected := split; [done|eexists; split; [done|eauto with fieldnote]].

(** [mem_keeps c]: a working service answers [c] as the contract promises. *)
Definition mem_keeps {X} (c : call X) : Prop :=
  ∀ m, call_spec c (m_store m) (mem_ok c m).1 (m_store (mem_ok c m).2).

Lemma mem_random : mem_keeps RandomUUID ∧ mem_keeps RandomBytes48.
Proof.
  split; intros m; reads.
  - by eapply longer_lookup.
  - intros secret. eapply (longer_lookup _ 0). unfold hmac_sha256_hex, toy_crypto.
    rewrite length_app. lia.
Qed.

Lemma mem_JwtVerify tok key iss aud : mem_keeps (JwtVerify tok key iss aud).
Proof.
  intros m. unfold call_spec, mem_ok.
  destruct (jwt_payload key tok) as [c|]; [|right; split; [rejected|done]].
  destruct (jwt_acceptsb c iss aud (clock (m_store m))) eqn:Ha.
  - left. reads. split; [done|by apply jwt_acceptsb_accepts].
  - right. split; [rejected|]. intros c' [= <-] Hc. apply jwt_acceptsb_accepts in Hc. congruence.
Qed.

Lemma mem_AppleJwtVerify tok iss aud : mem_keeps (AppleJwtVerify tok iss aud).
Proof.
  intros m. unfold call_spec, mem_ok. destruct (apple_payload tok) as [c|]; [|right; rejected].
  destruct (jwt_acceptsb c iss aud (clock (m_store m))) eqn:Ha; [left|right; rejected].
  reads. split; [done|by apply jwt_acceptsb_accepts].
Qed.

Lemma mem_UserUpsert sub ce ue : mem_keeps (UserUpsert sub ce ue).
Proof.
  intros m. unfold call_spec, mem_ok.
  destruct (list_find _ _) as [[k [id u]]|] eqn:Hf.
  - left. apply find_user_some in Hf as [Hu Hs]. exists id, u. by repeat split.
  - right. exists (longer (keys (users (m_store m))) 0). split; [by eapply longer_lookup|].
    split; [|done]. intros i u Hu. by eapply find_user_none.
Qed.

Lemma mem_TokenUpdate h t b : mem_keeps (TokenUpdate h t b).
Proof.
  intros m. unfold call_spec, mem_ok. destruct (refreshTokens (m_store m) !! h) as [x|] eqn:Hx.
  - left. by exists x.
  - right. split; [done|rejected].
Qed.

Lemma mem_TokenCreate u h e : mem_keeps (TokenCreate u h e).
Proof.
  intros m. unfold call_spec, mem_ok.
  destruct (refreshTokens (m_store m) !! h) as [x|] eqn:Hx.
  { right. left. split; [done|rejected]. }
  destruct (users (m_store m) !! u) as [v|] eqn:Hv.
  - left. by repeat split.
  - right. right. split; [done|rejected].
Qed.

Lemma mem_JobCreate d : mem_keeps (JobCreate d).
Proof.
  intros m. unfold call_spec, mem_ok. destruct (duplicateb (m_store m) d) eqn:Hd.
  { right. left. split; [by apply duplicateb_duplicate|rejected]. }
  destruct (users (m_store m) !! create_userId d) as [v|] eqn:Hv.
  - left. split; [intros Hdup%duplicateb_duplicate; congruence|]. split; [done|].
    exists (clock (m_store m) + 1)%Z. split; [lia|]. split; [done|].
    eexists. split; [done|]. apply load_report_of.
  - right. right. split; [done|rejected].
Qed.

Lemma mem_JobFindFirst w : mem_keeps (JobFindFirst w).
Proof.
  intros m. unfold call_spec, mem_ok. reads. destruct (list_find _ _) as [[k [id j]]|] eqn:Hf.
  - apply find_job_some in Hf as [Hj Hw]. split; [by apply load_job_loaded|done].
  - intros id j. by apply find_job_none.
Qed.

Lemma mem_JobFindMany w n c : mem_keeps (JobFindMany w n c).
Proof.
  intros m. unfold call_spec, mem_ok. reads. split.
  - apply Forall_fmap, Forall_forall. intros [id j] Hp%mem_page_elem%full_page_lookup.
    by apply load_job_loaded.
  - exists (full_page (m_store m) w). split; [apply full_page_perm|]. split; [apply full_page_sorted|].
    rewrite <- list_fmap_compose. unfold compose. simpl. rewrite (list_fmap_ext _ id).
    + rewrite list_fmap_id. apply mem_page_of.
    + by intros i [? ?] _.
Qed.

Lemma mem_JobUpdate w d : mem_keeps (JobUpdate w d).
Proof.
  intros m. unfold call_spec, mem_ok. destruct (list_find _ _) as [[k [id j]]|] eqn:Hf.
  - left. apply find_job_some in Hf as [Hj Hw]. exists id, j. split; [done|]. split; [done|].
    exists (clock (m_store m) + 1)%Z. split; [lia|done].
  - right. split; [intros id j; by apply find_job_none|rejected].
Qed.

Lemma mem_SectionCreate j t o : mem_keeps (SectionCreate j t o).
Proof.
  intros m. unfold call_spec, mem_ok. destruct (jobs (m_store m) !! j) as [x|] eqn:Hx.
  - left. split; [done|]. eexists. split; [|split; [|done]].
    + apply Forall_forall. intros y Hy Heq.
      eapply (longer_notin _ 0), elem_of_app. left. rewrite <- Heq. by apply list_elem_of_fmap_2.
    + apply Forall_forall. intros y Hy Heq.
      eapply (longer_notin _ 0), elem_of_app. right. rewrite <- Heq. by apply list_elem_of_fmap_2.
  - right. split; [done|rejected].
Qed.

Lemma mem_FindingCreateMany d : mem_keeps (FindingCreateMany d).
Proof.
  intros m. unfold call_spec, mem_ok. destruct (decide _) as [Hall|Hnot].
  - left. exists (longer (finding_id <$> findings (m_store m)) <$> seq 0 (length d)).
    split_and!; [by rewrite length_fmap, length_seq|apply longer_seq_nodup| |done..].
    apply Forall_forall. intros i Hi. apply Forall_forall. intros f Hf Heq.
    apply longer_seq_fresh in Hi. apply Hi. rewrite <- Heq. by apply list_elem_of_fmap_2.
  - right. split; [done|rejected].
Qed.

Lemma mem_objects k : mem_keeps (HeadObject k) ∧ mem_keeps (GetObject k).
Proof.
  split; intros m; unfold call_spec, mem_ok;
    destruct (objects (m_store m) !! k) as [o|] eqn:Ho;
    solve [left; split; [done|reads] | left; exists o; split; [done|reads]
          | right; split; [done|rejected]].
Qed.

Lemma mem_EventCreate e : mem_keeps (EventCreate e).
Proof.
  intros m. unfold call_spec, mem_ok. destruct (jobs (m_store m) !! event_jobId e) as [x|] eqn:Hx.
  - left. by repeat split.
  - right. split; [done|rejected].
Qed.

Lemma mem_at_now m : at_time (m_store m) (λ t, t = clock (m_store m) + 1)%Z.
Proof. eexists. split; [|done]. lia. Qed.

#[local] Hint Resolve mem_JwtVerify mem_AppleJwtVerify mem_UserUpsert mem_TokenUpdate
  mem_TokenCreate mem_JobCreate mem_JobFindFirst mem_JobFindMany mem_JobUpdate
  mem_SectionCreate mem_FindingCreateMany mem_EventCreate : fieldnote.

Lemma mem_ok_spec {X} (c : call X) : mem_keeps c.
Proof.
  destruct c; try (by auto with fieldnote); try apply mem_random; try apply mem_objects;
    intros m; cbn [call_spec mem_ok fst snd m_store]; try (by reads); try (by eexists);
    try (by (eexists; split; [|done]; lia)); try (left; by reads); try done.
  - destruct (sc_claims _); [right; rejected|left; by reads].
  - rejected.
  - reads. by destruct (queue _ !! _).
  - destruct (sc_deepgram _); by reads.
  - destruct (sc_openai _); by reads.
  - destruct (sc_chat _); by reads.
Qed.

Lemma mem_fault_spec {X} (c : call X) m :
  call_contract true X c (m_store m) (mem_fault c m).1 (m_store (mem_fault c m).2).
Proof.
  destruct c; try (left; apply mem_ok_spec); right; (split; [done|]); cbn [call_fault mem_fault fst snd];
    first [by reads | rejected].
Qed.

Lemma pop_fault_store m : m_store (pop_fault m).2 = m_store m.
Proof. unfold pop_fault. by destruct (sc_faults _). Qed.

Lemma mem_call_ok faulty X (c : call X) m :
  call_contract faulty X c (m_store m) (mem_call faulty X c m).1 (m_store (mem_call faulty X c m).2).
Proof.
  unfold mem_call. pose proof (pop_fault_store m) as Hs. destruct (pop_fault m) as [b m'].
  simpl in Hs. rewrite <- Hs. destruct b; simpl; [|left; apply mem_ok_spec].
  destruct faulty; [apply mem_fault_spec|left; apply mem_ok_spec].
Qed.

Lemma mem_handle_ok faulty X (e : eff X) m :
  eff_contract faulty X e (m_store m) (mem_handle faulty X e m).1 (m_store (mem_handle faulty X e m).2).
Proof.
  destruct e as [X c|X body]; [apply mem_call_ok|]. simpl.
  pose proof (exec_runs (call_contract faulty) (mem_call faulty) m_store (mem_call_ok faulty) body m) as Hr.
  destruct (exec (mem_call faulty) body m) as [[e|x] m'] eqn:He; simpl in *.
  - right. left. by exists e, (m_store m').
  - left. by exists x.
Qed.

(** Memory services that never fail, and ones that fail as scripted. *)
Definition reliable_memory : Services :=
  {| world := memory; view := m_store; faults := false; handle := mem_handle false;
     handle_ok := mem_handle_ok false |}.
Definition faulty_memory : Services :=
  {| world := memory; view := m_store; faults := true; handle := mem_handle true;
     handle_ok := mem_handle_ok true |}.
