(* ===== verification/Report.v ===== *)
(** * Severities, the report tree and the job mapper

    [server/src/jobs/severity.ts], [report.types.ts], [job.mapper.ts] and the
    response shapes of [dto/job-response.dto.ts]. *)
From S2P Require Import Prelude Json Program Schema Services JsDate.

(** ** Severities *)
Module Severities.
(** The wire contract, in the order of [API_SEVERITIES]. *)
Inductive ApiSeverity := info | maintenance | repair | safety.

#[export] Instance ApiSeverity_eq_dec : EqDecision ApiSeverity.
Proof. solve_decision. Defined.

Definition API_SEVERITIES : list ApiSeverity := [info; maintenance; repair; safety].

Definition api_text (v : ApiSeverity) : jstr :=
  match v with
  | info => js "info"
  | maintenance => js "maintenance"
  | repair => js "repair"
  | safety => js "safety"
  end.

(** The member of the enum with a given text, as the validators accept it. *)
Definition api_of_text (s : jstr) : option ApiSeverity :=
  snd <$> list_find (λ v, api_text v = s) API_SEVERITIES.

Definition severityToApi (severity : Severity) : ApiSeverity :=
  match severity with
  | INFO => info
  | MAINTENANCE => maintenance
  | REPAIR => repair
  | SAFETY => safety
  end.

Definition severityFromApi (value : ApiSeverity) : Severity :=
  match value with
  | info => INFO
  | maintenance => MAINTENANCE
  | repair => REPAIR
  | safety => SAFETY
  end.

Lemma from_to v : severityFromApi (severityToApi v) = v.
Proof. by destruct v. Qed.
Lemma to_from v : severityToApi (severityFromApi v) = v.
Proof. by destruct v. Qed.
Lemma api_of_text_text v : api_of_text (api_text v) = Some v.
Proof. by destruct v. Qed.
Lemma api_of_text_Some s v : api_of_text s = Some v → s = api_text v.
Proof.
  unfold api_of_text. destruct (list_find _ _) as [[k w]|] eqn:Hf; [|done].
  intros [= <-]. by apply list_find_Some in Hf as (_ & <- & _).
Qed.
End Severities.
Export Severities.
#[export] Hint Rewrite from_to to_from api_of_text_text : fieldnote.

(** ** The normalized report tree *)
Record ReportFindingInput := mkFindingInput { fi_text : jstr; fi_severity : Severity }.
Record ReportSectionInput := mkSectionInput {
  si_title : jstr;
  si_findings : list ReportFindingInput;
}.

(** ** Response shapes *)
Record FindingDto := mkFindingDto {
  fdto_id : jstr; fdto_text : jstr; fdto_severity : ApiSeverity; fdto_sortOrder : Z }.
Record SectionDto := mkSectionDto {
  sdto_id : jstr; sdto_title : jstr; sdto_sortOrder : Z; sdto_findings : list FindingDto }.
Record JobDto := mkJobDto {
  dto_id : jstr;
  dto_label : jstr;
  dto_status : JobStatus;
  dto_transcript : option jstr;
  dto_errorMessage : option jstr;
  dto_sections : list SectionDto;
  dto_pdfUrl : option jstr;
  dto_createdAt : jstr;
  dto_updatedAt : jstr;
}.

(** ** The mapper *)
Module Mapper.
Definition findingToDto (f : Finding) : FindingDto :=
  mkFindingDto (finding_id f) (finding_text f) (severityToApi (finding_severity f))
    (finding_sortOrder f).

Definition sectionToDto (x : SectionWithFindings) : SectionDto :=
  mkSectionDto (section_id (swf_section x)) (section_title (swf_section x))
    (section_sortOrder (swf_section x))
    (findingToDto <$> sortOn finding_sortOrder (swf_findings x)).

Definition jobToDto (job : JobWithReport) (pdfUrl : option jstr) : JobDto :=
  let j := jwr_job job in
  {| dto_id := jwr_id job;
     dto_label := job_label j;
     dto_status := job_status j;
     dto_transcript := job_transcript j;
     dto_errorMessage := job_errorMessage j;
     dto_sections := sectionToDto <$> sortOn (λ x, section_sortOrder (swf_section x)) (jwr_sections job);
     dto_pdfUrl := pdfUrl;
     dto_createdAt := toISOString (job_createdAt j);
     dto_updatedAt := toISOString (job_updatedAt j) |}.
End Mapper.
Export Mapper.

(** The report tree a response shows, in the normalized shape. *)
Definition dto_report (d : JobDto) : list ReportSectionInput :=
  (λ s, mkSectionInput (sdto_title s)
     ((λ f, mkFindingInput (fdto_text f) (severityFromApi (fdto_severity f))) <$> sdto_findings s))
  <$> dto_sections d.

(** The report tree of a loaded job, in the normalized shape. *)
Definition report_tree (secs : list SectionWithFindings) : list ReportSectionInput :=
  (λ x, mkSectionInput (section_title (swf_section x))
     ((λ f, mkFindingInput (finding_text f) (finding_severity f)) <$> swf_findings x)) <$> secs.

(** A tree loaded in order: as the include of the repository promises. *)
Definition tree_ordered (secs : list SectionWithFindings) : Prop :=
  ordered section_sortOrder (swf_section <$> secs)
  ∧ Forall (λ x, ordered finding_sortOrder (swf_findings x)) secs.

Lemma ordered_fmap {A B} (key : B → Z) (f : A → B) (l : list A) :
  ordered key (f <$> l) → ordered (λ x, key (f x)) l.
Proof.
  unfold ordered. induction l as [|x l IH]; [constructor|]. rewrite fmap_cons.
  inversion 1 as [|?? Hs Hx]; subst. constructor; [by apply IH|].
  by rewrite Forall_fmap in Hx.
Qed.

Lemma tree_ordered_sort secs :
  tree_ordered secs → sortOn (λ x, section_sortOrder (swf_section x)) secs = secs.
Proof. intros [H _]. by apply sortOn_id, (ordered_fmap section_sortOrder swf_section). Qed.

(** On an ordered tree the sorts of the mapper change nothing, and the severity
    mapping is undone by its inverse. *)
Lemma dto_report_tree job url :
  tree_ordered (jwr_sections job) → dto_report (jobToDto job url) = report_tree (jwr_sections job).
Proof.
  intros Ht. pose proof Ht as [_ Hf]. unfold dto_report, report_tree. simpl.
  rewrite (tree_ordered_sort _ Ht), <- list_fmap_compose. clear Ht.
  induction Hf as [|x secs Hx _ IH]; [done|]. rewrite !fmap_cons. f_equal; [|exact IH].
  unfold compose. simpl. rewrite (sortOn_id _ _ Hx), <- list_fmap_compose.
  f_equal. apply list_fmap_ext. intros _ f _. unfold compose. simpl. by rewrite from_to.
Qed.
