(* ===== verification/Zod.v ===== *)
(** * Schemas

    The server validates its environment and the compiler's output with zod
    schemas.  A schema is kept as the declaration the source writes ([ztype]);
    [zeval] is the documented meaning of a declaration; [Zod] is what the code
    relies on of the library's [safeParse]. *)
From S2P Require Import Prelude Json Schema Services.

Inductive StrCheck :=
  | CTrim | CMin (n : nat) | CMax (n : nat) | CStartsWith (p : jstr) | CUrl.
Inductive NumCheck := NInt | NPositive | NNonnegative | NMax (z : Z).

(** An issue: its path, segment by segment, and its message. *)
Record ZodIssue := mkIssue { issue_path : list jstr; issue_message : jstr }.

(** [A] is the output type, [z.infer] of the schema. *)
Inductive ztype : Type → Type :=
  | ZString (checks : list StrCheck) : ztype jstr
  | ZEnum {A} (members : list (jstr * A)) : ztype A
  | ZCoerceNumber (checks : list NumCheck) : ztype Z
  | ZBoolean : ztype bool
  | ZUnion {A B} (l : ztype A) (r : ztype B) : ztype (A + B)
  | ZArray {A} (item : ztype A) (max : option nat) : ztype (list A)
  | ZObject {A} (shape : zobj A) : ztype A
  | ZTransform {A B} (t : ztype A) (f : A → B) : ztype B
  | ZDefault {A} (t : ztype A) (d : json) : ztype A
  | ZSuperRefine {A} (t : ztype A) (f : A → list ZodIssue) : ztype A
(** The shape of an object, key by key, with the constructor of its output. *)
with zobj : Type → Type :=
  | ZMake {A} (a : A) : zobj A
  | ZKey {X A} (rest : zobj (X → A)) (key : jstr) (t : ztype X) : zobj A.

Declare Scope zod_scope.
Notation "r '.&' k '::>' t" := (ZKey r (js k) t)
  (at level 50, k at level 0, t at level 49, left associativity) : zod_scope.

Section Meaning.
(** [new URL(s)] succeeds; [Number(s)] when it is an integer. *)
Context (is_url : jstr → bool) (to_integer : jstr → option Z).

Definition str_check (c : StrCheck) (s : jstr) : option jstr :=
  match c with
  | CTrim => Some (trim s)
  | CMin n => if decide (n ≤ length s) then Some s else None
  | CMax n => if decide (length s ≤ n) then Some s else None
  | CStartsWith p => if startsWith p s then Some s else None
  | CUrl => if is_url s then Some s else None
  end.
Fixpoint str_checks (cs : list StrCheck) (s : jstr) : option jstr :=
  match cs with
  | [] => Some s
  | c :: cs => str_check c s ≫= str_checks cs
  end.

Definition num_check (z : Z) (c : NumCheck) : bool :=
  match c with
  | NInt => true
  | NPositive => bool_decide (0 < z)%Z
  | NNonnegative => bool_decide (0 ≤ z)%Z
  | NMax m => bool_decide (z ≤ m)%Z
  end.

Fixpoint zeval {A} (t : ztype A) : option json → option A :=
  match t in ztype A return option json → option A with
  | ZString cs => λ i, match i with Some (JStr s) => str_checks cs s | _ => None end
  | ZEnum ms => λ i,
      match i with
      | Some (JStr s) => (λ x, x.2.2) <$> list_find (λ p, p.1 = s) ms
      | _ => None
      end
  | ZCoerceNumber cs => λ i,
      match (match i with
             | Some (JNum n) => Some n
             | Some (JStr s) => to_integer s
             | _ => None
             end) with
      | Some z => if forallb (num_check z) cs then Some z else None
      | None => None
      end
  | ZBoolean => λ i, match i with Some (JBool b) => Some b | _ => None end
  | ZUnion l r => λ i,
      match zeval l i with
      | Some a => Some (inl a)
      | None => inr <$> zeval r i
      end
  | ZArray t max => λ i,
      match i with
      | Some (JArr items) =>
          if (match max with Some m => bool_decide (length items ≤ m) | None => true end)
          then mapM (λ x, zeval t (Some x)) items else None
      | _ => None
      end
  | ZObject o => λ i, match i with Some (JObj fs) => zeval_obj o fs | _ => None end
  | ZTransform t f => λ i, f <$> zeval t i
  | ZDefault t d => λ i, zeval t (Some (default d i))
  | ZSuperRefine t f => λ i,
      match zeval t i with
      | Some a => match f a with [] => Some a | _ => None end
      | None => None
      end
  end
with zeval_obj {A} (o : zobj A) : list (jstr * json) → option A :=
  match o in zobj A return list (jstr * json) → option A with
  | ZMake a => λ _, Some a
  | ZKey rest k t => λ fs,
      match zeval_obj rest fs, zeval t (jget k fs) with
      | Some g, Some x => Some (g x)
      | _, _ => None
      end
  end.
End Meaning.

(** ** The library *)
Class Zod := {
  is_url : jstr → bool;
  to_integer : jstr → option Z;
  safeParse : ∀ {A}, ztype A → json → list ZodIssue + A;
  safeParse_success : ∀ {A} (t : ztype A) i a,
    safeParse t i = inr a ↔ zeval is_url to_integer t (Some i) = Some a;
  safeParse_issues : ∀ {A} (t : ztype A) i, safeParse t i ≠ inl [];
  (** the issues a refinement adds are the ones reported *)
  safeParse_refined : ∀ {A} (t : ztype A) f i a iss,
    safeParse t i = inr a → safeParse (ZSuperRefine t f) i = inl iss → iss = f a;
}.

Abbreviation zparses t i a := (zeval is_url to_integer t i = Some a).

(** A reference library: one issue for any failure but a refinement's. *)
Section Reference.
Context (url : jstr → bool) (num : jstr → option Z).

Definition one_issue : list ZodIssue := [mkIssue [] (js "Invalid input")].
Definition ref_issues {A} (t : ztype A) (i : json) : list ZodIssue :=
  match t with
  | ZSuperRefine t f =>
      match zeval url num t (Some i) with
      | Some a => match f a with [] => one_issue | iss => iss end
      | None => one_issue
      end
  | _ => one_issue
  end.
Definition ref_safeParse {A} (t : ztype A) (i : json) : list ZodIssue + A :=
  match zeval url num t (Some i) with
  | Some a => inr a
  | None => inl (ref_issues t i)
  end.

Lemma ref_success {A} (t : ztype A) i a :
  ref_safeParse t i = inr a ↔ zeval url num t (Some i) = Some a.
Proof. unfold ref_safeParse. destruct (zeval _ _ t _); split; intros H; simplify_eq; done. Qed.

Lemma ref_nonempty {A} (t : ztype A) i : ref_safeParse t i ≠ inl [].
Proof.
  unfold ref_safeParse. destruct (zeval _ _ t _); [done|]. intros [= H].
  destruct t; simpl in H; try done. destruct (zeval _ _ t _) as [a|]; [|done].
  by destruct (f a).
Qed.

Lemma ref_refined {A} (t : ztype A) f i a iss :
  ref_safeParse t i = inr a → ref_safeParse (ZSuperRefine t f) i = inl iss → iss = f a.
Proof.
  intros H%ref_success. unfold ref_safeParse. simpl. rewrite H.
  destruct (f a) as [|x l]; [done|]. by intros [= <-].
Qed.

Definition reference_zod : Zod :=
  {| is_url := url; to_integer := num; safeParse := @ref_safeParse;
     safeParse_success := @ref_success; safeParse_issues := @ref_nonempty;
     safeParse_refined := @ref_refined |}.
End Reference.
