(* ===== verification/Config.v ===== *)
(** * The environment contract

    [server/src/config/env.ts]: the schema every process validates its
    environment against at boot, the cross-field rules, and [loadConfig]. *)
From S2P Require Import Prelude Json Program Schema Services Zod.

Inductive NodeEnv := development | test | production.
Inductive TranscriptionKind := deepgram | openai.

#[export] Instance NodeEnv_eq_dec : EqDecision NodeEnv.
Proof. solve_decision. Defined.
#[export] Instance TranscriptionKind_eq_dec : EqDecision TranscriptionKind.
Proof. solve_decision. Defined.

(** [z.infer<typeof rawSchema>] *)
Record RawEnv := mkRawEnv {
  NODE_ENV : NodeEnv; PORT : Z; APP_BASE_URL : jstr; CORS_ORIGINS : list jstr; LOG_LEVEL : jstr;
  DATABASE_URL : jstr; REDIS_URL : jstr;
  R2_ACCOUNT_ID : jstr; R2_ACCESS_KEY_ID : jstr; R2_SECRET_ACCESS_KEY : jstr; R2_BUCKET : jstr;
  R2_ENDPOINT : jstr; R2_FORCE_PATH_STYLE : bool; R2_PRESIGN_PUT_TTL : Z; R2_PRESIGN_GET_TTL : Z;
  AUDIO_RETENTION_DAYS : Z;
  TRANSCRIPTION_PROVIDER : TranscriptionKind; DEEPGRAM_API_KEY : jstr; DEEPGRAM_MODEL : jstr;
  OPENAI_API_KEY : jstr; OPENAI_TRANSCRIBE_MODEL : jstr; DEEPSEEK_API_KEY : jstr;
  DEEPSEEK_BASE_URL : jstr; REPORT_MODEL : jstr;
  MAX_AUDIO_SECONDS : Z; WORKER_CONCURRENCY : Z; STAGE_TIMEOUT_MS : Z; JOB_MAX_ATTEMPTS : Z;
  USE_MOCK_AI : bool;
  APPLE_TEAM_ID : jstr; APPLE_KEY_ID : jstr; APPLE_CLIENT_ID : jstr; APPLE_PRIVATE_KEY : jstr;
  APPLE_AUTH_DEV_BYPASS : bool;
  JWT_ACCESS_SECRET : jstr; JWT_REFRESH_SECRET : jstr; JWT_ACCESS_TTL : Z; JWT_REFRESH_TTL : Z;
  BULL_BOARD_USER : jstr; BULL_BOARD_PASSWORD : jstr;
}.

(** ** The schema *)

Definition boolish : ztype bool :=
  ZTransform (ZUnion ZBoolean (ZString []))
    (λ v, match v with
          | inl b => b
          | inr s => bool_decide (toLowerCase s ∈ [js "1"; js "true"; js "yes"; js "on"])
          end).

Definition csv : ztype (list jstr) :=
  ZTransform (ZString []) (λ v, filter (λ s, 0 < length s) (trim <$> split 44 v)).

Definition texts (l : list string) : list (jstr * jstr) := (λ s, (js s, js s)) <$> l.
(** [z.string().optional().default('')] *)
Definition optional_text : ztype jstr := ZDefault (ZString []) (JStr []).
Definition week : Z := 7 * 24 * 3600.

Open Scope zod_scope.

Definition rawObject : zobj RawEnv :=
  ZMake mkRawEnv
  .& "NODE_ENV" ::> ZDefault (ZEnum [(js "development", development); (js "test", test);
                                     (js "production", production)]) (JStr (js "development"))
  .& "PORT" ::> ZDefault (ZCoerceNumber [NInt; NPositive]) (JNum 8080)
  .& "APP_BASE_URL" ::> ZString [CUrl]
  .& "CORS_ORIGINS" ::> ZDefault csv (JStr (js "*"))
  .& "LOG_LEVEL" ::> ZDefault (ZEnum (texts ["fatal"; "error"; "warn"; "info"; "debug"; "trace"; "silent"]))
                       (JStr (js "info"))
  .& "DATABASE_URL" ::> ZString [CMin 1; CStartsWith (js "postgres")]
  .& "REDIS_URL" ::> ZString [CMin 1; CStartsWith (js "redis")]
  .& "R2_ACCOUNT_ID" ::> ZString [CMin 1]
  .& "R2_ACCESS_KEY_ID" ::> ZString [CMin 1]
  .& "R2_SECRET_ACCESS_KEY" ::> ZString [CMin 1]
  .& "R2_BUCKET" ::> ZString [CMin 1]
  .& "R2_ENDPOINT" ::> ZString [CUrl]
  .& "R2_FORCE_PATH_STYLE" ::> ZDefault boolish (JBool false)
  .& "R2_PRESIGN_PUT_TTL" ::> ZDefault (ZCoerceNumber [NInt; NPositive; NMax week]) (JNum 3600)
  .& "R2_PRESIGN_GET_TTL" ::> ZDefault (ZCoerceNumber [NInt; NPositive; NMax week]) (JNum 900)
  .& "AUDIO_RETENTION_DAYS" ::> ZDefault (ZCoerceNumber [NInt; NNonnegative]) (JNum 30)
  .& "TRANSCRIPTION_PROVIDER" ::> ZDefault (ZEnum [(js "deepgram", deepgram); (js "openai", openai)])
                                    (JStr (js "deepgram"))
  .& "DEEPGRAM_API_KEY" ::> optional_text
  .& "DEEPGRAM_MODEL" ::> ZDefault (ZString [CMin 1]) (JStr (js "nova-3"))
  .& "OPENAI_API_KEY" ::> optional_text
  .& "OPENAI_TRANSCRIBE_MODEL" ::> ZDefault (ZString [CMin 1]) (JStr (js "gpt-4o-mini-transcribe"))
  .& "DEEPSEEK_API_KEY" ::> optional_text
  .& "DEEPSEEK_BASE_URL" ::> ZDefault (ZString [CUrl]) (JStr (js "https://api.deepseek.com"))
  .& "REPORT_MODEL" ::> ZDefault (ZString [CMin 1]) (JStr (js "deepseek-chat"))
  .& "MAX_AUDIO_SECONDS" ::> ZDefault (ZCoerceNumber [NInt; NPositive]) (JNum 5400)
  .& "WORKER_CONCURRENCY" ::> ZDefault (ZCoerceNumber [NInt; NPositive; NMax 50]) (JNum 2)
  .& "STAGE_TIMEOUT_MS" ::> ZDefault (ZCoerceNumber [NInt; NPositive]) (JNum 180000)
  .& "JOB_MAX_ATTEMPTS" ::> ZDefault (ZCoerceNumber [NInt; NPositive; NMax 10]) (JNum 3)
  .& "USE_MOCK_AI" ::> ZDefault boolish (JBool false)
  .& "APPLE_TEAM_ID" ::> optional_text
  .& "APPLE_KEY_ID" ::> optional_text
  .& "APPLE_CLIENT_ID" ::> ZString [CMin 1]
  .& "APPLE_PRIVATE_KEY" ::> optional_text
  .& "APPLE_AUTH_DEV_BYPASS" ::> ZDefault boolish (JBool false)
  .& "JWT_ACCESS_SECRET" ::> ZString [CMin 16]
  .& "JWT_REFRESH_SECRET" ::> ZString [CMin 16]
  .& "JWT_ACCESS_TTL" ::> ZDefault (ZCoerceNumber [NInt; NPositive]) (JNum 900)
  .& "JWT_REFRESH_TTL" ::> ZDefault (ZCoerceNumber [NInt; NPositive]) (JNum 2592000)
  .& "BULL_BOARD_USER" ::> optional_text
  .& "BULL_BOARD_PASSWORD" ::> optional_text.

(** ** The cross-field rules *)

Definition issue (key message : string) : ZodIssue := mkIssue [js key] (js message).
Definition add_when (b : bool) (i : ZodIssue) : list ZodIssue := if b then [i] else [].
Definition is_env (e : NodeEnv) (env : RawEnv) : bool := bool_decide (NODE_ENV env = e).

Definition superRefine (env : RawEnv) : list ZodIssue :=
  let mockAi := USE_MOCK_AI env || is_env test env in
  let prod := is_env production env in
  (if negb mockAi then
     add_when (bool_decide (TRANSCRIPTION_PROVIDER env = deepgram) && negb (truthy (DEEPGRAM_API_KEY env)))
       (issue "DEEPGRAM_API_KEY" "required when TRANSCRIPTION_PROVIDER=deepgram and USE_MOCK_AI is false")
     ++ add_when (bool_decide (TRANSCRIPTION_PROVIDER env = openai) && negb (truthy (OPENAI_API_KEY env)))
       (issue "OPENAI_API_KEY" "required when TRANSCRIPTION_PROVIDER=openai and USE_MOCK_AI is false")
     ++ add_when (negb (truthy (DEEPSEEK_API_KEY env)))
       (issue "DEEPSEEK_API_KEY" "required for report compilation when USE_MOCK_AI is false")
   else [])
  ++ add_when (prod && APPLE_AUTH_DEV_BYPASS env)
       (issue "APPLE_AUTH_DEV_BYPASS" "must be false in production")
  ++ add_when (prod && USE_MOCK_AI env) (issue "USE_MOCK_AI" "must be false in production")
  ++ (if negb (APPLE_AUTH_DEV_BYPASS env) then
        mjoin ((λ kv, add_when (negb (truthy kv.2))
                        (issue kv.1 "required unless APPLE_AUTH_DEV_BYPASS=true"))
               <$> [("APPLE_TEAM_ID", APPLE_TEAM_ID env); ("APPLE_KEY_ID", APPLE_KEY_ID env);
                    ("APPLE_PRIVATE_KEY", APPLE_PRIVATE_KEY env)])
      else [])
  ++ (if prod then
        mjoin ((λ kv, add_when (includes (js "change-me") kv.2)
                        (issue kv.1 "must not use the placeholder secret in production"))
               <$> [("JWT_ACCESS_SECRET", JWT_ACCESS_SECRET env);
                    ("JWT_REFRESH_SECRET", JWT_REFRESH_SECRET env)])
        ++ add_when (bool_decide (JWT_ACCESS_SECRET env = JWT_REFRESH_SECRET env))
             (issue "JWT_REFRESH_SECRET" "must differ from JWT_ACCESS_SECRET in production")
        ++ add_when (bool_decide (js "*" ∈ CORS_ORIGINS env))
             (issue "CORS_ORIGINS" "must be an explicit allow-list in production (wildcard not allowed)")
      else []).

Definition rawSchema : ztype RawEnv := ZSuperRefine (ZObject rawObject) superRefine.

(** ** The configuration *)

Record R2Config := mkR2Config {
  accountId : jstr; accessKeyId : jstr; secretAccessKey : jstr; bucket : jstr; endpoint : jstr;
  forcePathStyle : bool; presignPutTtl : Z; presignGetTtl : Z; audioRetentionDays : Z }.
Record AiConfig := mkAiConfig {
  useMock : bool; transcriptionProvider : TranscriptionKind; deepgramApiKey : jstr;
  deepgramModel : jstr; openaiApiKey : jstr; openaiTranscribeModel : jstr; deepseekApiKey : jstr;
  deepseekBaseUrl : jstr; reportModel : jstr; maxAudioSeconds : Z; workerConcurrency : Z;
  stageTimeoutMs : Z; jobMaxAttempts : Z }.
Record AppleConfig := mkAppleConfig {
  teamId : jstr; keyId : jstr; clientId : jstr; privateKey : jstr; devBypass : bool }.
Record JwtConfig := mkJwtConfig {
  accessSecret : jstr; refreshSecret : jstr; accessTtl : Z; refreshTtl : Z }.
Record BullBoardConfig := mkBullBoardConfig {
  board_user : jstr; board_password : jstr; board_enabled : bool }.

Record AppConfig := mkAppConfig {
  nodeEnv : NodeEnv; isProduction : bool; isTest : bool; port : Z; appBaseUrl : jstr;
  corsOrigins : list jstr; logLevel : jstr; database_url : jstr; redis_url : jstr;
  cfg_r2 : R2Config; cfg_ai : AiConfig; cfg_apple : AppleConfig; cfg_jwt : JwtConfig;
  cfg_bullBoard : BullBoardConfig;
}.

Definition config_of (e : RawEnv) : AppConfig :=
  let useMock := USE_MOCK_AI e || is_env test e in
  {| nodeEnv := NODE_ENV e;
     isProduction := is_env production e;
     isTest := is_env test e;
     port := PORT e;
     appBaseUrl := APP_BASE_URL e;
     corsOrigins := CORS_ORIGINS e;
     logLevel := LOG_LEVEL e;
     database_url := DATABASE_URL e;
     redis_url := REDIS_URL e;
     cfg_r2 := mkR2Config (R2_ACCOUNT_ID e) (R2_ACCESS_KEY_ID e) (R2_SECRET_ACCESS_KEY e)
                 (R2_BUCKET e) (R2_ENDPOINT e) (R2_FORCE_PATH_STYLE e) (R2_PRESIGN_PUT_TTL e)
                 (R2_PRESIGN_GET_TTL e) (AUDIO_RETENTION_DAYS e);
     cfg_ai := mkAiConfig useMock (TRANSCRIPTION_PROVIDER e) (DEEPGRAM_API_KEY e)
                 (DEEPGRAM_MODEL e) (OPENAI_API_KEY e) (OPENAI_TRANSCRIBE_MODEL e)
                 (DEEPSEEK_API_KEY e) (DEEPSEEK_BASE_URL e) (REPORT_MODEL e)
                 (MAX_AUDIO_SECONDS e) (WORKER_CONCURRENCY e) (STAGE_TIMEOUT_MS e)
                 (JOB_MAX_ATTEMPTS e);
     cfg_apple := mkAppleConfig (APPLE_TEAM_ID e) (APPLE_KEY_ID e) (APPLE_CLIENT_ID e)
                    (APPLE_PRIVATE_KEY e) (APPLE_AUTH_DEV_BYPASS e);
     cfg_jwt := mkJwtConfig (JWT_ACCESS_SECRET e) (JWT_REFRESH_SECRET e) (JWT_ACCESS_TTL e)
                  (JWT_REFRESH_TTL e);
     cfg_bullBoard := mkBullBoardConfig (BULL_BOARD_USER e) (BULL_BOARD_PASSWORD e)
                        (truthy (BULL_BOARD_USER e) && truthy (BULL_BOARD_PASSWORD e)) |}.

(** [process.env]: names and strings. *)
Definition env_json (source : list (jstr * jstr)) : json :=
  JObj ((λ kv, (kv.1, JStr kv.2)) <$> source).

Definition issue_line (i : ZodIssue) : jstr :=
  let p := join (js ".") (issue_path i) in
  js "  " ++ [8226%N] ++ js " " ++ (if truthy p then p else js "(root)") ++ js ": " ++ issue_message i.

Section LoadConfig.
Context `{Zod}.

Definition loadConfig (source : list (jstr * jstr)) : exn + AppConfig :=
  match safeParse rawSchema (env_json source) with
  | inl issues =>
      inl (JsError (js "Invalid environment configuration:" ++ [10%N]
                    ++ join [10%N] (issue_line <$> issues)))
  | inr e => inr (config_of e)
  end.
End LoadConfig.

(** ** What a booted process can rely on *)

(** The cross-field rules, as a specification. *)
Record deployable (env : RawEnv) : Prop := mkDeployable {
  rule_ai :
    USE_MOCK_AI env = true ∨ NODE_ENV env = test
    ∨ (TRANSCRIPTION_PROVIDER env = deepgram → DEEPGRAM_API_KEY env ≠ [])
      ∧ (TRANSCRIPTION_PROVIDER env = openai → OPENAI_API_KEY env ≠ [])
      ∧ DEEPSEEK_API_KEY env ≠ [];
  rule_apple :
    APPLE_AUTH_DEV_BYPASS env = true
    ∨ APPLE_TEAM_ID env ≠ [] ∧ APPLE_KEY_ID env ≠ [] ∧ APPLE_PRIVATE_KEY env ≠ [];
  rule_production :
    NODE_ENV env = production →
    APPLE_AUTH_DEV_BYPASS env = false ∧ USE_MOCK_AI env = false
    ∧ includes (js "change-me") (JWT_ACCESS_SECRET env) = false
    ∧ includes (js "change-me") (JWT_REFRESH_SECRET env) = false
    ∧ JWT_ACCESS_SECRET env ≠ JWT_REFRESH_SECRET env
    ∧ (js "*" ∉ CORS_ORIGINS env);
}.

Lemma add_when_nil b i : add_when b i = [] ↔ b = false.
Proof. by destruct b. Qed.
Lemma not_truthy s : negb (truthy s) = false ↔ s ≠ [].
Proof. by destruct s. Qed.

Lemma guard_nil {A} (b : bool) (l : list A) : (if b then l else []) = [] ↔ (b = true → l = []).
Proof. destruct b; naive_solver. Qed.

Lemma superRefine_nil env : superRefine env = [] ↔ deployable env.
Proof.
  unfold superRefine, is_env. cbn [fmap list_fmap mjoin list_join fst snd].
  rewrite !app_nil, !guard_nil, !app_nil, !add_when_nil, !andb_false_iff, !not_truthy,
    !bool_decide_eq_false, !bool_decide_eq_true.
  split.
  - intros (Hai & Hb & Hm & Hap & Hp). constructor.
    + destruct (USE_MOCK_AI env); [by left|right]. destruct (NODE_ENV env); [right|by left|right];
        destruct (Hai eq_refl) as (H1 & H2 & H3); destruct (TRANSCRIPTION_PROVIDER env); intuition congruence.
    + destruct (APPLE_AUTH_DEV_BYPASS env); [by left|right]. destruct (Hap eq_refl) as (? & ? & ? & ?). done.
    + intros He. destruct Hb as [Hb|Hb]; [done|]. destruct Hm as [Hm|Hm]; [done|].
      destruct (Hp He) as ((? & ? & ?) & ? & ?). done.
  - intros [H1 H2 H3]. split_and!.
    + destruct (USE_MOCK_AI env), (NODE_ENV env); try done; intros _;
        destruct H1 as [|[|(? & ? & ?)]]; try done; destruct (TRANSCRIPTION_PROVIDER env);
        intuition congruence.
    + destruct (decide (NODE_ENV env = production)); [right; by apply H3|by left].
    + destruct (decide (NODE_ENV env = production)); [right; by apply H3|by left].
    + destruct (APPLE_AUTH_DEV_BYPASS env); [done|]. destruct H2 as [|(? & ? & ?)]; [done|]. done.
    + intros He. by destruct (H3 He) as (_ & _ & ? & ? & ? & ?).
Qed.

(** ** Reading off a parsed environment *)

Lemma zeval_key_inv `{Zod} {X A} (rest : zobj (X → A)) k (t : ztype X) fs a :
  zeval_obj is_url to_integer (ZKey rest k t) fs = Some a →
  ∃ g x, zeval_obj is_url to_integer rest fs = Some g
         ∧ zparses t (jget k fs) x ∧ a = g x.
Proof.
  intros H0. change (match zeval_obj is_url to_integer rest fs, zeval is_url to_integer t (jget k fs) with
                     | Some g, Some x => Some (g x) | _, _ => None end = Some a) in H0.
  destruct (zeval_obj is_url to_integer rest fs) as [g|]; [|done].
  destruct (zeval is_url to_integer t (jget k fs)) as [x|]; [|done].
  injection H0 as <-. by eexists _, _.
Qed.

(** A coerced number satisfies every check of its declaration. *)
Lemma zeval_number `{Zod} cs i z : zparses (ZCoerceNumber cs) i z → forallb (num_check z) cs = true.
Proof.
  cbn [zeval]. intros H0. match type of H0 with match ?o with _ => _ end = _ => destruct o as [n|]; [|done] end.
  destruct (forallb (num_check n) cs) eqn:Hn; [|done]. by injection H0 as <-.
Qed.
Lemma zeval_default `{Zod} {A} (t : ztype A) d i x :
  zparses (ZDefault t d) i x → ∃ i', zparses t i' x.
Proof. intros H0. exists (Some (default d i)). exact H0. Qed.
Lemma zeval_string_min `{Zod} n i s : zparses (ZString [CMin n]) i s → n ≤ length s.
Proof.
  cbn [zeval]. destruct i as [[]|]; try done. cbn [str_checks mbind option_bind str_check].
  case_match; [|done]. by intros [= <-].
Qed.

(** The numeric and length bounds of the schema. *)
Record in_bounds (e : RawEnv) : Prop := mkInBounds {
  bound_port : (0 < PORT e)%Z;
  bound_put_ttl : (0 < R2_PRESIGN_PUT_TTL e ≤ week)%Z;
  bound_get_ttl : (0 < R2_PRESIGN_GET_TTL e ≤ week)%Z;
  bound_retention : (0 ≤ AUDIO_RETENTION_DAYS e)%Z;
  bound_concurrency : (0 < WORKER_CONCURRENCY e ≤ 50)%Z;
  bound_timeout : (0 < STAGE_TIMEOUT_MS e)%Z;
  bound_attempts : (0 < JOB_MAX_ATTEMPTS e ≤ 10)%Z;
  bound_access_ttl : (0 < JWT_ACCESS_TTL e)%Z;
  bound_refresh_ttl : (0 < JWT_REFRESH_TTL e)%Z;
  bound_access_secret : 16 ≤ length (JWT_ACCESS_SECRET e);
  bound_refresh_secret : 16 ≤ length (JWT_REFRESH_SECRET e);
}.

(** Peel one key of an accepted object. *)
Ltac peel H :=
  let g := fresh "g" in let x := fresh "x" in let Hx := fresh "Hx" in
  apply zeval_key_inv in H as (g & x & H & Hx & ->).
Ltac number_bound :=
  match goal with
  | H : zparses (ZDefault (ZCoerceNumber _) _) _ ?x |- context [?x] =>
      apply zeval_default in H as [? H]; apply zeval_number in H; simpl in H;
      repeat rewrite andb_true_iff in H; repeat rewrite bool_decide_eq_true in H; tauto
  | H : zparses (ZString [CMin _]) _ ?x |- context [?x] => by apply zeval_string_min in H
  end.

Lemma rawObject_bounds `{Zod} fs e : zeval_obj is_url to_integer rawObject fs = Some e → in_bounds e.
Proof.
  unfold rawObject. intros He. repeat peel He. cbn [zeval_obj] in He. simplify_eq.
  constructor; cbn [PORT R2_PRESIGN_PUT_TTL R2_PRESIGN_GET_TTL AUDIO_RETENTION_DAYS
    WORKER_CONCURRENCY STAGE_TIMEOUT_MS JOB_MAX_ATTEMPTS JWT_ACCESS_TTL JWT_REFRESH_TTL
    JWT_ACCESS_SECRET JWT_REFRESH_SECRET]; number_bound.
Qed.

Section LoadConfigSpec.
Context `{Zod}.

Lemma rawSchema_parses i e :
  zparses rawSchema i e ↔ zparses (ZObject rawObject) i e ∧ deployable e.
Proof.
  change (match zeval is_url to_integer (ZObject rawObject) i with
          | Some a => match superRefine a with [] => Some a | _ => None end
          | None => None end = Some e ↔ zparses (ZObject rawObject) i e ∧ deployable e).
  destruct (zeval is_url to_integer (ZObject rawObject) i) as [a|];
    [|split; [done|by intros [? _]]].
  rewrite <- superRefine_nil. destruct (superRefine a) as [|x l] eqn:Ha.
  - split; [by intros [= ->]|by intros [[= ->] _]].
  - split; [done|]. intros [[= ->] Hn]. congruence.
Qed.

(** C31: A process boots with a configuration exactly when its environment
    matches the schema key by key and satisfies every cross-field rule, and
    the configuration is then the one read off the parsed environment. *)
Theorem loadConfig_boots_iff source cfg :
  loadConfig source = inr cfg ↔
    ∃ e, zparses (ZObject rawObject) (Some (env_json source)) e ∧ deployable e
         ∧ cfg = config_of e.
Proof.
  unfold loadConfig. destruct (safeParse rawSchema (env_json source)) as [iss|e] eqn:He.
  - split; [done|]. intros (e & Hp & Hd & _).
    assert (zparses rawSchema (Some (env_json source)) e) as Hr by (by apply rawSchema_parses).
    apply safeParse_success in Hr. congruence.
  - apply safeParse_success, rawSchema_parses in He as [Hp Hd]. split.
    + intros [= <-]. by exists e.
    + intros (e' & Hp' & _ & ->). by rewrite Hp in Hp'; injection Hp' as ->.
Qed.

Lemma loadConfig_inv source cfg :
  loadConfig source = inr cfg →
  ∃ e, zparses (ZObject rawObject) (Some (env_json source)) e ∧ deployable e ∧ cfg = config_of e.
Proof.
  unfold loadConfig. destruct (safeParse rawSchema (env_json source)) as [iss|e] eqn:He; [done|].
  apply safeParse_success, rawSchema_parses in He as [Hp Hd]. intros [= <-]. by exists e.
Qed.

(** A process that boots in production never runs with the Apple bypass,
    the mock AI, a placeholder or shared JWT secret or a wildcard CORS origin,
    and has the keys of Apple, of the transcription provider it selects and of
    the report compiler. *)
Theorem production_config_safe source cfg :
  loadConfig source = inr cfg → isProduction cfg = true →
  devBypass (cfg_apple cfg) = false ∧ useMock (cfg_ai cfg) = false
  ∧ includes (js "change-me") (accessSecret (cfg_jwt cfg)) = false
  ∧ includes (js "change-me") (refreshSecret (cfg_jwt cfg)) = false
  ∧ accessSecret (cfg_jwt cfg) ≠ refreshSecret (cfg_jwt cfg)
  ∧ (js "*" ∉ corsOrigins cfg)
  ∧ teamId (cfg_apple cfg) ≠ [] ∧ keyId (cfg_apple cfg) ≠ [] ∧ privateKey (cfg_apple cfg) ≠ []
  ∧ deepseekApiKey (cfg_ai cfg) ≠ []
  ∧ match transcriptionProvider (cfg_ai cfg) with
    | deepgram => deepgramApiKey (cfg_ai cfg)
    | openai => openaiApiKey (cfg_ai cfg)
    end ≠ [].
Proof.
  intros (e & _ & [Hai Hap Hp] & ->)%loadConfig_inv Hprod.
  cbn [isProduction config_of cfg_apple cfg_ai cfg_jwt corsOrigins devBypass useMock accessSecret
       refreshSecret teamId keyId privateKey deepseekApiKey transcriptionProvider deepgramApiKey
       openaiApiKey] in *.
  unfold is_env in *. apply bool_decide_eq_true in Hprod.
  destruct (Hp Hprod) as (Hb & Hm & Hc1 & Hc2 & Hne & Hcors).
  destruct Hap as [Hap|(Ht & Hk & Hpk)]; [congruence|].
  destruct Hai as [?|[?|(Hd & Ho & Hs)]]; [congruence..|].
  rewrite Hm, Hprod, Hb. split_and!; try done. destruct (TRANSCRIPTION_PROVIDER e); auto.
Qed.

(** C32: Whatever the environment, a booted process has a positive port, token
    and presign lifetimes (the latter at most a week), between 1 and 10 job
    attempts, between 1 and 50 workers, a positive stage timeout and JWT
    secrets of at least 16 units. *)
Theorem loadConfig_bounds source cfg :
  loadConfig source = inr cfg →
  (0 < port cfg)%Z
  ∧ (0 < presignPutTtl (cfg_r2 cfg) ≤ week)%Z ∧ (0 < presignGetTtl (cfg_r2 cfg) ≤ week)%Z
  ∧ (0 ≤ audioRetentionDays (cfg_r2 cfg))%Z
  ∧ (1 ≤ workerConcurrency (cfg_ai cfg) ≤ 50)%Z ∧ (1 ≤ jobMaxAttempts (cfg_ai cfg) ≤ 10)%Z
  ∧ (0 < stageTimeoutMs (cfg_ai cfg))%Z
  ∧ (0 < accessTtl (cfg_jwt cfg))%Z ∧ (0 < refreshTtl (cfg_jwt cfg))%Z
  ∧ 16 ≤ length (accessSecret (cfg_jwt cfg)) ∧ 16 ≤ length (refreshSecret (cfg_jwt cfg)).
Proof.
  intros (e & Hp & _ & ->)%loadConfig_inv.
  change (zeval_obj is_url to_integer rawObject ((λ kv, (kv.1, JStr kv.2)) <$> source) = Some e) in Hp.
  apply rawObject_bounds in Hp as [].
  cbn [config_of port cfg_r2 cfg_ai cfg_jwt presignPutTtl presignGetTtl audioRetentionDays
       workerConcurrency jobMaxAttempts stageTimeoutMs accessTtl refreshTtl accessSecret refreshSecret].
  split_and!; done || lia.
Qed.

(** A well-formed environment that breaks cross-field rules stops the boot
    with one error that lists every broken rule, one line each. *)
Theorem loadConfig_reports_rules source e :
  zparses (ZObject rawObject) (Some (env_json source)) e → ¬ deployable e →
  superRefine e ≠ [] ∧
  loadConfig source =
    inl (JsError (js "Invalid environment configuration:" ++ [10%N]
                  ++ join [10%N] (issue_line <$> superRefine e))).
Proof.
  intros Hp Hd. split; [by rewrite superRefine_nil|]. unfold loadConfig.
  destruct (safeParse rawSchema (env_json source)) as [iss|e'] eqn:He.
  - by rewrite (safeParse_refined _ _ _ _ _ (proj2 (safeParse_success _ _ _) Hp) He).
  - apply safeParse_success, rawSchema_parses in He as [Hp' Hd'].
    rewrite Hp in Hp'. by injection Hp' as <-.
Qed.
End LoadConfigSpec.

(** ** A production environment *)

Definition sample_url (s : jstr) : bool := startsWith (js "http") s.
Definition sample_number (s : jstr) : option Z := if decide (s = js "8080") then Some 8080%Z else None.
#[local] Instance sample_zod : Zod := reference_zod sample_url sample_number.

Definition prod_env : list (jstr * jstr) :=
  (λ kv, (js kv.1, js kv.2)) <$>
  [("NODE_ENV", "production"); ("APP_BASE_URL", "https://api.fieldnote.app");
   ("DATABASE_URL", "postgresql://u:p@db/fieldnote"); ("REDIS_URL", "redis://cache:6379");
   ("R2_ACCOUNT_ID", "acct"); ("R2_ACCESS_KEY_ID", "key"); ("R2_SECRET_ACCESS_KEY", "secret");
   ("R2_BUCKET", "fieldnote"); ("R2_ENDPOINT", "https://acct.r2.cloudflarestorage.com");
   ("APPLE_CLIENT_ID", "com.viralventures.fieldnote"); ("APPLE_TEAM_ID", "TEAM");
   ("APPLE_KEY_ID", "KEY"); ("APPLE_PRIVATE_KEY", "PEM"); ("APPLE_AUTH_DEV_BYPASS", "false");
   ("JWT_ACCESS_SECRET", "access-secret-0123456789abcdef");
   ("JWT_REFRESH_SECRET", "refresh-secret-0123456789abcdef");
   ("USE_MOCK_AI", "False"); ("DEEPSEEK_API_KEY", "k"); ("DEEPGRAM_API_KEY", "dg");
   ("CORS_ORIGINS", "https://app.fieldnote.app, https://www.fieldnote.app")].

Definition parsed (source : list (jstr * jstr)) : option RawEnv :=
  zeval sample_url sample_number (ZObject rawObject) (Some (env_json source)).
Definition prod_parsed : RawEnv :=
  Eval vm_compute in match parsed prod_env with Some e => e | None => mkRawEnv test 0 [] [] [] [] [] []
    [] [] [] [] false 0 0 0 deepgram [] [] [] [] [] [] [] 0 0 0 0 false [] [] [] [] false [] [] 0 0 [] [] end.

Lemma production_config_safe_witness :
  devBypass (cfg_apple (config_of prod_parsed)) = false.
Proof.
  apply (production_config_safe prod_env (config_of prod_parsed)); vm_compute; reflexivity.
Defined.

Lemma loadConfig_bounds_witness : (0 < port (config_of prod_parsed))%Z.
Proof. apply (loadConfig_bounds prod_env (config_of prod_parsed)). vm_compute. reflexivity. Defined.

(** The production environment with the wildcard origin and a shared secret. *)
Definition shared_env : list (jstr * jstr) :=
  (js "CORS_ORIGINS", js "*") :: (js "JWT_REFRESH_SECRET", js "access-secret-0123456789abcdef") :: prod_env.
Definition shared_parsed : RawEnv :=
  Eval vm_compute in match parsed shared_env with Some e => e | None => prod_parsed end.

Lemma loadConfig_reports_rules_witness :
  loadConfig shared_env =
    inl (JsError (js "Invalid environment configuration:" ++ [10%N]
                  ++ join [10%N] (issue_line <$> superRefine shared_parsed)))
  ∧ length (superRefine shared_parsed) = 2.
Proof.
  split; [|reflexivity].
  apply (loadConfig_reports_rules shared_env shared_parsed).
  - vm_compute. reflexivity.
  - intros Hd%superRefine_nil. vm_compute in Hd. discriminate.
Defined.
