(* ===== verification/Bytes.v ===== *)
(** * Strings and bytes

    What Node's [Buffer] does between strings and bytes: UTF-8 in both directions
    ([Buffer.from(s, 'utf8')], [buffer.toString('utf8')]) and the forgiving base64
    decoder ([Buffer.from(s, 'base64')]), with their round trips.  Bytes are
    numbers below 256; strings are UTF-16 code units. *)
From S2P Require Import Prelude.

#[local] Ltac Zify.zify_post_hook ::= Z.to_euclidean_division_equations.

(** ** UTF-8 *)
Module Utf8.

Definition is_high (u : N) : bool := ((55296 <=? u) && (u <=? 56319))%N.
Definition is_low (u : N) : bool := ((56320 <=? u) && (u <=? 57343))%N.
Definition replacement : N := 65533.

(** The code points of a string; a lone surrogate becomes U+FFFD. *)
Fixpoint code_points (s : jstr) : list N :=
  match s with
  | [] => []
  | h :: s1 =>
      if is_high h then
        match s1 with
        | l :: s2 => if is_low l then (65536 + (h - 55296) * 1024 + (l - 56320))%N :: code_points s2
                     else replacement :: code_points s1
        | [] => [replacement]
        end
      else if is_low h then replacement :: code_points s1
      else h :: code_points s1
  end.

Definition encode_point (c : N) : list N :=
  (if c <? 128 then [c]
   else if c <? 2048 then [192 + c / 64; 128 + c mod 64]
   else if c <? 65536 then [224 + c / 4096; 128 + (c / 64) mod 64; 128 + c mod 64]
   else [240 + c / 262144; 128 + (c / 4096) mod 64; 128 + (c / 64) mod 64; 128 + c mod 64])%N.

Definition encode (s : jstr) : list N := concat (encode_point <$> code_points s).

(** The code units of a code point. *)
Definition units (c : N) : jstr :=
  (if c <? 65536 then [c] else [55296 + (c - 65536) / 1024; 56320 + (c - 65536) mod 1024])%N.

(** A sequence that has begun: its value so far, the bytes it still needs, and the
    range of the next one. *)
Record Pending := mkPending { value : N; needed : nat; lower : N; upper : N }.

(** The first byte of a sequence. *)
Definition start (b : N) : jstr * option Pending :=
  (if b <? 128 then ([b], None)
   else if b <? 194 then ([replacement], None)
   else if b <? 224 then ([], Some (mkPending (b - 192) 1 128 191))
   else if b <? 240 then
     ([], Some (mkPending (b - 224) 2 (if b =? 224 then 160 else 128) (if b =? 237 then 159 else 191)))
   else if b <? 245 then
     ([], Some (mkPending (b - 240) 3 (if b =? 240 then 144 else 128) (if b =? 244 then 143 else 191)))
   else ([replacement], None))%N.

(** The decoder of the encoding standard: a sequence that breaks off is replaced by
    one U+FFFD, and the byte that broke it is read again. *)
Fixpoint decode_from (st : option Pending) (bs : list N) : jstr :=
  match bs with
  | [] => match st with None => [] | Some _ => [replacement] end
  | b :: bs =>
      let begin := let (o, st') := start b in o ++ decode_from st' bs in
      match st with
      | None => begin
      | Some p =>
          if ((lower p <=? b) && (b <=? upper p))%N then
            let v := (value p * 64 + (b - 128))%N in
            match needed p with
            | S (S n) => decode_from (Some (mkPending v (S n) 128 191)) bs
            | _ => units v ++ decode_from None bs
            end
          else replacement :: begin
      end
  end.
Definition decode : list N → jstr := decode_from None.

(** No lone surrogates. *)
Fixpoint well_formed (s : jstr) : bool :=
  match s with
  | [] => true
  | h :: s1 =>
      if is_high h then match s1 with l :: s2 => is_low l && well_formed s2 | [] => false end
      else negb (is_low h) && (h <? 65536)%N && well_formed s1
  end.

Definition scalar (c : N) : Prop := (c < 55296 ∨ 57344 ≤ c < 1114112)%N.

(** ** The decoder, byte by byte *)
Lemma decide_ltb (a b : N) (x y : jstr * option Pending) :
  (b ≤ a)%N → (if (a <? b)%N then x else y) = y.
Proof. intros H. by rewrite (proj2 (N.ltb_ge a b) H). Qed.

Lemma start_ascii b : (b < 128)%N → start b = ([b], None).
Proof. intros H. unfold start. by rewrite (proj2 (N.ltb_lt b 128) H). Qed.

Lemma start_2 q : (2 ≤ q < 32)%N → start (192 + q) = ([], Some (mkPending q 1 128 191)).
Proof.
  intros H. unfold start. rewrite !decide_ltb by lia. rewrite (proj2 (N.ltb_lt _ 224)) by lia.
  do 3 f_equal. lia.
Qed.

Lemma start_3 q :
  (q < 16)%N →
  start (224 + q) = ([], Some (mkPending q 2 (if q =? 0 then 160 else 128) (if q =? 13 then 159 else 191)))%N.
Proof.
  intros H. unfold start. rewrite !decide_ltb by lia. rewrite (proj2 (N.ltb_lt _ 240)) by lia.
  replace (224 + q =? 224)%N with (q =? 0)%N by (destruct (N.eqb_spec q 0), (N.eqb_spec (224 + q) 224); lia).
  replace (224 + q =? 237)%N with (q =? 13)%N by (destruct (N.eqb_spec q 13), (N.eqb_spec (224 + q) 237); lia).
  do 3 f_equal. lia.
Qed.

Lemma start_4 q :
  (q < 5)%N →
  start (240 + q) = ([], Some (mkPending q 3 (if q =? 0 then 144 else 128) (if q =? 4 then 143 else 191)))%N.
Proof.
  intros H. unfold start. rewrite !decide_ltb by lia. rewrite (proj2 (N.ltb_lt _ 245)) by lia.
  replace (240 + q =? 240)%N with (q =? 0)%N by (destruct (N.eqb_spec q 0), (N.eqb_spec (240 + q) 240); lia).
  replace (240 + q =? 244)%N with (q =? 4)%N by (destruct (N.eqb_spec q 4), (N.eqb_spec (240 + q) 244); lia).
  do 3 f_equal. lia.
Qed.

(** A byte that continues a sequence. *)
Lemma decode_continue p x bs :
  (lower p ≤ 128 + x ≤ upper p)%N →
  decode_from (Some p) ((128 + x)%N :: bs) =
    match needed p with
    | S (S n) => decode_from (Some (mkPending (value p * 64 + x) (S n) 128 191)) bs
    | _ => units (value p * 64 + x) ++ decode_from None bs
    end.
Proof.
  intros [H1 H2]. cbn [decode_from].
  rewrite (proj2 (N.leb_le _ _) H1), (proj2 (N.leb_le _ _) H2). cbn [andb].
  by replace (128 + x - 128)%N with x by lia.
Qed.

Lemma decode_start b st bs : start b = ([], Some st) → decode_from None (b :: bs) = decode_from (Some st) bs.
Proof. intros H. cbn [decode_from]. by rewrite H. Qed.

(** ** Encoding, then decoding *)
Lemma decode_point c bs : scalar c → decode (encode_point c ++ bs) = units c ++ decode bs.
Proof.
  intros Hc. unfold scalar in Hc. unfold encode_point, decode.
  destruct (N.ltb_spec c 128); [|destruct (N.ltb_spec c 2048); [|destruct (N.ltb_spec c 65536)]]; cbn [app].
  - cbn [decode_from]. rewrite start_ascii by done. unfold units. by rewrite (proj2 (N.ltb_lt c 65536)) by lia.
  - rewrite (decode_start _ _ _ (start_2 (c / 64) ltac:(lia))), decode_continue by (cbn [lower upper]; lia).
    cbn [needed value]. do 2 f_equal. lia.
  - rewrite (decode_start _ _ _ (start_3 (c / 4096) ltac:(lia))), decode_continue.
    2:{ cbn [lower upper]. destruct (N.eqb_spec (c / 4096) 0), (N.eqb_spec (c / 4096) 13); lia. }
    cbn [needed value]. rewrite decode_continue by (cbn [lower upper]; lia).
    cbn [needed value]. do 2 f_equal. lia.
  - rewrite (decode_start _ _ _ (start_4 (c / 262144) ltac:(lia))), decode_continue.
    2:{ cbn [lower upper]. destruct (N.eqb_spec (c / 262144) 0), (N.eqb_spec (c / 262144) 4); lia. }
    cbn [needed value]. rewrite decode_continue by (cbn [lower upper]; lia).
    cbn [needed value]. rewrite decode_continue by (cbn [lower upper]; lia).
    cbn [needed value]. do 2 f_equal. lia.
Qed.

(** The induction that follows surrogate pairs. *)
Lemma jstr_pairs (P : jstr → Prop) :
  P [] → (∀ h, P [h]) → (∀ h l s, P s → P (l :: s) → P (h :: l :: s)) → ∀ s, P s.
Proof.
  intros H0 H1 H2 s. assert (P s ∧ ∀ h, P (h :: s)) as [? _]; [|done].
  induction s as [|l s [IH1 IH2]]; [by split|]. split; [done|]. intros h. by apply H2.
Qed.

Lemma high_low_spec h l :
  is_high h = true → is_low l = true → (55296 ≤ h ≤ 56319 ∧ 56320 ≤ l ≤ 57343)%N.
Proof. unfold is_high, is_low. rewrite !andb_true_iff, !N.leb_le. lia. Qed.

Lemma plain_spec h : is_high h = false → is_low h = false → (h < 65536)%N → scalar h.
Proof. unfold is_high, is_low, scalar. rewrite !andb_false_iff, !N.leb_gt. lia. Qed.

Lemma code_points_plain h s : is_high h = false → is_low h = false → code_points (h :: s) = h :: code_points s.
Proof. intros Hh Hl. cbn [code_points]. by rewrite Hh, Hl. Qed.
Lemma code_points_pair h l s :
  is_high h = true → is_low l = true →
  code_points (h :: l :: s) = (65536 + (h - 55296) * 1024 + (l - 56320))%N :: code_points s.
Proof. intros Hh Hl. cbn [code_points]. by rewrite Hh, Hl. Qed.

(** A well-formed string is empty, or begins with a pair or a plain unit. *)
Lemma well_formed_cases (P : jstr → Prop) :
  P [] →
  (∀ h s, is_high h = false → is_low h = false → (h < 65536)%N → well_formed s = true → P s → P (h :: s)) →
  (∀ h l s, is_high h = true → is_low l = true → well_formed s = true → P s → P (h :: l :: s)) →
  ∀ s, well_formed s = true → P s.
Proof.
  intros H0 H1 H2 s. induction s as [|h|h l s IH1 IH2] using jstr_pairs; [done|..].
  - cbn [well_formed]. destruct (is_high h) eqn:Hh; [done|]. destruct (is_low h) eqn:Hl; [done|]. cbn [negb andb].
    rewrite andb_true_r, N.ltb_lt. auto.
  - change (well_formed (h :: l :: s)) with
      (if is_high h then is_low l && well_formed s else negb (is_low h) && (h <? 65536)%N && well_formed (l :: s)).
    destruct (is_high h) eqn:Hh; rewrite !andb_true_iff; [intros []; auto|].
    rewrite negb_true_iff, N.ltb_lt. intros [[] ?]. auto.
Qed.

Lemma code_points_scalar s : well_formed s = true → Forall scalar (code_points s).
Proof.
  revert s. apply well_formed_cases; [done|..].
  - intros h s Hh Hl Hb _ IH. rewrite code_points_plain by done. constructor; [by apply plain_spec|done].
  - intros h l s Hh Hl _ IH. rewrite code_points_pair by done. constructor; [|done].
    pose proof (high_low_spec h l Hh Hl). right. lia.
Qed.

Lemma units_code_points s : well_formed s = true → concat (units <$> code_points s) = s.
Proof.
  revert s. apply well_formed_cases; [done|..].
  - intros h s Hh Hl Hb _ IH. rewrite code_points_plain, fmap_cons by done. cbn [concat].
    rewrite IH. unfold units. by rewrite (proj2 (N.ltb_lt h 65536) Hb).
  - intros h l s Hh Hl _ IH. rewrite code_points_pair, fmap_cons by done. cbn [concat]. rewrite IH.
    pose proof (high_low_spec h l Hh Hl). unfold units. rewrite (proj2 (N.ltb_ge _ 65536)) by lia.
    cbn [app]. f_equal; [lia|]. f_equal. lia.
Qed.

(** The code points of what code points are written as. *)
Lemma code_points_units cs : Forall scalar cs → code_points (concat (units <$> cs)) = cs.
Proof.
  induction 1 as [|c cs Hc _ IH]; [done|]. rewrite fmap_cons. cbn [concat].
  unfold scalar in Hc. unfold units at 1. destruct (N.ltb_spec c 65536) as [Hlt|Hge]; cbn [app].
  - rewrite code_points_plain; [by rewrite IH|..]; unfold is_high, is_low; rewrite andb_false_iff, !N.leb_gt; lia.
  - rewrite code_points_pair; [|unfold is_high; rewrite andb_true_iff, !N.leb_le; lia|
      unfold is_low; rewrite andb_true_iff, !N.leb_le; lia].
    rewrite IH. f_equal. lia.
Qed.

Lemma decode_points cs : Forall scalar cs → decode (concat (encode_point <$> cs)) = concat (units <$> cs).
Proof.
  induction 1 as [|c cs Hc _ IH]; [done|]. rewrite !fmap_cons. cbn [concat]. by rewrite decode_point, IH.
Qed.

Lemma encode_point_bytes c : scalar c → Forall (λ b, (b < 256)%N) (encode_point c).
Proof.
  unfold scalar, encode_point. intros Hc.
  destruct (N.ltb_spec c 128); [|destruct (N.ltb_spec c 2048); [|destruct (N.ltb_spec c 65536)]];
    repeat constructor; lia.
Qed.

(** Decoding the encoding gives the string back. *)
Lemma decode_utf8 s : well_formed s = true → decode (encode s) = s.
Proof.
  intros Hs. unfold encode. rewrite decode_points by by apply code_points_scalar. by apply units_code_points.
Qed.

Lemma encode_inj s t : well_formed s = true → well_formed t = true → encode s = encode t → s = t.
Proof. intros Hs Ht H. by rewrite <-(decode_utf8 s Hs), <-(decode_utf8 t Ht), H. Qed.

Lemma encode_bytes s : well_formed s = true → Forall (λ b, (b < 256)%N) (encode s).
Proof.
  intros Hs. unfold encode. induction (code_points_scalar s Hs) as [|c cs Hc _ IH]; [done|].
  rewrite fmap_cons. cbn [concat]. apply Forall_app. split; [by apply encode_point_bytes|done].
Qed.

(** ** What the decoder returns *)
Lemma well_formed_units c s : scalar c → well_formed s = true → well_formed (units c ++ s) = true.
Proof.
  unfold scalar, units. intros Hc Hs. destruct (N.ltb_spec c 65536) as [Hlt|Hge]; cbn [app well_formed].
  - assert (is_high c = false ∧ is_low c = false) as [-> ->].
    { unfold is_high, is_low. rewrite !andb_false_iff, !N.leb_gt. lia. }
    by rewrite (proj2 (N.ltb_lt c 65536) Hlt), Hs.
  - assert (is_high (55296 + (c - 65536) / 1024) = true ∧ is_low (56320 + (c - 65536) mod 1024) = true) as [-> ->].
    { unfold is_high, is_low. rewrite !andb_true_iff, !N.leb_le. lia. }
    by rewrite Hs.
Qed.

(** Every completion of a pending sequence is a scalar value. *)
Definition pending_ok (p : Pending) : Prop :=
  (128 ≤ lower p)%N ∧ (upper p ≤ 191)%N
  ∧ match needed p with
    | 1 => ∀ x, (lower p ≤ 128 + x ≤ upper p)%N → scalar (value p * 64 + x)
    | 2 => ∀ x y, (lower p ≤ 128 + x ≤ upper p)%N → (y < 64)%N → scalar ((value p * 64 + x) * 64 + y)
    | 3 => ∀ x y z, (lower p ≤ 128 + x ≤ upper p)%N → (y < 64)%N → (z < 64)%N →
             scalar (((value p * 64 + x) * 64 + y) * 64 + z)
    | _ => False
    end.

Lemma pending_step p x n :
  pending_ok p → needed p = S (S n) → (lower p ≤ 128 + x ≤ upper p)%N →
  pending_ok (mkPending (value p * 64 + x) (S n) 128 191).
Proof.
  intros (H1 & H2 & H3) Hn Hx. unfold pending_ok. cbn [lower upper needed value]. split; [lia|]. split; [lia|].
  rewrite Hn in H3. destruct n as [|[|n]]; [|intros y z Hy Hz; apply H3; lia|done].
  intros y Hy. apply H3; lia.
Qed.

Lemma start_ok b :
  (∀ s, well_formed s = true → well_formed ((start b).1 ++ s) = true)
  ∧ match (start b).2 with Some p => pending_ok p | None => True end.
Proof.
  assert (∀ c, scalar c → (c < 65536)%N → ∀ s, well_formed s = true → well_formed ([c] ++ s) = true) as Hone.
  { intros c Hc Hlt s Hs. pose proof (well_formed_units c s Hc Hs) as H. unfold units in H.
    by rewrite (proj2 (N.ltb_lt c 65536) Hlt) in H. }
  unfold start.
  destruct (N.ltb_spec b 128); [split; [|done]; apply Hone; unfold scalar; lia|].
  destruct (N.ltb_spec b 194); [split; [|done]; by apply Hone; [right|]|].
  destruct (N.ltb_spec b 224); [split; [done|]; unfold pending_ok, scalar; cbn; split_and!; lia|].
  destruct (N.ltb_spec b 240).
  { split; [done|]. unfold pending_ok, scalar. cbn [snd lower upper needed value].
    destruct (N.eqb_spec b 224), (N.eqb_spec b 237); split_and!; lia. }
  destruct (N.ltb_spec b 245).
  { split; [done|]. unfold pending_ok, scalar. cbn [snd lower upper needed value].
    destruct (N.eqb_spec b 240), (N.eqb_spec b 244); split_and!; lia. }
  split; [|done]. by apply Hone; [right|].
Qed.

Lemma decode_well_formed bs : well_formed (decode bs) = true.
Proof.
  assert (∀ st, match st with Some p => pending_ok p | None => True end → well_formed (decode_from st bs) = true)
    as H; [|by apply H].
  assert (∀ s, well_formed s = true → well_formed (replacement :: s) = true) as Hrep by done.
  induction bs as [|b bs IH]; intros st Hst; cbn [decode_from]; [by destruct st|].
  assert (well_formed (let (o, st') := start b in o ++ decode_from st' bs) = true) as Hb.
  { destruct (start_ok b) as [H1 H2]. destruct (start b) as [o st']. by apply H1, IH. }
  destruct st as [p|]; [|done].
  destruct (N.leb_spec (lower p) b) as [Hl|]; cbn [andb]; [|by apply Hrep].
  destruct (N.leb_spec b (upper p)) as [Hu|]; cbn [andb]; [|by apply Hrep].
  pose proof Hst as (Hlo & Hhi & Hp).
  assert (lower p ≤ 128 + (b - 128) ≤ upper p)%N as Hx by lia.
  destruct (needed p) as [|[|n]] eqn:Hn; [done| |].
  - apply well_formed_units; [by apply Hp|by apply IH].
  - apply IH. by apply pending_step.
Qed.

(** A separator that is no surrogate splits well-formed strings. *)
Lemma well_formed_app a c b :
  is_high c = false → is_low c = false → (c < 65536)%N →
  well_formed (a ++ c :: b) = well_formed a && well_formed b.
Proof.
  intros Hh Hl Hc. induction a as [|h|h l a IH1 IH2] using jstr_pairs; cbn [app well_formed].
  - rewrite Hh, Hl. by rewrite (proj2 (N.ltb_lt c 65536) Hc).
  - rewrite Hh, Hl, (proj2 (N.ltb_lt c 65536) Hc). destruct (is_high h); [done|]. cbn [negb andb].
    by rewrite andb_true_r.
  - cbn [app] in IH2. destruct (is_high h).
    + rewrite IH1. by rewrite andb_assoc.
    + cbn [well_formed] in IH2. rewrite IH2. by rewrite !andb_assoc.
Qed.
End Utf8.

(** ** Base64 *)
Module Base64.

(** A letter's six bits, in the standard alphabet or the URL alphabet. *)
Definition sextet (u : N) : option N :=
  (if (65 <=? u) && (u <=? 90) then Some (u - 65)
   else if (97 <=? u) && (u <=? 122) then Some (u - 71)
   else if (48 <=? u) && (u <=? 57) then Some (u + 4)
   else if (u =? 43) || (u =? 45) then Some 62
   else if (u =? 47) || (u =? 95) then Some 63
   else None)%N.

(** [Buffer.from(s, 'base64')] skips what is no letter and stops at [=]. *)
Fixpoint sextets (s : jstr) : list N :=
  match s with
  | [] => []
  | u :: s =>
      if (u =? 61)%N then []
      else match sextet u with Some v => v :: sextets s | None => sextets s end
  end.

Fixpoint pack (l : list N) : list N :=
  match l with
  | a :: b :: c :: d :: l =>
      (a * 4 + b / 16)%N :: ((b mod 16) * 16 + c / 4)%N :: ((c mod 4) * 64 + d)%N :: pack l
  | [a; b; c] => [a * 4 + b / 16; (b mod 16) * 16 + c / 4]%N
  | [a; b] => [a * 4 + b / 16]%N
  | _ => []
  end.

Definition decode (s : jstr) : list N := pack (sextets s).

(** The encoder of a client. *)
Definition letter (v : N) : N :=
  (if v <? 26 then v + 65 else if v <? 52 then v + 71 else if v <? 62 then v - 4 else if v =? 62 then 43 else 47)%N.

Fixpoint encode (bs : list N) : jstr :=
  match bs with
  | a :: b :: c :: bs =>
      letter (a / 4) :: letter ((a mod 4) * 16 + b / 16) :: letter ((b mod 16) * 4 + c / 64)
        :: letter (c mod 64) :: encode bs
  | [a; b] => [letter (a / 4); letter ((a mod 4) * 16 + b / 16); letter ((b mod 16) * 4); 61]
  | [a] => [letter (a / 4); letter ((a mod 4) * 16); 61; 61]
  | [] => []
  end%N.

Lemma letter_sextet v : (v < 64)%N → sextet (letter v) = Some v ∧ letter v ≠ 61%N ∧ letter v ≠ 32%N.
Proof.
  intros Hv.
  assert (forallb (λ v, match sextet (letter v) with Some w => (w =? v)%N | None => false end
                        && negb (letter v =? 61)%N && negb (letter v =? 32)%N) (N.of_nat <$> seq 0 64) = true) as H
    by (vm_compute; reflexivity).
  rewrite forallb_forall in H. specialize (H v).
  rewrite !andb_true_iff, !negb_true_iff, !N.eqb_neq in H. destruct H as [[H ?] ?].
  - apply list_elem_of_In, list_elem_of_fmap. exists (N.to_nat v).
    split; [by rewrite N2Nat.id|]. apply elem_of_seq. lia.
  - destruct (sextet (letter v)) as [w|]; [|done]. apply N.eqb_eq in H as ->. done.
Qed.

Lemma sextets_letter v s : (v < 64)%N → sextets (letter v :: s) = v :: sextets s.
Proof.
  intros Hv. destruct (letter_sextet v Hv) as (H1 & H2 & _). cbn [sextets].
  by rewrite (proj2 (N.eqb_neq _ _) H2), H1.
Qed.

(** The induction that follows groups of three bytes. *)
Lemma bytes_groups (P : list N → Prop) :
  P [] → (∀ a, P [a]) → (∀ a b, P [a; b]) → (∀ a b c l, P l → P (a :: b :: c :: l)) → ∀ l, P l.
Proof.
  intros H0 H1 H2 H3 l. assert (P l ∧ (∀ a, P (a :: l)) ∧ (∀ a b, P (a :: b :: l))) as (? & _ & _); [|done].
  induction l as [|c l (IH1 & IH2 & IH3)]; split_and!; auto.
Qed.

(** Decoding a client's encoding gives the bytes back. *)
Lemma decode_base64 bs : Forall (λ b, (b < 256)%N) bs → decode (encode bs) = bs.
Proof.
  unfold decode. induction bs as [|a|a b|a b c bs IH] using bytes_groups; rewrite ?Forall_cons; intros H.
  - done.
  - cbn [encode]. rewrite !sextets_letter by lia. cbn. f_equal. lia.
  - cbn [encode]. rewrite !sextets_letter by lia. cbn. f_equal; [lia|]. f_equal. lia.
  - destruct H as (Ha & Hb & Hc & Hbs). cbn [encode]. rewrite !sextets_letter by lia. cbn [pack].
    rewrite IH by done. f_equal; [lia|]. f_equal; [lia|]. f_equal. lia.
Qed.

(** No encoding holds a space, and only no bytes have an empty one. *)
Lemma encode_no_space bs : Forall (λ b, (b < 256)%N) bs → 32%N ∉ encode bs.
Proof.
  intros H Hin. assert (Forall (λ u, u ≠ 32%N) (encode bs)) as Hf; [|rewrite Forall_forall in Hf; by apply (Hf _ Hin)].
  clear Hin. assert (∀ v, (v < 64)%N → letter v ≠ 32%N) as Hl by (intros v Hv; by apply letter_sextet).
  induction bs as [|a|a b|a b c bs IH] using bytes_groups; rewrite ?Forall_cons in H; cbn [encode].
  - done.
  - repeat constructor; try done; apply Hl; lia.
  - repeat constructor; try done; apply Hl; lia.
  - destruct H as (Ha & Hb & Hc & Hbs). repeat (constructor; [apply Hl; lia|]). by apply IH.
Qed.

Lemma encode_truthy bs : bs ≠ [] → truthy (encode bs) = true.
Proof. by destruct bs as [|a [|b [|c bs]]]. Qed.
End Base64.
