(* ===== verification/Media.v ===== *)
(** * Object storage

    [server/src/media/media.service.ts]: the keys of a job's objects, presigned
    URLs and the S3 operations, over the calls of the S3 client. *)
From S2P Require Import Prelude Json Program Schema Services Config.

Definition AUDIO_CONTENT_TYPE : jstr := js "audio/m4a".
Definition PDF_CONTENT_TYPE : jstr := js "application/pdf".

Record PresignedUpload := mkPresignedUpload {
  upload_url : jstr;
  upload_key : jstr;
  upload_contentType : jstr;
  upload_expiresInSeconds : Z;
}.

Module MediaService.
Definition audioKey (userId jobId : jstr) : jstr :=
  js "audio/" ++ userId ++ js "/" ++ jobId ++ js ".m4a".
Definition pdfKey (userId jobId : jstr) : jstr :=
  js "pdf/" ++ userId ++ js "/" ++ jobId ++ js ".pdf".

(** An S3 error that means the object is not there. *)
Definition isNotFound (e : exn) : bool :=
  match e with External f => isNotFound_like f | _ => false end.

Section Operations.
Context (cfg : AppConfig).

Definition presignAudioUpload (userId jobId : jstr) : prog eff PresignedUpload :=
  let key := audioKey userId jobId in
  url <- await (PresignPut key AUDIO_CONTENT_TYPE (presignPutTtl (cfg_r2 cfg)));;
  Ret (mkPresignedUpload url key AUDIO_CONTENT_TYPE (presignPutTtl (cfg_r2 cfg))).

Definition presignPdfDownload (key : jstr) : prog eff (jstr * Z) :=
  url <- await (PresignGet key (presignGetTtl (cfg_r2 cfg)));;
  Ret (url, presignGetTtl (cfg_r2 cfg)).

Definition objectExists (key : jstr) : prog eff bool :=
  TRY (await (HeadObject key);; Ret true)
  CATCH err => if isNotFound err then Ret false else Throw err.

Definition getObjectStream (key : jstr) : prog eff (list N) :=
  body <- await (GetObject key);;
  match body with
  | None => Throw (JsError (js "Object " ++ key ++ js " has no body"))
  | Some stream => Ret stream
  end.

Definition putObject (key : jstr) (body : list N) (contentType : jstr) : prog eff unit :=
  await (PutObject key body contentType).

Definition deleteObjects (keys : list jstr) : prog eff unit :=
  let present := filter (λ k, 0 < length k) keys in
  match present with
  | [] => Ret tt
  | _ => await (DeleteObjects present)
  end.

(** Every error of the bucket creation is swallowed: two by name, the rest
    after a warning. *)
Definition ensureBucketExists : prog eff unit :=
  if isProduction cfg then Ret tt
  else TRY (await (CreateBucket (bucket (cfg_r2 cfg)))) CATCH err => Ret tt.
End Operations.

(** ** Keys *)

Definition slash_free (s : jstr) : Prop := (47%N ∉ s).

Lemma split_at_slash u u' r r' :
  slash_free u → slash_free u' → u ++ 47%N :: r = u' ++ 47%N :: r' → u = u' ∧ r = r'.
Proof.
  unfold slash_free. revert u'. induction u as [|c u IH]; intros [|c' u'] Hu Hu'; simpl.
  - by intros [= ->].
  - intros [= <- _]. exfalso. apply Hu'. by left.
  - intros [= -> _]. exfalso. apply Hu. by left.
  - intros [= -> Heq]. destruct (IH u') as [-> ->]; [..|done|done];
      intros Hin; [apply Hu|apply Hu']; by right.
Qed.

Lemma pdfKey_injective u j u' j' :
  slash_free u → slash_free u' → pdfKey u j = pdfKey u' j' → u = u' ∧ j = j'.
Proof.
  intros Hu Hu' [= Heq]. apply split_at_slash in Heq as [-> Heq]; [|done..].
  by apply app_inv_tail in Heq.
Qed.

(** Distinct (user, job) pairs have distinct audio keys and distinct PDF
    keys, and no audio key is a PDF key, for ids without a slash (as UUIDs
    are): one user's objects cannot collide with another's. *)
Theorem object_keys_scoped u j u' j' :
  slash_free u → slash_free u' →
  (audioKey u j = audioKey u' j' → u = u' ∧ j = j')
  ∧ (pdfKey u j = pdfKey u' j' → u = u' ∧ j = j')
  ∧ audioKey u j ≠ pdfKey u' j'.
Proof.
  intros Hu Hu'. split_and!; [|by apply pdfKey_injective|done].
  unfold audioKey. intros [= Heq]. apply split_at_slash in Heq as [-> Heq]; [|done..].
  by apply app_inv_tail in Heq.
Qed.

Lemma object_keys_scoped_witness :
  audioKey (js "alice") (js "1") ≠ pdfKey (js "bob") (js "1").
Proof.
  apply (object_keys_scoped (js "alice") (js "1") (js "bob") (js "1"));
    unfold slash_free; vm_compute; intros H; repeat (inversion H as [|? ? ? H']; subst; clear H; rename H' into H).
Defined.

(** ** Specifications of the operations *)
Section Specs.
Context `{Cr : Crypto} (cfg : AppConfig) (f : bool).
Abbreviation wp := (wp (eff_contract f)).

Lemma objectExists_spec key s :
  wp (objectExists key) s (λ r s', s' = s ∧
    match r with
    | inr b => b = bool_decide (is_Some (objects s !! key))
    | inl e => f = true ∧ infra e
    end).
Proof.
  unfold objectExists. wp_call. intros r s' [Hs|[Hf [-> (e & -> & He)]]].
  - destruct Hs as [(Ho & -> & [] & -> & _)|(Ho & -> & e & -> & (g & -> & Hg & _))].
    + split; [done|]. by rewrite bool_decide_true.
    + simpl. rewrite Hg. split; [done|]. rewrite Ho. by rewrite bool_decide_false by by intros [].
  - pose proof He as (g & -> & Hg & _). simpl. by rewrite Hg.
Qed.

Lemma getObjectStream_spec key s :
  wp (getObjectStream key) s (λ r s', s' = s ∧
    match r with
    | inr body => ∃ o, objects s !! key = Some o ∧ body = object_body o
    | inl e => f = true ∧ infra e ∨ objects s !! key = None ∧ not_found e
    end).
Proof.
  unfold getObjectStream. wp_call.
  intros r s' [[(o & Ho & -> & b & -> & ->)|(Ho & -> & e & -> & He)]|[Hf [-> (e & -> & He)]]];
    wp_simpl; (split; [done|]); [by exists o|by right|by left].
Qed.

Lemma putObject_spec key body ct s :
  wp (putObject key body ct) s (λ r s',
    match r with
    | inr _ => s' = with_objects (<[key := mkStoredObject body ct]> (objects s)) s
    | inl e => s' = s ∧ f = true ∧ infra e
    end).
Proof.
  unfold putObject. wp_call. intros r s' [[-> ->]|[Hf [-> (e & -> & He)]]]; done.
Qed.

(** Issuing a URL records what it authorises, and touches nothing else. *)
Definition issued (p : Presigned) (s : Store) : Store := with_presigned (presigned s ++ [p]) s.

Lemma presignAudioUpload_spec u j s :
  wp (presignAudioUpload cfg u j) s (λ r s',
    match r with
    | inr up => upload_key up = audioKey u j ∧ upload_contentType up = AUDIO_CONTENT_TYPE
                ∧ upload_expiresInSeconds up = presignPutTtl (cfg_r2 cfg)
                ∧ s' = issued (mkPresigned (upload_url up) (PUT AUDIO_CONTENT_TYPE) (audioKey u j)
                                 (presignPutTtl (cfg_r2 cfg))) s
    | inl e => s' = s ∧ f = true ∧ infra e
    end).
Proof.
  unfold presignAudioUpload. wp_call. intros r s' [(url & -> & ->)|[Hf [-> (e & -> & He)]]]; done.
Qed.

Lemma presignPdfDownload_spec key s :
  wp (presignPdfDownload cfg key) s (λ r s',
    match r with
    | inr (url, ttl) => ttl = presignGetTtl (cfg_r2 cfg)
                ∧ s' = issued (mkPresigned url GET key (presignGetTtl (cfg_r2 cfg))) s
    | inl e => s' = s ∧ f = true ∧ infra e
    end).
Proof.
  unfold presignPdfDownload. wp_call. intros r s' [(url & -> & ->)|[Hf [-> (e & -> & He)]]]; done.
Qed.

(** The objects with a non-empty key of [keys] are gone, the others stay. *)
Lemma deleteObjects_spec keys s :
  wp (deleteObjects keys) s (λ r s',
    match r with
    | inr _ => s' = s ∧ filter (λ k, 0 < length k) keys = []
               ∨ s' = with_objects (filter (λ p, p.1 ∉ filter (λ k, 0 < length k) keys) (objects s)) s
    | inl e => s' = s ∧ f = true ∧ infra e
    end).
Proof.
  unfold deleteObjects. set (present := filter (λ k, 0 < length k) keys).
  destruct present as [|k ks] eqn:Hp; [simpl; by left|].
  wp_call. intros r s' [[-> ->]|[Hf [-> (e & -> & He)]]]; [by right|done].
Qed.
End Specs.

(** Probing for an object answers whether it is stored, turns only S3's
    "not found" into [false], and lets every other error through without
    changing anything. *)
Theorem objectExists_correct `{Hs : Services} key w :
  ensures (objectExists key) w (λ r s',
    s' = view w ∧
    match r with
    | inr b => b = true ↔ is_Some (objects (view w) !! key)
    | inl e => faults = true ∧ isNotFound e = false
    end).
Proof.
  apply ensures_wp. eapply wp_mono; [apply objectExists_spec|].
  intros [e|b] s' [-> Hr]; (split; [done|]).
  - destruct Hr as [Hf (g & -> & Hg & _)]. done.
  - rewrite Hr. apply bool_decide_eq_true.
Qed.
End MediaService.
