(* ===== verification/Queue.v ===== *)
(** * The processing queue, producer side

    [server/src/queue/queue.constants.ts] and
    [server/src/queue/processing-queue.service.ts]. *)
From S2P Require Import Prelude Json Program Schema Services Memory Config.

Definition PROCESSING_QUEUE : jstr := js "fieldnote-processing".
Definition PROCESSING_DLQ : jstr := js "fieldnote-processing-dlq".
Definition PROCESS_JOB : jstr := js "process-job".

Module ProcessingQueue.
Section Producer.
Context (cfg : AppConfig).

Definition enqueue_options (data : ProcessJobData) : JobsOptions :=
  {| opts_jobId := data_jobId data;
     opts_attempts := jobMaxAttempts (cfg_ai cfg);
     opts_backoff := (js "exponential", 5000%Z);
     opts_removeOnComplete := (24 * 3600, 1000)%Z;
     opts_removeOnFail := false |}.

(** Whether an existing queue job may be replaced. *)
Definition terminal_state (state : jstr) : bool :=
  bool_decide (state = js "completed") || bool_decide (state = js "failed").

Definition enqueueProcessing (data : ProcessJobData) : prog eff unit :=
  existing <- await (QueueGetJob (data_jobId data));;
  proceed <- (if existing
              then (state <- await (QueueGetState (data_jobId data));;
                    if terminal_state state
                    then (await (QueueRemove (data_jobId data));; Ret true)
                    else Ret false)
              else Ret true);;
  if (proceed : bool)
  then await (QueueAdd PROCESS_JOB data (enqueue_options data))
  else Ret tt.

(** What enqueueing promises: one entry per job id.  An entry in flight is
    left alone; a missing or finished one is replaced by a fresh entry. *)
Definition enqueued (data : ProcessJobData) (s : Store) : gmap jstr BullJob :=
  let fresh := mkBullJob PROCESS_JOB data (enqueue_options data) (js "waiting") in
  match queue s !! data_jobId data with
  | Some j => if terminal_state (bull_state j)
              then <[data_jobId data := fresh]> (queue s) else queue s
  | None => <[data_jobId data := fresh]> (queue s)
  end.

Section Spec.
Context `{Cr : Crypto} (f : bool).

Lemma with_queue_id s : with_queue (queue s) s = s.
Proof. by destruct s. Qed.

Lemma enqueue_add_spec data s :
  queue s !! data_jobId data = None →
  wp (eff_contract f) (await (QueueAdd PROCESS_JOB data (enqueue_options data))) s (λ r s',
    match r with
    | inr _ => s' = with_queue (<[data_jobId data :=
                 mkBullJob PROCESS_JOB data (enqueue_options data) (js "waiting")]> (queue s)) s
    | inl e => f = true ∧ infra e ∧ s' = s
    end).
Proof.
  intros Hn. wp_call. intros r s' [[-> Hs]|[Hf [-> (e & -> & He)]]]; [|done].
  simpl in Hs. by rewrite Hn in Hs.
Qed.

(** Failures leave the queue as it was, or with the finished entry gone. *)
Lemma enqueueProcessing_spec data s :
  wp (eff_contract f) (enqueueProcessing data) s (λ r s',
    match r with
    | inr _ => s' = with_queue (enqueued data s) s
    | inl e => f = true ∧ infra e
               ∧ (s' = s ∨ s' = with_queue (delete (data_jobId data) (queue s)) s)
    end).
Proof.
  unfold enqueueProcessing, enqueued. wp_call.
  intros r s' [[-> (b & -> & ->)]|[Hf [-> (e & -> & He)]]]; [|by auto].
  destruct (queue s !! data_jobId data) as [j|] eqn:Hj.
  - rewrite bool_decide_true by done. wp_call.
    intros r s' [[-> (st & -> & Hst)]|[Hf [-> (e & -> & He)]]]; [|by auto].
    rewrite Hj in Hst. subst st. destruct (terminal_state (bull_state j)).
    + wp_call. intros r s' [[-> ->]|[Hf [-> (e & -> & He)]]]; [|by auto]. wp_simpl.
      eapply wp_mono; [apply enqueue_add_spec; simpl; by rewrite lookup_delete_eq|].
      simpl. intros [e|u] s'; [naive_solver|]. by rewrite insert_delete_eq.
    + simpl. by rewrite with_queue_id.
  - rewrite bool_decide_false by by intros []. wp_simpl.
    eapply wp_mono; [by apply enqueue_add_spec|]. intros [e|u] s'; naive_solver.
Qed.
End Spec.

(** Enqueueing de-duplicates by job id: afterwards the queue differs at
    most at that id; an entry in flight is untouched, and a missing,
    completed or failed one has become a fresh waiting entry that carries the
    payload and the configured number of attempts. *)
Theorem enqueue_deduplicates `{Hs : Services} data w :
  ensures (enqueueProcessing data) w (λ r s',
    (∀ id, id ≠ data_jobId data → queue s' !! id = queue (view w) !! id)
    ∧ (∀ u, r = inr u →
         match queue (view w) !! data_jobId data with
         | Some j => if terminal_state (bull_state j) then
                       ∃ j', queue s' !! data_jobId data = Some j' ∧ bull_state j' = js "waiting"
                             ∧ bull_data j' = data
                             ∧ opts_attempts (bull_opts j') = jobMaxAttempts (cfg_ai cfg)
                     else queue s' = queue (view w)
         | None => ∃ j', queue s' !! data_jobId data = Some j' ∧ bull_state j' = js "waiting"
                         ∧ bull_data j' = data
                         ∧ opts_attempts (bull_opts j') = jobMaxAttempts (cfg_ai cfg)
         end)).
Proof.
  apply ensures_wp. eapply wp_mono; [apply enqueueProcessing_spec|].
  intros [e|u] s'.
  - intros (_ & _ & [->| ->]); (split; [|done]); [done|].
    intros id Hne. simpl. by rewrite lookup_delete_ne.
  - intros ->. unfold enqueued. simpl. split.
    + intros id Hne. repeat case_match; simpl; rewrite ?lookup_insert_ne; done.
    + intros _ _. repeat case_match; try done; eexists;
        (split; [apply lookup_insert_eq|done]).
Qed.
End Producer.
End ProcessingQueue.
