(* ===== verification/Health.v ===== *)
(** * Health probes

    [server/src/health]: the liveness answer, and the two readiness indicators -
    Postgres with a trivial query, Redis with a client of its own that connects,
    pings and is disconnected in any case.  The service that runs the indicators
    and the client libraries are outside: the calls made of them are the signature
    [probe]. *)
From S2P Require Import Prelude Json Program Zod Config.

(** ** The calls *)
Record RedisOptions := mkRedisOptions { maxRetriesPerRequest : Z; connectTimeout : Z; lazyConnect : bool }.

Inductive probe : Type → Type :=
  | QueryRaw (sql : jstr) : probe unit
  | NewRedis (url : jstr) (options : RedisOptions) : probe unit
  | RedisConnect : probe unit
  | RedisPing : probe jstr
  | RedisDisconnect : probe unit.

(** [err instanceof Error], for what libraries throw. *)
Class Throwables := {
  is_Error : exn → bool;
  is_Error_js : ∀ m, is_Error (JsError m) = true;
}.

Inductive HealthStatus := Up | Down (message : jstr).
Record HealthIndicatorResult := mkHealth { health_key : jstr; health_status : HealthStatus }.

Definition down `{Throwables} (key : jstr) (err : exn) (otherwise : string) : HealthIndicatorResult :=
  mkHealth key (Down (if is_Error err then exn_message err else js otherwise)).

Module PrismaHealthIndicator.
Definition isHealthy `{Throwables} (key : jstr) : prog probe HealthIndicatorResult :=
  TRY (perform (QueryRaw (js "SELECT 1"));; Ret (mkHealth key Up))
  CATCH err => Ret (down key err "postgres unreachable").
End PrismaHealthIndicator.

Module RedisHealthIndicator.
Definition isHealthy `{Throwables} (cfg : AppConfig) (key : jstr) : prog probe HealthIndicatorResult :=
  perform (NewRedis (redis_url cfg) (mkRedisOptions 1 2000 true));;
  try_finally
    (TRY (perform RedisConnect;;
          pong <- perform RedisPing;;
          if negb (bool_decide (pong = js "PONG")) then Throw (JsError (js "unexpected ping reply: " ++ pong))
          else Ret (mkHealth key Up))
     CATCH err => Ret (down key err "redis unreachable"))
    (perform RedisDisconnect).
End RedisHealthIndicator.

Module HealthController.
Inductive Liveness := mkLiveness (status : jstr) (uptime : Z).

(** [Math.round(process.uptime())], from nanoseconds. *)
Definition liveness (uptime_ns : Z) : Liveness :=
  mkLiveness (js "ok") ((uptime_ns + 500000000) / 1000000000).

(** The indicators in the order they are handed to the health service. *)
Definition readiness {Th : Throwables} {R} (cfg : AppConfig)
    (check : list (prog probe HealthIndicatorResult) → R) : R :=
  check [PrismaHealthIndicator.isHealthy (js "postgres"); RedisHealthIndicator.isHealthy cfg (js "redis")].
End HealthController.

(** The health service: everything up is a report; otherwise it throws, with the
    indicators that are down under [error]. *)
Definition health_entry (r : HealthIndicatorResult) : jstr * json :=
  (health_key r, JObj (match health_status r with
     | Up => [(js "status", JStr (js "up"))]
     | Down m => [(js "status", JStr (js "down")); (js "message", JStr m)]
     end)).
Definition is_up (r : HealthIndicatorResult) : bool := match health_status r with Up => true | Down _ => false end.
Definition health_document (status : string) (rs : list HealthIndicatorResult) : claims :=
  [(js "status", JStr (js status));
   (js "info", JObj (health_entry <$> List.filter is_up rs));
   (js "error", JObj (health_entry <$> List.filter (λ r, negb (is_up r)) rs));
   (js "details", JObj (health_entry <$> rs))].

Class Terminus := {
  check : list (exn + HealthIndicatorResult) → exn + json;
  check_up : ∀ rs, forallb is_up rs = true → check (inr <$> rs) = inr (JObj (health_document "ok" rs));
  check_down : ∀ rs, forallb is_up rs = false →
    check (inr <$> rs) = inl (HttpException 503 (js "ServiceUnavailableException")
                               (js "Service Unavailable Exception") (inr (health_document "error" rs)));
}.

(** A reference health service. *)
Definition ref_check (rs : list (exn + HealthIndicatorResult)) : exn + json :=
  match mapM (λ r, match r with inr x => Some x | inl _ => None end) rs with
  | Some l =>
      if forallb is_up l then inr (JObj (health_document "ok" l))
      else inl (HttpException 503 (js "ServiceUnavailableException") (js "Service Unavailable Exception")
                  (inr (health_document "error" l)))
  | None => inl (JsError (js "the probe failed"))
  end.

Lemma ref_check_results rs : mapM (λ r : exn + HealthIndicatorResult, match r with inr x => Some x | inl _ => None end) (inr <$> rs) = Some rs.
Proof. apply mapM_Some, Forall2_fmap_l. by apply Forall_Forall2_diag, Forall_true. Qed.

#[program] Definition reference_terminus : Terminus := {| check := ref_check |}.
Next Obligation. intros rs Hup. unfold ref_check. by rewrite ref_check_results, Hup. Qed.
Next Obligation. intros rs Hup. unfold ref_check. by rewrite ref_check_results, Hup. Qed.

(** A run in which exactly the plain errors are [Error]s. *)
Definition reference_throwables : Throwables :=
  {| is_Error := λ e, match e with JsError _ => true | _ => false end; is_Error_js := λ m, eq_refl |}.

(** ** The services *)

(** How Postgres and Redis answer. *)
Record Backends := mkBackends {
  on_query : exn + unit;
  on_new : exn + unit;
  on_connect : exn + unit;
  on_ping : exn + jstr;
}.

(** The client a Redis probe holds: none, or one, connected or not. *)
Definition Client : Type := option bool.

Definition probe_handle (b : Backends) : handler probe Client := λ X c,
  match c in probe X return Client → (exn + X) * Client with
  | QueryRaw _ => λ w, (on_query b, w)
  | NewRedis _ _ => λ w, (on_new b, if on_new b is inl _ then w else Some false)
  | RedisConnect => λ w, (on_connect b, if on_connect b is inl _ then w else Some true)
  | RedisPing => λ w, (on_ping b, w)
  | RedisDisconnect => λ w, (inr tt, None)
  end.

(** What the Redis probe reports. *)
Definition redis_status `{Throwables} (b : Backends) : HealthStatus :=
  let failed e := Down (if is_Error e then exn_message e else js "redis unreachable") in
  match on_connect b, on_ping b with
  | inl e, _ | _, inl e => failed e
  | inr _, inr pong =>
      if bool_decide (pong = js "PONG") then Up else Down (js "unexpected ping reply: " ++ pong)
  end.

Lemma prisma_probe `{Throwables} b key w :
  exec (probe_handle b) (PrismaHealthIndicator.isHealthy key) w =
    (inr (mkHealth key (match on_query b with
       | inr _ => Up
       | inl e => Down (if is_Error e then exn_message e else js "postgres unreachable")
       end)), w).
Proof. cbn. by destruct (on_query b). Qed.

Lemma redis_probe `{Throwables} b cfg key :
  exec (probe_handle b) (RedisHealthIndicator.isHealthy cfg key) None =
    match on_new b with
    | inl e => (inl e, None)
    | inr _ => (inr (mkHealth key (redis_status b)), None)
    end.
Proof.
  unfold RedisHealthIndicator.isHealthy, redis_status, down. cbn. destruct (on_new b); [done|]. cbn.
  destruct (on_connect b) as [e|]; [done|]. cbn. destruct (on_ping b) as [e|pong]; [done|]. cbn.
  case_bool_decide; cbn; [done|]. by rewrite is_Error_js.
Qed.

(** The readiness probes report exactly how the services answered: Postgres is
    up when the query returns; Redis is up when the client connects and its ping
    is answered [PONG] - a wrong answer is reported as such -; a failure becomes
    its message, or a fixed text when what was thrown is no [Error]; nothing is
    thrown, unless the client cannot be made; and on every path the probe's client
    is disconnected. *)
Theorem probes_report_backends `{Throwables} b cfg key w :
  (exec (probe_handle b) (PrismaHealthIndicator.isHealthy key) w).1 =
    inr (mkHealth key (match on_query b with
      | inr _ => Up
      | inl e => Down (if is_Error e then exn_message e else js "postgres unreachable")
      end))
  ∧ exec (probe_handle b) (RedisHealthIndicator.isHealthy cfg key) None =
      match on_new b with
      | inl e => (inl e, None)
      | inr _ => (inr (mkHealth key (redis_status b)), None)
      end.
Proof.
  split; [by rewrite prisma_probe|apply redis_probe].
Qed.

(** Liveness rounds the uptime to the nearest second. *)
Lemma liveness_nearest ns :
  match HealthController.liveness ns with
  | HealthController.mkLiveness status uptime =>
      status = js "ok" ∧ (ns - 500000000 < 1000000000 * uptime ≤ ns + 500000000)%Z
  end.
Proof. cbn. split; [done|]. pose proof (Z.div_mod (ns + 500000000) 1000000000). pose proof (Z.mod_pos_bound (ns + 500000000) 1000000000). lia. Qed.
