(* ===== verification/JobsRepository.v ===== *)
(** * Persistence of jobs

    [server/src/jobs/jobs.repository.ts]: every query on jobs, report trees and
    processing events, with the Prisma [where] clauses as the code writes them. *)
From S2P Require Import Prelude Json Program Schema Services Memory JsDate Report.

(** ** The methods *)
Module JobsRepository.
(** [where: { id: jobId, userId, deletedAt: null }] *)
Definition owned_where (userId jobId : jstr) : JobWhere :=
  mkJobWhere (Some jobId) (Some userId) None (Some None).
Definition by_id (jobId : jstr) : JobWhere := mkJobWhere (Some jobId) None None None.

Definition set_label (label : option jstr) : JobData :=
  mkJobData label None None None None None None.

Definition createDraft (id userId label audioKey : jstr) (idempotencyKey : option jstr)
    : prog eff JobWithReport :=
  await (JobCreate (mkJobCreateData id userId label audioKey idempotencyKey CREATED)).

Definition findByIdempotencyKey (userId idempotencyKey : jstr) : prog eff (option JobWithReport) :=
  await (JobFindFirst (mkJobWhere None (Some userId) (Some idempotencyKey) (Some None))).

Definition findScoped (userId jobId : jstr) : prog eff (option JobWithReport) :=
  await (JobFindFirst (owned_where userId jobId)).

Definition listScoped (userId : jstr) (cursor : option jstr) (limit : nat)
    : prog eff (list JobWithReport) :=
  let cursor := match cursor with
                | Some c => if truthy c then Some c else None
                | None => None
                end in
  await (JobFindMany (mkJobWhere None (Some userId) None (Some None)) limit cursor).

(** The type checker knows no [null] label, but a body may hold one: Prisma's
    client refuses it ([InvalidQuery]) before it reaches the database. *)
Definition updateLabelScoped (userId jobId : jstr) (label : option jstr) : prog eff unit :=
  match label with
  | Some label => await (JobUpdateMany (owned_where userId jobId) (set_label (Some label)));; Ret tt
  | None => await InvalidQuery
  end.

(** Runs inside a transaction: the calls go to the transaction's client. *)
Definition insertSections (jobId : jstr) (sections : list ReportSectionInput) : prog call unit :=
  for_each (imap pair sections) (λ '(s, section),
    created <- perform (SectionCreate jobId (si_title section) (Z.of_nat s));;
    if bool_decide (0 < length (si_findings section))
    then perform (FindingCreateMany
           (imap (λ i f, mkFindingCreateData (section_id created) (fi_text f) (fi_severity f)
                           (Z.of_nat i)) (si_findings section)));; Ret tt
    else Ret tt).

Definition label_data (label : nullable jstr) : option jstr :=
  match label with Value l => Some l | _ => None end.

Definition replaceReportScoped (userId jobId : jstr) (label : nullable jstr)
    (sections : list ReportSectionInput) : prog eff unit :=
  transaction (
    owned <- perform (JobFindFirst (owned_where userId jobId));;
    match owned with
    | None => Throw (PrismaClientKnownRequestError (js "Job not found") (js "P2025"))
    | Some _ =>
        perform (FindingDeleteMany jobId);;
        perform (SectionDeleteMany jobId);;
        insertSections jobId sections;;
        now <- perform DateNow;;
        match label with
        | Null => perform InvalidQuery
        | _ => perform (JobUpdate (mkJobWhere (Some jobId) (Some userId) None None)
                 (mkJobData (label_data label) None None None None (Some now) None));; Ret tt
        end
    end).

Definition softDeleteScoped (userId jobId : jstr) : prog eff nat :=
  now <- await DateNow;;
  await (JobUpdateMany (owned_where userId jobId)
           (mkJobData None None None None None None (Some now))).

Definition findById (jobId : jstr) : prog eff (option JobWithReport) :=
  await (JobFindFirst (by_id jobId)).

(** [errorMessage]: absent, null or a text. *)
Definition setStatus (jobId : jstr) (status : JobStatus) (errorMessage : option (option jstr))
    : prog eff unit :=
  await (JobUpdate (by_id jobId) (mkJobData None (Some status) None None errorMessage None None));;
  Ret tt.

Definition saveTranscript (jobId transcript : jstr) : prog eff unit :=
  await (JobUpdate (by_id jobId) (mkJobData None None (Some transcript) None None None None));;
  Ret tt.

Definition replaceReport (jobId : jstr) (sections : list ReportSectionInput) : prog eff unit :=
  transaction (
    perform (FindingDeleteMany jobId);;
    perform (SectionDeleteMany jobId);;
    insertSections jobId sections).

Definition setPdfReady (jobId pdfKey : jstr) : prog eff unit :=
  await (JobUpdate (by_id jobId)
           (mkJobData None (Some READY) None (Some pdfKey) (Some None) None None));;
  Ret tt.

Definition addEvent (jobId stage status : jstr) (message : option jstr) : prog eff unit :=
  await (EventCreate (mkProcessingEvent jobId stage status message)).

Definition rawById (jobId : jstr) : prog eff (option Job) := await (JobFindUniqueRaw jobId).
End JobsRepository.

(** ** The job a user can reach *)

Definition live_job (s : Store) (userId jobId : jstr) : option Job :=
  match jobs s !! jobId with
  | Some j => if bool_decide (job_userId j = userId ∧ job_deletedAt j = None) then Some j else None
  | None => None
  end.

Lemma live_job_Some s u id j :
  live_job s u id = Some j ↔ jobs s !! id = Some j ∧ job_userId j = u ∧ job_deletedAt j = None.
Proof.
  unfold live_job. destruct (jobs s !! id) as [j'|]; [|naive_solver].
  case_bool_decide as H; naive_solver.
Qed.

Lemma owned_matches u id id' j :
  job_matches (JobsRepository.owned_where u id) id' j = true
  ↔ id' = id ∧ job_userId j = u ∧ job_deletedAt j = None.
Proof.
  unfold job_matches, opt_cond. simpl. rewrite andb_true_r, !andb_true_iff, !bool_decide_eq_true.
  naive_solver.
Qed.

Lemma owned_matches_false u id id' j :
  job_matches (JobsRepository.owned_where u id) id' j = false
  ↔ ¬ (id' = id ∧ job_userId j = u ∧ job_deletedAt j = None).
Proof. rewrite <- owned_matches. by rewrite not_true_iff_false. Qed.

(** An update through the scoped [where] is an update of the live job. *)
Definition update_live (s : Store) (u id : jstr) (g : Job → Job) : gmap jstr Job :=
  match live_job s u id with
  | Some j => <[id := g j]> (jobs s)
  | None => jobs s
  end.

Lemma update_owned s u id g :
  map_imap (λ id' j, Some (if job_matches (JobsRepository.owned_where u id) id' j then g j else j))
    (jobs s) = update_live s u id g.
Proof.
  apply map_eq. intros i. rewrite map_lookup_imap. unfold update_live.
  destruct (live_job s u id) as [j|] eqn:Hl.
  - apply live_job_Some in Hl as (Hj & Hu & Hd). destruct (decide (i = id)) as [->|Hne].
    + rewrite Hj, lookup_insert_eq. simpl. by rewrite (proj2 (owned_matches u id id j)).
    + rewrite lookup_insert_ne by done. destruct (jobs s !! i) as [k|]; simpl; [|done].
      by rewrite (proj2 (owned_matches_false u id i k)) by naive_solver.
  - destruct (jobs s !! i) as [k|] eqn:Hk; simpl; [|done].
    rewrite (proj2 (owned_matches_false u id i k)); [done|].
    intros (-> & Hu & Hd). assert (live_job s u id = Some k) by (by apply live_job_Some). congruence.
Qed.

Lemma list_filter_unique {A} (P : A → Prop) `{!∀ x, Decision (P x)} (p : A) (l : list A) :
  NoDup l → p ∈ l → (∀ x, x ∈ l → P x ↔ x = p) → filter P l = [p].
Proof.
  induction 1 as [|x l Hx Hnd IH]; [by intros ?%not_elem_of_nil|]. intros Hp HP.
  rewrite filter_cons. case_decide as Hx'.
  - apply HP in Hx'; [|by left]. subst x. f_equal. apply list_filter_none, Forall_forall.
    intros y Hy HPy. apply HP in HPy; [|by right]. by subst.
  - apply IH.
    + apply elem_of_cons in Hp as [->|Hp]; [|done]. exfalso. apply Hx', HP; [by left|done].
    + intros y Hy. apply HP. by right.
Qed.

Lemma matching_owned s u id :
  length (matching_jobs s (JobsRepository.owned_where u id))
  = match live_job s u id with Some _ => 1 | None => 0 end.
Proof.
  unfold matching_jobs. destruct (live_job s u id) as [j|] eqn:Hl.
  - apply live_job_Some in Hl as (Hj & Hu & Hd).
    rewrite (list_filter_unique _ (id, j)); [done|apply NoDup_map_to_list|by apply elem_of_map_to_list|].
    intros [i k] Hk%elem_of_map_to_list. simpl. rewrite owned_matches. naive_solver.
  - rewrite list_filter_none; [done|]. apply Forall_forall. intros [i k] Hk%elem_of_map_to_list.
    simpl. rewrite owned_matches. intros (-> & Hu & Hd).
    assert (live_job s u id = Some k) by (by apply live_job_Some). congruence.
Qed.

(** ** The rows of a stored report *)

Definition finding_row (sid : jstr) (i : nat) (x : ReportFindingInput) (f : Finding) : Prop :=
  finding_sectionId f = sid ∧ finding_text f = fi_text x ∧ finding_severity f = fi_severity x
  ∧ finding_sortOrder f = Z.of_nat i.

Definition section_row (jobId : jstr) (p : nat * ReportSectionInput) (y : SectionWithFindings) : Prop :=
  let x := swf_section y in
  section_jobId x = jobId ∧ section_title x = si_title p.2 ∧ section_sortOrder x = Z.of_nat p.1
  ∧ Forall2 (λ q f, finding_row (section_id x) q.1 q.2 f) (imap pair (si_findings p.2)) (swf_findings y).

(** Section ids are a primary key. *)
Definition consistent (s : Store) : Prop := NoDup (section_id <$> reportSections s).

Definition other_sections (jobId : jstr) (s : Store) : list ReportSection :=
  filter (λ x, section_jobId x ≠ jobId) (reportSections s).
Definition other_findings (jobId : jstr) (s : Store) : list Finding :=
  filter (λ f, Forall (λ x, section_jobId x = jobId → section_id x ≠ finding_sectionId f)
                 (reportSections s)) (findings s).

Definition tree_sections (t : list SectionWithFindings) : list ReportSection := swf_section <$> t.
Definition tree_findings (t : list SectionWithFindings) : list Finding := t ≫= swf_findings.

(** [stored jobId ps t bs bf s]: the rows of [ps] are in the tables as the tree
    [t], after the rows [bs] and [bf]. *)
Record stored (jobId : jstr) (ps : list (nat * ReportSectionInput)) (t : list SectionWithFindings)
    (bs : list ReportSection) (bf : list Finding) (s : Store) : Prop := {
  stored_rows : Forall2 (section_row jobId) ps t;
  stored_sections : reportSections s = bs ++ tree_sections t;
  stored_findings : findings s = bf ++ tree_findings t;
  stored_fresh : Forall (λ y, Forall (λ f, finding_sectionId f ≠ section_id (swf_section y)) bf) t;
  stored_unique : NoDup (section_id <$> tree_sections t);
  stored_apart : ∀ y x, y ∈ t → x ∈ bs → section_id x ≠ section_id (swf_section y);
}.

(** The report of [jobId] in [s'] is [sections]; the rows of other jobs are
    those of [s]. *)
Definition replaced (jobId : jstr) (sections : list ReportSectionInput) (s s' : Store) : Prop :=
  ∃ t, stored jobId (imap pair sections) t (other_sections jobId s) (other_findings jobId s) s'.

Lemma section_row_owned jobId p y f :
  section_row jobId p y → f ∈ swf_findings y → finding_sectionId f = section_id (swf_section y).
Proof.
  intros (_ & _ & _ & Hf) Hin. revert Hf. generalize (imap pair (si_findings p.2)).
  intros ps Hf. induction Hf as [|q g ps fs Hg _ IH]; [by apply not_elem_of_nil in Hin|].
  apply elem_of_cons in Hin as [->|Hin]; [apply Hg|by apply IH].
Qed.

Lemma Forall2_ordered {A B} (R : A → B → Prop) (kA : A → Z) (kB : B → Z) l k :
  (∀ x y, R x y → kB y = kA x) → Forall2 R l k → strictly_ordered kA l → strictly_ordered kB k.
Proof.
  intros HR Hf Hs. unfold strictly_ordered in *. induction Hf as [|x y l k Hxy Hf IH]; [constructor|].
  inversion Hs as [|?? Hs' Hx]; subst. constructor; [by apply IH|].
  apply HR in Hxy. rewrite Hxy. clear -HR Hf Hx. induction Hf as [|x' y' l k Hxy' Hf IH]; [constructor|].
  inversion Hx; subst. constructor; [|by apply IH]. apply HR in Hxy'. by rewrite Hxy'.
Qed.

Lemma numbered_ordered {A} (l : list A) :
  strictly_ordered (λ p : nat * A, Z.of_nat p.1) (imap pair l).
Proof. by apply (imap_strictly_ordered _ _ 0). Qed.

Lemma Forall2_numbered {A B} (R : nat * A → B → Prop) (g : B → A) l k :
  (∀ p y, R p y → g y = p.2) → Forall2 R (imap pair l) k → g <$> k = l.
Proof.
  intros HR Hf. assert (g <$> k = snd <$> imap pair l) as ->.
  - induction Hf as [|p y ps k Hpy Hf IH]; [done|]. rewrite !fmap_cons. f_equal; [by apply HR|done].
  - rewrite fmap_imap. clear. induction l as [|x l IH]; simpl; [done|]. f_equal. exact IH.
Qed.

Lemma section_row_order jobId p y :
  section_row jobId p y → section_sortOrder (swf_section y) = Z.of_nat p.1.
Proof. by intros (_ & _ & ? & _). Qed.

Lemma strictly_ordered_fmap {A B} (key : B → Z) (f : A → B) (l : list A) :
  strictly_ordered (λ x, key (f x)) l → strictly_ordered key (f <$> l).
Proof.
  unfold strictly_ordered. induction 1 as [|x l Hs IH Hx]; [constructor|].
  rewrite fmap_cons. constructor; [done|]. by apply Forall_fmap.
Qed.

(** The rows hold exactly the sections, in order. *)
Lemma section_rows_tree jobId (sections : list ReportSectionInput) t :
  Forall2 (section_row jobId) (imap pair sections) t → report_tree t = sections.
Proof.
  apply Forall2_numbered. intros [n [title fs]] y (_ & Ht & _ & Hfs). simpl in *.
  f_equal; [done|]. revert Hfs. apply Forall2_numbered.
  intros [i [tx sv]] f (_ & Hx & Hs & _). simpl in *. congruence.
Qed.

Lemma filter_tree_findings jobId ps t y :
  Forall2 (section_row jobId) ps t → NoDup (section_id <$> tree_sections t) → y ∈ t →
  filter (λ f, finding_sectionId f = section_id (swf_section y)) (tree_findings t) = swf_findings y.
Proof.
  intros Hr. induction Hr as [|p z ps t Hz Hr IH]; [by intros _ ?%not_elem_of_nil|].
  intros Hnd Hy. unfold tree_findings. cbn [mbind list_bind]. rewrite filter_app.
  unfold tree_sections in Hnd. rewrite !fmap_cons in Hnd.
  apply NoDup_cons in Hnd as [Hz' Hnd]. fold (tree_findings t).
  assert (∀ w g, w ∈ t → g ∈ swf_findings w → finding_sectionId g = section_id (swf_section w)) as Hown.
  { intros w g Hw Hg. apply list_elem_of_lookup in Hw as [i Hi].
    destruct (Forall2_lookup_r _ _ _ _ _ Hr Hi) as (q & _ & Hq). by eapply section_row_owned. }
  assert (∀ w, w ∈ t → section_id (swf_section w) ≠ section_id (swf_section z)) as Hne.
  { intros w Hw Heq. apply Hz'. rewrite <- Heq. by apply list_elem_of_fmap_2, list_elem_of_fmap_2. }
  apply elem_of_cons in Hy as [->|Hy].
  - rewrite list_filter_all, list_filter_none; [apply app_nil_r| |].
    + apply Forall_forall. intros g Hg. unfold tree_findings in Hg.
      apply list_elem_of_bind in Hg as (w & Hg & Hw). rewrite (Hown w g); auto.
    + apply Forall_forall. intros g Hg. by eapply section_row_owned.
  - rewrite list_filter_none; [by apply IH|]. apply Forall_forall. intros g Hg Heq.
    rewrite (section_row_owned _ _ _ _ Hz Hg) in Heq. by eapply Hne.
Qed.

Lemma report_of_ordered s id t : report_of s id t → tree_ordered t.
Proof.
  intros (_ & Ho & Hf). split; [done|]. eapply Forall_impl; [exact Hf|]. by intros x [_ ?].
Qed.

(** The tables determine the tree that is read back. *)
Lemma stored_report jobId sections t bs bf s t' :
  stored jobId (imap pair sections) t bs bf s →
  Forall (λ x, section_jobId x ≠ jobId) bs →
  report_of s jobId t' → t' = t.
Proof.
  intros [Hr Hs Hf Hfr Hnd Hap] Hbs (Hp & Ho & Hfs).
  assert (swf_section <$> t' = tree_sections t) as Hsec.
  { apply (ordered_unique section_sortOrder).
    - apply strictly_ordered_fmap. eapply Forall2_ordered; [|exact Hr|apply numbered_ordered].
      intros p y. apply section_row_order.
    - done.
    - rewrite Hp, Hs, list_filter_app_none by done. rewrite list_filter_all; [done|].
      apply Forall_forall. intros x Hx. apply list_elem_of_fmap in Hx as (y & -> & Hy).
      apply list_elem_of_lookup in Hy as [i Hi].
      destruct (Forall2_lookup_r _ _ _ _ _ Hr Hi) as (p & _ & Hq). apply Hq. }
  apply list_eq_same_length with (length t); [done| |].
  { apply (f_equal length) in Hsec. unfold tree_sections in Hsec. by rewrite !length_fmap in Hsec. }
  intros i y' y _ Hy' Hy.
  assert (swf_section y' = swf_section y) as Hsy.
  { apply (f_equal (lookup i)) in Hsec. unfold tree_sections in Hsec.
    rewrite !list_lookup_fmap, Hy', Hy in Hsec. by injection Hsec. }
  rewrite Forall_forall in Hfs. apply list_elem_of_lookup_2 in Hy' as Hin'.
  destruct (Hfs _ Hin') as [Hpf Hof]. destruct y' as [x' f'], y as [x f]. simpl in *. subst x'. f_equal.
  apply list_elem_of_lookup_2 in Hy as Hin.
  destruct (Forall2_lookup_r _ _ _ _ _ Hr Hy) as (p & _ & Hq).
  apply (ordered_unique finding_sortOrder); [|done|].
  - eapply Forall2_ordered; [|exact (proj2 (proj2 (proj2 Hq)))|apply numbered_ordered].
    intros q g (_ & _ & _ & ?). done.
  - rewrite Hpf, Hf, list_filter_app_none.
    + apply Permutation_refl', (filter_tree_findings _ _ _ (mkSectionWithFindings x f) Hr Hnd Hin).
    + rewrite Forall_forall in Hfr. exact (Hfr _ Hin).
Qed.

Lemma section_ids_apart s x y :
  consistent s → x ∈ reportSections s → y ∈ reportSections s → section_id x = section_id y → x = y.
Proof.
  unfold consistent. intros Hnd (i & Hi)%list_elem_of_lookup (k & Hk)%list_elem_of_lookup Heq.
  assert (i = k) as ->; [|congruence]. apply (NoDup_lookup _ i k (section_id x) Hnd).
  - by rewrite list_lookup_fmap, Hi.
  - by rewrite list_lookup_fmap, Hk, Heq.
Qed.

Lemma and_iff_dep (A B C : Prop) : (A → B ↔ C) → (A ∧ B ↔ A ∧ C).
Proof. tauto. Qed.

Lemma Forall_iff_in {A} (P Q : A → Prop) (l : list A) :
  (∀ x, x ∈ l → P x ↔ Q x) → Forall P l ↔ Forall Q l.
Proof. intros H. rewrite !Forall_forall. naive_solver. Qed.

(** Replacing one job's report leaves the reports of the others alone. *)
Lemma replaced_other jobId sections s s' id t :
  consistent s → replaced jobId sections s s' → id ≠ jobId →
  report_of s' id t ↔ report_of s id t.
Proof.
  intros Hc (u & [Hr Hs Hf Hfr Hnd Hap]) Hne. unfold report_of.
  assert (filter (λ x, section_jobId x = id) (reportSections s')
          = filter (λ x, section_jobId x = id) (reportSections s)) as Hsec.
  { rewrite Hs, filter_app. unfold other_sections. rewrite list_filter_filter_l by congruence.
    rewrite (list_filter_none _ (tree_sections u)), app_nil_r; [done|].
    apply Forall_forall. intros x Hx. apply list_elem_of_fmap in Hx as (y & -> & Hy).
    apply list_elem_of_lookup in Hy as [i Hi].
    destruct (Forall2_lookup_r _ _ _ _ _ Hr Hi) as (p & _ & Hq & _). congruence. }
  rewrite Hsec. apply and_iff_dep. intros Hp. apply and_iff_compat_l.
  apply Forall_iff_in. intros y Hy.
  assert (swf_section y ∈ reportSections s ∧ section_jobId (swf_section y) = id) as [Hin Hjob].
  { apply and_comm, (list_elem_of_filter (λ x, section_jobId x = id)). rewrite <- Hp.
    by apply list_elem_of_fmap_2. }
  unfold findings_of. rewrite Hf, filter_app. unfold other_findings.
  rewrite list_filter_filter_l.
  2:{ intros g Hg. apply Forall_forall. intros x Hx Hxj Heq. rewrite Hg in Heq.
      apply Hne. rewrite <- Hjob, <- Hxj. by rewrite (section_ids_apart s x (swf_section y)). }
  rewrite (list_filter_none _ (tree_findings u)), app_nil_r; [done|].
  apply Forall_forall. intros g Hg Heq. apply list_elem_of_bind in Hg as (z & Hg & Hz).
  pose proof Hz as Hz'. apply list_elem_of_lookup in Hz' as [i Hi].
  destruct (Forall2_lookup_r _ _ _ _ _ Hr Hi) as (p & _ & Hq).
  rewrite (section_row_owned _ _ _ _ Hq Hg) in Heq.
  apply (Hap z (swf_section y)); [done| |done].
  apply list_elem_of_filter. split; [congruence|done].
Qed.

(** ** Inserting the rows *)

Lemma add_findings_rows sid ps ids :
  length ids = length ps →
  Forall2 (λ q f, finding_row sid q.1 q.2 f) ps
    (add_findings ids ((λ q : nat * ReportFindingInput,
       mkFindingCreateData sid (fi_text q.2) (fi_severity q.2) (Z.of_nat q.1)) <$> ps)).
Proof.
  revert ids. induction ps as [|q ps IH]; intros [|id ids] Hl; simplify_eq/=; [constructor|].
  constructor; [done|]. by apply IH.
Qed.

Lemma stored_nil jobId s : stored jobId [] [] (reportSections s) (findings s) s.
Proof.
  split; try (by constructor); unfold tree_sections, tree_findings; simpl; rewrite ?app_nil_r; try done.
  by intros y x ?%not_elem_of_nil.
Qed.

Lemma stored_snoc jobId ps t bs bf s s' p y :
  stored jobId ps t bs bf s → section_row jobId p y →
  Forall (λ x, section_id x ≠ section_id (swf_section y)) (reportSections s) →
  Forall (λ f, finding_sectionId f ≠ section_id (swf_section y)) (findings s) →
  reportSections s' = reportSections s ++ [swf_section y] →
  findings s' = findings s ++ swf_findings y →
  stored jobId (ps ++ [p]) (t ++ [y]) bs bf s'.
Proof.
  intros [Hr Hs Hf Hfr Hnd Hap] Hy Hfs Hff Hs' Hf'.
  rewrite Hs in Hfs, Hs'. rewrite Hf in Hff, Hf'.
  apply Forall_app in Hfs as [Hfb Hft], Hff as [Hgb Hgt].
  split.
  - apply Forall2_app; [done|by constructor].
  - unfold tree_sections in *. by rewrite fmap_app, app_assoc.
  - unfold tree_findings in *. rewrite bind_app. simpl. by rewrite app_nil_r, app_assoc.
  - apply Forall_app. by repeat constructor.
  - unfold tree_sections in *. rewrite !fmap_app. apply NoDup_app. split_and!; [done| |].
    + intros i Hi Hin. simpl in Hin. apply list_elem_of_singleton in Hin as ->.
      apply list_elem_of_fmap in Hi as (x & Hx & Hi). rewrite Forall_forall in Hft.
      by apply (Hft x).
    + simpl. apply NoDup_singleton.
  - intros z x Hz Hx. apply elem_of_app in Hz as [Hz|Hz]; [by apply Hap|].
    apply list_elem_of_singleton in Hz as ->. rewrite Forall_forall in Hfb. by apply Hfb.
Qed.

(** A store that differs at most in the report tables. *)
Definition report_frame (s s' : Store) : Prop := s' = with_report (reportSections s') (findings s') s.

Section Specs.
Context `{Cr : Crypto} (f : bool).
Import JobsRepository.

(** Why a write on a job's report can fail. *)
Definition write_error (jobId : jstr) (s : Store) (e : exn) : Prop :=
  f = true ∧ infra e ∨ jobs s !! jobId = None ∧ (prisma_error "P2003" e ∨ prisma_error "P2025" e).

Lemma insertSections_spec jobId sections s :
  wp (call_contract f) (insertSections jobId sections) s (λ r s',
    report_frame s s' ∧
    match r with
    | inr _ => ∃ t, stored jobId (imap pair sections) t (reportSections s) (findings s) s'
    | inl e => write_error jobId s e
    end).
Proof.
  unfold insertSections.
  apply (wp_for_each _ _ _ (λ rem s1, ∃ ps t, imap pair sections = ps ++ rem ∧ report_frame s s1
           ∧ stored jobId ps t (reportSections s) (findings s) s1)).
  - exists [], []. split_and!; [done|by destruct s|apply stored_nil].
  - intros [n section] rem s1 (ps & t & Hps & Hfr & Hst). wp_call.
    intros r s2 [[(Hj & id & Hid & Hfid & Hr)|[Hj [-> (e & -> & He)]]]|[Hf [-> (e & -> & He)]]].
    2:{ split; [done|]. right. split; [|by left]. rewrite Hfr in Hj. exact Hj. }
    2:{ split; [done|]. by left. }
    simpl in Hr. destruct Hr as [-> Hs2].
    set (row := mkReportSection id jobId (si_title section) (Z.of_nat n)) in *.
    assert (report_frame s s2) as Hfr2 by (rewrite Hs2; unfold report_frame; rewrite Hfr; done).
    assert (∀ s3 fs, report_frame s s3 → reportSections s3 = reportSections s1 ++ [row] →
              findings s3 = findings s1 ++ fs →
              Forall2 (λ q f, finding_row id q.1 q.2 f) (imap pair (si_findings section)) fs →
              ∃ ps' t', imap pair sections = ps' ++ rem ∧ report_frame s s3
                ∧ stored jobId ps' t' (reportSections s) (findings s) s3) as Hdone.
    { intros s3 fs Hfr3 Hrs Hfs Hrow. exists (ps ++ [(n, section)]), (t ++ [mkSectionWithFindings row fs]).
      split_and!; [by rewrite Hps, <- app_assoc|done|].
      by eapply (stored_snoc _ _ _ _ _ s1). }
    case_bool_decide as Hlen.
    + wp_call. intros r s3 [[(ids & Hids & _ & _ & -> & Hs3)|[Hno _]]|[Hf [-> (e & -> & He)]]].
      * wp_simpl. apply (Hdone _ (add_findings ids (imap (λ i g, mkFindingCreateData id (fi_text g)
           (fi_severity g) (Z.of_nat i)) (si_findings section)))); rewrite ?Hs3; simpl.
        -- unfold report_frame. by rewrite Hfr2.
        -- by rewrite Hs2.
        -- by rewrite Hs2.
        -- replace (imap _ (si_findings section)) with
             ((λ q : nat * ReportFindingInput, mkFindingCreateData id (fi_text q.2) (fi_severity q.2)
                (Z.of_nat q.1)) <$> imap pair (si_findings section)) by (by rewrite fmap_imap).
           apply add_findings_rows. rewrite length_imap in Hids. by rewrite length_imap.
      * exfalso. apply Hno, Forall_forall. intros c (i & g & -> & _)%elem_of_lookup_imap.
        simpl. rewrite Hs2. simpl. apply Exists_app. right. by constructor.
      * split; [done|]. by left.
    + wp_simpl. apply (Hdone s2 []); rewrite ?Hs2; simpl; rewrite ?app_nil_r; try done.
      { by rewrite <- Hs2. }
      destruct (si_findings section); [constructor|simpl in *; lia].
  - intros s1 (ps & t & Hps & Hfr & Hst). rewrite app_nil_r in Hps. subst ps. eauto.
Qed.

(** One update keyed by the job's id. *)
Definition updated (jobId : jstr) (d : JobData) (s s' : Store) : Prop :=
  ∃ j t, jobs s !! jobId = Some j ∧ (clock s ≤ t)%Z
         ∧ s' = with_clock t (with_jobs (<[jobId := apply_data d t j]> (jobs s)) s).

Lemma by_id_matches id id' j : job_matches (by_id id) id' j = true ↔ id' = id.
Proof.
  unfold job_matches, opt_cond. simpl. rewrite !andb_true_r, bool_decide_eq_true. done.
Qed.

Lemma update_by_id_spec jobId d s :
  wp (eff_contract f) (await (JobUpdate (by_id jobId) d);; Ret tt) s (λ r s',
    match r with
    | inr _ => updated jobId d s s'
    | inl e => s' = s ∧ write_error jobId s e
    end).
Proof.
  wp_call. intros r s' [[(id & j & Hj & Hm & t & Ht & -> & ->)|[Hno [-> (e & -> & He)]]]
                        |[Hf [-> (e & -> & He)]]].
  - apply by_id_matches in Hm as ->. by exists j, t.
  - split; [done|]. right. split; [|by right].
    apply eq_None_not_Some. intros [j Hj]. specialize (Hno _ _ Hj).
    rewrite (proj2 (by_id_matches jobId jobId j)) in Hno by done. done.
  - split; [done|]. by left.
Qed.

Lemma findScoped_spec u id s :
  wp (eff_contract f) (findScoped u id) s (λ r s', s' = s ∧
    match r with
    | inr (Some x) => jwr_id x = id ∧ live_job s u id = Some (jwr_job x) ∧ report_of s id (jwr_sections x)
    | inr None => live_job s u id = None
    | inl e => f = true ∧ infra e
    end).
Proof.
  unfold findScoped. wp_call. intros r s' [[-> (o & -> & Ho)]|[Hf [-> (e & -> & He)]]]; (split; [done|]); [|done].
  destruct o as [x|].
  - destruct Ho as [[Hj Hr] Hm]. apply owned_matches in Hm as (<- & Hu & Hd).
    split_and!; [done| |done]. by apply live_job_Some.
  - apply eq_None_not_Some. intros [j Hj]. apply live_job_Some in Hj as (Hj & Hu & Hd).
    specialize (Ho _ _ Hj). rewrite (proj2 (owned_matches u id id j)) in Ho; done.
Qed.

Lemma findById_spec id s :
  wp (eff_contract f) (findById id) s (λ r s', s' = s ∧
    match r with
    | inr (Some x) => jwr_id x = id ∧ jobs s !! id = Some (jwr_job x) ∧ report_of s id (jwr_sections x)
    | inr None => jobs s !! id = None
    | inl e => f = true ∧ infra e
    end).
Proof.
  unfold findById. wp_call. intros r s' [[-> (o & -> & Ho)]|[Hf [-> (e & -> & He)]]]; (split; [done|]); [|done].
  destruct o as [x|].
  - destruct Ho as [[Hj Hr] Hm]. by apply by_id_matches in Hm as <-.
  - apply eq_None_not_Some. intros [j Hj]. specialize (Ho _ _ Hj).
    rewrite (proj2 (by_id_matches id id j)) in Ho; done.
Qed.

(** Both deletes leave the rows of the other jobs, and nothing else. *)
Definition cleared (jobId : jstr) (s : Store) : Store :=
  with_report (other_sections jobId s) (other_findings jobId s) s.

Lemma clear_report_spec {A} jobId (p : prog call A) s Q :
  wp (call_contract f) p (cleared jobId s) Q →
  (∀ e s', report_frame s s' → f = true → infra e → Q (inl e) s') →
  wp (call_contract f) (perform (FindingDeleteMany jobId);; perform (SectionDeleteMany jobId);; p) s Q.
Proof.
  intros Hp Herr. wp_call. intros r s1 [(n & -> & ->)|[Hf [-> (e & -> & He)]]];
    [|apply Herr; [by destruct s|done..]].
  wp_call. intros r s2 [(m & -> & ->)|[Hf [-> (e & -> & He)]]]; [|by apply Herr].
  replace (with_report _ _ _) with (cleared jobId s); [done|]. unfold cleared. simpl.
  unfold with_report. simpl. f_equal. unfold other_findings. symmetry.
  by apply list_filter_filter_l.
Qed.

Lemma replaceReport_spec jobId sections s :
  wp (eff_contract f) (replaceReport jobId sections) s (λ r s',
    match r with
    | inr _ => replaced jobId sections s s' ∧ report_frame s s'
    | inl e => s' = s ∧ write_error jobId s e
    end).
Proof.
  assert (∀ s1, report_frame s s1 → with_clock (clock s1) s = s) as Hback.
  { intros s1 ->. by destruct s. }
  apply wp_transaction; [|intros e ? ?; split; [done|by left]].
  apply clear_report_spec; [|intros e s1 Hfr ? ?; split; [by apply Hback|by left]].
  eapply wp_mono; [apply insertSections_spec|]. intros [e|[]] s1 [Hfr Hr].
  - split; [by rewrite Hfr; destruct s|exact Hr].
  - split; [exact Hr|]. rewrite Hfr. by destruct s.
Qed.

(** A scoped update changes the user's live job, or nothing but the time. *)
Definition updated_live (u jobId : jstr) (d : JobData) (s s' : Store) : Prop :=
  ∃ t, (clock s ≤ t)%Z ∧ s' = with_clock t (with_jobs (update_live s u jobId (apply_data d t)) s).

Lemma update_scoped_spec u jobId d s :
  wp (eff_contract f) (await (JobUpdateMany (owned_where u jobId) d)) s (λ r s',
    match r with
    | inr n => updated_live u jobId d s s' ∧ n = match live_job s u jobId with Some _ => 1 | None => 0 end
    | inl e => s' = s ∧ f = true ∧ infra e
    end).
Proof.
  wp_call. intros r s' [(t & Ht & -> & ->)|[Hf [-> (e & -> & He)]]]; [|done].
  split; [|apply matching_owned]. exists t. split; [done|]. by rewrite update_owned.
Qed.

Lemma updateLabelScoped_spec u jobId label s :
  wp (eff_contract f) (updateLabelScoped u jobId label) s (λ r s',
    match r with
    | inr _ => ∃ l, label = Some l ∧ updated_live u jobId (set_label (Some l)) s s'
    | inl e => s' = s ∧ (f = true ∨ label = None) ∧ infra e
    end).
Proof.
  unfold updateLabelScoped. destruct label as [label|].
  - wp_apply update_scoped_spec. intros [e|n] s' H; [naive_solver|]. destruct H. by exists label.
  - wp_call. intros r s' [[-> (e & -> & He)]|[Hf [-> (e & -> & He)]]]; auto.
Qed.

Lemma update_live_clock s t u id g :
  update_live (with_clock t s) u id g = update_live s u id g.
Proof. done. Qed.

Lemma softDeleteScoped_spec u jobId s :
  wp (eff_contract f) (softDeleteScoped u jobId) s (λ r s',
    ∃ t, (clock s ≤ t)%Z ∧
    match r with
    | inr n => updated_live u jobId (mkJobData None None None None None None (Some t)) (with_clock t s) s'
               ∧ n = match live_job s u jobId with Some _ => 1 | None => 0 end
    | inl e => s' = with_clock t s ∧ f = true ∧ infra e
    end).
Proof.
  unfold softDeleteScoped. wp_call. intros r s1 [(t & Ht & -> & ->)|[Hf []]].
  wp_simpl. eapply wp_mono; [apply update_scoped_spec|]. intros r s' Hr. exists t. by split.
Qed.

(** The owner's report and label are replaced together, or nothing is. *)
Definition replaced_scoped (jobId : jstr) (label : nullable jstr) (sections : list ReportSectionInput)
    (j : Job) (s s' : Store) : Prop :=
  label ≠ Null ∧
  ∃ now t, (clock s ≤ now ≤ t)%Z ∧ replaced jobId sections s s'
    ∧ s' = with_report (reportSections s') (findings s') (with_clock t (with_jobs
             (<[jobId := apply_data (mkJobData (label_data label) None None None None (Some now) None) t j]> (jobs s)) s)).

Lemma replaceReportScoped_spec u jobId label sections s :
  wp (eff_contract f) (replaceReportScoped u jobId label sections) s (λ r s',
    match r with
    | inr _ => ∃ j, live_job s u jobId = Some j ∧ replaced_scoped jobId label sections j s s'
    | inl e => s' = with_clock (clock s') s ∧ (clock s ≤ clock s')%Z
               ∧ ((f = true ∨ label = Null) ∧ infra e ∨ live_job s u jobId = None ∧ prisma_error "P2025" e)
    end).
Proof.
  assert (∀ s1 e, report_frame s s1 → f = true ∨ label = Null → infra e →
    with_clock (clock s1) s = with_clock (clock (with_clock (clock s1) s)) s
    ∧ (clock s ≤ clock (with_clock (clock s1) s))%Z
    ∧ ((f = true ∨ label = Null) ∧ infra e ∨ live_job s u jobId = None ∧ prisma_error "P2025" e)) as Hback.
  { intros s1 e -> ? ?. simpl. split_and!; [done|lia|by left]. }
  apply wp_transaction; [|intros e ? ?; split_and!; [by destruct s|lia|left; by auto]].
  unfold replaceReportScoped.
  wp_call. intros r s1 [[-> (o & -> & Ho)]|[Hf [-> (e & -> & He)]]];
    [|apply Hback; [by destruct s|by left|done]].
  destruct o as [x|]; wp_simpl.
  2:{ simpl. split_and!; [done|lia|]. right. split; [|by eexists].
      apply eq_None_not_Some. intros [j Hj]. apply live_job_Some in Hj as (Hj & Hu & Hd).
      specialize (Ho _ _ Hj). rewrite (proj2 (owned_matches u jobId jobId j)) in Ho; done. }
  destruct Ho as [[Hj Hrep] Hm]. apply owned_matches in Hm as (Hid & Hu & Hd). rewrite Hid in *.
  apply clear_report_spec; [|intros e s1 Hfr ? ?; apply Hback; by auto].
  wp_apply insertSections_spec. intros [e|[]] s1 [Hfr Hr].
  { destruct Hr as [[Hf He]|[Hno _]]; [|simpl in Hno; congruence]. apply Hback; by auto. }
  destruct Hr as [t Hst]. simpl in Hst.
  wp_call. intros r s2 [(now & Hnow & -> & ->)|[? []]]. wp_simpl.
  destruct (decide (label = Null)) as [->|Hnull].
  { wp_call. intros r s3 [[-> (e & -> & He)]|[Hf [-> (e & -> & He)]]];
      rewrite Hfr in Hnow; simpl in *; (split_and!; [done|lia|left; by auto]). }
  replace (match label with Null => _ | _ => _ end) with
    (perform (JobUpdate (mkJobWhere (Some jobId) (Some u) None None)
       (mkJobData (label_data label) None None None None (Some now) None));; Ret tt) by (by destruct label).
  wp_call. intros r s3 [[(i & k & Hk & Hmk & t' & Ht & -> & ->)|[Hno _]]|[Hf [-> (e & -> & He)]]].
  - unfold job_matches, opt_cond in Hmk. simpl in Hmk.
    rewrite !andb_true_r, andb_true_iff, !bool_decide_eq_true in Hmk. destruct Hmk as [<- _].
    simpl in Ht. rewrite Hfr in Hnow, Hk. simpl in Hnow, Hk. wp_simpl. exists (jwr_job x).
    split; [by apply live_job_Some|]. split; [done|]. exists now, t'. split_and!; [lia|lia| |].
    + exists t. destruct Hst. by split.
    + simpl. rewrite Hfr. simpl in *. rewrite Hk in Hj. injection Hj as <-. done.
  - exfalso. specialize (Hno jobId (jwr_job x)). simpl in Hno. rewrite Hfr in Hno. simpl in Hno.
    specialize (Hno Hj). unfold job_matches, opt_cond in Hno. simpl in Hno.
    by rewrite !bool_decide_true in Hno.
  - simpl. rewrite Hfr in Hnow. simpl in *. split_and!; [done|lia|left; by auto].
Qed.

Lemma createDraft_spec id u label ak key s :
  let d := mkJobCreateData id u label ak key CREATED in
  wp (eff_contract f) (createDraft id u label ak key) s (λ r s',
    match r with
    | inr x => ¬ duplicate_job s d ∧ is_Some (users s !! u)
               ∧ ∃ t, (clock s ≤ t)%Z ∧ jwr_id x = id ∧ jwr_job x = created_job d t
                      ∧ s' = with_clock t (with_jobs (<[id := created_job d t]> (jobs s)) s)
                      ∧ report_of s' id (jwr_sections x)
    | inl e => s' = s ∧ (f = true ∧ infra e ∨ duplicate_job s d ∧ prisma_error "P2002" e
                         ∨ users s !! u = None ∧ prisma_error "P2003" e)
    end).
Proof.
  intros d. unfold createDraft. wp_call.
  intros r s' [[(Hd & Hu & t & Ht & -> & secs & -> & Hr)|[(Hd & -> & e & -> & He)|(Hu & -> & e & -> & He)]]
              |[Hf [-> (e & -> & He)]]].
  - split; [done|]. split; [done|]. by exists t.
  - split; [done|]. right. by left.
  - split; [done|]. right. by right.
  - split; [done|]. by left.
Qed.

Lemma findByIdempotencyKey_spec u key s :
  wp (eff_contract f) (findByIdempotencyKey u key) s (λ r s', s' = s ∧
    match r with
    | inr (Some x) => live_job s u (jwr_id x) = Some (jwr_job x)
                      ∧ job_idempotencyKey (jwr_job x) = Some key
                      ∧ report_of s (jwr_id x) (jwr_sections x)
    | inr None => ∀ id j, live_job s u id = Some j → job_idempotencyKey j ≠ Some key
    | inl e => f = true ∧ infra e
    end).
Proof.
  assert (∀ id j, job_matches (mkJobWhere None (Some u) (Some key) (Some None)) id j = true
                  ↔ job_userId j = u ∧ job_idempotencyKey j = Some key ∧ job_deletedAt j = None) as Hm.
  { intros id j. unfold job_matches, opt_cond. simpl.
    rewrite !andb_true_iff, !bool_decide_eq_true. naive_solver. }
  unfold findByIdempotencyKey. wp_call.
  intros r s' [[-> (o & -> & Ho)]|[Hf [-> (e & -> & He)]]]; (split; [done|]); [|done].
  destruct o as [x|].
  - destruct Ho as [[Hj Hr] Hw]. apply Hm in Hw as (Hu & Hk & Hd).
    split_and!; [by apply live_job_Some|done|done].
  - intros id j (Hj & Hu & Hd)%live_job_Some Hk. specialize (Ho _ _ Hj).
    rewrite (proj2 (Hm id j)) in Ho; done.
Qed.

(** A user's live jobs, newest first. *)
Definition user_jobs (s : Store) (u : jstr) (full : list (jstr * Job)) : Prop :=
  NoDup full ∧ (∀ id j, (id, j) ∈ full ↔ live_job s u id = Some j)
  ∧ StronglySorted (λ a b, ¬ page_before b a) full.

Lemma listScoped_spec u cursor limit s :
  wp (eff_contract f) (listScoped u cursor limit) s (λ r s', s' = s ∧
    match r with
    | inr l => Forall (loaded s) l ∧ ∃ full, user_jobs s u full
        ∧ page_of full limit (match cursor with
                              | Some c => if truthy c then Some c else None
                              | None => None
                              end) ((λ x, (jwr_id x, jwr_job x)) <$> l)
    | inl e => f = true ∧ infra e
    end).
Proof.
  unfold listScoped. wp_call.
  intros r s' [[-> (l & -> & Hl & full & Hp & Hso & Hpg)]|[Hf [-> (e & -> & He)]]];
    (split; [done|]); [|done].
  split; [done|]. exists full. split; [|done]. split_and!; [| |done].
  - rewrite Hp. apply NoDup_filter, NoDup_map_to_list.
  - intros id j. rewrite Hp. unfold matching_jobs.
    rewrite list_elem_of_filter, elem_of_map_to_list, live_job_Some.
    unfold job_matches, opt_cond. simpl. rewrite andb_true_r, andb_true_iff, !bool_decide_eq_true.
    naive_solver.
Qed.
End Specs.

(** C27: Replacing a job's report and loading the job again yields exactly the
    sections and findings that were written, in the order given, on any
    services; the reports of the other jobs do not change, and a replacement that
    fails leaves the whole database as it was. *)
Theorem replaceReport_roundtrip `{Hs : Services} jobId sections w :
  consistent (view w) →
  ensures (JobsRepository.replaceReport jobId sections;; JobsRepository.findById jobId) w (λ r s',
    match r with
    | inr (Some j) => report_tree (jwr_sections j) = sections ∧ jobs (view w) !! jobId = Some (jwr_job j)
    | inr None => jobs (view w) !! jobId = None
    | inl e => write_error faults jobId (view w) e
               ∧ (reportSections s' = reportSections (view w) ∧ findings s' = findings (view w)
                  ∨ replaced jobId sections (view w) s')
    end
    ∧ ∀ id t, id ≠ jobId → report_of s' id t ↔ report_of (view w) id t).
Proof.
  intros Hc. apply ensures_wp. wp_apply replaceReport_spec. intros [e|[]] s1.
  - intros [-> He]. split; [split; [done|by left]|done].
  - intros [Hr Hfr]. eapply wp_mono; [apply findById_spec|]. intros r s2 [-> Hres].
    split; [|by intros id t; apply (replaced_other _ sections)].
    destruct r as [e|[x|]].
    + split; [by left|by right].
    + destruct Hres as (Hid & Hj & Hrep). rewrite Hfr in Hj. split; [|done].
      destruct Hr as [t Hst]. replace (jwr_sections x) with t.
      * eapply section_rows_tree, stored_rows, Hst.
      * symmetry. eapply stored_report; [exact Hst| |exact Hrep].
        apply Forall_forall. intros y Hy. by apply list_elem_of_filter in Hy as [? _].
    + by rewrite Hfr in Hres.
Qed.

(** Two reports on one store, one of them replaced. *)
Definition sample_report : list ReportSectionInput :=
  [mkSectionInput (js "Roof") [mkFindingInput (js "Loose tiles") REPAIR; mkFindingInput (js "Old flashing") MAINTENANCE];
   mkSectionInput (js "Wiring") []].

Lemma replaceReport_roundtrip_witness :
  ensures (Hs := reliable_memory)
    (JobsRepository.replaceReport (js "job") sample_report;; JobsRepository.findById (js "job"))
    (mkMemory (with_jobs {[js "job" := created_job (mkJobCreateData (js "job") (js "u") (js "House")
       (js "k") None CREATED) 5]} empty_store) quiet)
    (λ r s', ∃ j, r = inr (Some j) ∧ report_tree (jwr_sections j) = sample_report).
Proof.
  set (w := mkMemory _ _).
  pose proof (replaceReport_roundtrip (Hs := reliable_memory) (js "job") sample_report w
                (NoDup_nil_2)) as [H _].
  revert H. unfold ensures. vm_compute (exec _ _ _).1.
  intros [H _]. eexists. split; [reflexivity|exact H].
Defined.
