(* ===== verification/Dto.v ===== *)
(** * Request and response shapes

    [server/src/jobs/dto], [common/dto/pagination.dto.ts] and
    [auth/dto/auth.dto.ts]: the bodies the controllers receive, with the
    constraints of their class-validator decorators as boolean functions. *)
From S2P Require Import Prelude Json Program Schema Services JsDate Memory Report Config Media.

(** [IsOptional] lets both a missing field and a [null] through. *)
Definition optional {A} (ok : A → bool) (x : nullable A) : bool :=
  match x with Value a => ok a | _ => true end.

(** What validator.js counts as the length of a string. *)
Class Validator := { str_length : jstr → nat }.

Definition between (lo hi n : nat) : bool := (lo <=? n) && (n <=? hi).

(** ** Bodies *)
Record CreateJobDto := mkCreateJobDto { cj_label : jstr }.

Record UpdateFindingDto := mkUpdateFindingDto {
  uf_text : jstr;
  uf_severity : ApiSeverity;
  uf_sortOrder : Z;
}.
Record UpdateSectionDto := mkUpdateSectionDto {
  us_title : jstr;
  us_sortOrder : Z;
  us_findings : list UpdateFindingDto;
}.
Record UpdateJobDto := mkUpdateJobDto {
  uj_label : nullable jstr;
  uj_sections : nullable (list UpdateSectionDto);
}.

Record PaginationQueryDto := mkPaginationQueryDto { pq_cursor : option jstr; pq_limit : Z }.
Definition default_limit : Z := 20.

Record AppleSignInDto := mkAppleSignInDto {
  as_identityToken : jstr;
  as_nonce : nullable jstr;
  as_email : nullable jstr;
}.
Record RefreshDto := mkRefreshDto { rd_refreshToken : jstr }.

Section Validation.
Context {V : Validator}.

Definition valid_create (d : CreateJobDto) : bool := between 1 200 (str_length (cj_label d)).

Definition valid_finding (d : UpdateFindingDto) : bool :=
  between 1 2000 (str_length (uf_text d)) && bool_decide (0 ≤ uf_sortOrder d)%Z.

Definition valid_section (d : UpdateSectionDto) : bool :=
  between 1 200 (str_length (us_title d)) && bool_decide (0 ≤ us_sortOrder d)%Z
  && (length (us_findings d) <=? 200) && forallb valid_finding (us_findings d).

Definition valid_update (d : UpdateJobDto) : bool :=
  optional (λ l, between 1 200 (str_length l)) (uj_label d)
  && optional (λ l, (length l <=? 100) && forallb valid_section l) (uj_sections d).

Definition valid_apple_sign_in (d : AppleSignInDto) : bool :=
  between 1 (8 * 1024) (str_length (as_identityToken d))
  && optional (λ n, str_length n <=? 256) (as_nonce d)
  && optional (λ e, str_length e <=? 320) (as_email d).

Definition valid_refresh (d : RefreshDto) : bool := between 1 512 (str_length (rd_refreshToken d)).
End Validation.

Definition valid_query (d : PaginationQueryDto) : bool :=
  bool_decide (1 ≤ pq_limit d)%Z && bool_decide (pq_limit d ≤ 100)%Z.

(** ** Responses *)
Record PaginatedDto (T : Type) := mkPaginated { items : list T; nextCursor : option jstr }.
Arguments mkPaginated {T} items nextCursor.
Arguments items {T} p.
Arguments nextCursor {T} p.

Record CreateJobResponseDto := mkCreateJobResponse {
  cr_job : JobDto;
  audioUploadUrl : PresignedUpload;
}.
Record PdfUrlDto := mkPdfUrl { pdf_url : jstr; pdf_expiresInSeconds : Z }.
