(* ===== verification/Auth.v ===== *)
(** * Accounts, sessions and the access guard

    [server/src/auth], [server/src/users] and [server/src/common/auth]: the two
    Apple verifiers, the tokens, sign-in and the rotation of refresh tokens, and
    the guard every authenticated route runs first. *)
From S2P Require Import Prelude Json Program Schema Services Memory JsDate Report Zod Config Media Dto.

(** ** Values of claims *)

(** JavaScript truthiness of a JSON value. *)
Definition json_truthy (v : json) : bool :=
  match v with
  | JNull => false
  | JBool b => b
  | JNum n => negb (bool_decide (n = 0%Z))
  | JStr s => truthy s
  | JArr _ | JObj _ => true
  end.

(** [a ?? b] *)
Definition nullish (a : option json) (b : json) : json :=
  match a with None | Some JNull => b | Some v => v end.

Definition is_true (v : option json) : bool :=
  bool_decide (v = Some (JBool true)) || bool_decide (v = Some (JStr (js "true"))).

Definition string_claim (v : option json) : option jstr :=
  match v with Some (JStr s) => Some s | _ => None end.

(** ** Data *)

(** A property of the verified token, whatever JSON value Apple put there. *)
Record AppleIdentity := mkAppleIdentity {
  identity_sub : json;
  identity_email : option json;
  emailVerified : bool;
  isPrivateEmail : bool;
}.

Record AuthenticatedUser := mkAuthenticatedUser { auth_userId : jstr; auth_appleSub : jstr }.

Record TokenResponseDto := mkTokenResponse {
  accessToken : jstr;
  refreshToken : jstr;
  tokenType : jstr;
  expiresIn : Z;
  token_userId : jstr;
}.

(** ** Accounts *)
Module UsersService.
(** Prisma refuses a [where] or a column that is not a string before it
    reaches the database. *)
Definition invalid {A} : prog eff A := await InvalidQuery;; Throw (JsError []).

Definition text_or_null (v : json) : option (option jstr) :=
  match v with JNull => Some None | JStr s => Some (Some s) | _ => None end.

Definition upsertByApple (appleSub email : json) : prog eff (jstr * User) :=
  match appleSub, text_or_null email with
  | JStr sub, Some e => await (UserUpsert sub e (if json_truthy email then e else None))
  | _, _ => invalid
  end.

Definition findById (id : jstr) : prog eff (option User) := await (UserFindUnique id).
End UsersService.

(** ** Apple *)

(** The interface of [AppleTokenVerifier], given by one of the two providers. *)
Class AppleTokenVerifier `{Cr : Crypto} := {
  verify : jstr → option jstr → prog eff AppleIdentity;
}.

Module AppleVerifiers.
Section Verifiers.
Context `{Cr : Crypto}.

Definition APPLE_ISSUER : jstr := js "https://appleid.apple.com".

Definition identity_of (sub : json) (claims : claims) : AppleIdentity :=
  {| identity_sub := sub;
     identity_email := jget (js "email") claims;
     emailVerified := is_true (jget (js "email_verified") claims);
     isPrivateEmail := is_true (jget (js "is_private_email") claims) |}.

Definition nonce_matches (nonce : jstr) (claims : claims) : bool :=
  bool_decide (jget (js "nonce") claims = Some (JStr nonce))
  || bool_decide (jget (js "nonce") claims = Some (JStr (sha256_hex nonce))).

Definition real_verify (clientId identityToken : jstr) (expectedNonce : option jstr)
    : prog eff AppleIdentity :=
  claims <- (TRY await (AppleJwtVerify identityToken APPLE_ISSUER clientId)
             CATCH _e => Throw (UnauthorizedException
                                  (js "Apple identity token failed verification.")));;
  let sub := default JNull (jget (js "sub") claims) in
  if negb (json_truthy sub) then
    Throw (UnauthorizedException (js "Apple identity token missing subject."))
  else
    match expectedNonce with
    | None | Some [] =>
        Throw (UnauthorizedException (js "Apple sign-in is missing the required nonce."))
    | Some nonce =>
        if negb (nonce_matches nonce claims) then
          Throw (UnauthorizedException (js "Apple identity token nonce mismatch."))
        else Ret (identity_of sub claims)
    end.

(** No signature is checked: the claims are read, or the raw token names the
    subject. *)
Definition dev_verify (identityToken : jstr) (_ : option jstr) : prog eff AppleIdentity :=
  read <- (TRY (claims <- await (DecodeJwt identityToken);;
                Ret (string_claim (jget (js "sub") claims), string_claim (jget (js "email") claims)))
           CATCH _e => Ret (None, None));;
  let '(sub, email) := read in
  let sub' := match sub with
              | None | Some [] => js "dev-" ++ slice0 32 (sha256_hex identityToken)
              | Some s => s
              end in
  Ret (mkAppleIdentity (JStr sub') (JStr <$> email) true false).

(** [AuthModule]'s factory. *)
Definition apple_verifier (cfg : AppConfig) : AppleTokenVerifier :=
  {| verify := if devBypass (cfg_apple cfg) then dev_verify
               else real_verify (clientId (cfg_apple cfg)) |}.
End Verifiers.
End AppleVerifiers.

(** ** Tokens *)
Record FreshToken := mkFreshToken { fresh_token : jstr; fresh_hash : jstr; fresh_expiresAt : Z }.

Module TokenService.
Section Tokens.
Context `{Cr : Crypto} (cfg : AppConfig).

Definition JWT_AUDIENCE : jstr := js "fieldnote-app".
Definition accessTtlSeconds : Z := accessTtl (cfg_jwt cfg).
Definition refreshTtlSeconds : Z := refreshTtl (cfg_jwt cfg).

(** The claims in the order the builder sets them; [now] is in seconds. *)
Definition access_claims (userId appleSub : jstr) (now : Z) : claims :=
  [(js "type", JStr (js "access")); (js "appleSub", JStr appleSub); (js "sub", JStr userId);
   (js "iss", JStr (appBaseUrl cfg)); (js "aud", JStr JWT_AUDIENCE); (js "iat", JNum now);
   (js "exp", JNum (now + accessTtlSeconds))].

Definition issueAccessToken (userId appleSub : jstr) : prog eff jstr :=
  ms <- await DateNow;;
  await (SignJwt (accessSecret (cfg_jwt cfg)) (access_claims userId appleSub (ms / 1000))).

Definition hashRefreshToken (token : jstr) : jstr :=
  hmac_sha256_hex (refreshSecret (cfg_jwt cfg)) token.

Definition generateRefreshToken : prog eff FreshToken :=
  token <- await RandomBytes48;;
  now <- await DateNow;;
  Ret (mkFreshToken token (hashRefreshToken token) (now + refreshTtlSeconds * 1000)).
End Tokens.
End TokenService.

(** ** Sign-in and rotation *)
Module AuthService.
Section Service.
Context `{Cr : Crypto} {AV : AppleTokenVerifier} (cfg : AppConfig).

Definition bearer (userId access refresh : jstr) : TokenResponseDto :=
  mkTokenResponse access refresh (js "Bearer") (TokenService.accessTtlSeconds cfg) userId.

Definition issueTokenPair (userId appleSub : jstr) : prog eff TokenResponseDto :=
  refresh <- TokenService.generateRefreshToken cfg;;
  await (TokenCreate userId (fresh_hash refresh) (fresh_expiresAt refresh));;
  accessToken <- TokenService.issueAccessToken cfg userId appleSub;;
  Ret (bearer userId accessToken (fresh_token refresh)).

Definition signInWithApple (identityToken : jstr) (nonce email : option jstr)
    : prog eff TokenResponseDto :=
  identity <- verify identityToken nonce;;
  user <- UsersService.upsertByApple (identity_sub identity)
            (nullish (identity_email identity) (match email with Some e => JStr e | None => JNull end));;
  issueTokenPair user.1 (appleSub user.2).

Definition refresh (refreshToken : jstr) : prog eff TokenResponseDto :=
  let hash := TokenService.hashRefreshToken cfg refreshToken in
  record <- await (TokenFindUnique hash);;
  match record with
  | None => Throw (UnauthorizedException (js "Invalid refresh token."))
  | Some record =>
      match revokedAt record with
      | Some _ =>
          now <- await DateNow;;
          await (TokenUpdateManyActive (rt_userId record) now);;
          Throw (UnauthorizedException (js "Refresh token already used."))
      | None =>
          now <- await DateNow;;
          if bool_decide (expiresAt record ≤ now)%Z then
            Throw (UnauthorizedException (js "Refresh token expired."))
          else
            user <- UsersService.findById (rt_userId record);;
            match user with
            | None => Throw (UnauthorizedException (js "User no longer exists."))
            | Some user =>
                next <- TokenService.generateRefreshToken cfg;;
                revoked <- await DateNow;;
                transaction (
                  perform (TokenUpdate hash revoked (fresh_hash next));;
                  perform (TokenCreate (rt_userId record) (fresh_hash next) (fresh_expiresAt next)));;
                accessToken <- TokenService.issueAccessToken cfg (rt_userId record) (appleSub user);;
                Ret (bearer (rt_userId record) accessToken (fresh_token next))
            end
      end
  end.
End Service.
End AuthService.

Module AuthController.
Definition given {A} (x : nullable A) : option A := match x with Value a => Some a | _ => None end.

Definition signInWithApple `{Cr : Crypto} {AV : AppleTokenVerifier} (cfg : AppConfig)
    (dto : AppleSignInDto) : prog eff TokenResponseDto :=
  AuthService.signInWithApple cfg (as_identityToken dto) (given (as_nonce dto)) (given (as_email dto)).

Definition refresh `{Cr : Crypto} (cfg : AppConfig) (dto : RefreshDto) : prog eff TokenResponseDto :=
  AuthService.refresh cfg (rd_refreshToken dto).
End AuthController.

(** ** The guard of every route *)
Module JwtAuthGuard.
Section Guard.
Context `{Cr : Crypto} (cfg : AppConfig).

Definition extractToken (authorization : option jstr) : option jstr :=
  match authorization with
  | None | Some [] => None
  | Some header =>
      match split 32 header with
      | scheme :: value :: _ =>
          if bool_decide (toLowerCase scheme = js "bearer") && truthy value then Some value else None
      | _ => None
      end
  end.

(** The user a payload stands for; [None] is the exception thrown inside the
    [try]. *)
Definition user_of (payload : claims) : option AuthenticatedUser :=
  if negb (bool_decide (jget (js "type") payload = Some (JStr (js "access")))) then None
  else
    match jget (js "sub") payload with
    | Some (JStr sub) =>
        Some (mkAuthenticatedUser sub (default [] (string_claim (jget (js "appleSub") payload))))
    | _ => None
    end.

(** The answer is what the guard leaves in [request.user]. *)
Definition canActivate (isPublic : bool) (authorization : option jstr)
    : prog eff (option AuthenticatedUser) :=
  if isPublic then Ret None
  else
    match extractToken authorization with
    | None => Throw (UnauthorizedException (js "Missing bearer token."))
    | Some token =>
        TRY (payload <- await (JwtVerify token (accessSecret (cfg_jwt cfg)) (appBaseUrl cfg)
                                 (js "fieldnote-app"));;
             match user_of payload with
             | None => Throw (UnauthorizedException (js "Invalid access token."))
             | Some user => Ret (Some user)
             end)
        CATCH _e => Throw (UnauthorizedException (js "Invalid or expired access token."))
    end.

(** The [@CurrentUser()] parameter decorator. *)
Definition CurrentUser (user : option AuthenticatedUser) : exn + AuthenticatedUser :=
  match user with
  | None => inl (UnauthorizedException (js "Authentication required."))
  | Some u => inr u
  end.
End Guard.
End JwtAuthGuard.

(** ** What the methods do *)

(** [updateMany] on the active tokens of a user. *)
Definition revoke_active (uid : jstr) (t : Z) (tokens : gmap jstr RefreshToken) : gmap jstr RefreshToken :=
  (λ x, if bool_decide (rt_userId x = uid ∧ revokedAt x = None)
        then mkRefreshToken (rt_userId x) (expiresAt x) (Some t) (replacedByTokenHash x)
        else x) <$> tokens.

Definition active (x : RefreshToken) : bool := bool_decide (revokedAt x = None).

Section Specs.
Context `{Cr : Crypto} {AV : AppleTokenVerifier} (cfg : AppConfig) (f : bool).
Abbreviation wp := (wp (eff_contract f)).

Definition ttl_ms : Z := (TokenService.refreshTtlSeconds cfg * 1000)%Z.
Abbreviation hash_of := (TokenService.hashRefreshToken cfg).

Lemma generateRefreshToken_spec s :
  wp (TokenService.generateRefreshToken cfg) s (λ r s', ∃ tok t, (clock s ≤ t)%Z
    ∧ refreshTokens s !! hash_of tok = None ∧ s' = with_clock t s
    ∧ r = inr (mkFreshToken tok (hash_of tok) (t + ttl_ms))).
Proof.
  unfold TokenService.generateRefreshToken. wp_call. intros r s1 [[-> (tok & -> & Hf)]|[_ []]].
  wp_call. intros r s2 [(t & Ht & -> & ->)|[_ []]]. wp_simpl. exists tok, t. split; [done|]. split; [apply Hf|done].
Qed.

Definition signed (uid sub : jstr) (t : Z) : jstr :=
  jwt_sign (accessSecret (cfg_jwt cfg)) (TokenService.access_claims cfg uid sub (t / 1000)).

Lemma issueAccessToken_spec uid sub s :
  wp (TokenService.issueAccessToken cfg uid sub) s (λ r s', ∃ t, (clock s ≤ t)%Z ∧ s' = with_clock t s
    ∧ match r with inr tok => tok = signed uid sub t | inl e => f = true ∧ infra e end).
Proof.
  unfold TokenService.issueAccessToken. wp_call. intros r s1 [(t & Ht & -> & ->)|[_ []]].
  wp_call. intros r s2 [[-> (tok & -> & ->)]|[Hf [-> (e & -> & He)]]]; simpl; by exists t.
Qed.

(** The tokens after a rotation of [h] into [h']. *)
Definition rotate (h h' : jstr) (x : RefreshToken) (revoked expires : Z)
    (tokens : gmap jstr RefreshToken) : gmap jstr RefreshToken :=
  <[h' := mkRefreshToken (rt_userId x) expires None None]>
    (<[h := mkRefreshToken (rt_userId x) (expiresAt x) (Some revoked) (Some h')]> tokens).

(** Stored: only the table of refresh tokens and the clock differ. *)
Definition tokens_become (m : gmap jstr RefreshToken) (s s' : Store) : Prop :=
  (clock s ≤ clock s')%Z ∧ s' = with_clock (clock s') (with_refreshTokens m s).

Definition rotated (h : jstr) (x : RefreshToken) (tok' : jstr) (s s' : Store) : Prop :=
  ∃ revoked issued, (clock s ≤ issued)%Z ∧ (issued ≤ revoked)%Z
    ∧ refreshTokens s !! hash_of tok' = None
    ∧ tokens_become (rotate h (hash_of tok') x revoked (issued + ttl_ms) (refreshTokens s)) s s'.

Lemma tokens_become_clock t s : (clock s ≤ t)%Z → tokens_become (refreshTokens s) s (with_clock t s).
Proof. intros Ht. split; [done|]. by destruct s. Qed.
Lemma tokens_become_refl s : tokens_become (refreshTokens s) s s.
Proof. split; [lia|]. by destruct s. Qed.

(** The interactive transaction that spends a token. *)
Lemma rotation_spec h x tok' revoked expires s :
  refreshTokens s !! h = Some x → refreshTokens s !! hash_of tok' = None →
  is_Some (users s !! rt_userId x) →
  wp (transaction (perform (TokenUpdate h revoked (hash_of tok'));;
                   perform (TokenCreate (rt_userId x) (hash_of tok') expires))) s (λ r s',
    match r with
    | inr _ => s' = with_refreshTokens (rotate h (hash_of tok') x revoked expires (refreshTokens s)) s
    | inl e => f = true ∧ infra e ∧ s' = s
    end).
Proof.
  intros Hh Hn Hu. assert (h ≠ hash_of tok') as Hne by (intros ->; congruence).
  apply wp_transaction; [|by intros e ? ?].
  wp_call. intros r s1 [[(y & Hy & -> & ->)|[? _]]|[Hf [-> (e & -> & He)]]]; [|congruence|].
  - rewrite Hh in Hy. injection Hy as <-. wp_call.
    intros r s2 [[(_ & _ & -> & ->)|[[[y Hy] _]|[Hy _]]]|[Hf [-> (e & -> & He)]]]; simpl in *.
    + done.
    + rewrite lookup_insert_ne in Hy by done. congruence.
    + destruct Hu as [v Hv]. congruence.
    + split_and!; [done..|]. by destruct s.
  - simpl. split_and!; [done..|]. by destruct s.
Qed.

(** The outcome of [refresh] on a stored token. *)
Definition refresh_refused (h : jstr) (x : RefreshToken) (e : exn) (s s' : Store) : Prop :=
  is_Some (revokedAt x) ∧ e = UnauthorizedException (js "Refresh token already used.")
    ∧ (∃ t, (clock s ≤ t)%Z ∧ tokens_become (revoke_active (rt_userId x) t (refreshTokens s)) s s')
  ∨ revokedAt x = None ∧ tokens_become (refreshTokens s) s s'
    ∧ (e = UnauthorizedException (js "Refresh token expired.") ∧ (expiresAt x ≤ clock s')%Z
       ∨ e = UnauthorizedException (js "User no longer exists.") ∧ users s !! rt_userId x = None).

Definition refresh_granted (h : jstr) (x : RefreshToken) (resp : TokenResponseDto) (s s' : Store) : Prop :=
  revokedAt x = None ∧ (clock s < expiresAt x)%Z
  ∧ rotated h x (refreshToken resp) s s'
  ∧ ∃ u, users s !! rt_userId x = Some u
         ∧ resp = AuthService.bearer cfg (rt_userId x) (signed (rt_userId x) (appleSub u) (clock s'))
                    (refreshToken resp).

(** A service failed: before the rotation, or after it, when the new pair is
    lost. *)
Definition refresh_failed (h : jstr) (e : exn) (s s' : Store) : Prop :=
  f = true ∧ infra e ∧ (tokens_become (refreshTokens s) s s'
                        ∨ (∃ t uid, tokens_become (revoke_active uid t (refreshTokens s)) s s')
                        ∨ ∃ x tok', refreshTokens s !! h = Some x ∧ rotated h x tok' s s').

Lemma rotated_lookup h x tok' s s' :
  refreshTokens s !! h = Some x → rotated h x tok' s s' →
  (∃ t, refreshTokens s' !! h = Some (mkRefreshToken (rt_userId x) (expiresAt x) (Some t) (Some (hash_of tok'))))
  ∧ ∃ t, refreshTokens s' !! hash_of tok' = Some (mkRefreshToken (rt_userId x) t None None).
Proof.
  intros Hh (t & i & _ & _ & Hn & _ & ->). simpl. unfold rotate.
  assert (hash_of tok' ≠ h) as Hne by (intros <-; congruence). split.
  - exists t. by rewrite lookup_insert_ne, lookup_insert_eq by done.
  - eexists. by rewrite lookup_insert_eq.
Qed.

Lemma refresh_spec tok s :
  wp (AuthService.refresh cfg tok) s (λ r s',
    match r, refreshTokens s !! hash_of tok with
    | inr resp, None => False
    | inr resp, Some x => refresh_granted (hash_of tok) x resp s s'
    | inl e, o => refresh_failed (hash_of tok) e s s'
        ∨ match o with
          | None => e = UnauthorizedException (js "Invalid refresh token.") ∧ s' = s
          | Some x => refresh_refused (hash_of tok) x e s s'
          end
    end).
Proof.
  unfold AuthService.refresh.
  wp_call. intros r s1 [[-> (o & -> & ->)]|[Hf [-> (e & -> & He)]]].
  2:{ left. split_and!; [done..|]. left. apply tokens_become_refl. }
  wp_simpl. destruct (refreshTokens s !! hash_of tok) as [x|] eqn:Hx; [|by right].
  destruct (revokedAt x) as [t0|] eqn:Hrev.
  - wp_call. intros r s1 [(t & Ht & -> & ->)|[_ []]].
    wp_call. intros r s2 [(n & -> & ->)|[Hf [-> (e & -> & He)]]]; wp_simpl.
    + right. left. split_and!; [done..|]. exists t. split; [done|]. by split.
    + left. split_and!; [done..|]. left. by apply tokens_become_clock.
  - wp_call. intros r s1 [(t & Ht & -> & ->)|[_ []]]. wp_simpl.
    case_bool_decide as Hexp.
    { right. right. split_and!; [done|by apply tokens_become_clock|]. by left. }
    unfold UsersService.findById. wp_call. intros r s2 [[-> (o & -> & ->)]|[Hf [-> (e & -> & He)]]].
    2:{ left. split_and!; [done..|]. left. by apply tokens_become_clock. }
    wp_simpl. cbn [users with_clock]. destruct (users s !! rt_userId x) as [u|] eqn:Hu.
    2:{ right. right. split_and!; [done|by apply tokens_become_clock|]. by right. }
    wp_apply generateRefreshToken_spec. intros r s2 (tok' & t2 & Ht2 & Hn & -> & ->). simpl in Ht2, Hn.
    wp_call. intros r s3 [(t3 & Ht3 & -> & ->)|[_ []]]. simpl in Ht3. cbn [fresh_hash fresh_expiresAt].
    wp_focus. eapply wp_mono; [by apply (rotation_spec _ x); [| |by exists u]|].
    intros [e|[]] s4; cbn beta iota.
    { intros (Hf & He & ->). left. split_and!; [done..|]. left. split; [simpl; lia|]. by destruct s. }
    intros ->. wp_apply issueAccessToken_spec. intros r s5 (t5 & Ht5 & -> & Hr). simpl in Ht5.
    assert (rotated (hash_of tok) x tok' s (with_clock t5 (with_refreshTokens
      (rotate (hash_of tok) (hash_of tok') x t3 (t2 + ttl_ms) (refreshTokens s)) s))) as Hrot.
    { exists t3, t2. split_and!; [lia|lia|done|]. split; [simpl; lia|done]. }
    destruct r as [e|tk].
    + left. split_and!; [apply Hr..|]. right. right. by exists x, tok'.
    + subst tk. wp_simpl. split_and!; [done|lia|done|]. by exists u.
Qed.
End Specs.

(** ** Rotation *)

(** C11: Refreshing is rotation.  On services that work, an unknown token is
    refused; a revoked one is refused and revokes every active token of its
    owner; an expired one is refused; and a live one is spent: the answer is a
    new pair for the same account, the presented token is revoked and points to
    the hash of the new one, of which only the keyed hash is stored, and no other
    token changes. *)
Theorem refresh_rotates_token `{Hs : Services} cfg tok w :
  ensures (AuthService.refresh cfg tok) w (λ r s',
    let h := TokenService.hashRefreshToken cfg tok in
    faults = true
    ∨ match refreshTokens (view w) !! h, r with
      | None, r => r = inl (UnauthorizedException (js "Invalid refresh token.")) ∧ s' = view w
      | Some x, inl e => refresh_refused h x e (view w) s'
      | Some x, inr resp => refresh_granted cfg h x resp (view w) s'
      end).
Proof.
  apply ensures_wp. eapply wp_mono; [apply refresh_spec|]. intros [e|resp] s' Hr.
  - destruct Hr as [(Hf & _)|Hr]; [by left|right].
    destruct (refreshTokens (view w) !! _); [done|]. by destruct Hr as [-> ->].
  - right. by destruct (refreshTokens (view w) !! _).
Qed.

(** A user of whom no token is active. *)
Definition signed_out (uid : jstr) (s : Store) : Prop :=
  ∀ h x, refreshTokens s !! h = Some x → rt_userId x = uid → active x = false.

Lemma revoke_active_signs_out uid t m s s' :
  m = revoke_active uid t (refreshTokens s) → tokens_become m s s' → signed_out uid s'.
Proof.
  intros -> [_ ->] h x. cbn [refreshTokens with_clock with_refreshTokens].
  unfold revoke_active. rewrite lookup_fmap. intros (y & Hy & ->)%fmap_Some Hu.
  unfold active. case_bool_decide as Hb; simpl in *; [done|].
  apply bool_decide_eq_false. intros Hr. by apply Hb.
Qed.

(** A stolen token ends the session.  On services that work, once a token has
    been exchanged, presenting it again is refused and leaves its owner without
    any active refresh token, the successor issued by the first exchange
    included. *)
Theorem replayed_token_ends_session `{Hs : Services} cfg tok w :
  faults = false →
  ensures (pair <- AuthService.refresh cfg tok;;
           again <- attempt (AuthService.refresh cfg tok);;
           Ret (pair, again)) w (λ r s', ∀ pair again, r = inr (pair, again) →
    again = inl (UnauthorizedException (js "Refresh token already used."))
    ∧ signed_out (token_userId pair) s').
Proof.
  intros Hf. apply ensures_wp. rewrite Hf. wp_apply refresh_spec. intros [e|pair] s1 Hr; [done|].
  destruct (refreshTokens (view w) !! _) as [x|] eqn:Hx; [|done].
  destruct Hr as (_ & _ & Hrot & u & _ & Hpair).
  destruct (rotated_lookup _ _ _ _ _ _ Hx Hrot) as [(t & Hold) _].
  unfold attempt. wp_apply refresh_spec. rewrite Hold. intros [e|resp] s2 Hr.
  - wp_simpl. intros ? ? [= <- <-].
    destruct Hr as [(? & _)|[(_ & -> & t' & _ & Ht')|([=] & _)]]; [done|]. split; [done|].
    rewrite Hpair. by eapply revoke_active_signs_out.
  - by destruct Hr as ([=] & _).
Qed.

(** ** Access tokens *)
Section Guard.
Context `{Cr : Crypto} (cfg : AppConfig).

Lemma extract_bearer tok :
  tok ≠ [] → 32%N ∉ tok → JwtAuthGuard.extractToken (Some (js "Bearer " ++ tok)) = Some tok.
Proof.
  intros Hne Hs. change (js "Bearer " ++ tok) with (js "Bearer" ++ 32%N :: tok).
  cbn [JwtAuthGuard.extractToken]. change (split 32 _) with (split 32 (js "Bearer" ++ 32%N :: tok)).
  rewrite split_app by (by apply (bool_decide_unpack (32%N ∉ js "Bearer")); vm_compute).
  rewrite split_no_separator by done. by destruct tok.
Qed.

(** The guard on a protected route, in one step. *)
Lemma canActivate_spec f authorization s :
  wp (eff_contract f) (JwtAuthGuard.canActivate cfg false authorization) s (λ r s', s' = s ∧
    match r with
    | inr o => ∃ tok c u, JwtAuthGuard.extractToken authorization = Some tok
        ∧ jwt_payload (accessSecret (cfg_jwt cfg)) tok = Some c
        ∧ jwt_accepts c (appBaseUrl cfg) (js "fieldnote-app") (clock s)
        ∧ JwtAuthGuard.user_of c = Some u ∧ o = Some u
    | inl e =>
        JwtAuthGuard.extractToken authorization = None
          ∧ e = UnauthorizedException (js "Missing bearer token.")
        ∨ e = UnauthorizedException (js "Invalid or expired access token.")
          ∧ ∃ tok, JwtAuthGuard.extractToken authorization = Some tok
             ∧ (f = true ∨ ∀ c, jwt_payload (accessSecret (cfg_jwt cfg)) tok = Some c →
                 jwt_accepts c (appBaseUrl cfg) (js "fieldnote-app") (clock s) →
                 JwtAuthGuard.user_of c = None)
    end).
Proof.
  unfold JwtAuthGuard.canActivate. destruct (JwtAuthGuard.extractToken authorization) as [tok|] eqn:He.
  2:{ split; [done|]. by left. }
  wp_call. intros r s1 [[[-> (c & -> & Hp & Ha)]|[[-> (e & -> & _)] Hno]]|[Hf [-> (e & -> & _)]]]; wp_simpl.
  - destruct (JwtAuthGuard.user_of c) as [u|] eqn:Hu; wp_simpl; (split; [done|]).
    + by exists tok, c, u.
    + right. split; [done|]. exists tok. split; [done|]. right. intros c' Hp' _. congruence.
  - split; [done|]. right. split; [done|]. exists tok. split; [done|]. right. intros c Hp Ha.
    by destruct (Hno c Hp).
  - split; [done|]. right. split; [done|]. exists tok. split; [done|]. by left.
Qed.
End Guard.

(** C26: An access token is accepted until it expires, as the account it was issued
    for.  Whatever happens to the services' state meanwhile, a protected route
    called with an issued token sees its user and Apple subject while the whole
    seconds of the clock are below the expiry, and answers 401 from then on. *)
Theorem access_token_identifies_user `{Hs : Services} cfg uid sub w :
  ensures (TokenService.issueAccessToken cfg uid sub) w (λ r s1, ∀ tok s2, r = inr tok →
    wp (eff_contract false) (JwtAuthGuard.canActivate cfg false (Some (js "Bearer " ++ tok))) s2
      (λ r2 s3, s3 = s2 ∧
         r2 = if bool_decide (clock s2 / 1000 < clock s1 / 1000 + accessTtl (cfg_jwt cfg))%Z
              then inr (Some (mkAuthenticatedUser uid sub))
              else inl (UnauthorizedException (js "Invalid or expired access token.")))).
Proof.
  apply ensures_wp. eapply wp_mono; [apply issueAccessToken_spec|].
  intros r s1 (t & _ & -> & Hr) tok s2 ->. subst tok. unfold signed.
  set (c := TokenService.access_claims cfg uid sub (t / 1000)).
  destruct (jwt_sign_compact (accessSecret (cfg_jwt cfg)) c) as [Hne Hsp].
  eapply wp_mono; [apply canActivate_spec|]. rewrite extract_bearer by done. intros r s3 [-> Hr]. split; [done|].
  assert (jwt_accepts c (appBaseUrl cfg) (js "fieldnote-app") (clock s2)
          ↔ (clock s2 / 1000 < t / 1000 + accessTtl (cfg_jwt cfg))%Z) as Hacc.
  { unfold jwt_accepts. split.
    - intros (_ & _ & H). destruct (H _ eq_refl) as (x & [= <-] & Hx). exact Hx.
    - intros Hlt. split; [done|]. split; [done|]. intros v [= <-]. eauto. }
  cbn [clock with_clock]. destruct r as [e|o].
  - destruct Hr as [[? _]|(-> & k & [= <-] & [?|Hno])]; [done..|].
    rewrite bool_decide_false; [done|]. intros Hlt. apply Hacc in Hlt.
    by specialize (Hno c (jwt_payload_sign _ _) Hlt).
  - destruct Hr as (k & c' & u & [= <-] & Hc & Ha & Hu & ->). rewrite jwt_payload_sign in Hc.
    injection Hc as <-. rewrite bool_decide_true by by apply Hacc. f_equal. by rewrite <- Hu.
Qed.

(** ** Sign in with Apple *)

(** One account per Apple subject. *)
Definition unique_subjects (s : Store) : Prop :=
  ∀ i j u v, users s !! i = Some u → users s !! j = Some v → appleSub u = appleSub v → i = j.

(** The address an account has after a sign-in that presents [given]. *)
Definition email_after (given : json) (old : option User) : option jstr :=
  match given, old with
  | JStr (c :: e), _ => Some (c :: e)
  | JStr [], None => Some []
  | _, None => None
  | _, Some u => email u
  end.

Section SignIn.
Context `{Cr : Crypto} (cfg : AppConfig) (f : bool).
Abbreviation wp := (wp (eff_contract f)).

(** What a verified Apple token proves. *)
Definition apple_proof (clientId tok : jstr) (nonce : option jstr) (now : Z) (c : claims) : Prop :=
  apple_payload tok = Some c ∧ jwt_accepts c AppleVerifiers.APPLE_ISSUER clientId now
  ∧ ∃ n, nonce = Some n ∧ n ≠ [] ∧ AppleVerifiers.nonce_matches n c = true.

Lemma real_verify_spec clientId tok nonce s :
  wp (AppleVerifiers.real_verify clientId tok nonce) s (λ r s', s' = s ∧
    match r with
    | inr i => ∃ c, apple_proof clientId tok nonce (clock s) c
                    ∧ i = AppleVerifiers.identity_of (default JNull (jget (js "sub") c)) c
    | inl e => ∃ m, e = UnauthorizedException m
    end).
Proof.
  unfold AppleVerifiers.real_verify.
  wp_call. intros r s1 [[[-> (c & -> & Hp & Ha)]|[-> (e & -> & _)]]|[Hf [-> (e & -> & _)]]]; wp_simpl;
    [|by eauto..].
  destruct (json_truthy _) eqn:Ht; cbn [negb]; wp_simpl; [|by eauto].
  destruct nonce as [[|x n]|]; wp_simpl; [by eauto| |by eauto].
  destruct (AppleVerifiers.nonce_matches (x :: n) c) eqn:Hn; cbn [negb]; wp_simpl; [|by eauto].
  split; [done|]. exists c. split; [|done]. split; [done|]. split; [done|]. by exists (x :: n).
Qed.

(** The account after the upsert. *)
Definition upserted (sub : jstr) (given : json) (p : jstr * User) (s s' : Store) : Prop :=
  s' = with_users (<[p.1 := p.2]> (users s)) s ∧ appleSub p.2 = sub
  ∧ email p.2 = email_after given (users s !! p.1)
  ∧ ∀ i u, users s !! i = Some u → appleSub u = sub → (∃ v, users s !! p.1 = Some v ∧ appleSub v = sub).

Lemma upsert_spec sub given s :
  wp (UsersService.upsertByApple sub given) s (λ r s',
    match r with
    | inr p => ∃ t, sub = JStr t ∧ upserted t given p s s'
                    ∧ (∀ v, users s !! p.1 = Some v → appleSub v = t)
    | inl e => s' = s ∧ infra e
    end).
Proof.
  assert (wp (@UsersService.invalid (jstr * User)) s (λ r s',
    match r with
    | inr p => ∃ t, sub = JStr t ∧ upserted t given p s s'
                    ∧ (∀ v, users s !! p.1 = Some v → appleSub v = t)
    | inl e => s' = s ∧ infra e
    end)) as Hinv.
  { unfold UsersService.invalid. wp_call. by intros r s1 [[-> (e & -> & He)]|[_ [-> (e & -> & He)]]]. }
  unfold UsersService.upsertByApple. destruct sub as [| | |t| |]; try exact Hinv.
  destruct (UsersService.text_or_null given) as [e|] eqn:He; [|exact Hinv].
  apply wp_await. intros r s1 [[(id & u & Hu & Hs & -> & ->)|(id & Hn & Hno & -> & ->)]|[_ [-> (x & -> & Hx)]]];
    [..|done]; exists t; (split; [done|]); simpl.
  - split; [split_and!; [done..| |by eauto]|by intros v Hv; congruence]. simpl.
    rewrite Hu. destruct given as [| | |[|c g]| |]; simplify_eq/=; done.
  - split; [split_and!; [done..| |]|by intros v Hv; congruence]; simpl.
    + rewrite Hn. destruct given as [| | |[|c g]| |]; simplify_eq/=; done.
    + intros i u Hu Hs. by destruct (Hno _ _ Hu).
Qed.

Lemma upserted_unique t given p s s' :
  upserted t given p s s' → (∀ v, users s !! p.1 = Some v → appleSub v = t) →
  unique_subjects s → unique_subjects s'.
Proof.
  intros (-> & Ht & _ & Hex) Hold Hun i j u v. simpl. rewrite !lookup_insert.
  assert (∀ k x, users s !! k = Some x → appleSub x = t → p.1 = k) as Hk.
  { intros k x Hx Hxt. destruct (Hex _ _ Hx Hxt) as (y & Hy & Hyt). eapply Hun; [done..|congruence]. }
  repeat case_decide; intros Hi Hj Huv; simplify_eq; [done|..].
  - destruct (Hk j v); [done|congruence|done].
  - destruct (Hk i u); [done|congruence|done].
  - by eapply Hun.
Qed.
End SignIn.

(** C25: Sign in with Apple, with the development bypass off.  A sign-in that
    returns was made with a token Apple signed for this app, unexpired, carrying a
    subject and bound to the client's nonce, raw or hashed; it belongs to the one
    account of that subject and stores one active session for it, as the keyed
    hash of the refresh token, beside the sessions there were; and the account's
    address becomes the one presented, if any is.  Accounts stay unique per
    subject, and an unauthorized sign-in leaves no trace. *)
Theorem apple_sign_in_is_verified `{Hs : Services} cfg tok nonce given_email w :
  devBypass (cfg_apple cfg) = false →
  ensures (AuthService.signInWithApple (AV := AppleVerifiers.apple_verifier cfg) cfg tok nonce given_email) w
    (λ r s', (unique_subjects (view w) → unique_subjects s') ∧
      match r with
      | inl e => (∃ m, e = UnauthorizedException m) → s' = view w
      | inr resp => ∃ c sub acct expires,
          apple_proof (clientId (cfg_apple cfg)) tok nonce (clock (view w)) c
          ∧ jget (js "sub") c = Some (JStr sub)
          ∧ users s' !! token_userId resp = Some acct ∧ appleSub acct = sub
          ∧ email acct = email_after
              (nullish (jget (js "email") c) (match given_email with Some e => JStr e | None => JNull end))
              (users (view w) !! token_userId resp)
          ∧ refreshTokens (view w) !! TokenService.hashRefreshToken cfg (refreshToken resp) = None
          ∧ refreshTokens s' = <[TokenService.hashRefreshToken cfg (refreshToken resp)
                                  := mkRefreshToken (token_userId resp) expires None None]>
                                 (refreshTokens (view w))
          ∧ accessToken resp = signed cfg (token_userId resp) sub (clock s')
      end).
Proof.
  intros Hdev. apply ensures_wp. unfold AuthService.signInWithApple, verify, AppleVerifiers.apple_verifier.
  rewrite Hdev. wp_apply real_verify_spec. intros [e|i] s1 [-> Hi]; [done|]. wp_simpl.
  destruct Hi as (c & Hc & ->). wp_apply upsert_spec. intros [e|p] s1; cbn beta iota.
  { intros [-> (x & -> & _)]. split; [done|]. by intros (m & [=]). }
  intros (sub & Hsub & Hup & Hold).
  assert (unique_subjects (view w) → unique_subjects s1) as Hun by by eapply upserted_unique.
  destruct Hup as (-> & Ht & He & _). unfold AuthService.issueTokenPair.
  assert (∀ x, infra x → ¬ ∃ m, x = UnauthorizedException m) as Hinf.
  { intros x (y & -> & _) (m & [=]). }
  wp_apply generateRefreshToken_spec. intros r s2 (tk & t & _ & Hfresh & -> & ->). simpl in Hfresh.
  cbn [fresh_hash fresh_expiresAt fresh_token]. wp_call.
  intros r s3 [[(_ & _ & -> & ->)|[[[y Hy] _]|[Hn _]]]|[Hf [-> (e & -> & Hx)]]].
  - wp_apply issueAccessToken_spec. intros [e|acc] s4 (t4 & _ & -> & Hr); wp_simpl; (split; [exact Hun|]).
    + destruct Hr as [_ Hr]. intros Hm. by destruct (Hinf _ Hr).
    + subst acc. exists c, sub, p.2. eexists. split; [done|]. split.
      { destruct (jget (js "sub") c); simpl in Hsub; congruence. }
      simpl. rewrite Ht. split_and!; try done. by rewrite lookup_insert_eq.
  - simpl in Hy. by rewrite Hfresh in Hy.
  - simpl in Hn. by rewrite lookup_insert_eq in Hn.
  - split; [exact Hun|]. intros Hm. by destruct (Hinf _ Hx).
Qed.

(** ** Concrete sessions *)
Definition auth_cfg : AppConfig := config_of prod_parsed.
Definition alice_session : Store :=
  with_clock 1000 (with_refreshTokens
    {[ TokenService.hashRefreshToken auth_cfg (js "r0") := mkRefreshToken (js "alice") 5000 None None ]}
    (with_users {[ js "alice" := mkUser (js "apple-1") None ]} empty_store)).

Definition is_active (m : memory) (tok : jstr) : option bool :=
  active <$> refreshTokens (m_store m) !! TokenService.hashRefreshToken auth_cfg tok.


Lemma replayed_token_ends_session_witness :
  ensures (Hs := reliable_memory)
    (pair <- AuthService.refresh auth_cfg (js "r0");;
     again <- attempt (AuthService.refresh auth_cfg (js "r0"));;
     Ret (pair, again)) (mkMemory alice_session quiet)
    (λ r s', ∃ pair, r = inr (pair, inl (UnauthorizedException (js "Refresh token already used.")))
                     ∧ signed_out (js "alice") s').
Proof.
  pose proof (replayed_token_ends_session (Hs := reliable_memory) auth_cfg (js "r0")
                (mkMemory alice_session quiet) eq_refl) as H.
  assert (returns (λ x, bool_decide (token_userId x.1 = js "alice")) (exec (mem_handle false)
    (pair <- AuthService.refresh auth_cfg (js "r0");;
     again <- attempt (AuthService.refresh auth_cfg (js "r0"));;
     Ret (pair, again)) (mkMemory alice_session quiet)).1 = true) as Hrun by (vm_compute; reflexivity).
  unfold ensures in *. cbn [handle reliable_memory] in *.
  destruct (exec _ _ _) as [[e|[pair again]] m]; [discriminate Hrun|].
  destruct (H pair again eq_refl) as [-> Ho]. exists pair. split; [reflexivity|].
  apply bool_decide_eq_true in Hrun. rewrite <- Hrun. exact Ho.
Defined.

(** A token Apple signed for the app, carrying the hashed nonce. *)
Definition apple_token : jstr :=
  toy_sign (js "apple") [(js "iss", JStr AppleVerifiers.APPLE_ISSUER);
    (js "aud", JStr (clientId (cfg_apple auth_cfg))); (js "sub", JStr (js "apple-1"));
    (js "nonce", JStr (sha256_hex (js "n0"))); (js "exp", JNum 60)].

Lemma apple_sign_in_is_verified_witness :
  ensures (Hs := reliable_memory)
    (AuthService.signInWithApple (AV := AppleVerifiers.apple_verifier auth_cfg) auth_cfg apple_token
       (Some (js "n0")) (Some (js "a@example.com"))) (mkMemory alice_session quiet)
    (λ r s', ∃ resp acct, r = inr resp ∧ users s' !! token_userId resp = Some acct
                          ∧ appleSub acct = js "apple-1").
Proof.
  pose proof (apple_sign_in_is_verified (Hs := reliable_memory) auth_cfg apple_token (Some (js "n0"))
                (Some (js "a@example.com")) (mkMemory alice_session quiet) eq_refl) as [_ H].
  assert (returns (λ _, true) (exec (mem_handle false)
    (AuthService.signInWithApple (AV := AppleVerifiers.apple_verifier auth_cfg) auth_cfg apple_token
       (Some (js "n0")) (Some (js "a@example.com"))) (mkMemory alice_session quiet)).1 = true) as Hrun
    by (vm_compute; reflexivity).
  unfold ensures in *. cbn [handle reliable_memory] in *.
  destruct (exec _ _ _) as [[e|resp] m]; [discriminate Hrun|].
  destruct H as (c & sub & acct & ex & (Hp & _) & Hsub & Hu & Ha & _). exists resp, acct.
  split; [reflexivity|]. split; [exact Hu|]. rewrite Ha.
  vm_compute in Hp. injection Hp as <-. vm_compute in Hsub. injection Hsub as <-. reflexivity.
Defined.
