(* ===== verification/JobsService.v ===== *)
(** * The jobs service and its controller

    [server/src/jobs/jobs.service.ts] and [jobs.controller.ts], over the
    repository, the object storage and the queue. *)
From S2P Require Import Prelude Json Program Schema Services Memory JsDate Report Config Media Queue JobsRepository Dto.

Module JobsService.
(** Statuses that mean the pipeline is already running. *)
Definition IN_FLIGHT : list JobStatus := [QUEUED; TRANSCRIBING; COMPILING; RENDERING].
Definition in_flight (st : JobStatus) : bool := bool_decide (st ∈ IN_FLIGHT).

(** A nullable string used as a condition. *)
Definition truthy_opt (o : option jstr) : option jstr :=
  match o with
  | Some k => if truthy k then Some k else None
  | None => None
  end.

Definition toReportInput (sections : nullable (list UpdateSectionDto)) : list ReportSectionInput :=
  (λ x, mkSectionInput (us_title x)
     ((λ g, mkFindingInput (uf_text g) (severityFromApi (uf_severity g)))
      <$> sortOn uf_sortOrder (us_findings x)))
  <$> sortOn us_sortOrder (match sections with Value l => l | _ => [] end).

Section Operations.
Context (cfg : AppConfig).

Definition requireOwned (userId jobId : jstr) : prog eff JobWithReport :=
  job <- JobsRepository.findScoped userId jobId;;
  match job with
  | None => Throw (NotFoundException (js "Job not found."))
  | Some job => Ret job
  end.

Definition maybePdfUrl (job : JobWithReport) : prog eff (option jstr) :=
  match job_status (jwr_job job), truthy_opt (job_pdfKey (jwr_job job)) with
  | READY, Some key => r <- MediaService.presignPdfDownload cfg key;; Ret (Some r.1)
  | _, _ => Ret None
  end.

Definition create (userId : jstr) (dto : CreateJobDto) (idempotencyKey : option jstr)
    : prog eff CreateJobResponseDto :=
  existing <- match truthy_opt idempotencyKey with
              | Some key => JobsRepository.findByIdempotencyKey userId key
              | None => Ret None
              end;;
  match existing with
  | Some existing =>
      upload <- MediaService.presignAudioUpload cfg userId (jwr_id existing);;
      Ret (mkCreateJobResponse (jobToDto existing None) upload)
  | None =>
      id <- await RandomUUID;;
      let audioKey := MediaService.audioKey userId id in
      job <- JobsRepository.createDraft id userId (cj_label dto) audioKey idempotencyKey;;
      upload <- MediaService.presignAudioUpload cfg userId id;;
      Ret (mkCreateJobResponse (jobToDto job None) upload)
  end.

Definition list (userId : jstr) (cursor : option jstr) (limit : nat)
    : prog eff (PaginatedDto JobDto) :=
  jobs <- JobsRepository.listScoped userId cursor limit;;
  let items := (λ job, jobToDto job None) <$> jobs in
  if bool_decide (length jobs = limit) then
    match last jobs with
    | Some j => Ret (mkPaginated items (Some (jwr_id j)))
    | None => Throw (JsError (js "Cannot read properties of undefined (reading 'id')"))
    end
  else Ret (mkPaginated items None).

Definition findOne (userId jobId : jstr) : prog eff JobDto :=
  job <- requireOwned userId jobId;;
  url <- maybePdfUrl job;;
  Ret (jobToDto job url).

Definition update (userId jobId : jstr) (dto : UpdateJobDto) : prog eff JobDto :=
  requireOwned userId jobId;;
  match uj_sections dto, uj_label dto with
  | Undefined, Undefined => Ret tt
  | Undefined, Null => JobsRepository.updateLabelScoped userId jobId None
  | Undefined, Value label => JobsRepository.updateLabelScoped userId jobId (Some label)
  | sections, label => JobsRepository.replaceReportScoped userId jobId label (toReportInput sections)
  end;;
  findOne userId jobId.

Definition process (userId jobId : jstr) : prog eff JobDto :=
  job <- requireOwned userId jobId;;
  if bool_decide (job_status (jwr_job job) = READY) then
    url <- maybePdfUrl job;; Ret (jobToDto job url)
  else if in_flight (job_status (jwr_job job)) then Ret (jobToDto job None)
  else
    let audioKey := default (MediaService.audioKey userId jobId) (job_audioKey (jwr_job job)) in
    uploaded <- MediaService.objectExists audioKey;;
    if (uploaded : bool) then
      JobsRepository.setStatus jobId QUEUED (Some None);;
      ProcessingQueue.enqueueProcessing cfg (mkProcessJobData jobId userId);;
      refreshed <- JobsRepository.findScoped userId jobId;;
      Ret (jobToDto (default job refreshed) None)
    else Throw (BadRequestException (js "Audio has not been uploaded yet.")).

Definition job_object_keys (j : Job) : Datatypes.list jstr :=
  omap truthy_opt [job_audioKey j; job_pdfKey j].

Definition remove (userId jobId : jstr) : prog eff unit :=
  job <- requireOwned userId jobId;;
  count <- JobsRepository.softDeleteScoped userId jobId;;
  if bool_decide (count = 0) then Throw (NotFoundException (js "Job not found."))
  else TRY (MediaService.deleteObjects (job_object_keys (jwr_job job))) CATCH err => Ret tt.

Definition getPdfUrl (userId jobId : jstr) : prog eff PdfUrlDto :=
  job <- requireOwned userId jobId;;
  match job_status (jwr_job job), truthy_opt (job_pdfKey (jwr_job job)) with
  | READY, Some key =>
      r <- MediaService.presignPdfDownload cfg key;;
      Ret (mkPdfUrl r.1 r.2)
  | _, _ => Throw (ConflictException (js "PDF is not ready for this job."))
  end.
End Operations.
End JobsService.

(** ** The controller: one request per route, for an authenticated user *)
Module JobsController.
Inductive Request :=
  | GetJobs (query : PaginationQueryDto)
  | PostJob (dto : CreateJobDto) (idempotencyKey : option jstr)
  | GetJob (id : jstr)
  | PatchJob (id : jstr) (dto : UpdateJobDto)
  | PostProcess (id : jstr)
  | GetPdf (id : jstr)
  | DeleteJob (id : jstr).

Inductive Response :=
  | JobPage (p : PaginatedDto JobDto)
  | JobCreated (r : CreateJobResponseDto)
  | JobShown (d : JobDto)
  | PdfUrlShown (d : PdfUrlDto)
  | NoContent.

(** [idempotencyKey?.trim() || null] *)
Definition idempotency_key (header : option jstr) : option jstr :=
  match header with
  | Some h => if truthy (trim h) then Some (trim h) else None
  | None => None
  end.

Definition serve (cfg : AppConfig) (userId : jstr) (r : Request) : prog eff Response :=
  match r with
  | GetJobs q => p <- JobsService.list userId (pq_cursor q) (Z.to_nat (pq_limit q));; Ret (JobPage p)
  | PostJob dto key => x <- JobsService.create cfg userId dto (idempotency_key key);; Ret (JobCreated x)
  | GetJob id => d <- JobsService.findOne cfg userId id;; Ret (JobShown d)
  | PatchJob id dto => d <- JobsService.update cfg userId id dto;; Ret (JobShown d)
  | PostProcess id => d <- JobsService.process cfg userId id;; Ret (JobShown d)
  | GetPdf id => d <- JobsService.getPdfUrl cfg userId id;; Ret (PdfUrlShown d)
  | DeleteJob id => JobsService.remove userId id;; Ret NoContent
  end.
End JobsController.

(** ** Functional specifications *)
Section Specs.
Context `{Cr : Crypto} (cfg : AppConfig) (f : bool).
Abbreviation wp := (wp (eff_contract f)).
Import JobsService.

(** The errors of reading a job: a service failure, or 404. *)
Definition read_error (s : Store) (u id : jstr) (e : exn) : Prop :=
  f = true ∧ infra e ∨ live_job s u id = None ∧ e = NotFoundException (js "Job not found.").

Lemma requireOwned_spec u id s :
  wp (requireOwned u id) s (λ r s', s' = s ∧
    match r with
    | inr x => jwr_id x = id ∧ live_job s u id = Some (jwr_job x) ∧ report_of s id (jwr_sections x)
    | inl e => read_error s u id e
    end).
Proof.
  unfold requireOwned. wp_apply findScoped_spec. intros [e|[x|]] s' [-> H]; wp_simpl;
    (split; [done|]); [by left|done|by right].
Qed.

(** The key of a PDF that can be downloaded. *)
Definition pdf_ready (j : Job) : option jstr :=
  match job_status j, truthy_opt (job_pdfKey j) with
  | READY, Some key => Some key
  | _, _ => None
  end.
Definition get_url (url key : jstr) : Presigned := mkPresigned url GET key (presignGetTtl (cfg_r2 cfg)).
Definition put_url (url u id : jstr) : Presigned :=
  mkPresigned url (PUT AUDIO_CONTENT_TYPE) (MediaService.audioKey u id) (presignPutTtl (cfg_r2 cfg)).

(** What [jobToDto(job, await maybePdfUrl(job))] gives. *)
Definition shown (x : JobWithReport) (d : JobDto) (s s' : Store) : Prop :=
  match pdf_ready (jwr_job x) with
  | Some key => ∃ url, d = jobToDto x (Some url) ∧ s' = MediaService.issued (get_url url key) s
  | None => d = jobToDto x None ∧ s' = s
  end.

Lemma maybePdfUrl_spec x s :
  wp (maybePdfUrl cfg x) s (λ r s',
    match r with
    | inr o => shown x (jobToDto x o) s s'
    | inl e => s' = s ∧ f = true ∧ infra e
    end).
Proof.
  unfold maybePdfUrl, shown, pdf_ready. destruct (job_status _); try done.
  destruct (truthy_opt _) as [key|]; [|done].
  wp_apply MediaService.presignPdfDownload_spec. intros [e|[url ttl]] s' H; [done|].
  wp_simpl. destruct H as [-> ->]. by exists url.
Qed.

(** A job as one request of its owner sees it. *)
Definition sees (s : Store) (u id : jstr) (x : JobWithReport) : Prop :=
  jwr_id x = id ∧ live_job s u id = Some (jwr_job x) ∧ report_of s id (jwr_sections x).

Lemma show_spec x s :
  wp (url <- maybePdfUrl cfg x;; Ret (jobToDto x url)) s (λ r s',
    match r with
    | inr d => shown x d s s'
    | inl e => s' = s ∧ f = true ∧ infra e
    end).
Proof. wp_apply maybePdfUrl_spec. by intros [e|o] s' H. Qed.

Lemma findOne_spec u id s :
  wp (findOne cfg u id) s (λ r s',
    match r with
    | inr d => ∃ x, sees s u id x ∧ shown x d s s'
    | inl e => s' = s ∧ read_error s u id e
    end).
Proof.
  unfold findOne. wp_apply requireOwned_spec. intros [e|x] s1 [-> H]; [done|].
  eapply wp_mono; [apply show_spec|]. intros [e|d] s'; [|by exists x].
  intros [-> ?]. split; [done|by left].
Qed.

Lemma getPdfUrl_spec u id s :
  wp (getPdfUrl cfg u id) s (λ r s',
    match r with
    | inr d => ∃ j key, live_job s u id = Some j ∧ pdf_ready j = Some key
               ∧ pdf_expiresInSeconds d = presignGetTtl (cfg_r2 cfg)
               ∧ s' = MediaService.issued (get_url (pdf_url d) key) s
    | inl e => s' = s ∧ (read_error s u id e
               ∨ ∃ j, live_job s u id = Some j ∧ pdf_ready j = None
                      ∧ e = ConflictException (js "PDF is not ready for this job."))
    end).
Proof.
  unfold getPdfUrl. wp_apply requireOwned_spec. intros [e|x] s1 [-> H]; [by auto|].
  destruct H as (_ & Hl & _). unfold pdf_ready. destruct (pdf_ready (jwr_job x)) as [key|] eqn:Hp.
  - unfold pdf_ready in Hp. destruct (job_status _) eqn:Hs; try done.
    destruct (truthy_opt _) eqn:Ht; simplify_eq.
    wp_apply MediaService.presignPdfDownload_spec. intros [e|[url ttl]] s' Hr.
    + destruct Hr as [-> Hr]. split; [done|]. left. by left.
    + destruct Hr as [-> ->]. wp_simpl. exists (jwr_job x), key. by rewrite Hs, Ht.
  - assert (∀ e, e = ConflictException (js "PDF is not ready for this job.") →
       s = s ∧ (read_error s u id e ∨ ∃ j, live_job s u id = Some j ∧ pdf_ready j = None
                      ∧ e = ConflictException (js "PDF is not ready for this job."))) as Hc.
    { intros e ->. split; [done|]. right. by exists (jwr_job x). }
    unfold pdf_ready in Hp. destruct (job_status _); try (by apply Hc).
    destruct (truthy_opt _); [done|by apply Hc].
Qed.

Lemma list_spec u cursor limit s :
  wp (list u cursor limit) s (λ r s', s' = s ∧
    match r with
    | inr p => ∃ full rows, user_jobs s u full
        ∧ page_of full limit (truthy_opt cursor) ((λ x, (jwr_id x, jwr_job x)) <$> rows)
        ∧ Forall (loaded s) rows ∧ items p = (λ x, jobToDto x None) <$> rows
        ∧ nextCursor p = (if bool_decide (length rows = limit) then jwr_id <$> last rows else None)
    | inl e => f = true ∧ infra e ∨ limit = 0 ∧ ∃ m, e = JsError m
    end).
Proof.
  unfold list. wp_apply listScoped_spec. intros [e|rows] s1 [-> H]; [by auto|].
  destruct H as (Hl & full & Hf & Hp). case_bool_decide as Hn.
  - destruct (last rows) as [j|] eqn:Hlast; wp_simpl; (split; [done|]).
    + exists full, rows. split_and!; try done. by rewrite bool_decide_true, Hlast.
    + right. apply last_None in Hlast as ->. split; [by rewrite <- Hn|by eexists].
  - wp_simpl. split; [done|]. exists full, rows. split_and!; try done. by rewrite bool_decide_false.
Qed.

(** A new draft, stored at time [t] under the fresh id [id]. *)
Definition draft_data (u id label : jstr) (key : option jstr) : JobCreateData :=
  mkJobCreateData id u label (MediaService.audioKey u id) key CREATED.
Definition drafted (u id label : jstr) (key : option jstr) (t : Z) (s : Store) : Store :=
  with_clock t (with_jobs (<[id := created_job (draft_data u id label key) t]> (jobs s)) s).

Definition upload_of (url u id : jstr) : PresignedUpload :=
  mkPresignedUpload url (MediaService.audioKey u id) AUDIO_CONTENT_TYPE (presignPutTtl (cfg_r2 cfg)).

Definition replayed (u key : jstr) (resp : CreateJobResponseDto) (s s' : Store) : Prop :=
  ∃ x url, sees s u (jwr_id x) x ∧ job_idempotencyKey (jwr_job x) = Some key
    ∧ resp = mkCreateJobResponse (jobToDto x None) (upload_of url u (jwr_id x))
    ∧ s' = MediaService.issued (put_url url u (jwr_id x)) s.

(** No live job of the user has the key (when one is given). *)
Definition unused_key (s : Store) (u : jstr) (key : option jstr) : Prop :=
  ∀ k id j, truthy_opt key = Some k → live_job s u id = Some j → job_idempotencyKey j ≠ Some k.

Definition created_new (u label : jstr) (key : option jstr) (resp : CreateJobResponseDto)
    (s s' : Store) : Prop :=
  ∃ id t secs url, jobs s !! id = None ∧ ¬ duplicate_job s (draft_data u id label key)
    ∧ (clock s ≤ t)%Z ∧ report_of s id secs
    ∧ resp = mkCreateJobResponse
               (jobToDto (mkJobWithReport id (created_job (draft_data u id label key) t) secs) None)
               (upload_of url u id)
    ∧ s' = MediaService.issued (put_url url u id) (drafted u id label key t s).

Definition create_error (u label : jstr) (key : option jstr) (e : exn) (s s' : Store) : Prop :=
  s' = s ∧ (f = true ∧ infra e
            ∨ unused_key s u key ∧ prisma_error "P2002" e
              ∧ (∃ k id j, key = Some k ∧ jobs s !! id = Some j ∧ job_userId j = u
                           ∧ job_idempotencyKey j = Some k)
            ∨ users s !! u = None ∧ prisma_error "P2003" e)
  ∨ f = true ∧ infra e ∧ unused_key s u key
    ∧ ∃ id t, jobs s !! id = None ∧ ¬ duplicate_job s (draft_data u id label key)
               ∧ (clock s ≤ t)%Z ∧ s' = drafted u id label key t s.

Lemma create_new_spec u dto key s :
  unused_key s u key →
  wp (id <- await RandomUUID;;
      job <- JobsRepository.createDraft id u (cj_label dto) (MediaService.audioKey u id) key;;
      upload <- MediaService.presignAudioUpload cfg u id;;
      Ret (mkCreateJobResponse (jobToDto job None) upload)) s (λ r s',
    match r with
    | inr resp => created_new u (cj_label dto) key resp s s'
    | inl e => create_error u (cj_label dto) key e s s'
    end).
Proof.
  intros Hun. wp_call. intros r s1 [[-> (id & -> & Hid)]|[? []]]. wp_simpl.
  wp_apply createDraft_spec. intros [e|x] s2.
  - intros [-> He]. left. split; [done|]. destruct He as [He|[[Hd He]|He]]; [by left| |by right; right].
    right. left. split_and!; [done|done|].
    destruct Hd as [[? Hx]|(k & i & j & Hk & Hj & Hu & Hkj)]; [simpl in Hx; congruence|].
    by exists k, i, j.
  - intros (Hd & Hu & t & Ht & Hxid & Hxj & -> & Hrep).
    wp_apply MediaService.presignAudioUpload_spec. intros [e|up] s3.
    + intros (-> & Hf & He). right. split_and!; [done|done|done|]. by exists id, t.
    + intros (Hk & Hct & Httl & ->). wp_simpl. exists id, t, (jwr_sections x), (upload_url up).
      split_and!; try done. f_equal.
      * destruct x as [i j secs]. simpl in *. by subst.
      * destruct up. simpl in *. unfold upload_of. by subst.
Qed.

Lemma create_spec u dto key s :
  wp (create cfg u dto key) s (λ r s',
    match r with
    | inr resp => (∃ k, truthy_opt key = Some k ∧ replayed u k resp s s')
                  ∨ unused_key s u key ∧ created_new u (cj_label dto) key resp s s'
    | inl e => create_error u (cj_label dto) key e s s'
    end).
Proof.
  unfold create. destruct (truthy_opt key) as [k|] eqn:Hkey.
  - wp_apply findByIdempotencyKey_spec. intros [e|[x|]] s1 [-> H].
    + left. by auto.
    + wp_apply MediaService.presignAudioUpload_spec. intros [e|up] s2.
      * intros (-> & Hf & He). left. by auto.
      * intros (Hk & Hct & Httl & ->). wp_simpl. left. exists k. split; [done|].
        destruct H as (Hl & Hkx & Hr). exists x, (upload_url up). split_and!; try done.
        f_equal. destruct up. simpl in *. unfold upload_of. by subst.
    + assert (unused_key s u key) as Hun.
      { intros k' id j Hk'. rewrite Hkey in Hk'. injection Hk' as <-. apply H. }
      eapply wp_mono; [by apply create_new_spec|]. intros [e|resp] s' Hr; by auto.
  - wp_simpl. assert (unused_key s u key) as Hun by (intros k id j Hk; congruence).
    eapply wp_mono; [by apply create_new_spec|]. intros [e|resp] s' Hr; by auto.
Qed.

(** The write of a PATCH, on the live job [j]. *)
Definition edited (u id : jstr) (dto : UpdateJobDto) (j : Job) (s s1 : Store) : Prop :=
  match uj_sections dto, uj_label dto with
  | Undefined, Undefined => s1 = s
  | Undefined, Null => False
  | Undefined, Value l => updated_live u id (JobsRepository.set_label (Some l)) s s1
  | sections, label => replaced_scoped id label (toReportInput sections) j s s1
  end.

Lemma edited_live u id dto j s s1 :
  live_job s u id = Some j → edited u id dto j s s1 →
  ∃ j', live_job s1 u id = Some j' ∧ job_status j' = job_status j
        ∧ job_label j' = match uj_label dto with Value l => l | _ => job_label j end.
Proof.
  intros Hl He. pose proof Hl as (Hj & Hu & Hd)%live_job_Some.
  assert (∀ t d m, jobs s1 = <[id := apply_data d t j]> m → data_deletedAt d = None →
            data_status d = None → data_label d = JobsRepository.label_data (uj_label dto) →
            ∃ j', live_job s1 u id = Some j' ∧ job_status j' = job_status j
              ∧ job_label j' = match uj_label dto with Value l => l | _ => job_label j end) as Hdone.
  { intros t d m Hm Hdd Hds Hdl. exists (apply_data d t j). split_and!.
    - apply live_job_Some. rewrite Hm, lookup_insert_eq. simpl. by rewrite Hdd.
    - simpl. by rewrite Hds.
    - simpl. rewrite Hdl. by destruct (uj_label dto). }
  unfold edited in He. destruct (uj_sections dto), (uj_label dto) as [| |l]; try done;
    try lazymatch type of He with
        | replaced_scoped _ _ _ _ _ _ =>
            destruct He as [Hnn (now & t & _ & _ & Heq)]; eapply Hdone; [by rewrite Heq|done..]
        end.
  - subst s1. by exists j.
  - destruct He as (t & _ & ->). eapply Hdone; [simpl; unfold update_live; by rewrite Hl|done..].
Qed.

(** Nothing but the time has changed. *)
Definition untouched (s s' : Store) : Prop := ∃ t, (clock s ≤ t)%Z ∧ s' = with_clock t s.
Lemma untouched_refl s : untouched s s.
Proof. exists (clock s). split; [lia|by destruct s]. Qed.

Lemma update_spec u id dto s :
  wp (update cfg u id dto) s (λ r s',
    match r with
    | inr d => ∃ j s1 x, live_job s u id = Some j ∧ edited u id dto j s s1
                         ∧ sees s1 u id x ∧ shown x d s1 s'
    | inl e => untouched s s' ∧ (read_error s u id e ∨ is_Some (live_job s u id) ∧ uj_label dto = Null ∧ infra e)
               ∨ f = true ∧ infra e ∧ ∃ j, live_job s u id = Some j ∧ edited u id dto j s s'
    end).
Proof.
  unfold update. wp_apply requireOwned_spec. intros [e|x] s1 [-> H].
  { left. split; [apply untouched_refl|by left]. }
  destruct H as (_ & Hl & _). set (j := jwr_job x) in *. wp_simpl.
  apply wp_seq with (λ r s1, match r with
    | inr _ => edited u id dto j s s1
    | inl e => untouched s s1 ∧ (f = true ∨ uj_label dto = Null) ∧ infra e end).
  - assert (∀ label sections, label = uj_label dto →
      wp (JobsRepository.replaceReportScoped u id label sections) s (λ r s1,
        match r with
        | inr _ => replaced_scoped id label sections j s s1
        | inl e => untouched s s1 ∧ (f = true ∨ uj_label dto = Null) ∧ infra e end)) as Hrep.
    { intros label sections ->. eapply wp_mono; [apply replaceReportScoped_spec|]. intros [e|[]] s1.
      - intros (-> & Hc & [He|[Hn _]]); [|congruence]. split; [|done].
        by exists (clock s1).
      - intros (j' & Hj' & Hr). rewrite Hl in Hj'. by injection Hj' as <-. }
    unfold edited. destruct (uj_sections dto), (uj_label dto) as [| |l] eqn:Hlab;
      try (by apply Hrep); [done| |];
      (eapply wp_mono; [apply updateLabelScoped_spec|]); intros [e|[]] s1 Hr.
    + destruct Hr as (-> & _ & He). split; [apply untouched_refl|]. auto.
    + by destruct Hr as (l & ? & _).
    + destruct Hr as (-> & [?|?] & He); [|done]. split; [apply untouched_refl|]. auto.
    + destruct Hr as (l' & [= <-] & Hr). done.
  - intros e s1 (Ht & [Hf|Hn] & He); left; (split; [done|]); [by left; left|by right].
  - intros _ s1 He. eapply wp_mono; [apply findOne_spec|]. intros [e|d] s2.
    + intros [-> [[Hf Hi]|[Hn _]]]; [right; by eauto|].
      destruct (edited_live _ _ _ _ _ _ Hl He) as (j' & Hj' & _). congruence.
    + intros (y & Hy & Hsh). by exists j, s1, y.
Qed.

(** ** Starting the pipeline *)

Definition started_job (t : Z) (j : Job) : Job :=
  apply_data (mkJobData None (Some QUEUED) None None (Some None) None None) t j.
Definition started (id : jstr) (t : Z) (j : Job) (s : Store) : Store :=
  with_clock t (with_jobs (<[id := started_job t j]> (jobs s)) s).

Definition audio_of (u id : jstr) (j : Job) : jstr := default (MediaService.audioKey u id) (job_audioKey j).
Definition startable (j : Job) : Prop := job_status j ≠ READY ∧ in_flight (job_status j) = false.

Lemma live_started s u id j t :
  live_job s u id = Some j → live_job (started id t j s) u id = Some (started_job t j).
Proof.
  intros (Hj & Hu & Hd)%live_job_Some. apply live_job_Some. simpl. by rewrite lookup_insert_eq.
Qed.

Definition process_ok (u id : jstr) (x : JobWithReport) (d : JobDto) (s s' : Store) : Prop :=
  job_status (jwr_job x) = READY ∧ shown x d s s'
  ∨ in_flight (job_status (jwr_job x)) = true ∧ d = jobToDto x None ∧ s' = s
  ∨ startable (jwr_job x) ∧ is_Some (objects s !! audio_of u id (jwr_job x))
    ∧ ∃ t secs, (clock s ≤ t)%Z ∧ report_of s id secs
        ∧ d = jobToDto (mkJobWithReport id (started_job t (jwr_job x)) secs) None
        ∧ s' = with_queue (ProcessingQueue.enqueued cfg (mkProcessJobData id u) s)
                 (started id t (jwr_job x) s).

(** A failure after the status was set leaves the job marked QUEUED. *)
Definition process_stuck (u id : jstr) (s s' : Store) : Prop :=
  ∃ j t, live_job s u id = Some j ∧ startable j ∧ (clock s ≤ t)%Z
    ∧ let s1 := started id t j s in
      s' = s1 ∨ s' = with_queue (delete id (queue s)) s1
      ∨ s' = with_queue (ProcessingQueue.enqueued cfg (mkProcessJobData id u) s) s1.

Lemma process_spec u id s :
  wp (process cfg u id) s (λ r s',
    match r with
    | inr d => ∃ x, sees s u id x ∧ process_ok u id x d s s'
    | inl e => s' = s ∧ (read_error s u id e
                 ∨ ∃ j, live_job s u id = Some j ∧ startable j
                        ∧ objects s !! audio_of u id j = None
                        ∧ e = BadRequestException (js "Audio has not been uploaded yet."))
               ∨ f = true ∧ infra e ∧ process_stuck u id s s'
    end).
Proof.
  unfold process. wp_apply requireOwned_spec. intros [e|x] s1 [-> H]; [left; by auto|].
  pose proof H as (Hid & Hl & Hr). case_bool_decide as Hready.
  { eapply wp_mono; [apply show_spec|]. intros [e|d] s' Hd.
    - left. destruct Hd as [-> Hd]. split; [done|]. by left; left.
    - exists x. split; [done|]. by left. }
  destruct (in_flight _) eqn:Hfl; [simpl; exists x; split; [done|]; right; by left|].
  assert (startable (jwr_job x)) as Hst by done.
  fold (audio_of u id (jwr_job x)). wp_apply MediaService.objectExists_spec.
  intros [e|b] s1 [-> Hb]; [left; split; [done|]; left; by left|].
  destruct b; wp_simpl.
  2:{ left. split; [done|]. right. exists (jwr_job x). split_and!; try done.
      symmetry in Hb. apply bool_decide_eq_false in Hb. by apply eq_None_not_Some. }
  symmetry in Hb. apply bool_decide_eq_true in Hb.
  apply wp_seq with (λ r s1, match r with
    | inr _ => ∃ t, (clock s ≤ t)%Z ∧ s1 = started id t (jwr_job x) s
    | inl e => s1 = s ∧ f = true ∧ infra e end).
  { eapply wp_mono; [apply update_by_id_spec|]. intros [e|[]] s1 Hs1.
    - destruct Hs1 as [-> [[? ?]|[Hn _]]]; [done|].
      apply live_job_Some in Hl as [Hj _]. congruence.
    - destruct Hs1 as (j & t & Hj & Ht & ->). apply live_job_Some in Hl as [Hj' _].
      rewrite Hj in Hj'. injection Hj' as <-. by exists t. }
  { intros e s1 (-> & Hf & He). left. split; [done|]. left. by left. }
  intros _ s1 (t & Ht & ->). pose proof (live_started _ _ _ _ t Hl) as Hlive.
  wp_apply (ProcessingQueue.enqueueProcessing_spec cfg f). intros [e|[]] s2 Hq.
  { right. destruct Hq as (Hf & He & Hq). split_and!; [done|done|]. exists (jwr_job x), t.
    split_and!; try done. destruct Hq as [->| ->]; auto. }
  subst s2. wp_apply findScoped_spec. intros [e|o] s3 [-> Ho].
  { right. destruct Ho as (Hf & He). split_and!; [done|done|]. exists (jwr_job x), t.
    split_and!; try done. by auto. }
  wp_simpl. exists x. split; [done|]. right. right. split_and!; [done|done|].
  destruct o as [y|]; [|change (live_job (started id t (jwr_job x) s) u id = None) in Ho; congruence].
  destruct Ho as (Hyid & Hyl & Hyr). exists t, (jwr_sections y). split_and!; [done|exact Hyr| |done].
  change (live_job (started id t (jwr_job x) s) u id = Some (jwr_job y)) in Hyl.
  rewrite Hlive in Hyl. injection Hyl as Hyl. rewrite Hyl. destruct y. simpl in *. by subst.
Qed.

(** ** Deleting a job *)

Definition deleted_job (now t : Z) (j : Job) : Job :=
  apply_data (mkJobData None None None None None None (Some now)) t j.
Definition deleted (id : jstr) (now t : Z) (j : Job) (s : Store) : Store :=
  with_clock t (with_jobs (<[id := deleted_job now t j]> (jobs s)) s).

Definition without_objects (keys : Datatypes.list jstr) (s : Store) : Store :=
  with_objects (filter (λ p, p.1 ∉ filter (λ k, 0 < length k) keys) (objects s)) s.

Lemma remove_spec u id s :
  wp (remove u id) s (λ r s',
    match r with
    | inr _ => ∃ j now t, live_job s u id = Some j ∧ (clock s ≤ now ≤ t)%Z
        ∧ (s' = without_objects (job_object_keys j) (deleted id now t j s)
           ∨ s' = deleted id now t j s ∧ (f = true ∨ job_object_keys j = []))
    | inl e => untouched s s' ∧ read_error s u id e
    end).
Proof.
  unfold remove. wp_apply requireOwned_spec. intros [e|x] s1 [-> H].
  { split; [apply untouched_refl|done]. }
  destruct H as (_ & Hl & _). wp_apply softDeleteScoped_spec. intros [e|n] s1 (now & Hnow & Hr).
  { destruct Hr as (-> & Hf & He). split; [by exists now|by left]. }
  destruct Hr as [(t & Ht & ->) ->]. rewrite Hl. wp_simpl. rewrite bool_decide_false by done.
  assert (update_live (with_clock now s) u id
            (apply_data (mkJobData None None None None None None (Some now)) t)
          = <[id := deleted_job now t (jwr_job x)]> (jobs s)) as ->.
  { rewrite update_live_clock. unfold update_live. by rewrite Hl. }
  simpl in Ht. wp_apply MediaService.deleteObjects_spec. intros [e|[]] s2 Hs2.
  - destruct Hs2 as (-> & Hf & He). simpl. exists (jwr_job x), now, t.
    split_and!; [done|lia|lia|]. right. by auto.
  - exists (jwr_job x), now, t. split_and!; [done|lia|lia|].
    destruct Hs2 as [[-> Hk]| ->]; [|by left]. right. split; [done|]. right.
    unfold job_object_keys in *. clear -Hk.
    assert (∀ o k, truthy_opt o = Some k → 0 < length k) as Ht.
    { intros [[|c k]|] k' [= <-]. simpl. lia. }
    rewrite <- (list_filter_all (λ k, 0 < length k) (omap _ _)); [done|].
    apply Forall_forall. intros k (o & _ & Ho)%list_elem_of_omap. by eapply Ht.
Qed.
End Specs.
