(* ===== verification/Tenancy.v ===== *)
(** * Tenant isolation and data integrity of the jobs API

    The invariant of the job tables, the effect one user's requests may have,
    and the proof that every request of the controller stays within both. *)
From S2P Require Import Prelude Json Program Schema Services Memory JsDate Report Config Media Queue JobsRepository Dto JobsService.

(** ** The invariant *)

(** Keys point below the owner's own prefix. *)
Definition own_keys (id : jstr) (j : Job) : Prop :=
  (job_audioKey j = None ∨ job_audioKey j = Some (MediaService.audioKey (job_userId j) id))
  ∧ (job_pdfKey j = None ∨ job_pdfKey j = Some (MediaService.pdfKey (job_userId j) id)).

(** What the columns of a job say together: a READY job has its PDF and no error, a
    FAILED one a message that fits its column, and a transcript is never blank. *)
Definition typed_job (id : jstr) (j : Job) : Prop :=
  match job_status j with
  | READY => job_pdfKey j = Some (MediaService.pdfKey (job_userId j) id) ∧ job_errorMessage j = None
  | FAILED => ∃ m, job_errorMessage j = Some m ∧ length m ≤ 1000
  | _ => True
  end
  ∧ match job_transcript j with Some t => trim t = t ∧ t ≠ [] | None => True end.

(** Updates that keep it so. *)
Definition typed_data (d : JobData) : Prop :=
  match data_status d with
  | Some READY => data_errorMessage d = Some None ∧ is_Some (data_pdfKey d)
  | Some FAILED => ∃ m, data_errorMessage d = Some (Some m) ∧ length m ≤ 1000
  | Some _ => True
  | None => data_errorMessage d = None
  end
  ∧ match data_transcript d with Some t => trim t = t ∧ t ≠ [] | None => True end.

Lemma typed_update id d t j :
  typed_job id j → typed_data d →
  data_pdfKey d = None ∨ data_pdfKey d = Some (MediaService.pdfKey (job_userId j) id) →
  typed_job id (apply_data d t j).
Proof.
  intros [Hs Ht] [Hds Hdt] Hp. unfold typed_job. simpl. split.
  - destruct (data_status d) as [st|]; simpl.
    + destruct st; try done.
      * destruct Hds as [-> [k Hk]]. destruct Hp as [Hp| ->]; [congruence|done].
      * destruct Hds as (m & -> & Hm). by exists m.
    + rewrite Hds. simpl. destruct (job_status j); try done. destruct Hs as [Hs ->]. by destruct Hp as [->| ->].
  - by destruct (data_transcript d).
Qed.

(** The sort orders leave one way to read a report. *)
Definition unambiguous (s : Store) : Prop := ∀ id t t', report_of s id t → report_of s id t' → t = t'.

Record integrity (s : Store) : Prop := {
  section_ids_unique : consistent s;
  keys_own : ∀ id j, jobs s !! id = Some j → own_keys id j;
  idempotency_unique : ∀ id id' j j' k,
    jobs s !! id = Some j → jobs s !! id' = Some j' → job_userId j = job_userId j' →
    job_idempotencyKey j = Some k → job_idempotencyKey j' = Some k → id = id';
  reports_unambiguous : unambiguous s;
  sections_belong : ∀ x, x ∈ reportSections s → is_Some (jobs s !! section_jobId x);
  jobs_typed : ∀ id j, jobs s !! id = Some j → typed_job id j;
}.

(** ** The effect of a user's requests *)
Definition own_key (u k : jstr) : Prop :=
  ∃ id, k = MediaService.audioKey u id ∨ k = MediaService.pdfKey u id.

Record tenant (u : jstr) (s s' : Store) : Prop := {
  tenant_jobs : ∀ id j, jobs s !! id = Some j → job_userId j ≠ u → jobs s' !! id = Some j;
  tenant_owner : ∀ id j, jobs s !! id = Some j →
    ∃ j', jobs s' !! id = Some j' ∧ job_userId j' = job_userId j
          ∧ (job_deletedAt j ≠ None → job_deletedAt j' ≠ None);
  tenant_new : ∀ id j, jobs s' !! id = Some j → job_userId j ≠ u → jobs s !! id = Some j;
  tenant_reports : ∀ id j t, jobs s !! id = Some j → job_userId j ≠ u →
    report_of s' id t ↔ report_of s id t;
  tenant_objects : ∀ k, ¬ own_key u k → objects s' !! k = objects s !! k;
  tenant_queue : ∀ id j, jobs s !! id = Some j → job_userId j ≠ u → queue s' !! id = queue s !! id;
  tenant_presigned : ∃ new, presigned s' = presigned s ++ new
                            ∧ Forall (λ p, own_key u (presigned_key p)) new;
  tenant_users : users s' = users s ∧ refreshTokens s' = refreshTokens s;
}.

(** One request keeps the invariant and the isolation. *)
Definition tenant_step (u : jstr) (s s' : Store) : Prop := integrity s → integrity s' ∧ tenant u s s'.

Section Steps.
Context (u : jstr).

#[local] Instance tenant_step_refl : Reflexive (tenant_step u).
Proof.
  intros s Hi. split; [done|]. split; try done; [by eauto|].
  exists []. by rewrite app_nil_r.
Qed.

#[local] Instance tenant_trans : Transitive (tenant u).
Proof.
  intros s1 s2 s3 [J1 O1 N1 R1 B1 Q1 (n1 & P1 & F1) [U1 T1]] [J2 O2 N2 R2 B2 Q2 (n2 & P2 & F2) [U2 T2]]. split.
  - eauto.
  - intros id j Hj. destruct (O1 _ _ Hj) as (j' & Hj' & Hu & Hd). destruct (O2 _ _ Hj') as (j'' & ? & ? & ?).
    exists j''. split_and!; [done|congruence|auto].
  - eauto.
  - intros id j t Hj Hne. rewrite (R2 id j t) by eauto. by eapply R1.
  - intros k Hk. rewrite B2 by done. by apply B1.
  - intros id j Hj Hne. rewrite (Q2 id j) by eauto. by eapply Q1.
  - exists (n1 ++ n2). rewrite P2, P1, app_assoc. split; [done|]. by apply Forall_app.
  - split; congruence.
Qed.

#[local] Instance tenant_step_trans : Transitive (tenant_step u).
Proof.
  intros s1 s2 s3 H12 H23 Hi. destruct (H12 Hi) as [Hi2 Ht]. destruct (H23 Hi2) as [Hi3 Ht'].
  split; [done|]. by etrans.
Qed.

(** The steps the operations are made of. *)

Lemma tenant_clock t s : tenant_step u s (with_clock t s).
Proof.
  intros [Hc Hk Hu Ha Hb Hty]. split; [by split|]. split; try done; [by eauto|].
  exists []. by rewrite app_nil_r.
Qed.

Lemma tenant_untouched s s' : untouched s s' → tenant_step u s s'.
Proof. intros (t & _ & ->). apply tenant_clock. Qed.

Lemma tenant_issued p s : own_key u (presigned_key p) → tenant_step u s (MediaService.issued p s).
Proof.
  intros Hp [Hc Hk Hu Ha Hb Hty]. split; [by split|]. split; try done; [by eauto|].
  exists [p]. split; [done|]. by constructor.
Qed.

(** Writing a row of the user's own. *)
Lemma tenant_put_job id j' t s :
  job_userId j' = u → own_keys id j' → typed_job id j' →
  (∀ j, jobs s !! id = Some j → job_userId j = u ∧ (job_deletedAt j ≠ None → job_deletedAt j' ≠ None)) →
  (∀ k i x, job_idempotencyKey j' = Some k → jobs s !! i = Some x → job_userId x = u →
     job_idempotencyKey x = Some k → i = id) →
  tenant_step u s (with_clock t (with_jobs (<[id := j']> (jobs s)) s)).
Proof.
  intros Hu' Hk' Ht' Hown Huniq [Hc Hk Hu Ha Hb Hty].
  assert (∀ i j, <[id := j']> (jobs s) !! i = Some j →
            i = id ∧ j = j' ∨ jobs s !! i = Some j) as Hlk.
  { intros i j [[<- <-]|[_ ?]]%lookup_insert_Some; auto. }
  split; [split; [done| | |done| |]|split; try done].
  - intros i j [[-> ->]|Hj]%Hlk; [done|by apply Hk].
  - intros i i' j1 j2 k [[-> ->]|H1]%Hlk [[-> ->]|H2]%Hlk Hju Hk1 Hk2; [done| | |by eapply Hu].
    + symmetry. eapply Huniq; [exact Hk1|exact H2|congruence|done].
    + eapply Huniq; [exact Hk2|exact H1|congruence|done].
  - intros x Hx. destruct (Hb x Hx) as [j Hj]. simpl. destruct (decide (section_jobId x = id)) as [->|Hne].
    + exists j'. by rewrite lookup_insert_eq.
    + exists j. by rewrite lookup_insert_ne.
  - intros i j [[-> ->]|Hj]%Hlk; [done|by apply Hty].
  - intros i j Hj Hne. simpl. rewrite lookup_insert_ne; [done|]. intros <-. by apply Hne, Hown.
  - intros i j Hj. simpl. destruct (decide (i = id)) as [->|Hne].
    + exists j'. rewrite lookup_insert_eq. destruct (Hown _ Hj). split_and!; [done|congruence|done].
    + exists j. by rewrite lookup_insert_ne.
  - intros i j [[-> ->]|?]%Hlk Hne; done.
  - exists []. by rewrite app_nil_r.
Qed.

(** Updating the user's own row, whose PDF key can only become its own. *)
Lemma tenant_row id d t j s :
  jobs s !! id = Some j → job_userId j = u → typed_data d →
  data_pdfKey d = None ∨ data_pdfKey d = Some (MediaService.pdfKey u id) →
  tenant_step u s (with_clock t (with_jobs (<[id := apply_data d t j]> (jobs s)) s)).
Proof.
  intros Hj Hu Htd Hd Hi. pose proof Hi as [Hc Hk Huq _ _ Hty].
  revert Hi. apply tenant_put_job; [done| |by apply typed_update; [apply Hty| |rewrite Hu]| |].
  - destruct (Hk _ _ Hj) as [Ha Hp]. unfold own_keys. simpl. destruct Hd as [->| ->]; [done|].
    rewrite Hu in *. split; [done|by right].
  - intros j0 Hj0. rewrite Hj in Hj0. injection Hj0 as <-. split; [done|]. simpl. by destruct (data_deletedAt d).
  - simpl. intros k i x Hkj Hx Hux Hkx. eapply Huq; [exact Hx|exact Hj|congruence|done..].
Qed.

Lemma tenant_update id d t j s :
  live_job s u id = Some j → typed_data d → data_pdfKey d = None →
  tenant_step u s (with_clock t (with_jobs (<[id := apply_data d t j]> (jobs s)) s)).
Proof. intros (Hj & Hu & _)%live_job_Some Ht Hd. apply tenant_row; auto. Qed.

Lemma tenant_queue_put id q s :
  (∀ j, jobs s !! id = Some j → job_userId j = u) →
  (∀ i, i ≠ id → q !! i = queue s !! i) → tenant_step u s (with_queue q s).
Proof.
  intros Hown Hq [Hc Hk Hu Ha Hb Hty]. split; [by split|]. split; try done; [by eauto| |].
  - intros i j Hj Hne. apply Hq. intros ->. by apply Hne, Hown.
  - exists []. by rewrite app_nil_r.
Qed.

Lemma tenant_objects_put o s :
  (∀ k, ¬ own_key u k → o !! k = objects s !! k) → tenant_step u s (with_objects o s).
Proof.
  intros Ho [Hc Hk Hu Ha Hb Hty]. split; [by split|]. split; try done; [by eauto|].
  exists []. by rewrite app_nil_r.
Qed.

Lemma stored_consistent jobId ps t bs bf s :
  NoDup (section_id <$> bs) → stored jobId ps t bs bf s → consistent s.
Proof.
  intros Hnd [_ Hs _ _ Hnt Hap]. unfold consistent. rewrite Hs, fmap_app. apply NoDup_app.
  split_and!; [done| |done]. intros i Hi Hit. apply list_elem_of_fmap in Hi as (x & -> & Hx).
  apply list_elem_of_fmap in Hit as (y' & Heq & Hy).
  apply list_elem_of_fmap in Hy as (y & -> & Hy). by eapply Hap.
Qed.

Lemma sublist_fmap_filter_nodup {A B} (g : A → B) (P : A → Prop) `{!∀ x, Decision (P x)} (l : list A) :
  NoDup (g <$> l) → NoDup (g <$> filter P l).
Proof.
  intros Hnd. eapply sublist_NoDup; [exact Hnd|]. by apply fmap_sublist, sublist_filter.
Qed.

Lemma replaced_unambiguous id sections s s' :
  consistent s → replaced id sections s s' → unambiguous s → unambiguous s'.
Proof.
  intros Hc Hr Ha i t t' Ht Ht'. destruct (decide (i = id)) as [->|Hne].
  - destruct Hr as [tr Hst].
    assert (Forall (λ x, section_jobId x ≠ id) (other_sections id s)) as Hbs.
    { apply Forall_forall. intros y Hy. by apply list_elem_of_filter in Hy as [? _]. }
    rewrite (stored_report _ _ _ _ _ _ t Hst Hbs Ht). symmetry. by eapply stored_report.
  - apply (Ha i); by apply (replaced_other id sections s s').
Qed.

(** The sections of a replaced report belong to its job, the others to theirs. *)
Lemma replaced_belong id sections s s' x :
  replaced id sections s s' → x ∈ reportSections s' → section_jobId x = id ∨ x ∈ reportSections s.
Proof.
  intros [t [Hr Hs _ _ _ _]] Hx. rewrite Hs in Hx. apply elem_of_app in Hx as [Hx|Hx].
  - right. by apply list_elem_of_filter in Hx as [_ ?].
  - left. apply list_elem_of_fmap in Hx as (y & -> & Hy). apply list_elem_of_lookup in Hy as [i Hi].
    destruct (Forall2_lookup_r _ _ _ _ _ Hr Hi) as (p & _ & Hp). apply Hp.
Qed.

(** Replacing the report of the user's own job. *)
Lemma tenant_replaced id sections s s' j :
  replaced id sections s s' → report_frame s s' →
  jobs s !! id = Some j → job_userId j = u → tenant_step u s s'.
Proof.
  intros Hr Hfr Hown Hju [Hc Hk Hu Ha Hb Hty].
  assert (jobs s' = jobs s ∧ objects s' = objects s ∧ queue s' = queue s ∧ presigned s' = presigned s
          ∧ users s' = users s ∧ refreshTokens s' = refreshTokens s) as (Hj & Ho & Hq & Hp & Hus & Ht).
  { by rewrite Hfr. }
  split; [split|split]; rewrite ?Hj, ?Ho, ?Hq, ?Hp; try done.
  - destruct Hr as [t Hst]. eapply stored_consistent; [|exact Hst].
    by apply sublist_fmap_filter_nodup.
  - by eapply replaced_unambiguous.
  - intros x Hx. apply (replaced_belong id sections s) in Hx as [->|Hx]; [by exists j|by apply Hb|done].
  - by eauto.
  - intros i j' t Hij Hne. apply (replaced_other id sections); [done..|].
    intros ->. apply Hne. congruence.
  - exists []. by rewrite app_nil_r.
Qed.
End Steps.

#[export] Existing Instance tenant_step_refl.
#[export] Existing Instance tenant_step_trans.
#[export] Existing Instance tenant_trans.

(** The jobs a response shows. *)
Definition response_ids (r : JobsController.Response) : list jstr :=
  match r with
  | JobsController.JobPage p => dto_id <$> items p
  | JobsController.JobCreated r => [dto_id (cr_job r)]
  | JobsController.JobShown d => [dto_id d]
  | _ => []
  end.
Definition own_response (u : jstr) (s : Store) (r : JobsController.Response) : Prop :=
  Forall (λ id, is_Some (live_job s u id)) (response_ids r).

(** ** Every request is such a step *)
Section Requests.
Context `{Cr : Crypto} (cfg : AppConfig) (f : bool) (u : jstr).
Abbreviation wp := (wp (eff_contract f)).

Lemma own_pdf_key s id j key :
  integrity s → live_job s u id = Some j → pdf_ready j = Some key → own_key u key.
Proof.
  intros Hi (Hj & Hu & _)%live_job_Some Hp. destruct (keys_own _ Hi _ _ Hj) as [_ Hk].
  unfold pdf_ready in Hp. destruct (job_status j); try done.
  destruct Hk as [Hk|Hk]; rewrite Hk in Hp; [done|]. simpl in Hp.
  exists id. right. rewrite <- Hu. by injection Hp.
Qed.

Lemma own_put_url url id : own_key u (presigned_key (put_url cfg url u id)).
Proof. exists id. by left. Qed.

Lemma tenant_shown id x d s s' :
  sees s u id x → shown cfg x d s s' → tenant_step u s s' ∧ live_job s' u id = live_job s u id ∧ dto_id d = id.
Proof.
  intros (Hid & Hl & _) Hs. unfold shown in Hs. destruct (pdf_ready (jwr_job x)) as [key|] eqn:Hp.
  - destruct Hs as (url & -> & ->). split_and!; [|done|done]. intros Hi.
    revert Hi. intros Hi. apply tenant_issued; [|done]. by eapply own_pdf_key.
  - destruct Hs as [-> ->]. by split_and!.
Qed.

Lemma tenant_create dto key s :
  wp (JobsService.create cfg u dto key) s (λ r s', tenant_step u s s' ∧
    ∀ x, r = inr x → own_response u s' (JobsController.JobCreated x)).
Proof.
  assert (∀ id t, jobs s !! id = None →
     ¬ duplicate_job s (draft_data u id (cj_label dto) key) → tenant_step u s (drafted u id (cj_label dto) key t s)) as Hnew.
  { intros id t Hn Hd. apply tenant_put_job.
    - done.
    - split; simpl; auto.
    - done.
    - intros j Hj. congruence.
    - intros k i x Hk Hx Hux Hkx. exfalso. apply Hd. right. by exists k, i, x. }
  eapply wp_mono; [apply create_spec|]. intros [e|resp] s' Hr.
  - split; [|done]. destruct Hr as [[-> _]|(_ & _ & _ & id & t & Hn & Hd & _ & ->)]; [done|by auto].
  - assert (tenant_step u s s' ∧ is_Some (live_job s' u (dto_id (cr_job resp)))) as [Ht Hl].
    { destruct Hr as [(k & _ & x & url & Hx & _ & -> & ->)|[_ (id & t & secs & url & Hn & Hd & _ & _ & -> & ->)]].
      - split; [by apply tenant_issued, own_put_url|]. exists (jwr_job x). apply Hx.
      - split; [etrans; [by apply Hnew|by apply tenant_issued, own_put_url]|].
        eexists. apply live_job_Some. simpl. rewrite lookup_insert_eq. by split_and!. }
    split; [done|]. intros x [= <-]. by repeat constructor.
Qed.

Lemma tenant_findOne id s :
  wp (JobsService.findOne cfg u id) s (λ r s', tenant_step u s s' ∧
    ∀ d, r = inr d → own_response u s' (JobsController.JobShown d)).
Proof.
  eapply wp_mono; [apply findOne_spec|]. intros [e|d] s' Hr; [by destruct Hr as [-> _]|].
  destruct Hr as (x & Hx & Hs). destruct (tenant_shown _ _ _ _ _ Hx Hs) as (Ht & Hl & Hd).
  split; [done|]. intros ? [= <-]. constructor; [|done]. rewrite Hd, Hl. exists (jwr_job x). apply Hx.
Qed.

Lemma tenant_replaced_scoped id label sections j s s1 :
  live_job s u id = Some j → replaced_scoped id label sections j s s1 → tenant_step u s s1.
Proof.
  intros Hl (_ & now & t & _ & Hr & Heq). pose proof Hl as (Hj & Hu & _)%live_job_Some.
  etrans; [by apply (tenant_update u id (mkJobData (JobsRepository.label_data label) None None None None
                       (Some now) None) t j)|].
  eapply (tenant_replaced u id sections); [|done|simpl; apply lookup_insert_eq|done].
  destruct Hr as [tr [R1 R2 R3 R4 R5 R6]]. exists tr. by split.
Qed.

Lemma tenant_update_live id d t s :
  typed_data d → data_pdfKey d = None → tenant_step u s (with_clock t (with_jobs (update_live s u id (apply_data d t)) s)).
Proof.
  intros Ht Hd. unfold update_live. destruct (live_job s u id) as [j|] eqn:Hl; [by apply tenant_update|].
  replace (with_jobs (jobs s) s) with s by (by destruct s). apply tenant_clock.
Qed.

Lemma tenant_edited id dto j s s1 :
  live_job s u id = Some j → edited u id dto j s s1 → tenant_step u s s1.
Proof.
  intros Hl He. unfold edited in He.
  destruct (uj_sections dto), (uj_label dto) as [| |l]; try done;
    try (by eapply tenant_replaced_scoped); [by subst s1|].
  destruct He as (t & _ & ->). by apply tenant_update_live.
Qed.

Lemma tenant_update_job id dto s :
  wp (JobsService.update cfg u id dto) s (λ r s', tenant_step u s s' ∧
    ∀ d, r = inr d → own_response u s' (JobsController.JobShown d)).
Proof.
  eapply wp_mono; [apply update_spec|]. intros [e|d] s'.
  - intros [[Ht _]|(_ & _ & j & Hl & He)]; (split; [|done]); [by apply tenant_untouched|].
    by eapply tenant_edited.
  - intros (j & s1 & x & Hl & He & Hx & Hs).
    destruct (tenant_shown _ _ _ _ _ Hx Hs) as (Ht & Hl' & Hd). split.
    + etrans; [by eapply tenant_edited|done].
    + intros ? [= <-]. constructor; [|done]. rewrite Hd, Hl'. exists (jwr_job x). apply Hx.
Qed.

Lemma tenant_enqueued id j s t :
  live_job s u id = Some j →
  tenant_step u s (started id t j s)
  ∧ ∀ q, (∀ i, i ≠ id → q !! i = queue s !! i) → tenant_step u s (with_queue q (started id t j s)).
Proof.
  intros Hl. assert (tenant_step u s (started id t j s)) as H1 by (by apply tenant_update).
  split; [done|]. intros q Hq. etrans; [exact H1|]. apply (tenant_queue_put u id); [|exact Hq].
  intros j0. simpl. rewrite lookup_insert_eq. intros [= <-]. by apply live_job_Some in Hl as (_ & ? & _).
Qed.

Lemma enqueued_other data s i :
  i ≠ data_jobId data → ProcessingQueue.enqueued cfg data s !! i = queue s !! i.
Proof.
  intros Hne. unfold ProcessingQueue.enqueued. repeat case_match; by rewrite ?lookup_insert_ne.
Qed.

Lemma tenant_process id s :
  wp (JobsService.process cfg u id) s (λ r s', tenant_step u s s' ∧
    ∀ d, r = inr d → own_response u s' (JobsController.JobShown d)).
Proof.
  assert (∀ s' d, is_Some (live_job s' u (dto_id d)) →
            ∀ d', (inr d : exn + JobDto) = inr d' → own_response u s' (JobsController.JobShown d')) as Hown.
  { intros s' d Hd ? [= <-]. by repeat constructor. }
  eapply wp_mono; [apply process_spec|]. intros [e|d] s'.
  - intros [[-> _]|(_ & _ & j & t & Hl & _ & _ & Hs)]; (split; [|done]); [done|].
    destruct (tenant_enqueued id j s t Hl) as [H1 H2]. simpl in Hs.
    destruct Hs as [->|[->| ->]]; [done| |]; apply H2; intros i Hi.
    + by rewrite lookup_delete_ne.
    + by apply enqueued_other.
  - intros (x & Hx & [[_ Hs]|[(_ & -> & ->)|(_ & _ & t & secs & _ & _ & -> & ->)]]).
    + destruct (tenant_shown _ _ _ _ _ Hx Hs) as (Ht & Hl & Hd). split; [done|].
      apply Hown. rewrite Hd, Hl. exists (jwr_job x). apply Hx.
    + split; [done|]. apply Hown. exists (jwr_job x). simpl. destruct Hx as (-> & ? & _). done.
    + destruct Hx as (_ & Hl & _). destruct (tenant_enqueued id (jwr_job x) s t Hl) as [_ H2]. split.
      * apply H2. intros i Hi. by apply enqueued_other.
      * apply Hown. exists (started_job t (jwr_job x)). by apply (live_started s u id).
Qed.

Lemma object_keys_own id j s k :
  integrity s → live_job s u id = Some j → k ∈ JobsService.job_object_keys j → own_key u k.
Proof.
  intros Hi (Hj & Hu & _)%live_job_Some Hk. destruct (keys_own _ Hi _ _ Hj) as [Ha Hp].
  unfold JobsService.job_object_keys in Hk. exists id. rewrite <- Hu.
  apply list_elem_of_omap in Hk as (o & Ho & Hk).
  apply elem_of_cons in Ho as [->|Ho]; [left|right].
  - destruct Ha as [Ha|Ha]; rewrite Ha in Hk; simplify_eq/=; done.
  - apply list_elem_of_singleton in Ho as ->. destruct Hp as [Hp|Hp]; rewrite Hp in Hk; simplify_eq/=; done.
Qed.

Lemma filter_notin_lookup {V} (m : gmap jstr V) (ks : list jstr) k :
  k ∉ ks → filter (λ p, p.1 ∉ ks) m !! k = m !! k.
Proof.
  intros Hk. destruct (m !! k) as [v|] eqn:Hv.
  - by apply map_lookup_filter_Some.
  - apply map_lookup_filter_None. by left.
Qed.

Lemma tenant_remove id s : wp (JobsService.remove u id) s (λ r s', tenant_step u s s').
Proof.
  eapply wp_mono; [apply remove_spec|]. intros [e|[]] s'.
  - intros [Ht _]. by apply tenant_untouched.
  - intros (j & now & t & Hl & _ & Hs).
    assert (tenant_step u s (deleted id now t j s)) as H1 by (by apply tenant_update).
    destruct Hs as [->|[-> _]]; [|done]. intros Hi.
    apply (tenant_step_trans u _ _ _ H1); [|exact Hi]. apply tenant_objects_put. intros k Hk. apply filter_notin_lookup.
    intros (_ & Hin)%list_elem_of_filter. by apply Hk, (object_keys_own id j s).
Qed.

Lemma tenant_getPdfUrl id s : wp (JobsService.getPdfUrl cfg u id) s (λ r s', tenant_step u s s').
Proof.
  eapply wp_mono; [apply getPdfUrl_spec|]. intros [e|d] s'; [by intros [-> _]|].
  intros (j & key & Hl & Hp & _ & ->) Hi. apply tenant_issued; [by eapply own_pdf_key|done].
Qed.

Lemma page_of_elem {A} (full : list (jstr * A)) n c rows p : page_of full n c rows → p ∈ rows → p ∈ full.
Proof.
  unfold page_of. intros Hp Hin. destruct c as [c|].
  - destruct (list_find _ full) as [[k q]|].
    + subst rows. apply elem_of_take in Hin as (i & Hi & _). rewrite lookup_drop in Hi.
      by eapply list_elem_of_lookup_2.
    + destruct Hp as [Hs _]. eapply sublist_subseteq; [exact Hs|done].
  - subst rows. apply elem_of_take in Hin as (i & Hi & _). by eapply list_elem_of_lookup_2.
Qed.

Lemma tenant_list c n s :
  wp (JobsService.list u c n) s (λ r s', tenant_step u s s' ∧
    ∀ p, r = inr p → own_response u s' (JobsController.JobPage p)).
Proof.
  eapply wp_mono; [apply list_spec|]. intros r s' [-> Hr]. split; [done|].
  destruct r as [e|p]; [done|]. intros ? [= <-]. destruct Hr as (full & rows & Hf & Hp & _ & Hit & _).
  unfold own_response. simpl. rewrite Hit. apply Forall_fmap, Forall_fmap, Forall_forall. intros x Hx. simpl.
  exists (jwr_job x). apply Hf. eapply page_of_elem; [exact Hp|].
  apply (list_elem_of_fmap_2 (λ x, (jwr_id x, jwr_job x))) in Hx. done.
Qed.

Lemma tenant_serve req s :
  wp (JobsController.serve cfg u req) s (λ r s', tenant_step u s s' ∧
    ∀ x, r = inr x → own_response u s' x).
Proof.
  assert (∀ {A} (p : prog eff A) (g : A → JobsController.Response),
    wp p s (λ r s', tenant_step u s s' ∧ ∀ x, r = inr x → own_response u s' (g x)) →
    wp (x <- p;; Ret (g x)) s (λ r s', tenant_step u s s' ∧ ∀ x, r = inr x → own_response u s' x)) as Hg.
  { intros A p g Hp. apply wp_bind. eapply wp_mono; [exact Hp|].
    intros [e|x] s' [Ht Hx]; (split; [done|]); [done|]. intros ? [= <-]. by apply Hx. }
  assert (∀ {A} (p : prog eff A) (g : A → JobsController.Response), (∀ x, response_ids (g x) = []) →
    wp p s (λ r s', tenant_step u s s') →
    wp (x <- p;; Ret (g x)) s (λ r s', tenant_step u s s' ∧ ∀ x, r = inr x → own_response u s' x)) as Hn.
  { intros A p g Hids Hp. apply Hg. eapply wp_mono; [exact Hp|]. intros r s' Ht. split; [done|].
    intros x _. unfold own_response. by rewrite Hids. }
  destruct req; cbn [JobsController.serve].
  - apply Hg, tenant_list.
  - apply Hg, tenant_create.
  - apply Hg, tenant_findOne.
  - apply Hg, tenant_update_job.
  - apply Hg, tenant_process.
  - apply Hn; [done|apply tenant_getPdfUrl].
  - apply (Hn _ _ (λ _, JobsController.NoContent)); [done|apply tenant_remove].
Qed.
End Requests.

(** Tenant isolation.  Whatever request a user sends, on any services and in
    any outcome, the integrity of the tables is kept (unique section ids, sections
    that belong to a job, one way to read a report, object keys below the owner's
    prefix, one job per user and idempotency key, columns that agree); every
    other user's jobs, reports, queue entries and objects are as before, and none
    is made in another user's name; every URL issued is for a key of the user's
    own; and every job in the response is a live job of that user. *)
Theorem api_isolates_tenants `{Hs : Services} cfg u req w :
  integrity (view w) →
  ensures (JobsController.serve cfg u req) w (λ r s',
    integrity s' ∧ tenant u (view w) s' ∧ ∀ resp, r = inr resp → own_response u s' resp).
Proof.
  intros Hi. apply ensures_wp. eapply wp_mono; [apply tenant_serve|].
  intros r s' [Ht Hr]. destruct (Ht Hi). auto.
Qed.

(** Tables without reports. *)
Lemma no_reports s : reportSections s = [] →
  consistent s ∧ unambiguous s ∧ ∀ x, x ∈ reportSections s → is_Some (jobs s !! section_jobId x).
Proof.
  intros Hs. assert (∀ id t, report_of s id t → t = []) as Ht.
  { intros id t (Hp & _). rewrite Hs in Hp. by apply Permutation_nil_r, fmap_nil_inv in Hp. }
  split_and!; [unfold consistent; rewrite Hs; apply NoDup_nil_2| |rewrite Hs; by intros x ?%not_elem_of_nil].
  intros id t t' H H'. by rewrite (Ht id t H), (Ht id t' H').
Qed.

(** Two users with a job each. *)
Definition draft (u id : string) : Job :=
  created_job (mkJobCreateData (js id) (js u) (js "House") (MediaService.audioKey (js u) (js id)) None CREATED) 7.
Definition two_users : Store :=
  with_users {[js "alice" := mkUser (js "a") None; js "bob" := mkUser (js "b") None]}
    (with_jobs {[js "j1" := draft "alice" "j1"; js "j2" := draft "bob" "j2"]} empty_store).

Lemma two_users_integrity : integrity two_users.
Proof.
  assert (∀ id j, jobs two_users !! id = Some j → own_keys id j ∧ job_idempotencyKey j = None ∧ typed_job id j) as H.
  { intros id j Hj. unfold two_users in Hj. simpl in Hj.
    apply lookup_insert_Some in Hj as [[<- <-]|[_ [<- <-]%lookup_singleton_Some]];
      (split_and!; [split; [by right|by left]|done|by split]). }
  destruct (no_reports two_users eq_refl) as (Hc & Ha & Hb). split; [done| | |done|done|].
  - intros id j Hj. apply (H _ _ Hj).
  - intros id id' j j' k Hj _ _ Hk. destruct (H _ _ Hj) as (_ & ? & _). congruence.
  - intros id j Hj. apply (H _ _ Hj).
Qed.

Lemma api_isolates_tenants_witness :
  ensures (Hs := faulty_memory) (JobsController.serve (config_of prod_parsed) (js "alice") (JobsController.DeleteJob (js "j2")))
    (mkMemory two_users quiet) (λ r s', jobs s' !! js "j2" = Some (draft "bob" "j2")).
Proof.
  pose proof (api_isolates_tenants (Hs := faulty_memory) (config_of prod_parsed) (js "alice") (JobsController.DeleteJob (js "j2"))
                (mkMemory two_users quiet) two_users_integrity) as (_ & Ht & _).
  apply (tenant_jobs _ _ _ Ht); [reflexivity|discriminate].
Defined.
