(* ===== verification/Concurrent.v ===== *)
(** * Requests under interference

    What programs that run concurrently may rely on - the invariant of the
    tables, and that rows keep existing with their owners - and the proof that
    every request of the controller keeps to its user's data at each of its
    calls, whatever runs between them ([rg] of RelyGuarantee.v). *)
From S2P Require Import Prelude Json Program RelyGuarantee Schema Services JsDate Report Config Media Queue JobsRepository Dto JobsService Tenancy.

(** ** Rely, guarantee, invariant *)

Definition owned (u id : jstr) (s : Store) : Prop := ∃ j, jobs s !! id = Some j ∧ job_userId j = u.
Definition gone (u id : jstr) (s : Store) : Prop :=
  ∃ j, jobs s !! id = Some j ∧ job_userId j = u ∧ job_deletedAt j ≠ None.
Definition pdf_at (u id : jstr) (s : Store) : Prop := is_Some (objects s !! MediaService.pdfKey u id).

(** PDFs are removed only after their job was deleted. *)
Definition pdfs_kept (s s' : Store) : Prop :=
  ∀ u id, owned u id s → pdf_at u id s → pdf_at u id s' ∨ gone u id s'.

(** A row that exists stays, with its owner and its deletion mark. *)
Record kept (s s' : Store) : Prop := {
  kept_rows : ∀ id j, jobs s !! id = Some j →
    ∃ j', jobs s' !! id = Some j' ∧ job_userId j' = job_userId j ∧ (job_deletedAt j ≠ None → job_deletedAt j' ≠ None);
  kept_pdfs : pdfs_kept s s';
}.

Lemma owned_kept u id s s' : owned u id s → kept s s' → owned u id s'.
Proof.
  intros (j & Hj & Hu) HR. destruct (kept_rows _ _ HR _ _ Hj) as (j' & Hj' & Hu' & _).
  exists j'. split; [done|congruence].
Qed.

Lemma gone_kept u id s s' : gone u id s → kept s s' → gone u id s'.
Proof.
  intros (j & Hj & Hu & Hd) HR. destruct (kept_rows _ _ HR _ _ Hj) as (j' & Hj' & Hu' & Hd').
  exists j'. split_and!; [done|congruence|auto].
Qed.

#[export] Instance kept_preorder : PreOrder kept.
Proof.
  split.
  - intros s. split; [intros id j Hj; by exists j|by left].
  - intros s1 s2 s3 H12 H23. split.
    + intros id j Hj. destruct (kept_rows _ _ H12 _ _ Hj) as (j2 & Hj2 & Hu2 & Hd2).
      destruct (kept_rows _ _ H23 _ _ Hj2) as (j3 & Hj3 & Hu3 & Hd3). exists j3. split_and!; [done|congruence|auto].
    + intros u id Ho Hp. destruct (kept_pdfs _ _ H12 u id Ho Hp) as [Hp2|Hg]; [|right; by eapply gone_kept].
      apply (kept_pdfs _ _ H23); [by eapply owned_kept|done].
Qed.

(** The queue names every job's owner. *)
Definition queue_owned (s : Store) : Prop :=
  ∀ id b, queue s !! id = Some b → data_jobId (bull_data b) = id ∧ owned (data_userId (bull_data b)) id s.

(** A READY job that was not deleted has its PDF in the store. *)
Definition pdfs_stored (s : Store) : Prop :=
  ∀ id j, jobs s !! id = Some j → job_status j = READY → job_deletedAt j = None → pdf_at (job_userId j) id s.

Record server_inv (s : Store) : Prop := {
  inv_integrity : integrity s;
  inv_queue : queue_owned s;
  inv_pdfs : pdfs_stored s;
  inv_users : ∀ id j, jobs s !! id = Some j → MediaService.slash_free (job_userId j);
}.

(** What a user's code does to the tables. *)
Definition acts (u : jstr) (s s' : Store) : Prop := tenant u s s' ∧ kept s s'.

Lemma acts_kept u s s' : acts u s s' → kept s s'.
Proof. by intros []. Qed.

Lemma live_owned s u id j : live_job s u id = Some j → owned u id s.
Proof. intros (? & ? & _)%live_job_Some. by exists j. Qed.

(** Steps that add no queue entry, remove no PDF of a job that stays, and make no
    job READY. *)
Record calm (s s' : Store) : Prop := {
  calm_queue : ∀ id b, queue s' !! id = Some b → queue s !! id = Some b;
  calm_pdfs : pdfs_kept s s';
  calm_ready : ∀ id j', jobs s' !! id = Some j' → job_status j' = READY → job_deletedAt j' = None →
    ∃ j, jobs s !! id = Some j ∧ job_status j = READY ∧ job_deletedAt j = None;
}.

Lemma calm_same s s' : queue s' = queue s → jobs s' = jobs s → objects s' = objects s → calm s s'.
Proof.
  intros Hq Hj Ho. split.
  - by rewrite Hq.
  - intros u id _. unfold pdf_at. rewrite Ho. by left.
  - rewrite Hj. eauto.
Qed.

Lemma calm_row s s' id j j' :
  queue s' = queue s → objects s' = objects s → jobs s !! id = Some j → jobs s' = <[id := j']> (jobs s) →
  (job_status j' = READY → job_deletedAt j' = None → job_status j = READY ∧ job_deletedAt j = None) → calm s s'.
Proof.
  intros Hq Ho Hj Hjs Hr. split.
  - by rewrite Hq.
  - intros u i _. unfold pdf_at. rewrite Ho. by left.
  - rewrite Hjs. intros i x [[<- <-]|[_ Hx]]%lookup_insert_Some Hs Hd; [exists j|exists x; auto].
    destruct (Hr Hs Hd). auto.
Qed.

Lemma calm_update s id d t j :
  jobs s !! id = Some j → data_status d ≠ Some READY →
  calm s (with_clock t (with_jobs (<[id := apply_data d t j]> (jobs s)) s)).
Proof.
  intros Hj Hd. eapply calm_row; [done|done|exact Hj|done|]. simpl.
  destruct (data_status d); simpl; [congruence|]. intros Hs Hdel. split; [done|]. by destruct (data_deletedAt d).
Qed.

Lemma calm_update_live u s id d t :
  data_status d ≠ Some READY → calm s (with_clock t (with_jobs (update_live s u id (apply_data d t)) s)).
Proof.
  intros Hd. unfold update_live. destruct (live_job s u id) as [j|] eqn:Hl; [|by apply calm_same].
  apply live_job_Some in Hl as [Hj _]. by apply calm_update.
Qed.

Lemma still u s (P : Prop) : P → tenant_step u s s ∧ calm s s ∧ P.
Proof. intros HP. split; [done|]. split; [by apply calm_same|done]. Qed.

(** A verified step from a sequential one. *)
Lemma inv_step u s s' :
  MediaService.slash_free u → server_inv s → tenant_step u s s' → calm s s' → server_inv s' ∧ acts u s s'.
Proof.
  intros Hsl [Hi Hq Hp Hu] Hs [Cq Cp Cr]. destruct (Hs Hi) as [Hi' Ht].
  assert (kept s s') as HR by (split; [apply (tenant_owner _ _ _ Ht)|exact Cp]).
  split; [|done]. split; [done| | |].
  - intros id b Hb. destruct (Hq _ _ (Cq _ _ Hb)) as [Hd Ho]. split; [done|by eapply owned_kept].
  - intros id j' Hj' Hst Hd. destruct (Cr id j' Hj' Hst Hd) as (j & Hj & Hst0 & Hd0).
    destruct (kept_rows _ _ HR _ _ Hj) as (j2 & Hj2 & Hu2 & _). rewrite Hj' in Hj2. injection Hj2 as <-.
    rewrite Hu2. destruct (Cp (job_userId j) id) as [?|(j3 & Hj3 & _ & Hd3)]; [by exists j|by apply Hp|done|congruence].
  - intros id j' Hj'. destruct (decide (job_userId j' = u)) as [->|Hne]; [done|].
    eapply Hu, (tenant_new _ _ _ Ht); done.
Qed.

#[export] Instance tenant_refl u : Reflexive (tenant u).
Proof. intros s. split; try done; [by eauto|]. exists []. by rewrite app_nil_r. Qed.

#[export] Instance acts_refl u : Reflexive (acts u).
Proof. by split. Qed.

(** What a response shows are jobs of the user. *)
Definition owns_response (u : jstr) (x : JobsController.Response) (s : Store) : Prop :=
  Forall (λ id, owned u id s) (response_ids x).

(** ** The repository and the services under interference *)
Section Leaves.
Context `{Cr : Crypto} (f : bool) (u : jstr) (Hu : MediaService.slash_free u).
Abbreviation rg := (rg (eff_contract f) server_inv kept (acts u)).
Abbreviation stable := (stable server_inv kept).

Lemma owned_stable id : stable (owned u id).
Proof. intros s s' Ho HR _. by eapply owned_kept. Qed.
Lemma pure_stable (P : Prop) : stable (λ _, P).
Proof. by intros s s'. Qed.
Lemma stable_and P Q : stable P → stable Q → stable (λ s, P s ∧ Q s).
Proof. intros HP HQ s s' [? ?] HR HI. eauto. Qed.
Lemma stable_forall {A} (P : A → Store → Prop) : (∀ x, stable (P x)) → stable (λ s, ∀ x, P x s).
Proof. intros HP s s' H HR HI x. by eapply HP. Qed.

(** A method of one call, from its sequential specification. *)
Lemma rg_method {A} (p : prog eff A) s0 (Q : exn + A → Store → Prop) :
  single p → (∀ r, stable (Q r)) →
  (∀ s, kept s0 s → server_inv s → wp (eff_contract f) p s (λ r s',
     tenant_step u s s' ∧ calm s s' ∧ Q r s')) →
  rg p s0 Q.
Proof.
  intros Hp Hst Hw. apply rg_single; [done|done|]. intros s HR HI.
  eapply wp_mono; [by apply Hw|]. intros r s' (Hs & Hq & HQ).
  destruct (inv_step u s s' Hu HI Hs Hq). auto.
Qed.

End Leaves.

(** A method of one call that only reads. *)
Lemma rg_read `{Cr : Crypto} f u {A} (p : prog eff A) s0 (Q : exn + A → Store → Prop) :
  single p → (∀ r, stable server_inv kept (Q r)) →
  (∀ s, kept s0 s → server_inv s → wp (eff_contract f) p s (λ r s', s' = s ∧ Q r s)) →
  rg (eff_contract f) server_inv kept (acts u) p s0 Q.
Proof.
  intros Hp Hst Hw. apply rg_single; [done|done|]. intros s HR HI. eapply wp_mono; [by apply Hw|].
  intros r s' [-> HQ]. by split_and!.
Qed.

(** ** Requests *)
Section Requests.
Context `{Cr : Crypto} (cfg : AppConfig) (f : bool) (u : jstr) (Hslash : MediaService.slash_free u).
Abbreviation rg := (rg (eff_contract f) server_inv kept (acts u)).
Abbreviation stable := (stable server_inv kept).

(** A job the code has read as the user's own: these facts do not go stale. *)
Definition mine (id : jstr) (x : JobWithReport) : Prop :=
  jwr_id x = id ∧ job_userId (jwr_job x) = u ∧ own_keys id (jwr_job x).

Lemma sees_mine s id j x :
  server_inv s → jwr_id x = id → live_job s u id = Some j → jwr_job x = j → mine id x ∧ owned u id s.
Proof.
  intros [Hi _] Hid Hl <-. pose proof Hl as (Hj & Hu & _)%live_job_Some.
  split; [|by eapply live_owned]. split_and!; [done|done|by apply (keys_own _ Hi)].
Qed.

Lemma rg_findScoped id s :
  rg (JobsRepository.findScoped u id) s (λ r s', ∀ x, r = inr (Some x) → mine id x ∧ owned u id s').
Proof.
  apply rg_read; [by intros [e|o]| |].
  - intros r s1 s2 H HR _ x Hx. destruct (H x Hx). split; [done|by eapply owned_kept].
  - intros s1 _ HI. eapply wp_mono; [apply findScoped_spec|]. intros r s2 [-> Hr]. split; [done|].
    intros x ->. destruct Hr as (Hid & Hl & _). by eapply sees_mine.
Qed.

Lemma rg_requireOwned id s :
  server_inv s →
  rg (JobsService.requireOwned u id) s (λ r s', ∀ x, r = inr x → mine id x ∧ owned u id s').
Proof.
  intros HI. unfold JobsService.requireOwned. rg_apply rg_findScoped. intros [e|[x|]] s1 H; [done|..].
  - intros _. apply rg_ret; [|intros ? [= <-]; by apply H].
    intros s2 s3 Ho HR _ y Hy. destruct (Ho y Hy). split; [done|by eapply owned_kept].
  - by intros _ s2 _ _ y.
Qed.

Lemma rg_presign p c k (g : jstr → prog eff p) s :
  own_key u k → c = PresignGet k (presignGetTtl (cfg_r2 cfg)) ∨ (∃ ct, c = PresignPut k ct (presignPutTtl (cfg_r2 cfg))) →
  (∀ url, leaf (g url)) → rg (url <- await c;; g url) s (λ _ _, True).
Proof.
  intros Hk Hc Hg. apply (rg_method f u Hslash); [by intros [e|url]; simpl|by intros|].
  intros s1 _ HI.
  assert (∀ url m ttl, tenant_step u s1 (with_presigned (presigned s1 ++ [mkPresigned url m k ttl]) s1)) as Ht.
  { intros url m ttl. by apply (tenant_issued u (mkPresigned url m k ttl)). }
  destruct Hc as [->|[ct ->]]; wp_call;
    (intros r s2 [(url & -> & ->)|[Hf [-> (e & -> & He)]]]; [|by apply still]);
    wp_simpl; specialize (Hg url); destruct (g url); try done; (split; [apply Ht|split; [by apply calm_same|done]]).
Qed.

Lemma rg_done {A} (a : A) s : rg (Ret a) s (λ _ _, True).
Proof. done. Qed.

Lemma rg_presignPdf k s : own_key u k → rg (MediaService.presignPdfDownload cfg k) s (λ _ _, True).
Proof. intros Hk. apply (rg_presign _ _ k (λ url, Ret (url, _))); [done|by left|done]. Qed.

Lemma rg_presignAudio id s : rg (MediaService.presignAudioUpload cfg u id) s (λ _ _, True).
Proof.
  apply (rg_presign _ _ (MediaService.audioKey u id) (λ url, Ret (mkPresignedUpload url _ _ _)));
    [exists id; by left|right; by eexists|done].
Qed.

(** The keys of a job that is the user's. *)
Lemma mine_pdf_key id x k : mine id x → JobsService.truthy_opt (job_pdfKey (jwr_job x)) = Some k → own_key u k.
Proof.
  intros (_ & Hu & _ & Hp). destruct Hp as [-> | ->]; [done|]. intros [= <-]. rewrite Hu. exists id. by right.
Qed.

Lemma mine_object_keys id x k :
  mine id x → k ∈ JobsService.job_object_keys (jwr_job x) →
  k = MediaService.audioKey u id ∨ k = MediaService.pdfKey u id.
Proof.
  intros (_ & Hu & Ha & Hp) (o & Ho & Hk)%list_elem_of_omap. rewrite Hu in *.
  apply elem_of_cons in Ho as [->|Ho%list_elem_of_singleton]; [left|subst o; right].
  - destruct Ha as [Ha|Ha]; rewrite Ha in Hk; [done|by injection Hk].
  - destruct Hp as [Hp|Hp]; rewrite Hp in Hk; [done|by injection Hk].
Qed.

Lemma rg_maybePdfUrl id x s :
  mine id x → server_inv s → rg (JobsService.maybePdfUrl cfg x) s (λ _ _, True).
Proof.
  intros Hm HI. unfold JobsService.maybePdfUrl. destruct (job_status _); try done.
  destruct (JobsService.truthy_opt _) as [k|] eqn:Hk; [|done].
  rg_apply rg_presignPdf; [by eapply mine_pdf_key|]. by intros [e|r].
Qed.

(** Answering with a DTO of the user's job. *)
Definition answers (id : jstr) (r : exn + JobDto) (s : Store) : Prop :=
  ∀ d, r = inr d → dto_id d = id ∧ owned u id s.

Lemma answers_stable id r : stable (answers id r).
Proof. intros s s' H HR _ d Hd. destruct (H d Hd). split; [done|by eapply owned_kept]. Qed.

Lemma rg_answer id x url s : mine id x → owned u id s → rg (Ret (jobToDto x url)) s (answers id).
Proof.
  intros (Hid & _) Ho. apply rg_ret; [apply answers_stable|]. intros ? [= <-]. by split.
Qed.

Lemma rg_keep_owned {A} (p : prog eff A) id s Q :
  owned u id s → rg p s Q → rg p s (λ r s', owned u id s' ∧ Q r s').
Proof.
  apply rg_keep; [apply owned_stable|]. intros s1 s2 [_ Ht] Ho. by eapply owned_kept.
Qed.

Lemma rg_show id x s :
  mine id x → owned u id s → server_inv s →
  rg (url <- JobsService.maybePdfUrl cfg x;; Ret (jobToDto x url)) s (answers id).
Proof.
  intros Hm Ho HI. rg_apply (rg_keep_owned _ id); [done|by eapply rg_maybePdfUrl|].
  intros [e|o] s' [Ho' _]; [done|]. intros _. by apply rg_answer.
Qed.

Lemma rg_findOne id s : server_inv s → rg (JobsService.findOne cfg u id) s (answers id).
Proof.
  intros HI. unfold JobsService.findOne. rg_apply rg_requireOwned; [done|].
  intros [e|x] s1 H; [done|]. intros HI1. destruct (H x eq_refl). by apply rg_show.
Qed.

Lemma rg_findByKey key s :
  rg (JobsRepository.findByIdempotencyKey u key) s (λ r s', ∀ x, r = inr (Some x) →
    mine (jwr_id x) x ∧ owned u (jwr_id x) s').
Proof.
  apply rg_read; [by intros [e|o]| |].
  - intros r s1 s2 H HR _ x Hx. destruct (H x Hx). split; [done|by eapply owned_kept].
  - intros s1 _ HI. eapply wp_mono; [apply findByIdempotencyKey_spec|]. intros r s2 [-> Hr]. split; [done|].
    intros x ->. destruct Hr as (Hl & _). by eapply sees_mine.
Qed.

Lemma rg_listScoped c n s :
  rg (JobsRepository.listScoped u c n) s (λ r s', ∀ l, r = inr l → Forall (λ x, owned u (jwr_id x) s') l).
Proof.
  apply rg_read; [by intros [e|o]| |].
  - intros r s1 s2 H HR _ l Hl. apply (Forall_impl _ _ _ (H l Hl)). intros x Hx. by eapply owned_kept.
  - intros s1 _ HI. eapply wp_mono; [apply listScoped_spec|]. intros r s2 [-> Hr]. split; [done|].
    intros l ->. destruct Hr as (_ & full & (_ & Hf & _) & Hp). apply Forall_forall. intros x Hx.
    eapply live_owned, (Hf _ (jwr_job x)), page_of_elem; [exact Hp|].
    by apply (list_elem_of_fmap_2 (λ x, (jwr_id x, jwr_job x))) in Hx.
Qed.

Lemma rg_createDraft id label key s :
  rg (JobsRepository.createDraft id u label (MediaService.audioKey u id) key) s (λ r s', ∀ x, r = inr x →
    jwr_id x = id ∧ owned u id s').
Proof.
  apply (rg_method f u Hslash); [by intros [e|o]| |].
  - intros r s1 s2 H HR _ x Hx. destruct (H x Hx). split; [done|by eapply owned_kept].
  - intros s1 _ HI. eapply wp_mono; [apply createDraft_spec|]. intros [e|x] s2; [intros [-> _]; by apply still|].
    intros (Hd & _ & t & _ & Hid & _ & -> & _). split_and!; [| |].
    + apply tenant_put_job; [done|by split; simpl; auto|done| |].
      * intros j Hj. exfalso. apply Hd. left. by exists j.
      * intros k i y Hk Hy Huy Hky. exfalso. apply Hd. right. by exists k, i, y.
    + split; [done|by left|]. simpl. intros i j' [[<- <-]|[_ Hj]]%lookup_insert_Some Hst Hdel; [done|by exists j'].
    + intros ? [= <-]. split; [done|]. eexists. simpl. by rewrite lookup_insert_eq.
Qed.

Lemma rg_updateLabel id label s : rg (JobsRepository.updateLabelScoped u id label) s (λ _ _, True).
Proof.
  apply (rg_method f u Hslash); [by destruct label; intros [e|n]|by intros|]. intros s1 _ HI.
  eapply wp_mono; [apply updateLabelScoped_spec|]. intros [e|[]] s2; [intros [-> _]; by apply still|].
  intros (l & -> & t & _ & ->). split_and!; [by apply tenant_update_live|by apply calm_update_live|done].
Qed.

Lemma rg_replaceReportScoped id label sections s :
  rg (JobsRepository.replaceReportScoped u id label sections) s (λ _ _, True).
Proof.
  apply (rg_method f u Hslash); [by intros [e|n]|by intros|]. intros s1 _ HI.
  eapply wp_mono; [apply replaceReportScoped_spec|]. intros [e|[]] s2.
  - intros [-> _]. split_and!; [apply tenant_clock|by apply calm_same|done].
  - intros (j & Hl & Hr). split_and!; [by eapply tenant_replaced_scoped| |done].
    apply live_job_Some in Hl as [Hj _]. destruct Hr as (_ & now & t & _ & _ & ->).
    eapply calm_row; [done|done|exact Hj|done|]. simpl. auto.
Qed.

Lemma rg_setStatus id st err s :
  owned u id s → st ≠ READY → typed_data (mkJobData None (Some st) None None err None None) →
  rg (JobsRepository.setStatus id st err) s (λ _ _, True).
Proof.
  intros Ho Hst Htd. apply (rg_method f u Hslash); [by intros [e|n]|by intros|]. intros s1 HR HI.
  eapply wp_mono; [apply update_by_id_spec|].
  intros [e|[]] s2; [intros [-> _]; by apply still|].
  intros (j & t & Hj & _ & ->). split; [|split; [apply calm_update; [done|by intros [= ?]]|done]]. destruct (owned_kept _ _ _ _ Ho HR) as (j' & Hj' & Hu).
  apply tenant_row; [done|congruence|done|by left].
Qed.

Lemma rg_objectExists k s : rg (MediaService.objectExists k) s (λ _ _, True).
Proof.
  apply rg_read; [|by intros|].
  - intros [e|n]; simpl; [by destruct (MediaService.isNotFound e)|done].
  - intros s1 _ HI. eapply wp_mono; [apply MediaService.objectExists_spec|].
    intros [e|n] s2; [by intros [-> _]|by intros [-> _]].
Qed.

(** Removing the objects of a job that is deleted removes no PDF of another. *)
Lemma removed_pdfs_kept id (ks : list jstr) s :
  server_inv s → gone u id s → (∀ k, k ∈ ks → k = MediaService.audioKey u id ∨ k = MediaService.pdfKey u id) →
  pdfs_kept s (with_objects (filter (λ p : jstr * StoredObject, p.1 ∉ ks) (objects s)) s).
Proof.
  intros HI Hg Hks v i (j & Hj & Hv) Hp. pose proof (inv_users _ HI _ _ Hj) as Hvs. rewrite Hv in Hvs.
  destruct (decide (MediaService.pdfKey v i ∈ ks)) as [Hin|Hout].
  - right. destruct (Hks _ Hin) as [Heq|Heq].
    + done.
    + by destruct (MediaService.pdfKey_injective _ _ _ _ Hvs Hslash Heq) as [-> ->].
  - left. unfold pdf_at in *. simpl. rewrite filter_notin_lookup; done.
Qed.

Lemma rg_deleteObjects id ks s :
  gone u id s → (∀ k, k ∈ ks → k = MediaService.audioKey u id ∨ k = MediaService.pdfKey u id) →
  rg (MediaService.deleteObjects ks) s (λ _ _, True).
Proof.
  intros Hg Hk. apply (rg_method f u Hslash); [|by intros|].
  - unfold MediaService.deleteObjects. destruct (filter _ ks); [done|]. by intros [e|n].
  - intros s1 HR HI. eapply wp_mono; [apply MediaService.deleteObjects_spec|].
    intros [e|[]] s2; [intros [-> _]; by apply still|]. intros [[-> _]| ->]; [by apply still|].
    split_and!; [|split; [done| |by eauto]|done].
    + apply tenant_objects_put. intros k Hno. apply filter_notin_lookup.
      intros (_ & Hin)%list_elem_of_filter. apply Hno. exists id. by apply Hk.
    + eapply (removed_pdfs_kept id); [done|by eapply gone_kept|].
      intros k (_ & Hin)%list_elem_of_filter. by apply Hk.
Qed.

(** A deletion that found its row leaves the row deleted. *)
Lemma rg_softDelete id s :
  server_inv s →
  rg (JobsRepository.softDeleteScoped u id) s (λ r s', ∀ n, r = inr n → n ≠ 0 → gone u id s').
Proof.
  intros HI. unfold JobsRepository.softDeleteScoped. rg_focus.
  eapply rg_mono; [apply (rg_method f u Hslash) with (Q := λ _ _, True); [by intros [e|n]|by intros|]|].
  { intros s1 _ _. wp_call. intros r s2 [(t & _ & -> & ->)|[_ []]].
    split_and!; [apply tenant_clock|by apply calm_same|done]. }
  intros [e|now] s1 _; [done|]. intros HI1. apply (rg_method f u Hslash); [by intros [e|n]| |].
  { intros r s2 s3 H HR _ n Hn Hne. eapply gone_kept; [by eapply H|done]. }
  intros s2 _ _. eapply wp_mono; [apply update_scoped_spec|]. intros [e|n] s3; [intros [-> _]; by apply still|].
  intros [(t & _ & ->) Hn]. split_and!; [by apply tenant_update_live|by apply calm_update_live|].
  intros ? [= <-] Hne. unfold update_live. destruct (live_job s2 u id) as [j|] eqn:Hl; [|congruence].
  apply live_job_Some in Hl as (Hj & Hju & _). exists (apply_data (mkJobData None None None None None None (Some now)) t j).
  simpl. by rewrite lookup_insert_eq.
Qed.

(** ** The producer *)
Lemma owned_only id s j : owned u id s → jobs s !! id = Some j → job_userId j = u.
Proof. intros (j' & Hj' & Hu) Hj. congruence. Qed.

Lemma rg_queue_read {X} (c : call X) s :
  (∀ s r s', call_spec c s r s' → s' = s) → (∀ s r s', call_fault c s r s' → s' = s) →
  rg (await c) s (λ _ _, True).
Proof.
  intros Hc Hf. apply rg_read; [by intros [e|x]|by intros|]. intros s1 _ _. wp_call.
  intros r s2 [H|[_ H]]; (split; [|done]); eauto.
Qed.

Lemma rg_queueRemove id s : owned u id s → rg (await (QueueRemove id)) s (λ _ _, True).
Proof.
  intros Ho. apply (rg_method f u Hslash); [by intros [e|x]|by intros|]. intros s1 HR _. wp_call.
  intros r s2 [[-> ->]|[_ [-> _]]]; [|by apply still].
  split_and!; [|split; [intros i b; apply lookup_delete_Some|by left|by eauto]|done].
  apply (tenant_queue_put u id).
  - intros j. apply owned_only. by eapply owned_kept.
  - intros i Hi. by rewrite lookup_delete_ne.
Qed.

Lemma rg_queueAdd id s :
  owned u id s →
  rg (await (QueueAdd PROCESS_JOB (mkProcessJobData id u)
               (ProcessingQueue.enqueue_options cfg (mkProcessJobData id u)))) s (λ _ _, True).
Proof.
  intros Ho. apply rg_single; [by intros [e|x]|by intros|]. intros s1 HR HI. wp_call.
  intros r s2 [[-> ->]|[_ [-> _]]]; [|by split_and!]. destruct (queue s1 !! _) eqn:Hq; [by split_and!|].
  cbn [opts_jobId ProcessingQueue.enqueue_options data_jobId] in *. pose proof HI as [Hi Hqo Hp Hus].
  assert (owned u id s1) as Ho1 by by eapply owned_kept.
  destruct (tenant_queue_put u id (<[id := mkBullJob PROCESS_JOB (mkProcessJobData id u)
    (ProcessingQueue.enqueue_options cfg (mkProcessJobData id u)) (js "waiting")]> (queue s1)) s1) as [Hi2 Ht];
    [intros j; by apply owned_only|intros i Hne; by rewrite lookup_insert_ne|done|].
  split_and!; [split; [done| |done|done]|split; [done|]|done].
  - intros i b. simpl. intros [[<- <-]|[_ Hb]]%lookup_insert_Some; [done|]. by apply Hqo.
  - split; [apply (tenant_owner _ _ _ Ht)|by left].
Qed.

Lemma rg_enqueue id s :
  owned u id s → server_inv s →
  rg (ProcessingQueue.enqueueProcessing cfg (mkProcessJobData id u)) s (λ _ _, True).
Proof.
  intros Ho HI. unfold ProcessingQueue.enqueueProcessing. cbn [data_jobId].
  rg_apply (rg_keep_owned _ id); [done|apply rg_queue_read; by intros ??? [? _]|].
  intros [e|b] s1 [Ho1 _]; [done|]. intros HI1.
  assert (∀ s, owned u id s → server_inv s → rg (await (QueueRemove id);; Ret true) s (λ r s', owned u id s')) as Hrm.
  { intros s2 Ho2 HI2. rg_apply (rg_keep_owned _ id); [done|by apply rg_queueRemove|].
    intros [e|[]] s3 [Ho3 _]; [done|]. intros _. apply rg_ret; [apply owned_stable|done]. }
  rg_focus. eapply rg_mono with (P := λ r s', owned u id s').
  - destruct b; [|apply rg_ret; [apply owned_stable|done]].
    rg_apply (rg_keep_owned _ id); [done|apply rg_queue_read; by intros ??? [? _]|].
    intros [e|st] s2 [Ho2 _]; [done|]. intros HI2.
    destruct (ProcessingQueue.terminal_state st); [by apply Hrm|apply rg_ret; [apply owned_stable|done]].
  - intros [e|[]] s2 Ho2; [done| |done]. intros HI2. by apply rg_queueAdd.
Qed.

(** ** The requests *)

Lemma rg_create dto key s :
  server_inv s →
  rg (JobsService.create cfg u dto key) s (λ r s', ∀ x, r = inr x → owns_response u (JobsController.JobCreated x) s').
Proof.
  intros HI. unfold JobsService.create, owns_response. cbn [response_ids].
  assert (∀ id x s, jwr_id x = id → owned u id s → server_inv s →
    rg (upload <- MediaService.presignAudioUpload cfg u id;; Ret (mkCreateJobResponse (jobToDto x None) upload)) s
      (λ r s', ∀ y, r = inr y → Forall (λ i, owned u i s') [dto_id (cr_job y)])) as Hup.
  { intros id x s1 Hid Ho HI1. rg_apply (rg_keep_owned _ id); [done|apply rg_presignAudio|].
    intros [e|up] s2 [Ho2 _]; [done|]. intros _. apply rg_ret.
    - intros s3 s4 H HR _ y Hy. apply (Forall_impl _ _ _ (H y Hy)). intros i Hi. by eapply owned_kept.
    - intros ? [= <-]. constructor; [|done]. simpl. by rewrite Hid. }
  rg_focus. eapply rg_mono with (P := λ r s', ∀ x, r = inr (Some x) → owned u (jwr_id x) s').
  - destruct (JobsService.truthy_opt key) as [k|]; [|done].
    eapply rg_mono; [apply rg_findByKey|]. intros r s' H x Hx. by apply H.
  - intros [e|[x|]] s1 H; [done|intros HI1; by apply Hup; [|apply H|]|]. intros HI1.
    rg_apply rg_queue_read; [by intros ??? [? _]|done|]. intros [e|id] s2 _; [done|]. intros HI2.
    rg_apply rg_createDraft. intros [e|x] s3 Hx; [done|]. intros HI3.
    destruct (Hx x eq_refl) as [Hid Ho]. by apply Hup.
Qed.

Lemma rg_list c n s :
  server_inv s →
  rg (JobsService.list u c n) s (λ r s', ∀ x, r = inr x → owns_response u (JobsController.JobPage x) s').
Proof.
  intros HI. unfold JobsService.list, owns_response. cbn [response_ids].
  rg_apply rg_listScoped. intros [e|l] s1 Hl; [done|]. intros HI1. specialize (Hl l eq_refl).
  assert (∀ nc, rg (Ret (mkPaginated ((λ job, jobToDto job None) <$> l) nc)) s1
    (λ r s', ∀ x, r = inr x → Forall (λ id, owned u id s') (dto_id <$> items x))) as Hret.
  { intros nc. apply rg_ret.
    - intros s3 s4 H HR _ y Hy. apply (Forall_impl _ _ _ (H y Hy)). intros i Hi. by eapply owned_kept.
    - intros ? [= <-]. simpl. by rewrite !Forall_fmap. }
  case_bool_decide; [|apply Hret]. destruct (last l); [apply Hret|done].
Qed.

Lemma rg_update id dto s : server_inv s → rg (JobsService.update cfg u id dto) s (answers id).
Proof.
  intros HI. unfold JobsService.update. rg_apply rg_requireOwned; [done|].
  intros [e|x] s1 _; [done|]. intros HI1. rg_focus. eapply rg_mono with (P := λ _ _, True).
  - destruct (uj_sections dto), (uj_label dto); try done;
      first [apply rg_updateLabel|apply rg_replaceReportScoped].
  - intros [e|[]] s2 _; [done|]. intros HI2. by apply rg_findOne.
Qed.

Lemma rg_process id s : server_inv s → rg (JobsService.process cfg u id) s (answers id).
Proof.
  intros HI. unfold JobsService.process. rg_apply rg_requireOwned; [done|].
  intros [e|x] s1 H; [done|]. intros HI1. destruct (H x eq_refl) as [Hm Ho].
  case_bool_decide; [by apply rg_show|]. destruct (JobsService.in_flight _); [by apply rg_answer|].
  rg_apply (rg_keep_owned _ id); [done|apply rg_objectExists|]. intros [e|[]] s2 [Ho2 _]; [done| |done].
  intros HI2. rg_apply (rg_keep_owned _ id); [done|by apply rg_setStatus|]. intros [e|[]] s3 [Ho3 _]; [done|].
  intros HI3. rg_apply (rg_keep_owned _ id); [done|by apply rg_enqueue|]. intros [e|[]] s4 [Ho4 _]; [done|].
  intros HI4. rg_apply (rg_keep_owned _ id); [done|apply rg_findScoped|].
  intros [e|[y|]] s5 [Ho5 Hy]; [done|..]; intros HI5; [destruct (Hy y eq_refl)|]; by apply rg_answer.
Qed.

Lemma rg_remove id s : server_inv s → rg (JobsService.remove u id) s (λ _ _, True).
Proof.
  intros HI. unfold JobsService.remove. rg_apply rg_requireOwned; [done|].
  intros [e|x] s1 H; [done|]. intros HI1. destruct (H x eq_refl) as [Hm Ho].
  rg_apply rg_softDelete; [done|]. intros [e|n] s2 Hgone; [done|]. intros HI2. case_bool_decide; [done|].
  rg_apply (rg_deleteObjects id); [by eapply Hgone|intros k; by eapply mine_object_keys|]. by intros [e|[]] s3 _.
Qed.

Lemma rg_getPdfUrl id s : server_inv s → rg (JobsService.getPdfUrl cfg u id) s (λ _ _, True).
Proof.
  intros HI. unfold JobsService.getPdfUrl. rg_apply rg_requireOwned; [done|].
  intros [e|x] s1 H; [done|]. intros HI1. destruct (H x eq_refl) as [Hm Ho].
  destruct (job_status _); try done. destruct (JobsService.truthy_opt _) as [k|] eqn:Hk; [|done].
  rg_apply rg_presignPdf; [by eapply mine_pdf_key|]. by intros [e|r] s2 _.
Qed.

Lemma owns_response_stable x : stable (owns_response u x).
Proof. intros s s' H HR _. apply (Forall_impl _ _ _ H). intros i Hi. by eapply owned_kept. Qed.

Lemma rg_serve req s :
  server_inv s → rg (JobsController.serve cfg u req) s (λ r s', ∀ x, r = inr x → owns_response u x s').
Proof.
  intros HI.
  assert (∀ {A} (p : prog eff A) (g : A → JobsController.Response) P,
    rg p s P → (∀ x s', P (inr x) s' → owns_response u (g x) s') →
    rg (x <- p;; Ret (g x)) s (λ r s', ∀ x, r = inr x → owns_response u x s')) as Hg.
  { intros A p g P Hp HP. rg_focus. eapply rg_mono; [exact Hp|]. intros [e|x] s' Hx; [done|]. intros _.
    apply rg_ret; [|intros ? [= <-]; by apply HP].
    intros s1 s2 H HR HI2 y Hy. eapply owns_response_stable; [by apply H|done..]. }
  assert (∀ id d s', answers id (inr d) s' → owns_response u (JobsController.JobShown d) s') as Hans.
  { intros id d s' H. destruct (H d eq_refl) as [Hd Ho]. constructor; [by rewrite Hd|done]. }
  destruct req; cbn [JobsController.serve].
  - eapply Hg; [by apply rg_list|]. intros x s' H. by apply H.
  - eapply Hg; [by apply rg_create|]. intros x s' H. by apply H.
  - eapply Hg; [by apply rg_findOne|]. apply Hans.
  - eapply Hg; [by apply rg_update|]. apply Hans.
  - eapply Hg; [by apply rg_process|]. apply Hans.
  - eapply Hg; [by apply rg_getPdfUrl|]. by constructor.
  - eapply (Hg _ _ (λ _, JobsController.NoContent)); [by apply rg_remove|]. by constructor.
Qed.
End Requests.
