(* ===== verification/Sessions.v ===== *)
(** * Sessions under interference

    Sign-ins and refreshes run concurrently with each other and with the jobs API.
    What they may rely on - accounts keep their Apple subject, tokens keep their
    owner and their expiry and stay revoked once they are -, and the proof that each
    of their calls touches the tokens of one account only, one that was presented:
    by a refresh token of its own, or by an identity token of its subject. *)
From S2P Require Import Prelude Json Program RelyGuarantee Schema Services JsDate Report Config Dto Auth.

(** ** Rely and invariant *)
Record sessions_kept (s s' : Store) : Prop := {
  kept_users : ∀ id u, users s !! id = Some u → ∃ u', users s' !! id = Some u' ∧ appleSub u' = appleSub u;
  kept_tokens : ∀ h x, refreshTokens s !! h = Some x →
    ∃ x', refreshTokens s' !! h = Some x' ∧ rt_userId x' = rt_userId x ∧ expiresAt x' = expiresAt x
          ∧ (revokedAt x ≠ None → revokedAt x' ≠ None);
}.

#[export] Instance sessions_kept_preorder : PreOrder sessions_kept.
Proof.
  split.
  - intros s. split; [intros id u Hu; by exists u|intros h x Hx; by exists x].
  - intros s1 s2 s3 [U1 T1] [U2 T2]. split.
    + intros id u Hu. destruct (U1 _ _ Hu) as (u2 & Hu2 & E2). destruct (U2 _ _ Hu2) as (u3 & Hu3 & E3).
      exists u3. split; [done|congruence].
    + intros h x Hx. destruct (T1 _ _ Hx) as (x2 & Hx2 & ? & ? & ?). destruct (T2 _ _ Hx2) as (x3 & ? & ? & ? & ?).
      exists x3. split_and!; [done|congruence|congruence|auto].
Qed.

(** One account per Apple subject, and every token has its account. *)
Record session_inv (s : Store) : Prop := {
  inv_subjects : unique_subjects s;
  inv_owners : ∀ h x, refreshTokens s !! h = Some x → is_Some (users s !! rt_userId x);
}.

Lemma kept_same s s' : users s' = users s → refreshTokens s' = refreshTokens s → sessions_kept s s'.
Proof. intros Hu Ht. split; [rewrite Hu|rewrite Ht]; eauto. Qed.

Lemma session_inv_same s s' : users s' = users s → refreshTokens s' = refreshTokens s → session_inv s → session_inv s'.
Proof. intros Hu Ht [I1 I2]. split; [unfold unique_subjects; by rewrite Hu|by rewrite Ht, Hu]. Qed.

(** ** Stable facts *)
Definition account (uid sub : jstr) (s : Store) : Prop := ∃ u, users s !! uid = Some u ∧ appleSub u = sub.
Definition token_of (h uid : jstr) (s : Store) : Prop := ∃ x, refreshTokens s !! h = Some x ∧ rt_userId x = uid.

Lemma account_kept uid sub s s' : account uid sub s → sessions_kept s s' → account uid sub s'.
Proof.
  intros (u & Hu & Hs) HR. destruct (kept_users _ _ HR _ _ Hu) as (u' & Hu' & E). exists u'. split; [done|congruence].
Qed.
Lemma token_of_kept h uid s s' : token_of h uid s → sessions_kept s s' → token_of h uid s'.
Proof.
  intros (x & Hx & Ho) HR. destruct (kept_tokens _ _ HR _ _ Hx) as (x' & Hx' & E & _). exists x'. split; [done|congruence].
Qed.

(** ** The guarantee *)
Section Guarantee.
Context `{Cr : Crypto} (cfg : AppConfig) (refreshes identities : jstr → Prop) (proves : jstr → jstr → Prop).

(** Account [v] was presented: by a refresh token of its own, or by an identity token
    that proves its subject. *)
Definition presented (v : jstr) (s : Store) : Prop :=
  (∃ tok, refreshes tok ∧ token_of (TokenService.hashRefreshToken cfg tok) v s)
  ∨ (∃ idt sub, identities idt ∧ proves idt sub ∧ account v sub s).

Lemma presented_kept v s s' : presented v s → sessions_kept s s' → presented v s'.
Proof.
  intros [(tok & Ht & Ho)|(idt & sub & Hi & Hp & Ha)] HR; [left|right].
  - exists tok. split; [done|]. by eapply token_of_kept.
  - exists idt, sub. split_and!; [done|done|]. by eapply account_kept.
Qed.

(** Only account [v] and its tokens change. *)
Record session_of (v : jstr) (s s' : Store) : Prop := {
  session_users : ∀ id, id ≠ v → users s' !! id = users s !! id;
  session_tokens : ∀ h x, rt_userId x ≠ v → refreshTokens s' !! h = Some x ↔ refreshTokens s !! h = Some x;
}.

(** Nothing but accounts, tokens and the clock. *)
Definition only_sessions (s s' : Store) : Prop :=
  ∃ us ts t, s' = with_clock t (with_refreshTokens ts (with_users us s)).

Definition session_act (s s' : Store) : Prop :=
  only_sessions s s' ∧ sessions_kept s s'
  ∧ (users s' = users s ∧ refreshTokens s' = refreshTokens s ∨ ∃ v, session_of v s s' ∧ presented v s').

Lemma session_act_kept s s' : session_act s s' → sessions_kept s s'.
Proof. by intros (_ & ? & _). Qed.

Lemma only_sessions_clock t s : only_sessions s (with_clock t s).
Proof. exists (users s), (refreshTokens s), t. by destruct s. Qed.

Lemma session_tick t s : session_act s (with_clock t s).
Proof. split; [apply only_sessions_clock|]. split; [by apply kept_same|by left]. Qed.

#[export] Instance session_act_refl : Reflexive session_act.
Proof. intros s. assert (with_clock (clock s) s = s) as E by (by destruct s). rewrite <-E at 2. apply session_tick. Qed.

(** Writing the tokens of one account. *)
Lemma session_write v ts s :
  session_inv s → presented v s → is_Some (users s !! v) →
  (∀ h x, rt_userId x ≠ v → ts !! h = Some x ↔ refreshTokens s !! h = Some x) →
  (∀ h x, refreshTokens s !! h = Some x → ∃ x', ts !! h = Some x' ∧ rt_userId x' = rt_userId x
     ∧ expiresAt x' = expiresAt x ∧ (revokedAt x ≠ None → revokedAt x' ≠ None)) →
  session_inv (with_refreshTokens ts s) ∧ session_act s (with_refreshTokens ts s).
Proof.
  intros [I1 I2] Hp Hv Hts Hk.
  assert (sessions_kept s (with_refreshTokens ts s)) as HR by (split; [by eauto|done]).
  split; [split; [done|]|split; [|split; [done|right; exists v; split; [by split|]]]].
  - intros h x Hx. simpl in *. destruct (decide (rt_userId x = v)) as [->|Hne]; [done|].
    eapply I2. by apply Hts.
  - exists (users s), ts, (clock s). by destruct s.
  - by apply (presented_kept v s).
Qed.
End Guarantee.

(** ** The methods *)
Section Methods.
Context `{Cr : Crypto} (cfg : AppConfig) (refreshes identities : jstr → Prop) (proves : jstr → jstr → Prop) (f : bool).
Abbreviation rg := (rg (eff_contract f) session_inv sessions_kept (session_act cfg refreshes identities proves)).
Abbreviation stable := (stable session_inv sessions_kept).
Abbreviation presented := (presented cfg refreshes identities proves).
Abbreviation hash_of := (TokenService.hashRefreshToken cfg).

(** A method of one call that only reads or asks the time. *)
Lemma rg_look {A} (p : prog eff A) s0 (Q : exn + A → Store → Prop) :
  single p → (∀ r, stable (Q r)) →
  (∀ s, sessions_kept s0 s → session_inv s →
     wp (eff_contract f) p s (λ r s', (∃ t, s' = with_clock t s) ∧ Q r s')) →
  rg p s0 Q.
Proof.
  intros Hp Hst Hw. apply rg_single; [done|done|]. intros s HR HI. eapply wp_mono; [by apply Hw|].
  intros r s' ((t & ->) & HQ). split; [by apply (session_inv_same s)|]. split; [apply session_tick|done].
Qed.

Lemma same_clock (s : Store) : ∃ t, s = with_clock t s.
Proof. exists (clock s). by destruct s. Qed.

Lemma rg_clock s : rg (await DateNow) s (λ _ _, True).
Proof.
  apply rg_look; [by intros [e|t]|by intros|]. intros s1 _ _. wp_call.
  intros r s2 [(t & _ & -> & ->)|[_ []]]. split; [by exists t|done].
Qed.

(** One step of a method; exceptions end it. *)
Lemma rg_next {A B} (P : exn + A → Store → Prop) (p : prog eff A) (q : A → prog eff B) s Q :
  session_inv s → rg p s P → (∀ e s', Q (inl e) s') →
  (∀ a s', sessions_kept s s' → session_inv s' → P (inr a) s' → rg (q a) s' Q) → rg (bind p q) s Q.
Proof. apply rg_then; [apply _|apply session_act_kept]. Qed.

Lemma rg_generate s :
  session_inv s →
  rg (TokenService.generateRefreshToken cfg) s (λ r _, ∀ x, r = inr x → fresh_hash x = hash_of (fresh_token x)).
Proof.
  intros HI. unfold TokenService.generateRefreshToken. apply (rg_next (λ _ _, True)); [done| |done|].
  { apply rg_look; [by intros [e|t]|by intros|]. intros s1 _ _. wp_call.
    intros r s2 [[-> (tok & -> & _)]|[_ []]]. split; [apply same_clock|done]. }
  intros tok s1 _ HI1 _. apply (rg_next (λ _ _, True)); [done|apply rg_clock|done|]. by intros t s2 _ _ _ s3 _ _ x [= <-].
Qed.

Lemma rg_access uid sub s :
  session_inv s →
  rg (TokenService.issueAccessToken cfg uid sub) s (λ r _, ∀ tok, r = inr tok → ∃ t, tok = signed cfg uid sub t).
Proof.
  intros HI. unfold TokenService.issueAccessToken. apply (rg_next (λ _ _, True)); [done|apply rg_clock|done|].
  intros ms s1 _ _ _. apply rg_look; [by intros [e|t]|by intros r s2 s3 H|]. intros s2 _ _. wp_call.
  intros r s3 [[-> (tok & -> & ->)]|[_ [-> (e & -> & _)]]]; (split; [apply same_clock|]); [|done].
  intros ? [= <-]. by exists ms.
Qed.

(** The two writes of tokens. *)
Lemma session_create v h t s :
  session_inv s → presented v s → is_Some (users s !! v) → refreshTokens s !! h = None →
  let s' := with_refreshTokens (<[h := mkRefreshToken v t None None]> (refreshTokens s)) s in
  session_inv s' ∧ session_act cfg refreshes identities proves s s'.
Proof.
  intros HI Hp Hv Hn. apply (session_write _ _ _ _ v); [done..| |].
  - intros k x Hx. destruct (decide (k = h)) as [->|Hk]; [rewrite lookup_insert_eq, Hn|by rewrite lookup_insert_ne].
    split; [by intros [= <-]|done].
  - intros k x Hx. exists x. rewrite lookup_insert_ne by congruence. auto.
Qed.

Lemma session_rotate h h' x revoked expires s :
  session_inv s → presented (rt_userId x) s → refreshTokens s !! h = Some x → refreshTokens s !! h' = None →
  let s' := with_refreshTokens (rotate h h' x revoked expires (refreshTokens s)) s in
  session_inv s' ∧ session_act cfg refreshes identities proves s s'.
Proof.
  intros HI Hp Hx Hn. assert (h ≠ h') as Hne by congruence.
  apply (session_write _ _ _ _ (rt_userId x)); [done..|by eapply inv_owners| |]; unfold rotate; intros k y Hy.
  - destruct (decide (k = h')) as [->|Hk']; [rewrite lookup_insert_eq, Hn; by split; [intros [= <-]|]|].
    rewrite lookup_insert_ne by done. destruct (decide (k = h)) as [->|Hk]; [|by rewrite lookup_insert_ne].
    rewrite lookup_insert_eq, Hx. split; [by intros [= <-]|by intros [= <-]].
  - rewrite lookup_insert_ne by congruence. destruct (decide (k = h)) as [->|Hk].
    + rewrite lookup_insert_eq. rewrite Hx in Hy. injection Hy as <-. eexists. by split_and!.
    + rewrite lookup_insert_ne by done. exists y. auto.
Qed.

Lemma session_revoke v t s :
  session_inv s → presented v s → is_Some (users s !! v) →
  let s' := with_refreshTokens (revoke_active v t (refreshTokens s)) s in
  session_inv s' ∧ session_act cfg refreshes identities proves s s'.
Proof.
  intros HI Hp Hv. apply (session_write _ _ _ _ v); [done..| |]; unfold revoke_active; intros k x Hx; rewrite lookup_fmap.
  - rewrite fmap_Some. split.
    + intros (y & Hy & ->). revert Hx. case_bool_decide as Hb; intros Hx; [by destruct Hx, Hb|done].
    + intros Hk. exists x. split; [done|]. rewrite bool_decide_false; [done|]. by intros [? _].
  - rewrite Hx. eexists. split; [done|]. case_bool_decide; by split_and!.
Qed.

(** What a sign-in or a refresh answers: a refresh token stored for the account it
    names, that was presented, and an access token for that account. *)
Definition issued (resp : TokenResponseDto) (s : Store) : Prop :=
  let uid := token_userId resp in
  presented uid s ∧ token_of (hash_of (refreshToken resp)) uid s
  ∧ ∃ sub t, account uid sub s ∧ accessToken resp = signed cfg uid sub t.

Lemma issued_kept resp s s' : issued resp s → sessions_kept s s' → issued resp s'.
Proof.
  intros (Hp & Ht & sub & t & Ha & Hs) HR. split; [by eapply presented_kept|]. split; [by eapply token_of_kept|].
  exists sub, t. split; [by eapply account_kept|done].
Qed.

Lemma rg_tokenCreate uid sub h t s :
  presented uid s → account uid sub s →
  rg (await (TokenCreate uid h t)) s (λ r s', ∀ x, r = inr x → token_of h uid s').
Proof.
  intros Hp Ha. apply rg_single; [by intros [e|x]|intros r s1 s2 H HR _ x Hx; eapply token_of_kept; eauto|].
  intros s1 HR HI. pose proof (presented_kept _ _ _ _ _ _ _ Hp HR) as Hp1.
  destruct (account_kept _ _ _ _ Ha HR) as (v & Hv & _). wp_call.
  assert (session_inv s1 ∧ session_act cfg refreshes identities proves s1 s1) as Hsame by done.
  intros r s2 [[(Hn & _ & -> & ->)|[(_ & -> & e & -> & _)|(_ & -> & e & -> & _)]]|[_ [-> (e & -> & _)]]].
  - destruct (session_create uid h t s1) as [HI2 Hact]; [done..|by exists v|done|].
    split; [done|]. split; [done|]. intros x _. eexists. split; [by apply lookup_insert_eq|done].
  - split; [done|]. by split.
  - split; [done|]. by split.
  - split; [done|]. by split.
Qed.

(** What remains of a method once the new refresh token is stored. *)
Lemma rg_pair uid sub token s :
  session_inv s → presented uid s → account uid sub s → token_of (hash_of token) uid s →
  rg (a <- TokenService.issueAccessToken cfg uid sub;; Ret (AuthService.bearer cfg uid a token)) s
    (λ r s', ∀ resp, r = inr resp → issued resp s').
Proof.
  intros HI Hp Ha Ht. eapply rg_next; [done|by apply rg_access|done|]. intros a s1 HR HI1 Hs.
  destruct (Hs a eq_refl) as [t ->].
  apply rg_ret; [intros s2 s3 H HR3 _ resp Hr; eapply issued_kept; eauto|].
  intros ? [= <-]. eapply issued_kept; [|exact HR]. split; [done|]. split; [done|]. by exists sub, t.
Qed.

Lemma rg_issueTokenPair uid sub s :
  session_inv s → presented uid s → account uid sub s →
  rg (AuthService.issueTokenPair cfg uid sub) s (λ r s', ∀ resp, r = inr resp → issued resp s').
Proof.
  intros HI Hp Ha. eapply rg_next; [done|by apply rg_generate|done|]. intros x s1 HR HI1 Hx.
  assert (presented uid s1) as Hp1 by (by eapply presented_kept).
  assert (account uid sub s1) as Ha1 by (by eapply account_kept).
  eapply rg_next; [done|by apply (rg_tokenCreate uid sub)|done|]. intros y s2 HR2 HI2 Ht. apply rg_pair; [done| | |].
  - by eapply presented_kept.
  - by eapply account_kept.
  - rewrite <-(Hx x eq_refl). by eapply Ht.
Qed.

(** Spending a token that may meanwhile have been spent by another request. *)
Lemma rg_rotation h uid h' revoked expires s :
  presented uid s → token_of h uid s →
  rg (transaction (perform (TokenUpdate h revoked h');; perform (TokenCreate uid h' expires))) s
    (λ r s', ∀ x, r = inr x → token_of h' uid s').
Proof.
  intros Hp Ht. apply rg_single; [by intros [e|x]|intros r s1 s2 H HR _ x Hx; eapply token_of_kept; eauto|].
  intros s1 HR HI. pose proof (presented_kept _ _ _ _ _ _ _ Hp HR) as Hp1.
  destruct (token_of_kept _ _ _ _ Ht HR) as (x & Hx & Ho).
  assert (∀ t, session_inv (with_clock t s1) ∧ session_act cfg refreshes identities proves s1 (with_clock t s1)) as Hsame.
  { intros t. split; [by apply (session_inv_same s1)|apply session_tick]. }
  apply wp_transaction.
  2:{ intros e _ _. split; [done|]. by split. }
  wp_call. intros r s2 [[(y & Hy & -> & ->)|[_ [-> (e & -> & _)]]]|[_ [-> (e & -> & _)]]].
  2,3: destruct (Hsame (clock s1)); by split_and!.
  rewrite Hx in Hy. injection Hy as <-. wp_call.
  intros r s3 [[(Hn & _ & -> & ->)|[(_ & -> & e & -> & _)|(_ & -> & e & -> & _)]]|[_ [-> (e & -> & _)]]].
  2-4: by destruct (Hsame (clock s1)); split_and!.
  simpl in Hn. assert (h ≠ h') as Hne by (intros ->; by rewrite lookup_insert_eq in Hn).
  rewrite lookup_insert_ne in Hn by done. subst uid.
  destruct (session_rotate h h' x revoked expires s1 HI Hp1 Hx Hn) as [HI2 Hact].
  split; [exact HI2|]. split; [exact Hact|]. intros _ _. eexists. split; [by apply lookup_insert_eq|done].
Qed.

Lemma rg_findToken h s :
  rg (await (TokenFindUnique h)) s (λ r s', ∀ x, r = inr (Some x) → token_of h (rt_userId x) s').
Proof.
  apply rg_look; [by intros [e|o]|intros r s1 s2 H HR _ x Hx; eapply token_of_kept; eauto|]. intros s1 _ _. wp_call.
  intros r s2 [[-> (o & -> & ->)]|[_ [-> (e & -> & _)]]]; (split; [apply same_clock|]); [|done].
  intros x [= Hx]. by exists x.
Qed.

Lemma rg_findAccount uid s :
  rg (UsersService.findById uid) s (λ r s', ∀ u, r = inr (Some u) → account uid (appleSub u) s').
Proof.
  apply rg_look; [by intros [e|o]|intros r s1 s2 H HR _ x Hx; eapply account_kept; eauto|]. intros s1 _ _.
  unfold UsersService.findById. wp_call.
  intros r s2 [[-> (o & -> & ->)]|[_ [-> (e & -> & _)]]]; (split; [apply same_clock|]); [|done].
  intros u [= Hu]. by exists u.
Qed.

Lemma rg_revoke uid sub t s :
  presented uid s → account uid sub s → rg (await (TokenUpdateManyActive uid t)) s (λ _ _, True).
Proof.
  intros Hp Ha. apply rg_single; [by intros [e|x]|by intros|]. intros s1 HR HI.
  pose proof (presented_kept _ _ _ _ _ _ _ Hp HR) as Hp1. destruct (account_kept _ _ _ _ Ha HR) as (u1 & Hu1 & _).
  wp_call. intros r s2 [(n & -> & ->)|[_ [-> (e & -> & _)]]].
  - by destruct (session_revoke uid t s1) as [? ?].
  - split; [done|]. by split.
Qed.

Lemma rg_refresh tok s :
  session_inv s → refreshes tok →
  rg (AuthService.refresh cfg tok) s (λ r s', ∀ resp, r = inr resp → issued resp s').
Proof.
  intros HI Htok. unfold AuthService.refresh. cbv zeta.
  eapply rg_next; [done|apply rg_findToken|done|]. intros [x|] s1 _ HI1 Hx; [|by intros s2].
  specialize (Hx x eq_refl). assert (presented (rt_userId x) s1) as Hp1 by (left; by exists tok).
  assert (∃ sub, account (rt_userId x) sub s1) as [sub0 Ha1].
  { destruct Hx as (y & Hy & <-). destruct (inv_owners _ HI1 _ _ Hy) as [v Hv]. by exists (appleSub v), v. }
  destruct (revokedAt x); apply (rg_next (λ _ _, True)); try done; try apply rg_clock; intros now s2 HR2 HI2 _.
  { apply (rg_next (λ _ _, True)); [done| |done|by intros n s3 _ _ _ s4].
    apply (rg_revoke _ sub0); [by eapply presented_kept|by eapply account_kept]. }
  case_bool_decide; [by intros s3|].
  eapply rg_next; [done|apply rg_findAccount|done|]. intros [u|] s3 HR3 HI3 Ha; [|by intros s4].
  specialize (Ha u eq_refl).
  eapply rg_next; [done|by apply rg_generate|done|]. intros next s4 HR4 HI4 Hn. specialize (Hn next eq_refl).
  apply (rg_next (λ _ _, True)); [done|apply rg_clock|done|]. intros revoked s5 HR5 HI5 _.
  assert (sessions_kept s1 s5) as HR15 by (by repeat (etrans; [eassumption|])).
  assert (presented (rt_userId x) s5) as Hp5 by (by eapply presented_kept).
  assert (account (rt_userId x) (appleSub u) s5) as Ha5 by (eapply account_kept; [exact Ha|by etrans]).
  eapply rg_next; [done|apply rg_rotation; [done|by eapply token_of_kept]|done|].
  intros [] s6 HR6 HI6 Ht. apply rg_pair; [done|by eapply presented_kept|by eapply account_kept|].
  rewrite <-Hn. by eapply Ht.
Qed.

(** The accounts after an upsert. *)
Lemma session_upsert v u s :
  session_inv s → presented v (with_users (<[v := u]> (users s)) s) →
  (∀ w, users s !! v = Some w → appleSub w = appleSub u) →
  unique_subjects (with_users (<[v := u]> (users s)) s) →
  let s' := with_users (<[v := u]> (users s)) s in
  session_inv s' ∧ session_act cfg refreshes identities proves s s'.
Proof.
  intros [I1 I2] Hp Hold Hun. split; [split; [done|]|split; [|split; [split|right; exists v; split; [split|done]]]].
  - intros h x Hx. simpl. apply lookup_insert_is_Some'. right. by eapply I2.
  - exists (<[v := u]> (users s)), (refreshTokens s), (clock s). by destruct s.
  - intros id w Hw. simpl. destruct (decide (id = v)) as [->|Hne].
    + rewrite lookup_insert_eq. exists u. split; [done|]. symmetry. by apply Hold.
    + rewrite lookup_insert_ne by done. by exists w.
  - simpl. eauto.
  - intros id Hne. simpl. by rewrite lookup_insert_ne.
  - done.
Qed.

Context {AV : AppleTokenVerifier}.
Hypothesis verified : ∀ idt nonce, inert (eff_contract f) (verify idt nonce)
  (λ r, ∀ i sub, r = inr i → identity_sub i = JStr sub → proves idt sub).

Lemma rg_upsert idt sub given s :
  identities idt → (∀ t, sub = JStr t → proves idt t) →
  rg (UsersService.upsertByApple sub given) s (λ r s', ∀ p, r = inr p →
    presented p.1 s' ∧ account p.1 (appleSub p.2) s').
Proof.
  intros Hi Hproof. apply rg_single.
  - unfold UsersService.upsertByApple, UsersService.invalid. by repeat case_match; intros [e|x].
  - intros r s1 s2 H HR _ p Hr. destruct (H p Hr). split; [by eapply presented_kept|by eapply account_kept].
  - intros s1 HR HI. eapply wp_mono; [apply upsert_spec|]. intros [e|p] s2; cbn beta iota.
    { intros [-> _]. split; [done|]. by split. }
    intros (t & -> & Hup & Hold). pose proof (upserted_unique _ _ _ _ _ Hup Hold (inv_subjects _ HI)) as Hun.
    destruct Hup as (-> & Ht & _). specialize (Hproof t eq_refl).
    assert (account p.1 t (with_users (<[p.1 := p.2]> (users s1)) s1)) as Ha.
    { exists p.2. split; [by apply lookup_insert_eq|done]. }
    assert (presented p.1 (with_users (<[p.1 := p.2]> (users s1)) s1)) as Hp by (right; by exists idt, t).
    destruct (session_upsert p.1 p.2 s1) as [HI2 Hact]; [done..| |done|].
    { intros w Hw. rewrite Ht. by apply Hold. }
    split; [done|]. split; [done|]. intros ? [= <-]. rewrite Ht. by split.
Qed.

Lemma rg_signIn idt nonce given s :
  session_inv s → identities idt →
  rg (AuthService.signInWithApple cfg idt nonce given) s (λ r s', ∀ resp, r = inr resp → issued resp s').
Proof.
  intros HI Hi. unfold AuthService.signInWithApple.
  eapply rg_next; [done|apply inert_rg; [apply _|apply verified]|done|]. intros i s1 _ HI1 Hproof.
  eapply rg_next; [done|apply (rg_upsert idt); [done|by eauto]|done|]. intros [uid u] s2 _ HI2 Hu.
  destruct (Hu _ eq_refl). by apply rg_issueTokenPair.
Qed.

End Methods.

(** ** The verifiers of the deployment *)

(** With the development bypass anyone may name any subject; without it a token
    proves the subject that Apple signed. *)
Definition proves `{Cr : Crypto} (cfg : AppConfig) (idt sub : jstr) : Prop :=
  devBypass (cfg_apple cfg) = true
  ∨ ∃ c, apple_payload idt = Some c ∧ jget (js "sub") c = Some (JStr sub).

Lemma apple_verified `{Cr : Crypto} cfg f idt nonce :
  inert (eff_contract f) (verify (AppleTokenVerifier := AppleVerifiers.apple_verifier cfg) idt nonce)
    (λ r, ∀ i sub, r = inr i → identity_sub i = JStr sub → proves cfg idt sub).
Proof.
  unfold verify, AppleVerifiers.apple_verifier. destruct (devBypass (cfg_apple cfg)) eqn:Hd.
  - apply inert_mono with (λ _, True); [|intros r _ i sub _ _; by left].
    unfold AppleVerifiers.dev_verify. intros s r s' HC.
    assert (s' = s) as -> by (by destruct HC as [[[-> _]|[-> _]]|[_ [-> _]]]).
    split; [done|]. by destruct r as [e|c].
  - intros s r s' HC.
    assert (s' = s ∧ ∀ c, r = inr c → apple_payload idt = Some c) as [-> Hc].
    { destruct HC as [[[-> (c & -> & Hc & _)]|[-> (e & -> & _)]]|[_ [-> (e & -> & _)]]]; (split; [done|]); by intros ? [= <-]. }
    split; [done|]. destruct r as [e|c]; [done|]. specialize (Hc c eq_refl). cbn [bind try_catch].
    destruct (json_truthy _); [|done]. cbn [negb]. destruct nonce as [[|x n]|]; [done| |done].
    destruct (AppleVerifiers.nonce_matches _ c); [|done]. cbn [negb]. intros i sub [= <-] Hs. right. exists c.
    split; [done|]. cbn [identity_sub AppleVerifiers.identity_of] in Hs. destruct (jget (js "sub") c); simpl in Hs; congruence.
Qed.
