(* ===== verification/Api.v ===== *)
(** * One request to the API, from the guard to the response

    [server/src/common/filters/all-exceptions.filter.ts], and the way Nest puts
    it around [JwtAuthGuard], [@CurrentUser()] and the jobs controller. *)
From S2P Require Import Prelude Json Program Schema Services Memory JsDate Report Zod Config Media Queue JobsRepository Dto Auth JobsService Tenancy.

(** The RFC 7807-style document of every error. *)
Record ProblemResponse := mkProblem {
  statusCode : Z;
  problem_error : json;
  problem_message : json;
  requestId : option jstr;
  timestamp : jstr;
  problem_path : jstr;
}.

Module AllExceptionsFilter.
(** What an exception answers to [getStatus()] and [getResponse()]: Nest's own were
    built from a message, and answer an object with it and the reason phrase. *)
Definition nest_response (error message : jstr) (status : Z) : jstr + claims :=
  inr [(js "message", JStr message); (js "error", JStr error); (js "statusCode", JNum status)].

Definition http_exception (e : exn) : option (Z * (jstr + claims)) :=
  match e with
  | UnauthorizedException m => Some (401%Z, nest_response (js "Unauthorized") m 401)
  | NotFoundException m => Some (404%Z, nest_response (js "Not Found") m 404)
  | BadRequestException m => Some (400%Z, nest_response (js "Bad Request") m 400)
  | ConflictException m => Some (409%Z, nest_response (js "Conflict") m 409)
  | HttpException status _ _ res => Some (status, res)
  | _ => None
  end.

Definition mapPrisma (code : jstr) : Z * jstr * jstr :=
  if bool_decide (code = js "P2025") then (404%Z, js "Not Found", js "Resource not found.")
  else if bool_decide (code = js "P2002") then (409%Z, js "Conflict", js "Resource already exists.")
  else if bool_decide (code = js "P2003") then (400%Z, js "Bad Request", js "Related resource missing.")
  else (500%Z, js "Internal Server Error", js "A database error occurred.").

Definition as_json (x : Z * jstr * jstr) : Z * json * json := (x.1.1, JStr x.1.2, JStr x.2).

Definition normalize (exception : exn) : Z * json * json :=
  match http_exception exception with
  | Some (status, inl res) => (status, JStr (exn_name exception), JStr res)
  | Some (status, inr obj) =>
      (status, nullish (jget (js "error") obj) (JStr (exn_name exception)),
       nullish (jget (js "message") obj) (JStr (exn_message exception)))
  | None =>
      match exception with
      | PrismaClientKnownRequestError _ code => as_json (mapPrisma code)
      | _ =>
          as_json (if bool_decide (exn_name exception = js "PrismaClientValidationError")
          then (400%Z, js "Bad Request", js "Invalid query parameters.")
          else (500%Z, js "Internal Server Error", js "An unexpected error occurred."))
      end
  end.

Definition catch (exception : exn) (id : option jstr) (url : jstr) : prog eff ProblemResponse :=
  let '(status, error, message) := normalize exception in
  now <- await DateNow;;
  Ret (mkProblem status error message id (toISOString now) url).
End AllExceptionsFilter.

Module Api.
Inductive HttpResponse :=
  | Answer (body : JobsController.Response)
  | Problem (p : ProblemResponse).

Section Request.
Context `{Cr : Crypto} (cfg : AppConfig).

(** The guard, the decorator, the handler. *)
Definition handle (authorization : option jstr) (req : JobsController.Request)
    : prog eff JobsController.Response :=
  attached <- JwtAuthGuard.canActivate cfg false authorization;;
  user <- settle (JwtAuthGuard.CurrentUser attached);;
  JobsController.serve cfg (auth_userId user) req.

Definition respond (authorization : option jstr) (req : JobsController.Request)
    (id : option jstr) (url : jstr) : prog eff HttpResponse :=
  TRY (body <- handle authorization req;; Ret (Answer body))
  CATCH e => (p <- AllExceptionsFilter.catch e id url;; Ret (Problem p)).
End Request.
End Api.

(** ** The errors of the handlers *)
Section Errors.
Context `{Cr : Crypto} (cfg : AppConfig) (f : bool).
Import JobsService.

(** The failures a request can end in: the application's own answers, two
    database constraints, and failures of services. *)
Inductive api_error : exn → Prop :=
  | api_not_found : api_error (NotFoundException (js "Job not found."))
  | api_no_audio : api_error (BadRequestException (js "Audio has not been uploaded yet."))
  | api_no_pdf : api_error (ConflictException (js "PDF is not ready for this job."))
  | api_duplicate e : prisma_error "P2002" e → api_error e
  | api_unrelated e : prisma_error "P2003" e → api_error e
  | api_empty_page m : api_error (JsError m)
  | api_infra e : infra e → api_error e.

Lemma api_read_error s u id e : read_error f s u id e → api_error e.
Proof. intros [[_ ?]|[_ ->]]; by constructor. Qed.

Lemma serve_errors u req s :
  wp (eff_contract f) (JobsController.serve cfg u req) s (λ r _,
    match r with inl e => api_error e | inr _ => True end).
Proof.
  destruct req as [q|dto key|id|id dto|id|id|id]; cbn [JobsController.serve]; apply wp_bind;
    (eapply wp_mono; [first [apply create_spec|apply findOne_spec|apply update_spec|apply process_spec
                           |apply getPdfUrl_spec|apply remove_spec|apply list_spec]|]);
    intros [e|d] s' H; try done.
  - destruct H as [_ [[_ ?]|[_ [m ->]]]]; by constructor.
  - destruct H as [(_ & [[_ ?]|[(_ & ? & _)|[_ ?]]])|(_ & ? & _)]; eauto using api_error.
  - destruct H as [_ H]. by eapply api_read_error.
  - destruct H as [(_ & [H|(_ & _ & ?)])|(_ & ? & _)]; eauto using api_error, api_read_error.
  - destruct H as [(_ & [H|(j & _ & _ & _ & ->)])|(_ & ? & _)]; eauto using api_error, api_read_error.
  - destruct H as (_ & [H|(j & _ & _ & ->)]); eauto using api_error, api_read_error.
  - destruct H as [_ H]. by eapply api_read_error.
Qed.
End Errors.

(** ** Requests *)

(** No token, no access.  A request to the jobs API is answered 401 and
    changes nothing, or carries a bearer token signed with the access secret for
    this issuer and audience, of type "access" and not expired, and then it is
    exactly the handler's run for the user that token names: the path and the
    body have no say in who the user is. *)
Theorem api_requires_token `{Hs : Services} cfg authorization req w :
  ensures (Api.handle cfg authorization req) w (λ r s',
    (∃ m, r = inl (UnauthorizedException m)) ∧ s' = view w
    ∨ ∃ tok c u, JwtAuthGuard.extractToken authorization = Some tok
        ∧ jwt_payload (accessSecret (cfg_jwt cfg)) tok = Some c
        ∧ jwt_accepts c (appBaseUrl cfg) TokenService.JWT_AUDIENCE (clock (view w))
        ∧ jget (js "type") c = Some (JStr (js "access")) ∧ jget (js "sub") c = Some (JStr u)
        ∧ runs (eff_contract faults) (JobsController.serve cfg u req) (view w) r s').
Proof.
  apply ensures_wp. unfold Api.handle. wp_apply canActivate_spec. intros [e|o] s1 [-> Ho].
  - left. split; [|done]. destruct Ho as [[_ ->]|[-> _]]; by eexists.
  - destruct Ho as (tok & c & u & He & Hp & Ha & Hu & ->). cbn [JwtAuthGuard.CurrentUser settle]. wp_simpl.
    rewrite wp_runs. intros r s' Hr. right. exists tok, c, (auth_userId u).
    unfold JwtAuthGuard.user_of in Hu. case_bool_decide; [|done]. simpl in Hu.
    destruct (jget (js "sub") c) as [[| | |sub| |]|] eqn:Hsub; try done. injection Hu as <-.
    by split_and!.
Qed.

(** The complete list of what a client can be told. *)
Definition public_problems : list (Z * string) :=
  [(401, "Missing bearer token."); (401, "Invalid or expired access token."); (404, "Job not found.");
   (400, "Audio has not been uploaded yet."); (409, "PDF is not ready for this job.");
   (409, "Resource already exists."); (400, "Related resource missing.");
   (400, "Invalid query parameters."); (500, "An unexpected error occurred.")]%Z.

Definition problem_texts : list (Z * json) := (λ p, (p.1, JStr (js p.2))) <$> public_problems.

Lemma public_of_error e :
  api_error e → ((AllExceptionsFilter.normalize e).1.1, (AllExceptionsFilter.normalize e).2)
                ∈ problem_texts.
Proof.
  intros He. apply (bool_decide_unpack _).
  destruct He as [| | |e [m ->]|e [m ->]|m|e (x & -> & _)]; try (vm_compute; exact I).
  unfold AllExceptionsFilter.normalize. cbn [AllExceptionsFilter.http_exception exn_name].
  destruct (bool_decide (f_name x = _)); vm_compute; exact I.
Qed.

(** Errors are opaque.  Every request to the jobs API is answered, whatever the
    services do: with the handler's response, or with a problem document whose
    status and message are one of nine fixed pairs, so that no text of an
    internal error (a database message, a key, an SDK's answer) reaches a client. *)
Theorem api_errors_are_opaque `{Hs : Services} cfg authorization req rid url w :
  ensures (Api.respond cfg authorization req rid url) w (λ r _, ∃ resp, r = inr resp ∧
    match resp with
    | Api.Answer _ => True
    | Api.Problem p => (statusCode p, problem_message p) ∈ problem_texts
                       ∧ requestId p = rid ∧ problem_path p = url
    end).
Proof.
  apply ensures_wp. unfold Api.respond.
  apply wp_try_catch, wp_bind.
  apply wp_mono with (λ r (_ : Store), match r with
    | inl e => ((AllExceptionsFilter.normalize e).1.1, (AllExceptionsFilter.normalize e).2)
               ∈ problem_texts
    | inr _ => True end).
  - unfold Api.handle. wp_apply canActivate_spec. intros [e|o] s1 [_ Ho].
    + apply (bool_decide_unpack _). destruct Ho as [[_ ->]|[-> _]]; vm_compute; exact I.
    + destruct Ho as (_ & _ & u & _ & _ & _ & _ & ->). cbn [JwtAuthGuard.CurrentUser settle]. wp_simpl.
      eapply wp_mono; [apply serve_errors|]. intros [e|b] s2 He; [by apply public_of_error|done].
  - intros [e|b] s1 He; [|by eexists]. wp_simpl. unfold AllExceptionsFilter.catch.
    destruct (AllExceptionsFilter.normalize e) as [[status error] message].
    wp_call. intros r s2 [(t & _ & -> & _)|[_ []]]. wp_simpl. eexists. split; [done|]. by split_and!.
Qed.
