(* ===== verification/JobsProperties.v ===== *)
(** * Properties of the jobs API

    Ownership, editing, idempotent creation, processing requests, pagination
    and deletion, each for any implementation of the external services. *)
From S2P Require Import Prelude Json Program Schema Services Memory JsDate Report Config Media Queue JobsRepository Dto JobsService Tenancy.
Import JobsService JobsController.

(** The job a request addresses. *)
Definition target (r : Request) : option jstr :=
  match r with
  | GetJob id | PatchJob id _ | PostProcess id | GetPdf id | DeleteJob id => Some id
  | GetJobs _ | PostJob _ _ => None
  end.

(** A request for a job that is not a live job of the user (it does not
    exist, was deleted, or is another user's) is answered with the same 404, and
    nothing changes; only a failure of a service can be reported instead. *)
Theorem unowned_job_not_found `{Hs : Services} cfg u req id w :
  target req = Some id → live_job (view w) u id = None →
  ensures (serve cfg u req) w (λ r s',
    untouched (view w) s'
    ∧ ∃ e, r = inl e ∧ (e = NotFoundException (js "Job not found.") ∨ faults = true ∧ infra e)).
Proof.
  intros Ht Hl. apply ensures_wp.
  assert (∀ e, read_error faults (view w) u id e →
    ∃ e', (inl e : exn + Response) = inl e' ∧ (e' = NotFoundException (js "Job not found.") ∨ faults = true ∧ infra e')) as He.
  { intros e [?|[_ ?]]; exists e; auto. }
  destruct req as [| |i|i dto|i|i|i]; try discriminate; injection Ht as ->; cbn [serve]; apply wp_bind.
  - eapply wp_mono; [apply findOne_spec|]. intros [e|d] s'; [|intros (x & (_ & Hx & _) & _); congruence].
    intros [-> Hr]. split; [apply untouched_refl|by apply He].
  - eapply wp_mono; [apply update_spec|]. intros [e|d] s'; [|intros (j & s1 & x & Hj & _); congruence].
    intros [[Hu [Hr|[[j Hj] _]]]|(_ & _ & j & Hj & _)]; [|congruence..]. split; [done|by apply He].
  - eapply wp_mono; [apply process_spec|]. intros [e|d] s'; [|intros (x & (_ & Hx & _) & _); congruence].
    intros [[-> [Hr|(j & Hj & _)]]|(_ & _ & j & t & Hj & _)]; [|congruence..].
    split; [apply untouched_refl|by apply He].
  - eapply wp_mono; [apply getPdfUrl_spec|]. intros [e|d] s'; [|intros (j & k & Hj & _); congruence].
    intros [-> [Hr|(j & Hj & _)]]; [|congruence]. split; [apply untouched_refl|by apply He].
  - eapply wp_mono; [apply remove_spec|]. intros [e|d] s'; [|intros (j & now & t & Hj & _); congruence].
    intros [Hu Hr]. split; [done|by apply He].
Qed.

Lemma unowned_job_not_found_witness :
  ensures (Hs := reliable_memory) (serve (config_of prod_parsed) (js "alice") (GetJob (js "j2")))
    (mkMemory two_users quiet) (λ r s', r = inl (NotFoundException (js "Job not found."))).
Proof.
  destruct (unowned_job_not_found (Hs := reliable_memory) (config_of prod_parsed) (js "alice")
              (GetJob (js "j2")) (js "j2") (mkMemory two_users quiet) eq_refl eq_refl)
    as (_ & e & Hr & [->|[Hf _]]); [exact Hr|discriminate Hf].
Defined.

(** ** Editing *)


(** A body whose [sections] is [null] passes the validators and empties the
    report: the edit that clears every section is the one [null] causes. *)
Theorem patch_null_sections_clears `{Hs : Services} `{Validator} cfg u id w :
  valid_update (mkUpdateJobDto Undefined Null) = true
  ∧ ensures (update cfg u id (mkUpdateJobDto Undefined Null)) w (λ r s',
      ∀ d, r = inr d → dto_sections d = []).
Proof.
  split; [done|]. apply ensures_wp. eapply wp_mono; [apply update_spec|]. intros r s' Hr d ->.
  destruct Hr as (j & s1 & x & _ & (_ & now & t & _ & [tr Hst] & _) & (_ & _ & Hx) & Hsh).
  assert (jwr_sections x = []) as Hnil.
  { rewrite (stored_report _ _ _ _ _ _ (jwr_sections x) Hst); [| |exact Hx].
    - destruct Hst as [Hrows _ _ _ _ _]. by inversion Hrows.
    - apply Forall_forall. intros y Hy. by apply list_elem_of_filter in Hy as [? _]. }
  unfold shown in Hsh. destruct (pdf_ready _); [destruct Hsh as (url & -> & _)|destruct Hsh as [-> _]];
    simpl; by rewrite Hnil.
Qed.

(** ** Creating jobs *)

Lemma live_job_jobs s u id j : live_job s u id = Some j → jobs s !! id = Some j ∧ job_userId j = u.
Proof. by intros (? & ? & _)%live_job_Some. Qed.

(** After a create, the response's job is the user's live job with the key, and
    its upload URL is for its audio. *)
Lemma create_keyed `{Cr : Crypto} f cfg u dto k s :
  truthy k = true →
  wp (eff_contract f) (create cfg u dto (Some k)) s (λ r s', ∀ x, r = inr x →
    ∃ j, live_job s' u (dto_id (cr_job x)) = Some j ∧ job_idempotencyKey j = Some k
         ∧ upload_key (audioUploadUrl x) = MediaService.audioKey u (dto_id (cr_job x))
         ∧ (jobs s' = jobs s ∨ ∃ j', jobs s' = <[dto_id (cr_job x) := j']> (jobs s))).
Proof.
  intros Hk. eapply wp_mono; [apply create_spec|]. intros r s' Hr x ->. simpl in Hr. rewrite Hk in Hr.
  destruct Hr as [(k' & [= <-] & y & url & (Hid & Hl & Hrep) & Hky & -> & ->)
                 |[_ (id & t & secs & url & Hn & Hd & Ht & Hrep & -> & ->)]].
  - exists (jwr_job y). split_and!; [done|done|done|by left].
  - exists (created_job (draft_data u id (cj_label dto) (Some k)) t). split_and!; [|done|done|].
    + apply live_job_Some. simpl. by rewrite lookup_insert_eq.
    + right. by eexists.
Qed.



(** A deleted job keeps its idempotency key: a create of the owner with that
    key neither replays the job (it is deleted) nor makes a new one; it always
    throws, with Prisma's unique-constraint error unless a service failed. *)
Theorem deleted_key_blocks_create `{Hs : Services} cfg u dto k id j w :
  integrity (view w) → truthy k = true → is_Some (users (view w) !! u) →
  jobs (view w) !! id = Some j → job_userId j = u → job_idempotencyKey j = Some k →
  is_Some (job_deletedAt j) →
  ensures (create cfg u dto (Some k)) w (λ r s',
    s' = view w ∧ ∃ e, r = inl e ∧ (prisma_error "P2002" e ∨ faults = true ∧ infra e)).
Proof.
  intros Hi Hk [v Hv] Hj Hu Hkj [t Hd]. apply ensures_wp.
  assert (∀ i d, d = draft_data u i (cj_label dto) (Some k) → duplicate_job (view w) d) as Hdup.
  { intros i d ->. right. exists k, id, j. done. }
  eapply wp_mono; [apply create_spec|]. intros [e|x] s'.
  - intros [[-> [He|[(_ & He & _)|[Hn _]]]]|(_ & _ & _ & i & t' & _ & Hnd & _)].
    + split; [done|]. eauto.
    + split; [done|]. eauto.
    + congruence.
    + exfalso. by eapply Hnd, Hdup.
  - intros [(k' & Hk' & y & url & (_ & Hl & _) & Hky & _)|[_ (i & t' & secs & url & _ & Hnd & _)]].
    + exfalso. simpl in Hk'. rewrite Hk in Hk'. injection Hk' as <-.
      pose proof Hl as (Hy & Huy & Hdy)%live_job_Some.
      assert (id = jwr_id y) as -> by (eapply (idempotency_unique _ Hi); [exact Hj|exact Hy|congruence|done..]).
      congruence.
    + exfalso. by eapply Hnd, Hdup.
Qed.

(** Alice's job with a key, deleted. *)
Definition doomed_job : Job :=
  deleted_job 9 9 (created_job (mkJobCreateData (js "j1") (js "alice") (js "House")
     (MediaService.audioKey (js "alice") (js "j1")) (Some (js "key")) CREATED) 7).
Definition deleted_store : Store :=
  with_jobs (<[js "j1" := doomed_job]> (jobs two_users)) two_users.

Lemma deleted_store_integrity : integrity deleted_store.
Proof.
  assert (∀ id j, jobs deleted_store !! id = Some j →
            own_keys id j ∧ (id = js "j1" ∨ job_idempotencyKey j = None) ∧ typed_job id j) as H.
  { intros id j Hj. unfold deleted_store in Hj. simpl in Hj.
    apply lookup_insert_Some in Hj as [[<- <-]|[Hne Hj]]; [by repeat split; auto|].
    rewrite lookup_insert_ne in Hj by done.
    apply lookup_singleton_Some in Hj as [<- <-]. split_and!; [split; [by right|by left]|by right|by split]. }
  destruct (no_reports deleted_store eq_refl) as (Hc & Ha & Hb). split; [done| | |done|done|].
  - intros id j Hj. apply (H _ _ Hj).
  - intros id id' j j' k Hj Hj' _ Hk Hk'. destruct (H _ _ Hj) as (_ & [->|?] & _), (H _ _ Hj') as (_ & [->|?] & _); congruence.
  - intros id j Hj. apply (H _ _ Hj).
Qed.

Lemma deleted_key_blocks_create_witness :
  ensures (Hs := reliable_memory)
    (create (config_of prod_parsed) (js "alice") (mkCreateJobDto (js "A")) (Some (js "key")))
    (mkMemory deleted_store quiet) (λ r s', ∃ e, r = inl e ∧ prisma_error "P2002" e).
Proof.
  edestruct (deleted_key_blocks_create (Hs := reliable_memory) (config_of prod_parsed) (js "alice")
    (mkCreateJobDto (js "A")) (js "key") (js "j1") doomed_job (mkMemory deleted_store quiet))
    as (_ & e & He & [Hp|[Hf _]]); [| | | | | | |exists e; split; [exact He|exact Hp]|discriminate Hf].
  - exact deleted_store_integrity.
  - reflexivity.
  - exists (mkUser (js "a") None). apply lookup_insert_eq.
  - apply lookup_insert_eq.
  - reflexivity.
  - reflexivity.
  - by exists 9%Z.
Defined.

(** ** Requesting the processing of a job *)

(** C21: Requesting the processing of a live job.  A job that is READY or already
    in the pipeline is shown and neither its row nor the queue changes.  Any other
    job needs its audio in the store (else 400 and no change): then its row is
    QUEUED with its error cleared, and the queue holds exactly one entry for it,
    de-duplicated as enqueueing promises.  No other job or queue entry changes.
    A failure of a service leaves everything as it was, or the job QUEUED with
    the queue's part of the request undone, half done or done. *)
Theorem process_queues_once `{Hs : Services} cfg u id j w :
  live_job (view w) u id = Some j →
  ensures (process cfg u id) w (λ r s',
    match r with
    | inr d =>
        if bool_decide (job_status j = READY) || in_flight (job_status j)
        then jobs s' = jobs (view w) ∧ queue s' = queue (view w) ∧ dto_status d = job_status j
        else is_Some (objects (view w) !! audio_of u id j)
             ∧ dto_status d = QUEUED ∧ dto_errorMessage d = None
             ∧ (∃ t, jobs s' = <[id := started_job t j]> (jobs (view w)))
             ∧ queue s' = ProcessingQueue.enqueued cfg (mkProcessJobData id u) (view w)
             ∧ is_Some (queue s' !! id)
    | inl e =>
        s' = view w ∧ startable j ∧ objects (view w) !! audio_of u id j = None
          ∧ e = BadRequestException (js "Audio has not been uploaded yet.")
        ∨ faults = true ∧ infra e ∧ (s' = view w ∨ process_stuck cfg u id (view w) s')
    end).
Proof.
  intros Hl. apply ensures_wp. eapply wp_mono; [apply process_spec|]. intros [e|d] s'.
  - intros [[-> [[[? ?]|[Hn _]]|(j' & Hj' & Hst & Ha & ->)]]|(? & ? & ?)]; [by right; auto|congruence| |by right; auto].
    rewrite Hl in Hj'. injection Hj' as <-. by left.
  - intros (x & (Hid & Hx & _) & Hok). rewrite Hl in Hx. injection Hx as ->.
    destruct Hok as [[Hr Hsh]|[(Hfl & -> & ->)|((Hnr & Hfl) & Ha & t & secs & _ & _ & -> & ->)]].
    + rewrite bool_decide_true by done. simpl. unfold shown in Hsh.
      destruct (pdf_ready _); [destruct Hsh as (url & -> & ->)|destruct Hsh as [-> ->]]; done.
    + by rewrite Hfl, orb_true_r.
    + rewrite bool_decide_false, Hfl by done. simpl. split_and!; try done; [by exists t|].
      unfold ProcessingQueue.enqueued. simpl.
      destruct (queue (view w) !! id) as [b|] eqn:Hq; [case_match|];
        rewrite ?lookup_insert_eq, ?Hq; by eexists.
Qed.

(** Alice's draft with its audio uploaded. *)
Definition uploaded_store : Store :=
  with_objects {[MediaService.audioKey (js "alice") (js "j1") := mkStoredObject [1%N] AUDIO_CONTENT_TYPE]} two_users.

Lemma process_queues_once_witness :
  ensures (Hs := reliable_memory) (process (config_of prod_parsed) (js "alice") (js "j1"))
    (mkMemory uploaded_store quiet) (λ r s', is_Some (queue s' !! js "j1")).
Proof.
  assert (live_job uploaded_store (js "alice") (js "j1") = Some (draft "alice" "j1")) as Hl by reflexivity.
  pose proof (process_queues_once (Hs := reliable_memory) (config_of prod_parsed) (js "alice") (js "j1")
                (draft "alice" "j1") (mkMemory uploaded_store quiet) Hl) as H.
  unfold ensures in *. revert H.
  destruct (exec _ _ _) as [[e|d] m] eqn:He; [vm_compute in He; discriminate He|].
  intros (_ & _ & _ & _ & _ & H). exact H.
Defined.


(** The fourth call of the request, the probe of the queue, fails. *)
Definition queue_down : Script := mkScript [] [] [] [] [false; false; false; true].
Definition stuck_world : memory :=
  (exec (mem_handle true) (process (config_of prod_parsed) (js "alice") (js "j1"))
     (mkMemory uploaded_store queue_down)).2.


(** The PDF endpoint answers exactly for the READY jobs of the user that have
    a PDF: the URL it returns has just been issued as a GET of that job's PDF with
    the configured lifetime; for the user's other jobs it answers 409, and nothing
    changes. *)
Theorem pdf_url_only_when_ready `{Hs : Services} cfg u id j w :
  live_job (view w) u id = Some j →
  ensures (getPdfUrl cfg u id) w (λ r s',
    match r with
    | inr d => ∃ key, job_status j = READY ∧ job_pdfKey j = Some key ∧ key ≠ []
        ∧ pdf_expiresInSeconds d = presignGetTtl (cfg_r2 cfg)
        ∧ presigned s' = presigned (view w)
            ++ [mkPresigned (pdf_url d) GET key (presignGetTtl (cfg_r2 cfg))]
    | inl e => s' = view w
        ∧ (faults = true ∧ infra e
           ∨ e = ConflictException (js "PDF is not ready for this job.")
             ∧ (job_status j ≠ READY ∨ job_pdfKey j = None ∨ job_pdfKey j = Some []))
    end).
Proof.
  intros Hl. apply ensures_wp. eapply wp_mono; [apply getPdfUrl_spec|]. intros [e|d] s'.
  - intros [-> Hr]. split; [done|]. destruct Hr as [[?|[Hn _]]|(j' & Hj' & Hp & ->)]; [by left|congruence|].
    rewrite Hl in Hj'. injection Hj' as <-. right. split; [done|]. unfold pdf_ready in Hp.
    destruct (job_status j); try (by left). right.
    destruct (job_pdfKey j) as [[|c k]|]; [by right|done|by left].
  - intros (j' & key & Hj' & Hp & Httl & ->). rewrite Hl in Hj'. injection Hj' as <-. exists key.
    unfold pdf_ready in Hp. destruct (job_status j); try done.
    destruct (job_pdfKey j) as [[|c k]|]; simplify_eq/=; done.
Qed.

Definition ready_job : Job :=
  mkJob (js "alice") (js "House") READY None None (Some (MediaService.pdfKey (js "alice") (js "j1")))
    None None 7 7 None.

Lemma pdf_url_only_when_ready_witness :
  let w := mkMemory (with_jobs {[js "j1" := ready_job]} empty_store) quiet in
  ensures (Hs := reliable_memory) (getPdfUrl (config_of prod_parsed) (js "alice") (js "j1")) w
    (λ r s', ∀ d, r = inr d →
       pdf_expiresInSeconds d = presignGetTtl (cfg_r2 (config_of prod_parsed))).
Proof.
  intros w. assert (live_job (m_store w) (js "alice") (js "j1") = Some ready_job) as Hl by reflexivity.
  pose proof (pdf_url_only_when_ready (Hs := reliable_memory) (config_of prod_parsed) (js "alice") (js "j1")
                ready_job w Hl) as H.
  unfold ensures in *. destruct (exec _ _ _) as [[e|d0] m]; [discriminate|].
  intros d [= <-]. destruct H as (key & _ & _ & _ & H & _). exact H.
Defined.

(** ** Deleting jobs *)

(** A delete that returns has marked the user's live job as deleted, keeping
    the rest of its row, and its audio and PDF are gone from the store unless the
    store failed (which the delete survives); reading the job afterwards never
    succeeds. *)
Theorem deleted_job_is_gone `{Hs : Services} cfg u id w :
  ensures (remove u id;; findOne cfg u id) w (λ r s',
    ∃ e, r = inl e
      ∧ (untouched (view w) s'
         ∨ (e = NotFoundException (js "Job not found.") ∨ faults = true ∧ infra e)
           ∧ ∃ j now t, live_job (view w) u id = Some j
               ∧ jobs s' = <[id := deleted_job now t j]> (jobs (view w))
               ∧ ((∀ k, k ∈ job_object_keys j → objects s' !! k = None) ∨ faults = true))).
Proof.
  apply ensures_wp. wp_focus. eapply wp_mono; [apply remove_spec|]. intros [e|[]] s1.
  { intros [Hu _]. exists e. auto. }
  intros (j & now & t & Hl & _ & Hs1).
  assert (jobs s1 = <[id := deleted_job now t j]> (jobs (view w))) as Hj by (by destruct Hs1 as [->|[-> _]]).
  assert (live_job s1 u id = None) as Hn.
  { unfold live_job. rewrite Hj, lookup_insert_eq. by rewrite bool_decide_false by (by intros [_ ?]). }
  assert ((∀ k, k ∈ job_object_keys j → objects s1 !! k = None) ∨ faults = true) as Ho.
  { destruct Hs1 as [->|[-> [?|Hk]]]; [left|by right|left; rewrite Hk; by intros k ?%not_elem_of_nil].
    intros k Hk. apply map_lookup_filter_None. right. intros o _ Hnk. apply Hnk. simpl.
    apply list_elem_of_filter. split; [|done].
    unfold job_object_keys in Hk. apply list_elem_of_omap in Hk as ([[|c k']|] & _ & Hk); simplify_eq/=. lia. }
  eapply wp_mono; [apply findOne_spec|]. intros [e|d] s2.
  - intros [-> He]. exists e. split; [done|]. right. split; [|by exists j, now, t].
    destruct He as [?|[_ ?]]; auto.
  - intros (x & (_ & Hx & _) & _). congruence.
Qed.

(** ** Pagination *)

Lemma user_jobs_unique s u f1 f2 : user_jobs s u f1 → user_jobs s u f2 → f1 = f2.
Proof.
  intros (Hn1 & H1 & Hs1) (Hn2 & H2 & Hs2).
  apply (StronglySorted_unique_strong page_le); [|exact Hs1|exact Hs2|].
  - intros [i1 j1] [i2 j2] Hi1 Hi2 H12 H21. apply H1 in Hi1. apply H2 in Hi2.
    unfold page_le, page_before in *. simpl in *.
    assert (job_createdAt j1 = job_createdAt j2) as Hc by lia.
    assert (i1 = i2) as ->; [|congruence].
    apply jstr_ltb_total.
    + apply not_true_iff_false. intros ?. apply H12. right. split; [lia|done].
    + apply not_true_iff_false. intros ?. apply H21. right. split; [lia|done].
  - apply NoDup_Permutation; [by apply NoDup_ListNoDup..|]. intros [i j]. by rewrite <- !list_elem_of_In, H1, H2.
Qed.

Lemma user_jobs_ids s u full : user_jobs s u full → NoDup full.*1.
Proof.
  intros (Hn & Hf & _). apply NoDup_fmap_2_strong; [|done].
  intros [i j] [i' j'] Hi%Hf Hi'%Hf Heq. simpl in Heq. congruence.
Qed.

Lemma find_by_id (full : Datatypes.list (jstr * Job)) m p :
  NoDup full.*1 → full !! m = Some p → list_find (λ q, q.1 = p.1) full = Some (m, p).
Proof.
  intros Hn Hm. apply list_find_Some. split_and!; [done|done|].
  intros i q Hi Hlt Heq. assert (i = m); [|lia].
  eapply (NoDup_lookup full.*1); [done|by rewrite list_lookup_fmap, Hi|by rewrite list_lookup_fmap, Hm, Heq].
Qed.

(** Reading page after page, as a client follows [nextCursor]. *)
Fixpoint all_pages (u : jstr) (limit : nat) (cursor : option jstr) (fuel : nat)
    : prog eff (Datatypes.list JobDto) :=
  match fuel with
  | 0 => Ret []
  | S fuel =>
      p <- list u cursor limit;;
      match nextCursor p with
      | None => Ret (items p)
      | Some c => rest <- all_pages u limit (Some c) fuel;; Ret (items p ++ rest)
      end
  end.

(** A cursor stands for the position behind its job. *)
Definition cursor_at (full : Datatypes.list (jstr * Job)) (cursor : option jstr) (m : nat) : Prop :=
  match cursor with
  | None => m = 0
  | Some c => ∃ k p, m = S k ∧ full !! k = Some p ∧ p.1 = c
  end.

Lemma page_at s u full cursor m limit rows :
  user_jobs s u full → Forall (λ p, truthy p.1 = true) full → cursor_at full cursor m →
  page_of full limit (truthy_opt cursor) rows → rows = take limit (drop m full).
Proof.
  intros Hf Ht Hc Hp. destruct cursor as [c|]; simpl in *.
  - destruct Hc as (k & p & -> & Hk & <-). rewrite Forall_forall in Ht.
    rewrite (Ht p) in Hp by by eapply list_elem_of_lookup_2.
    unfold page_of in Hp. by rewrite (find_by_id full k p (user_jobs_ids _ _ _ Hf) Hk) in Hp.
  - by subst m.
Qed.

Lemma all_pages_spec `{Cr : Crypto} f u limit full s :
  0 < limit → user_jobs s u full → Forall (λ p, truthy p.1 = true) full →
  ∀ fuel cursor m, cursor_at full cursor m → length full - m < fuel →
  wp (eff_contract f) (all_pages u limit cursor fuel) s (λ r s', s' = s ∧
    match r with
    | inr ds => dto_id <$> ds = (drop m full).*1
    | inl e => f = true ∧ infra e
    end).
Proof.
  intros Hlim Hf Ht fuel. induction fuel as [|fuel IH]; intros cursor m Hc Hlt; [lia|]. cbn [all_pages].
  wp_focus. eapply wp_mono; [apply list_spec|]. intros [e|p] s1 [-> H].
  { split; [done|]. destruct H as [?|?]; [done|lia]. }
  destruct H as (full' & rows & Hf' & Hpg & _ & Hit & Hnext).
  rewrite (user_jobs_unique _ _ _ _ Hf' Hf) in Hpg. clear full' Hf'.
  apply (page_at s u full cursor m) in Hpg; [|done..].
  assert (dto_id <$> items p = (take limit (drop m full)).*1) as Hids.
  { rewrite Hit, <- Hpg, <- !list_fmap_compose. by apply list_fmap_ext. }
  assert (length rows = length (take limit (drop m full))) as Hlen.
  { by rewrite <- Hpg, length_fmap. }
  rewrite length_take, length_drop in Hlen. case_bool_decide as Hfull.
  - destruct (last rows) as [x|] eqn:Hx; [|apply last_None in Hx; subst rows; simpl in *; lia].
    rewrite Hnext. cbn [fmap option_fmap option_map].
    assert (cursor_at full (Some (jwr_id x)) (m + limit)) as Hc'.
    { exists (m + limit - 1), (jwr_id x, jwr_job x). split_and!; [lia| |done].
      rewrite last_lookup in Hx.
      assert (((λ x, (jwr_id x, jwr_job x)) <$> rows) !! (limit - 1) = Some (jwr_id x, jwr_job x)) as Hr.
      { rewrite list_lookup_fmap. replace (limit - 1) with (pred (length rows)) by lia. by rewrite Hx. }
      rewrite Hpg, lookup_take_Some, lookup_drop in Hr. destruct Hr as [Hr _].
      rewrite <- Hr. f_equal. lia. }
    wp_focus. eapply wp_mono; [apply (IH _ _ Hc'); lia|]. intros [e|ds] s2 [-> Hds]; [done|].
    wp_simpl. split; [done|]. rewrite fmap_app, Hids, Hds, <- fmap_app. f_equal.
    rewrite <- drop_drop. apply take_drop.
  - rewrite Hnext. wp_simpl. split; [done|]. rewrite Hids. f_equal. apply take_ge.
    rewrite length_drop. lia.
Qed.

(** C18: Following [nextCursor] from the first page, with any page size and enough
    pages, shows every live job of the user exactly once, newest first, and
    terminates: no job is skipped or repeated at a page boundary, also among
    jobs created in the same millisecond. *)
Theorem pagination_is_complete `{Hs : Services} u limit fuel w :
  0 < limit → (∀ id j, live_job (view w) u id = Some j → id ≠ []) →
  size (jobs (view w)) < fuel →
  ensures (all_pages u limit None fuel) w (λ r s',
    match r with
    | inr ds => ∃ full, user_jobs (view w) u full ∧ dto_id <$> ds = full.*1
    | inl e => faults = true ∧ infra e
    end).
Proof.
  intros Hlim Hne Hfuel. apply ensures_wp. set (s := view w) in *.
  set (full := merge_sort page_le (filter (λ p, live_job s u p.1 = Some p.2) (map_to_list (jobs s)))).
  assert (full ≡ₚ filter (λ p, live_job s u p.1 = Some p.2) (map_to_list (jobs s))) as Hp
    by apply merge_sort_Permutation.
  assert (user_jobs s u full) as Hf.
  { split_and!.
    - rewrite Hp. apply NoDup_filter, NoDup_map_to_list.
    - intros id j. rewrite Hp, list_elem_of_filter, elem_of_map_to_list. simpl.
      split; [by intros [? _]|]. intros Hl. split; [done|]. by apply live_job_jobs in Hl as [? _].
    - pose proof page_le_trans. assert (Total page_le) by (intros ??; apply page_before_total).
      change (StronglySorted page_le full). apply StronglySorted_merge_sort; apply _. }
  eapply wp_mono.
  - apply (all_pages_spec _ u limit full s Hlim Hf) with (m := 0); [|done|].
    + apply Forall_forall. intros [id j] Hin. apply truthy_true. apply Hf in Hin. by eapply Hne.
    + rewrite Hp. pose proof (length_filter (λ p, live_job s u p.1 = Some p.2) (map_to_list (jobs s))).
      rewrite length_map_to_list in *. lia.
  - intros [e|ds] s' [-> Hr]; [done|]. exists full. split; [done|]. by rewrite drop_0 in Hr.
Qed.

Lemma pagination_is_complete_witness :
  ensures (Hs := reliable_memory) (all_pages (js "alice") 1 None 3) (mkMemory two_users quiet)
    (λ r s', ∃ ds full, r = inr ds ∧ user_jobs two_users (js "alice") full ∧ dto_id <$> ds = full.*1).
Proof.
  pose proof (pagination_is_complete (Hs := reliable_memory) (js "alice") 1 3 (mkMemory two_users quiet)) as H.
  unfold ensures in *. revert H. destruct (exec _ _ _) as [[e|ds] m]; intros H.
  - destruct H as [H _]; [lia| | |discriminate H].
    + intros id j [Hj _]%live_job_jobs ->. vm_compute in Hj. discriminate Hj.
    + vm_compute. lia.
  - destruct H as (full & Hf & Hd); [lia| | |by exists ds, full].
    + intros id j [Hj _]%live_job_jobs ->. vm_compute in Hj. discriminate Hj.
    + vm_compute. lia.
Defined.

(** [nextCursor] is null exactly when the page is short: a page that ends at
    the last job still carries a cursor, whose page is empty. *)
Theorem next_cursor_null_iff_short_page `{Hs : Services} u cursor limit w :
  0 < limit →
  ensures (list u cursor limit) w (λ r s',
    ∀ p, r = inr p → length (items p) ≤ limit ∧ (nextCursor p = None ↔ length (items p) < limit)).
Proof.
  intros Hlim. apply ensures_wp. eapply wp_mono; [apply list_spec|]. intros r s' [_ Hr] p ->.
  destruct Hr as (full & rows & _ & Hpg & _ & -> & Hn). rewrite length_fmap, Hn.
  assert (length rows ≤ limit) as Hle.
  { unfold page_of in Hpg. destruct (truthy_opt cursor) as [c|].
    - destruct (list_find _ full) as [[k q]|].
      + apply (f_equal length) in Hpg. rewrite length_fmap, length_take in Hpg. lia.
      + destruct Hpg as [_ Hpg]. by rewrite length_fmap in Hpg.
    - apply (f_equal length) in Hpg. rewrite length_fmap, length_take in Hpg. lia. }
  split; [done|]. case_bool_decide as Hf; [|split; [lia|done]].
  split; [|lia]. destruct (last rows) eqn:Hl; [done|]. apply last_None in Hl as ->. simpl in *. lia.
Qed.

Lemma next_cursor_null_iff_short_page_witness :
  ensures (Hs := reliable_memory) (list (js "alice") None 1) (mkMemory two_users quiet)
    (λ r s', ∀ p, r = inr p → length (items p) ≤ 1).
Proof.
  pose proof (next_cursor_null_iff_short_page (Hs := reliable_memory) (js "alice") None 1
                (mkMemory two_users quiet) (le_n 1)) as H.
  intros p Hp. exact (proj1 (H p Hp)).
Defined.
