(* ===== verification/Transcription.v ===== *)
(** * Transcription

    [server/src/processing/transcription]: the provider interface, the Deepgram,
    OpenAI and mock providers, the module's choice among them and the service
    that owns the empty-transcript rule. *)
From S2P Require Import Prelude Json Program Schema Services Memory Config.

Record TranscriptionOptions := mkTranscriptionOptions {
  opt_language : option jstr;
  opt_filename : option jstr;
}.

(** What a provider of AI results may do to the services' state: nothing, at any
    of its awaits, whatever else runs meanwhile.  It fails with a service's error
    or with an [Error] of its own, neither of which is marked permanent. *)
Definition pure_call `{Cr : Crypto} {A} (p : prog eff A) : Prop :=
  ∀ f, inert (eff_contract f) p (λ r,
    match r with inl e => f = true ∧ infra e ∨ ∃ m, e = JsError m | inr _ => True end).

Lemma pure_call_wpg `{Cr : Crypto} {A} (p : prog eff A) f s :
  pure_call p → wpg (eff_contract f) (λ s s', s' = s) p s (λ r s',
    s' = s ∧ match r with inl e => f = true ∧ infra e ∨ ∃ m, e = JsError m | inr _ => True end).
Proof. intros Hp. apply inert_wpg, Hp. Qed.

(** The interface of [transcription-provider.interface.ts]. *)
Class TranscriptionProvider `{Cr : Crypto} := {
  provider_transcribe : list N → TranscriptionOptions → prog eff jstr;
  provider_transcribe_pure : ∀ audio opts, pure_call (provider_transcribe audio opts);
}.

(** ** The providers *)
Module TranscriptionProviders.
Definition deepgram_text (r : DeepgramResponse) : jstr :=
  default [] (
    res ← deepgram_result r;
    results ← results res;
    chans ← channels results;
    chan ← head chans;
    alts ← alternatives chan;
    alt ← head alts;
    transcript alt).

Definition deepgram_transcribe (model : jstr) (audio : list N) (opts : TranscriptionOptions)
    : prog eff jstr :=
  r <- await (DeepgramTranscribe audio model (default (js "en") (opt_language opts)));;
  match deepgram_error r with
  | Some message => Throw (JsError (js "Deepgram transcription failed: " ++ message))
  | None => Ret (trim (deepgram_text r))
  end.

(** The SDK's answer is a plain string ([Some]) or something else. *)
Definition openai_transcribe (model : jstr) (audio : list N) (opts : TranscriptionOptions)
    : prog eff jstr :=
  response <- await (OpenAiTranscribe audio (default (js "audio.m4a") (opt_filename opts)) model
                       (opt_language opts));;
  Ret (trim (default [] response)).

Definition em_dash : jstr := [8212%N].

Definition SAMPLE_TRANSCRIPT : jstr := join (js " ") [
  js "Alright, starting the inspection at the front of the property.";
  js "The roof is asphalt shingle, looks to be about fifteen years old. I see some granule loss on the south-facing slope and two shingles are lifted near the ridge. That's going to need repair before the next winter.";
  js "Gutters are full of debris and the downspout on the northeast corner is disconnected, so water is draining right against the foundation. Recommend cleaning the gutters and reattaching the downspout " ++ em_dash ++ js " maintenance item.";
  js "Moving to the exterior siding. Vinyl siding is in good condition overall, just some minor fading on the west wall, nothing structural.";
  js "At the electrical panel in the garage. It's a 200 amp panel, looks modern. However there's a double-tapped breaker on circuit twelve, that's a safety concern and should be corrected by a licensed electrician.";
  js "The water heater is a forty gallon gas unit, manufactured 2016. No TPR discharge pipe installed on the relief valve " ++ em_dash ++ js " that's a safety issue, needs a proper discharge line.";
  js "In the kitchen, the GFCI outlets near the sink are working and tripping correctly. Dishwasher runs fine. Under the sink there's a small active leak at the P-trap, minor but should be repaired.";
  js "Upstairs bathroom, the exhaust fan vents into the attic instead of outside, which can cause moisture problems. Recommend rerouting to an exterior vent.";
  js "Attic insulation is adequate, blown-in fiberglass, no signs of pest activity. Some daylight visible at the roof penetration around the plumbing vent, minor air sealing recommended.";
  js "Basement is dry, no efflorescence on the walls. The sump pump tested fine. Furnace is a high-efficiency unit serviced this year per the tag.";
  js "Overall the home is in serviceable condition with a few safety items to address. That concludes the walkthrough."].

Definition drain (stream : list N) : prog eff unit := await (DrainStream stream).

Definition mock_transcribe (audio : list N) (opts : TranscriptionOptions) : prog eff jstr :=
  drain audio;; Ret SAMPLE_TRANSCRIPT.

Section Laws.
Context `{Cr : Crypto}.

(** A call that only reads, followed by a local computation. *)
Lemma pure_await {X A} (c : call X) (k : X → prog eff A) :
  (∀ f s r s', call_contract f X c s r s' →
     s' = s ∧ match r with inl e => f = true ∧ infra e | inr _ => True end) →
  (∀ x, match k x with Ret _ => True | Throw e => ∃ m, e = JsError m | Vis _ _ => False end) →
  pure_call (x <- await c;; k x).
Proof.
  intros Hc Hk f s r s' HC. destruct (Hc _ _ _ _ HC) as [-> Hr]. split; [done|].
  destruct r as [e|x]; cbn [bind inert]; [by auto|]. specialize (Hk x).
  destruct (k x); cbn [inert]; [by auto..|done].
Qed.

Lemma deepgram_pure model audio opts : pure_call (deepgram_transcribe model audio opts).
Proof.
  apply pure_await.
  - intros f s r s' [(-> & x & -> & _)|(Hf & -> & e & -> & He)]; auto.
  - intros x. destruct (deepgram_error x); [by eexists|done].
Qed.

Lemma openai_pure model audio opts : pure_call (openai_transcribe model audio opts).
Proof.
  apply pure_await; [|done].
  intros f s r s' [(-> & x & -> & _)|(Hf & -> & e & -> & He)]; auto.
Qed.

Lemma mock_transcribe_pure audio opts : pure_call (mock_transcribe audio opts).
Proof.
  apply pure_await; [|done].
  intros f s r s' [(-> & x & -> & _)|(Hf & -> & e & -> & He)]; auto.
Qed.

(** ** The module's choice *)
Definition DeepgramTranscriptionProvider (model : jstr) : TranscriptionProvider :=
  {| provider_transcribe := deepgram_transcribe model; provider_transcribe_pure := deepgram_pure model |}.
Definition OpenAiTranscriptionProvider (model : jstr) : TranscriptionProvider :=
  {| provider_transcribe := openai_transcribe model; provider_transcribe_pure := openai_pure model |}.
Definition MockTranscriptionProvider : TranscriptionProvider :=
  {| provider_transcribe := mock_transcribe; provider_transcribe_pure := mock_transcribe_pure |}.

Definition transcription_provider (cfg : AppConfig) : TranscriptionProvider :=
  if useMock (cfg_ai cfg) then MockTranscriptionProvider
  else if bool_decide (transcriptionProvider (cfg_ai cfg) = openai)
  then OpenAiTranscriptionProvider (openaiTranscribeModel (cfg_ai cfg))
  else DeepgramTranscriptionProvider (deepgramModel (cfg_ai cfg)).
End Laws.
End TranscriptionProviders.

(** ** The service *)
Module TranscriptionService.
Section Service.
Context `{Cr : Crypto} {P : TranscriptionProvider}.

Definition transcribe (audio : list N) (opts : TranscriptionOptions) : prog eff jstr :=
  text <- provider_transcribe audio opts;;
  let trimmed := trim text in
  if bool_decide (length trimmed = 0) then Throw EmptyTranscriptError else Ret trimmed.

Lemma transcribe_spec f audio opts s :
  wpg (eff_contract f) (λ s s', s' = s) (transcribe audio opts) s (λ r s', s' = s ∧
    match r with
    | inr t => t ≠ [] ∧ trim t = t
    | inl e => f = true ∧ infra e ∨ (∃ m, e = JsError m) ∨ e = EmptyTranscriptError
    end).
Proof.
  unfold transcribe. wpg_focus. eapply wpg_mono; [apply pure_call_wpg, provider_transcribe_pure|].
  intros [e|text] s' [-> Hr]; [split; [done|]; destruct Hr; auto|].
  case_bool_decide as Hl; simpl; (split; [done|]); [by auto|].
  split; [intros Ht; by rewrite Ht in Hl|apply trim_idemp].
Qed.
End Service.

(** With any provider, a transcript that is returned is trimmed and not
    empty; a silent recording, whatever white space the provider answers, ends
    in the permanent [EmptyTranscriptError]; and transcribing never changes the
    state of the services. *)
Theorem transcripts_are_never_blank `{Hs : Services} {P : TranscriptionProvider} audio opts w :
  ensures (transcribe audio opts) w (λ r s', s' = view w ∧
    match r with
    | inr t => t ≠ [] ∧ trim t = t
    | inl e => e = EmptyTranscriptError ∨ (∃ m, e = JsError m) ∨ faults = true ∧ infra e
    end)
  ∧ ∀ h w' text, exec h (provider_transcribe audio opts) w = (inr text, w') → trim text = [] →
      exec h (transcribe audio opts) w = (inl EmptyTranscriptError, w').
Proof.
  split.
  - apply ensures_wp. eapply wpg_wp, wpg_mono; [apply transcribe_spec|].
    intros [e|t] s' [-> Hr]; (split; [done|]); [|done]. destruct Hr as [?|[?|?]]; auto.
  - intros h w' text He Ht. unfold transcribe. rewrite exec_bind, He. cbn beta zeta. by rewrite Ht.
Qed.

(** A provider that hears only white space. *)
Definition silent `{Cr : Crypto} : TranscriptionProvider :=
  {| provider_transcribe := λ _ _, Ret (js "   ");
     provider_transcribe_pure := λ _ _ _, I |}.

Lemma transcripts_are_never_blank_witness :
  ensures (Hs := reliable_memory) (transcribe (P := silent) [] (mkTranscriptionOptions None None))
    (mkMemory empty_store quiet) (λ r s', r = inl EmptyTranscriptError).
Proof.
  pose proof (proj2 (transcripts_are_never_blank (Hs := reliable_memory) (P := silent) []
    (mkTranscriptionOptions None None) (mkMemory empty_store quiet)) (mem_handle false)
    (mkMemory empty_store quiet) (js "   ") eq_refl eq_refl) as H.
  unfold ensures. exact (f_equal fst H).
Defined.
End TranscriptionService.
