(* ===== verification/Compiler.v ===== *)
(** * Report compilation

    [server/src/processing/compiler]: the prompts, the report schema, the
    DeepSeek and mock providers and the service that owns validation, the single
    retry and normalization. *)
From S2P Require Import Prelude Json Program Schema Services Memory JsDate Report Zod Config Transcription.

(** [JSON.parse], when the text is JSON with integer numbers. *)
Class JsonParser := { json_parse : jstr → option json }.

Record CompileInput := mkCompileInput { ci_label : jstr; ci_transcript : jstr }.

(** The interface of [report-compiler-provider.interface.ts]. *)
Class ReportCompilerProvider `{Cr : Crypto} := {
  provider_compile : CompileInput → option jstr → prog eff json;
  provider_compile_pure : ∀ input hint, pure_call (provider_compile input hint);
}.

(** ** Prompts *)
Module Prompts.
Definition newline : jstr := [10%N].
Definition arrow : jstr := [8594%N].
Definition quotes3 : jstr := jsq "```".

Definition REPORT_SYSTEM_PROMPT : jstr := join newline [
  js "You are a report compiler for professional home inspectors. You convert a raw,";
  js "spoken inspection walkthrough transcript into a clean, structured inspection report.";
  [];
  js "ABSOLUTE RULES " ++ [8212%N] ++ js " these override everything else:";
  js "1. Never invent, infer, or embellish findings. Every finding MUST be grounded in";
  js "   something the inspector actually said in the transcript. If it was not said, it";
  js "   does not go in the report.";
  js "2. Do not add boilerplate, recommendations, code citations, or standard disclaimers";
  js "   that the inspector did not speak.";
  js "3. Group findings under clear, conventional section headings (e.g. Roof, Exterior,";
  js "   Electrical, Plumbing, HVAC, Kitchen, Bathrooms, Attic, Basement, Foundation,";
  js "   Interior). Use only the sections the transcript actually covers; omit empty ones.";
  js "4. Each finding is ONE discrete observation with exactly ONE severity:";
  js "   - info: a neutral observation or something in good/serviceable condition.";
  js "   - maintenance: routine upkeep, cleaning, or servicing recommended.";
  js "   - repair: a defect that needs correction but is not an immediate hazard.";
  js "   - safety: a condition that poses a hazard to occupants and needs prompt attention.";
  js "5. Paraphrase concisely and professionally; preserve the inspector's meaning and any";
  js "   specifics they gave (locations, ages, measurements). Do not contradict the transcript.";
  js "6. Order sections in a logical inspection sequence (exterior " ++ arrow ++ js " systems "
    ++ arrow ++ js " interior) and";
  js "   order findings within a section by severity, most severe first.";
  [];
  js "Return the report ONLY by calling the provided tool. Do not write prose."].

Definition buildReportUserPrompt (label transcript : jstr) : jstr :=
  let property := if bool_decide (0 < length (trim label)) then trim label
                  else js "the inspected property" in
  join newline [
    js "Property / job label: " ++ property;
    [];
    js "Inspection walkthrough transcript:";
    quotes3;
    trim transcript;
    quotes3;
    [];
    js "Compile this transcript into a structured inspection report by calling the";
    js "emit_inspection_report tool. Remember: include only what was actually said."].

Definition buildRepairHint (issues : jstr) : jstr :=
  join newline [
    js "Your previous tool call did not match the required schema and was rejected.";
    js "Problems found:";
    issues;
    [];
    js "Call the emit_inspection_report tool again with valid input. Every finding must";
    js "have non-empty text and a severity of exactly one of: info, maintenance, repair, safety."].
End Prompts.

(** ** The schema of a compiled report *)
Record CompiledFinding := mkCompiledFinding { cf_text : jstr; cf_severity : ApiSeverity }.
Record CompiledSection := mkCompiledSection { cs_title : jstr; cs_findings : list CompiledFinding }.
Record CompiledReport := mkCompiledReport { cr_sections : list CompiledSection }.

Module ReportSchema.
Open Scope zod_scope.

Definition compiledFindingSchema : ztype CompiledFinding :=
  ZObject (ZMake mkCompiledFinding
    .& "text" ::> ZString [CTrim; CMin 1; CMax 2000]
    .& "severity" ::> ZEnum ((λ v, (api_text v, v)) <$> API_SEVERITIES)).

Definition compiledSectionSchema : ztype CompiledSection :=
  ZObject (ZMake mkCompiledSection
    .& "title" ::> ZString [CTrim; CMin 1; CMax 200]
    .& "findings" ::> ZArray compiledFindingSchema (Some 200)).

Definition compiledReportSchema : ztype CompiledReport :=
  ZObject (ZMake mkCompiledReport
    .& "sections" ::> ZArray compiledSectionSchema (Some 100)).

Definition REPORT_TOOL_NAME : jstr := js "emit_inspection_report".

Definition text_type (description : jstr) : json :=
  JObj [(js "type", JStr (js "string")); (js "description", JStr description)].
Definition closed_object (properties : list (jstr * json)) (required : list string) : json :=
  JObj [(js "type", JStr (js "object")); (js "additionalProperties", JBool false);
        (js "properties", JObj properties);
        (js "required", JArr ((λ k, JStr (js k)) <$> required))].
Definition array_of (description : jstr) (items : json) : json :=
  JObj [(js "type", JStr (js "array")); (js "description", JStr description); (js "items", items)].

Definition reportToolInputSchema : json :=
  closed_object [(js "sections",
    array_of (js "Inspection sections, in the order they should appear in the report. Omit any section with no findings.")
      (closed_object
        [(js "title", text_type (jsq "Short section heading, e.g. `Roof`, `Electrical`, `Plumbing`."));
         (js "findings", array_of (js "Distinct observations stated in the transcript for this section.")
           (closed_object
             [(js "text", text_type (js "One observation, faithfully paraphrased from the transcript. Never invent details."));
              (js "severity", JObj [(js "type", JStr (js "string"));
                 (js "enum", JArr ((λ v, JStr (api_text v)) <$> API_SEVERITIES));
                 (js "description", JStr (js "info = neutral observation; maintenance = upkeep/cleaning; repair = needs fixing; safety = hazard to occupants."))])]
             ["text"; "severity"]))]
        ["title"; "findings"]))]
    ["sections"].
End ReportSchema.

(** ** The providers *)
Module CompilerProviders.
Import Prompts ReportSchema.

Definition report_request (model : jstr) (userText : jstr) : ChatRequest :=
  {| chat_model := model; chat_max_tokens := 4096; chat_temperature := 0;
     chat_messages := [(js "system", REPORT_SYSTEM_PROMPT); (js "user", userText)];
     chat_tool := REPORT_TOOL_NAME; chat_tool_schema := reportToolInputSchema;
     chat_tool_choice := REPORT_TOOL_NAME |}.

(** [choice?.message.tool_calls?.find(...)?.function.arguments], [None] when
    missing or empty. *)
Definition tool_input (choices : list Choice) : option jstr :=
  choice ← head choices;
  calls ← tool_calls choice;
  found ← snd <$> list_find (λ c, tool_name c = REPORT_TOOL_NAME) calls;
  if truthy (tool_arguments found) then Some (tool_arguments found) else None.

Definition deepseek_compile `{JsonParser} (model : jstr) (input : CompileInput)
    (repairHint : option jstr) : prog eff json :=
  let prompt := buildReportUserPrompt (ci_label input) (ci_transcript input) in
  let userText := match repairHint with
                  | Some hint => if truthy hint then prompt ++ newline ++ newline ++ hint else prompt
                  | None => prompt
                  end in
  choices <- await (ChatCompletion (report_request model userText));;
  match tool_input choices with
  | None => Throw (JsError (js "Report compiler did not return a tool call"))
  | Some raw =>
      match json_parse raw with
      | Some v => Ret v
      | None => Throw (JsError (js "Report compiler returned non-JSON tool arguments"))
      end
  end.

Definition finding_json (text : string) (severity : ApiSeverity) : json :=
  JObj [(js "text", JStr (js text)); (js "severity", JStr (api_text severity))].
Definition section_json (title : string) (fs : list json) : json :=
  JObj [(js "title", JStr (js title)); (js "findings", JArr fs)].

Definition mock_report : json :=
  JObj [(js "sections", JArr [
    section_json "Roof" [
      finding_json "Two shingles are lifted near the ridge; recommend repair before next winter." repair;
      finding_json "Asphalt shingle roof is approximately 15 years old with granule loss on the south-facing slope." maintenance];
    section_json "Gutters & Drainage" [
      finding_json "Downspout at the northeast corner is disconnected, draining water against the foundation. Reattach the downspout." repair;
      finding_json "Gutters are full of debris and should be cleaned." maintenance];
    section_json "Exterior" [
      finding_json "Vinyl siding is in good condition overall, with minor fading on the west wall. No structural concerns." info];
    section_json "Electrical" [
      finding_json "Double-tapped breaker on circuit twelve. Should be corrected by a licensed electrician." safety;
      finding_json "200 amp panel in the garage appears modern." info];
    section_json "Plumbing" [
      finding_json "Water heater relief valve has no TPR discharge pipe installed. A proper discharge line is required." safety;
      finding_json "Active leak at the P-trap under the kitchen sink should be repaired." repair;
      finding_json "Forty gallon gas water heater manufactured in 2016." info];
    section_json "Kitchen" [
      finding_json "GFCI outlets near the sink test and trip correctly; dishwasher runs without issue." info];
    section_json "Bathrooms" [
      finding_json "Upstairs bathroom exhaust fan vents into the attic instead of outside; reroute to an exterior vent to prevent moisture problems." repair];
    section_json "Attic" [
      finding_json "Daylight visible at the plumbing vent roof penetration; minor air sealing recommended." maintenance;
      finding_json "Blown-in fiberglass insulation is adequate with no signs of pest activity." info];
    section_json "Basement & HVAC" [
      finding_json "Basement is dry with no efflorescence; sump pump tested functional." info;
      finding_json "High-efficiency furnace was serviced this year per the service tag." info]])].

Definition mock_compile (input : CompileInput) (repairHint : option jstr) : prog eff json :=
  Ret mock_report.

Section Laws.
Context `{Cr : Crypto}.

Lemma deepseek_pure `{JsonParser} model input hint : pure_call (deepseek_compile model input hint).
Proof.
  apply TranscriptionProviders.pure_await.
  - intros f s r s' [(-> & x & -> & _)|(Hf & -> & e & -> & He)]; auto.
  - intros x. destruct (tool_input x); [|by eexists]. destruct (json_parse _); [done|by eexists].
Qed.

Lemma deepseek_one_call `{JsonParser} model input hint : calls_at_most 1 (deepseek_compile model input hint).
Proof.
  unfold deepseek_compile. apply (calls_at_most_bind _ _ 1 0); [by intros [e|x]|].
  intros choices. destruct (tool_input choices) as [raw|]; [|done]. by destruct (json_parse raw).
Qed.

Lemma mock_compile_pure input hint : pure_call (mock_compile input hint).
Proof. by intros f. Qed.

Definition DeepSeekReportCompiler `{JsonParser} (model : jstr) : ReportCompilerProvider :=
  {| provider_compile := deepseek_compile model; provider_compile_pure := deepseek_pure model |}.
Definition MockReportCompiler : ReportCompilerProvider :=
  {| provider_compile := mock_compile; provider_compile_pure := mock_compile_pure |}.

Definition report_compiler_provider `{JsonParser} (cfg : AppConfig) : ReportCompilerProvider :=
  if useMock (cfg_ai cfg) then MockReportCompiler
  else DeepSeekReportCompiler (reportModel (cfg_ai cfg)).
End Laws.
End CompilerProviders.

(** ** The service *)
Module ReportCompilerService.
Import Prompts ReportSchema.

Definition SEVERITY_RANK (v : Severity) : Z :=
  match v with SAFETY => 0 | REPAIR => 1 | MAINTENANCE => 2 | INFO => 3 end.

Definition normalize_finding (x : CompiledFinding) : ReportFindingInput :=
  mkFindingInput (trim (cf_text x)) (severityFromApi (cf_severity x)).
Definition normalize_section (x : CompiledSection) : ReportSectionInput :=
  mkSectionInput (trim (cs_title x))
    (sortOn (λ y, SEVERITY_RANK (fi_severity y))
       (filter (λ y, 0 < length (fi_text y)) (normalize_finding <$> cs_findings x))).
Definition normalize (sections : list CompiledSection) : list ReportSectionInput :=
  filter (λ x, 0 < length (si_title x) ∧ 0 < length (si_findings x)) (normalize_section <$> sections).

Definition formatIssues (issues : list ZodIssue) : jstr :=
  join newline ((λ i, let p := join (js ".") (issue_path i) in
    js "- " ++ (if truthy p then p else js "(root)") ++ js ": " ++ issue_message i) <$> take 12 issues).

Section Service.
Context `{Cr : Crypto} {P : ReportCompilerProvider} `{Zo : Zod}.

Definition compile (input : CompileInput) : prog eff (list ReportSectionInput) :=
  first <- provider_compile input None;;
  match safeParse compiledReportSchema first with
  | inr data => Ret (normalize (cr_sections data))
  | inl issues =>
      let hint := buildRepairHint (formatIssues issues) in
      second <- provider_compile input (Some hint);;
      match safeParse compiledReportSchema second with
      | inr data => Ret (normalize (cr_sections data))
      | inl issues => Throw (MalformedReportError (formatIssues issues))
      end
  end.
End Service.

(** ** What an accepted output looks like *)

Lemma zeval_trimmed `{Zod} a b i x :
  zparses (ZString [CTrim; CMin a; CMax b]) i x → trim x = x ∧ a ≤ length x ≤ b.
Proof.
  intros H0. destruct i as [[| | |t| |]|]; try done.
  change ((if decide (a ≤ length (trim t)) then Some (trim t) else None)
            ≫= (λ s, (if decide (length s ≤ b) then Some s else None) ≫= Some) = Some x) in H0.
  destruct (decide (a ≤ length (trim t))) as [Ha|]; [|done]. simpl in H0.
  destruct (decide (length (trim t) ≤ b)) as [Hb|]; [|done].
  injection H0 as <-. split; [apply trim_idemp|done].
Qed.

Lemma zeval_array `{Zod} {A} (t : ztype A) m i l :
  zparses (ZArray t (Some m)) i l → length l ≤ m ∧ Forall (λ x, ∃ j, zparses t (Some j) x) l.
Proof.
  intros H0. destruct i as [[| | | |js_|]|]; try done.
  change ((if bool_decide (length js_ ≤ m)
           then mapM (λ x, zeval is_url to_integer t (Some x)) js_ else None) = Some l) in H0.
  case_bool_decide as Hm; [|done]. apply mapM_Some in H0. split.
  - by rewrite <- (Forall2_length _ _ _ H0).
  - clear Hm. induction H0 as [|j x js_ l Hx _ IH]; constructor; eauto.
Qed.

Lemma zeval_object `{Zod} {A} (o : zobj A) i a :
  zparses (ZObject o) i a → ∃ fs, zeval_obj is_url to_integer o fs = Some a.
Proof. intros H0. destruct i as [[| | | | |fs]|]; try done. by exists fs. Qed.

Record finding_ok (x : CompiledFinding) : Prop := {
  finding_trimmed : trim (cf_text x) = cf_text x;
  finding_length : 1 ≤ length (cf_text x) ≤ 2000;
}.
Record section_ok (x : CompiledSection) : Prop := {
  section_trimmed : trim (cs_title x) = cs_title x;
  section_length : 1 ≤ length (cs_title x) ≤ 200;
  section_count : length (cs_findings x) ≤ 200;
  section_findings_ok : Forall finding_ok (cs_findings x);
}.

Lemma finding_schema_ok `{Zod} i x : zparses compiledFindingSchema i x → finding_ok x.
Proof.
  intros (fs & Hx)%zeval_object. repeat peel Hx. cbn [zeval_obj] in Hx. simplify_eq.
  match goal with H : zparses (ZString _) _ _ |- _ => apply zeval_trimmed in H as [Ht Hl] end.
  by split.
Qed.

Lemma section_schema_ok `{Zod} i x : zparses compiledSectionSchema i x → section_ok x.
Proof.
  intros (fs & Hx)%zeval_object. repeat peel Hx. cbn [zeval_obj] in Hx. simplify_eq.
  match goal with H : zparses (ZString _) _ _ |- _ => apply zeval_trimmed in H as [Ht Hl] end.
  match goal with H : zparses (ZArray _ _) _ _ |- _ => apply zeval_array in H as [Hn Hf] end.
  split; try done. eapply Forall_impl; [exact Hf|]. intros y [j Hy]. by eapply finding_schema_ok.
Qed.

Lemma report_schema_ok `{Zod} i x :
  zparses compiledReportSchema i x → length (cr_sections x) ≤ 100 ∧ Forall section_ok (cr_sections x).
Proof.
  intros (fs & Hx)%zeval_object. repeat peel Hx. cbn [zeval_obj] in Hx. simplify_eq.
  match goal with H : zparses (ZArray _ _) _ _ |- _ => apply zeval_array in H as [Hn Hf] end.
  split; [done|]. eapply Forall_impl; [exact Hf|]. intros y [j Hy]. by eapply section_schema_ok.
Qed.

(** ** Normalization *)

(** A section as the inspector's words have it, and as it is stored: the same
    title and the same findings, most severe first, equally severe ones in the
    order given. *)
Definition said (x : CompiledFinding) : ReportFindingInput :=
  mkFindingInput (cf_text x) (severityFromApi (cf_severity x)).
Definition kept (x : CompiledSection) (y : ReportSectionInput) : Prop :=
  si_title y = cs_title x
  ∧ si_findings y ≡ₚ said <$> cs_findings x
  ∧ ordered (λ f, SEVERITY_RANK (fi_severity f)) (si_findings y)
  ∧ ∀ k, filter (λ f, SEVERITY_RANK (fi_severity f) = k) (si_findings y)
         = filter (λ f, SEVERITY_RANK (fi_severity f) = k) (said <$> cs_findings x).

(** Nothing is invented and nothing but empty sections is dropped. *)
Definition faithful (data : list CompiledSection) (out : list ReportSectionInput) : Prop :=
  Forall2 kept (filter (λ x, cs_findings x ≠ []) data) out.

Lemma normalize_section_ok x :
  section_ok x → kept x (normalize_section x)
                 ∧ (0 < length (si_findings (normalize_section x)) ↔ cs_findings x ≠ []).
Proof.
  intros [Ht Hl _ Hf]. set (rank := λ f, SEVERITY_RANK (fi_severity f)).
  assert (normalize_section x = mkSectionInput (cs_title x) (sortOn rank (said <$> cs_findings x))) as ->.
  { unfold normalize_section. rewrite Ht. f_equal. fold rank. f_equal.
    assert (normalize_finding <$> cs_findings x = said <$> cs_findings x) as ->.
    { clear Ht Hl. induction Hf as [|f fs [Hft Hfl] _ IH]; [done|]. rewrite !fmap_cons, IH. f_equal.
      unfold normalize_finding, said. by rewrite Hft. }
    apply list_filter_all, Forall_fmap. eapply Forall_impl; [exact Hf|].
    intros f [_ Hfl]. unfold compose. simpl. lia. }
  split.
  - split_and!; [done|apply sortOn_perm|apply sortOn_ordered|]. intros k. apply sortOn_stable.
  - simpl. rewrite (Permutation_length (sortOn_perm rank _)), length_fmap.
    destruct (cs_findings x); simpl; split; intros; (lia || done).
Qed.

Lemma normalize_faithful data : Forall section_ok data → faithful data (normalize data).
Proof.
  unfold faithful, normalize. induction 1 as [|x data Hx _ IH]; [constructor|].
  rewrite fmap_cons, !filter_cons. destruct (normalize_section_ok x Hx) as [Hk Hne].
  assert (0 < length (si_title (normalize_section x))) as Hlt.
  { destruct Hk as (-> & _). destruct Hx as [_ ? _ _]. lia. }
  case_decide as Hc; case_decide as Hc'; [by constructor| | |done]; exfalso; tauto.
Qed.

(** ** Properties *)
Section Spec.
Context `{Cr : Crypto} {P : ReportCompilerProvider} `{Zo : Zod}.

(** What the schema and the normalization together guarantee of a report. *)
Record report_ok (out : list ReportSectionInput) : Prop := {
  report_count : length out ≤ 100;
  report_sections_ok : Forall (λ x,
    trim (si_title x) = si_title x ∧ 1 ≤ length (si_title x) ≤ 200
    ∧ 1 ≤ length (si_findings x) ≤ 200
    ∧ ordered (λ f, SEVERITY_RANK (fi_severity f)) (si_findings x)
    ∧ Forall (λ f, trim (fi_text f) = fi_text f ∧ 1 ≤ length (fi_text f) ≤ 2000) (si_findings x)) out;
}.

Lemma faithful_ok data out :
  length data ≤ 100 → Forall section_ok data → faithful data out → report_ok out.
Proof.
  intros Hn Hok Hf. unfold faithful in Hf. split.
  - rewrite <- (Forall2_length _ _ _ Hf). etrans; [apply length_filter|done].
  - assert (Forall (λ x, section_ok x ∧ cs_findings x ≠ []) (filter (λ x, cs_findings x ≠ []) data)) as Hd.
    { apply Forall_forall. intros x (Hx & Hin)%list_elem_of_filter. rewrite Forall_forall in Hok. auto. }
    clear Hn Hok. revert Hd. induction Hf as [|x y xs ys Hxy _ IH]; intros Hd; [constructor|].
    inversion Hd as [|?? [[H1 H2 H3 H4] Hne] Hd']; subst. constructor; [|by apply IH].
    destruct Hxy as (-> & Hp & Ho & _). split_and!; try done; try lia.
    + rewrite (Permutation_length Hp), length_fmap. destruct (cs_findings x); simpl in *; [done|lia].
    + rewrite (Permutation_length Hp), length_fmap. done.
    + rewrite Hp. apply Forall_fmap. eapply Forall_impl; [exact H4|]. intros f [? ?]. done.
Qed.

Lemma compile_spec f input s :
  wpg (eff_contract f) (λ s s', s' = s) (compile input) s (λ r s', s' = s ∧
    match r with
    | inr out => report_ok out
        ∧ ∃ raw data, zparses compiledReportSchema (Some raw) data ∧ faithful (cr_sections data) out
    | inl e => f = true ∧ infra e ∨ (∃ m, e = JsError m) ∨ ∃ i, e = MalformedReportError i
    end).
Proof.
  assert (∀ raw data, safeParse compiledReportSchema raw = inr data →
    report_ok (normalize (cr_sections data)) ∧ ∃ raw' data', zparses compiledReportSchema (Some raw') data'
      ∧ faithful (cr_sections data') (normalize (cr_sections data))) as Hdone.
  { intros raw data Hp%safeParse_success. destruct (report_schema_ok _ _ Hp) as [Hn Hok].
    pose proof (normalize_faithful _ Hok) as Hf. split; [by eapply faithful_ok|]. by exists raw, data. }
  unfold compile. wpg_focus. eapply wpg_mono; [apply pure_call_wpg, provider_compile_pure|].
  intros [e|first] s1 [-> Hr]; [split; [done|]; destruct Hr; auto|].
  destruct (safeParse compiledReportSchema first) as [issues|data] eqn:H1;
    [|split; [done|by eapply Hdone]].
  wpg_focus. eapply wpg_mono; [apply pure_call_wpg, provider_compile_pure|].
  intros [e|second] s2 [-> Hr2]; [split; [done|]; destruct Hr2; auto|].
  destruct (safeParse compiledReportSchema second) as [issues2|data] eqn:H2;
    [|split; [done|by eapply Hdone]].
  split; [done|]. right. right. by eexists.
Qed.
End Spec.


(** The compile policy, on any handler: an output that passes the schema is
    used at once; after a malformed one the provider is asked exactly once more,
    with the hint that quotes the first issues; a second malformed output is the
    permanent [MalformedReportError] with the second issues; errors of the
    provider pass through.  With the DeepSeek provider a report costs at most two
    model calls, whatever they answer. *)
Theorem compile_retries_once `{Cr : Crypto} {P : ReportCompilerProvider} `{Zo : Zod} `{JsonParser} {W}
    (h : handler eff W) input w :
  (∀ model, calls_at_most 2 (compile (P := CompilerProviders.DeepSeekReportCompiler model) input))
  ∧ exec h (compile input) w =
    match exec h (provider_compile input None) w with
    | (inl e, w1) => (inl e, w1)
    | (inr first, w1) =>
        match safeParse compiledReportSchema first with
        | inr data => (inr (normalize (cr_sections data)), w1)
        | inl issues =>
            match exec h (provider_compile input (Some (buildRepairHint (formatIssues issues)))) w1 with
            | (inl e, w2) => (inl e, w2)
            | (inr second, w2) =>
                match safeParse compiledReportSchema second with
                | inr data => (inr (normalize (cr_sections data)), w2)
                | inl issues => (inl (MalformedReportError (formatIssues issues)), w2)
                end
            end
        end
    end.
Proof.
  split.
  { intros model. apply (calls_at_most_bind _ _ 1 1); [apply CompilerProviders.deepseek_one_call|].
    intros first. destruct (safeParse _ first); [|done].
    apply (calls_at_most_bind _ _ 1 0); [apply CompilerProviders.deepseek_one_call|].
    intros second. by destruct (safeParse _ second). }
  unfold compile. rewrite exec_bind. destruct (exec h (provider_compile input None) w) as [[e|first] w1]; [done|].
  destruct (safeParse _ first) as [issues|data]; [|done]. rewrite exec_bind.
  destruct (exec h _ w1) as [[e|second] w2]; [done|]. by destruct (safeParse _ second).
Qed.

(** The mock report passes the schema the real providers are held to, on the
    first attempt, and every one of its sections and findings survives. *)
Theorem mock_report_compiles `{Cr : Crypto} `{Zo : Zod} {W} (h : handler eff W) input w :
  ∃ out, exec h (compile (P := CompilerProviders.MockReportCompiler) input) w = (inr out, w)
    ∧ length out = 9 ∧ sum_list ((λ x, length (si_findings x)) <$> out) = 16.
Proof.
  pose (data := mkCompiledReport (default [] (mapM (zeval is_url to_integer compiledSectionSchema ∘ Some)
    (match CompilerProviders.mock_report with JObj [(_, JArr l)] => l | _ => [] end)))).
  assert (safeParse compiledReportSchema CompilerProviders.mock_report = inr data) as Hp.
  { apply safeParse_success. subst data. vm_compute. reflexivity. }
  exists (normalize (cr_sections data)).
  split; [|split; vm_compute; reflexivity].
  change (exec h (match safeParse compiledReportSchema CompilerProviders.mock_report with
    | inr data => Ret (normalize (cr_sections data))
    | inl issues => second <- Ret CompilerProviders.mock_report;;
        match safeParse compiledReportSchema second with
        | inr data => Ret (normalize (cr_sections data))
        | inl issues => Throw (MalformedReportError (formatIssues issues))
        end
    end) w = (inr (normalize (cr_sections data)), w)).
  by rewrite Hp.
Qed.
End ReportCompilerService.
