(* ===== verification/ToolSchema.v ===== *)
(** * The two schemas of a compiled report

    [report.schema.ts] writes the report's shape twice: as a zod schema, which
    validates, and as the JSON Schema of the tool the model is made to call.
    This file gives the JSON Schema its meaning and shows that the two agree. *)
From S2P Require Import Prelude Json Program Schema Services Memory Report Zod Config Compiler.
Import ReportSchema.

(** ** JSON Schema

    The keywords the tool schema uses: [type], [enum], [items], [properties],
    [required] and [additionalProperties]. *)
Module JsonSchema.
Definition type_name (v : json) : string :=
  match v with
  | JNull => "null" | JBool _ => "boolean" | JNum _ => "number"
  | JStr _ => "string" | JArr _ => "array" | JObj _ => "object"
  end.

Section Keywords.
Context (schema : claims).

Definition type_ok (v : json) : bool :=
  match jget (js "type") schema with Some (JStr t) => bool_decide (t = js (type_name v)) | _ => true end.

Definition enum_ok (v : json) : bool :=
  match jget (js "enum") schema with Some (JArr members) => bool_decide (v ∈ members) | _ => true end.

Definition items : option json := jget (js "items") schema.

Definition property (k : jstr) : option json :=
  match jget (js "properties") schema with Some (JObj ps) => jget k ps | _ => None end.

Definition required_ok (fs : claims) : bool :=
  match jget (js "required") schema with
  | Some (JArr ks) =>
      forallb (λ k, match k with JStr k => bool_decide (is_Some (jget k fs)) | _ => true end) ks
  | _ => true
  end.

Definition additional_ok (fs : claims) : bool :=
  match jget (js "additionalProperties") schema with
  | Some (JBool false) => forallb (λ p, bool_decide (is_Some (property p.1))) fs
  | _ => true
  end.
End Keywords.

Fixpoint conforms (v schema : json) {struct v} : bool :=
  match schema with
  | JObj kw =>
      type_ok kw v && enum_ok kw v &&
      match v with
      | JArr l => match items kw with Some s => forallb (λ x, conforms x s) l | None => true end
      | JObj fs =>
          required_ok kw fs && additional_ok kw fs
          && forallb (λ p, match property kw p.1 with Some s => conforms p.2 s | None => true end) fs
      | _ => true
      end
  | JBool b => b
  | _ => false
  end.
End JsonSchema.
Import JsonSchema.

(** The three shapes the tool schema is made of. *)
Lemma conforms_object v ps required :
  conforms v (closed_object ps required) =
  match v with
  | JObj fs =>
      forallb (λ k, bool_decide (is_Some (jget (js k) fs))) required
      && forallb (λ p, bool_decide (is_Some (jget p.1 ps))) fs
      && forallb (λ p, match jget p.1 ps with Some s => conforms p.2 s | None => true end) fs
  | _ => false
  end.
Proof.
  destruct v; try reflexivity. cbn [conforms closed_object].
  assert (type_ok [(js "type", JStr (js "object")); (js "additionalProperties", JBool false);
        (js "properties", JObj ps); (js "required", JArr ((λ k, JStr (js k)) <$> required))] (JObj fields) = true) as ->
    by reflexivity.
  change (required_ok _ fields) with
    (forallb (λ k, match k with JStr k => bool_decide (is_Some (jget k fields)) | _ => true end)
       ((λ k, JStr (js k)) <$> required)).
  assert (∀ (ks : list string) g, forallb g ((λ k, JStr (js k)) <$> ks) = forallb (λ k, g (JStr (js k))) ks) as ->;
    [|reflexivity].
  intros ks g. induction ks as [|k ks IH]; [done|]. rewrite fmap_cons. simpl. by rewrite IH.
Qed.

Lemma conforms_array v d s :
  conforms v (array_of d s) = match v with JArr l => forallb (λ x, conforms x s) l | _ => false end.
Proof. by destruct v. Qed.

Lemma conforms_text v d : conforms v (text_type d) = match v with JStr _ => true | _ => false end.
Proof. by destruct v. Qed.

(** ** What the zod schema accepts *)
Section Accepts.
Context `{Zo : Zod}.
Definition accepts {A} (t : ztype A) (i : option json) : Prop := is_Some (zeval is_url to_integer t i).

Lemma accepts_key {X A} (rest : zobj (X → A)) k (t : ztype X) fs :
  is_Some (zeval_obj is_url to_integer (ZKey rest k t) fs)
  ↔ is_Some (zeval_obj is_url to_integer rest fs) ∧ accepts t (jget k fs).
Proof.
  unfold accepts.
  change (zeval_obj is_url to_integer (ZKey rest k t) fs) with
    (match zeval_obj is_url to_integer rest fs, zeval is_url to_integer t (jget k fs) with
     | Some g, Some x => Some (g x) | _, _ => None end).
  destruct (zeval_obj _ _ rest fs) as [g|], (zeval _ _ t _) as [x|];
    (split; [intros [y Hy]|intros [[y Hy] [z Hz]]]); try discriminate; try split; by eexists.
Qed.

Lemma accepts_object {A} (o : zobj A) v :
  accepts (ZObject o) (Some v) ↔ match v with JObj fs => is_Some (zeval_obj is_url to_integer o fs) | _ => False end.
Proof. unfold accepts. destruct v; try (split; [by intros []|done]). Qed.

Lemma accepts_array {A} (t : ztype A) m v :
  accepts (ZArray t (Some m)) (Some v) ↔
  match v with JArr l => length l ≤ m ∧ Forall (λ x, accepts t (Some x)) l | _ => False end.
Proof.
  unfold accepts. destruct v as [| | | |l|]; try (split; [by intros []|done]).
  change (zeval is_url to_integer (ZArray t (Some m)) (Some (JArr l))) with
    (if bool_decide (length l ≤ m) then mapM (λ x, zeval is_url to_integer t (Some x)) l else None).
  case_bool_decide as Hm.
  - rewrite mapM_is_Some. unfold compose. tauto.
  - split; [by intros []|tauto].
Qed.

Lemma accepts_trimmed a b v :
  accepts (ZString [CTrim; CMin a; CMax b]) (Some v) ↔
  match v with JStr s => a ≤ length (trim s) ≤ b | _ => False end.
Proof.
  unfold accepts. destruct v as [| | |s| |]; simpl; try (split; [by intros []|done]).
  destruct (decide (a ≤ _)) as [Ha|Ha]; simpl; [|split; [by intros []|tauto]].
  destruct (decide (_ ≤ b)) as [Hb|Hb]; simpl; [|split; [by intros []|tauto]]. split; [done|by eauto].
Qed.

Lemma accepts_severity v :
  accepts (ZEnum ((λ v, (api_text v, v)) <$> API_SEVERITIES)) (Some v)
  ↔ v ∈ (λ v, JStr (api_text v)) <$> API_SEVERITIES.
Proof.
  unfold accepts. cbn [zeval]. split.
  - destruct v as [| | |s| |]; try (by intros []). intros [x Hx]. apply fmap_Some in Hx as (p & Hf & _).
    destruct p as [k q]. apply list_find_Some in Hf as (Hq & <- & _). apply list_elem_of_lookup_2 in Hq.
    apply list_elem_of_fmap in Hq as (w & -> & Hw). cbn [fst]. by apply (list_elem_of_fmap_2 (λ v, JStr (api_text v))).
  - intros (w & -> & _)%list_elem_of_fmap. destruct w; vm_compute; by eexists.
Qed.
End Accepts.

(** ** Bounds and unknown keys

    What the zod schema asks beyond the tool schema, and the tool schema beyond
    zod: trimmed texts within length limits, and no unknown keys. *)
Definition text_within (b : nat) (o : option json) : bool :=
  match o with Some (JStr s) => (1 <=? length (trim s)) && (length (trim s) <=? b) | _ => false end.
Definition list_within (m : nat) (ok : json → bool) (o : option json) : bool :=
  match o with Some (JArr l) => (length l <=? m) && forallb ok l | _ => false end.
Definition object_within (ok : claims → bool) (v : json) : bool :=
  match v with JObj fs => ok fs | _ => false end.

Definition finding_within : json → bool := object_within (λ fs, text_within 2000 (jget (js "text") fs)).
Definition section_within : json → bool := object_within (λ fs,
  text_within 200 (jget (js "title") fs) && list_within 200 finding_within (jget (js "findings") fs)).
Definition report_within : json → bool := object_within (λ fs,
  list_within 100 section_within (jget (js "sections") fs)).

(** A required field of a conforming object, and the schema it conforms to. *)
Lemma conforms_field fs ps required k s :
  conforms (JObj fs) (closed_object ps required) = true → k ∈ required → jget (js k) ps = Some s →
  ∃ v, jget (js k) fs = Some v ∧ conforms v s = true.
Proof.
  rewrite conforms_object, !andb_true_iff, !forallb_forall. intros [[Hreq _] Hall] Hk Hs.
  apply list_elem_of_In in Hk. specialize (Hreq k Hk). apply bool_decide_eq_true in Hreq as [v Hv].
  exists v. split; [done|].
  assert ((js k, v) ∈ fs) as Hin.
  { clear -Hv. induction fs as [|[k' v'] fs IH]; simpl in Hv; [done|]. case_decide as Hd.
    - subst k'. injection Hv as ->. by left.
    - right. by apply IH. }
  apply list_elem_of_In in Hin. specialize (Hall _ Hin). cbn [fst snd] in Hall. by rewrite Hs in Hall.
Qed.

(** ** The tool schema, part by part *)
Definition severity_type (d : jstr) : json :=
  JObj [(js "type", JStr (js "string")); (js "enum", JArr ((λ v, JStr (api_text v)) <$> API_SEVERITIES));
        (js "description", JStr d)].
Definition tool_finding (d e : jstr) : json :=
  closed_object [(js "text", text_type d); (js "severity", severity_type e)] ["text"; "severity"].
Definition tool_section (d e : jstr) (finding : json) : json :=
  closed_object [(js "title", text_type d); (js "findings", array_of e finding)] ["title"; "findings"].
Definition tool_report (d : jstr) (section : json) : json :=
  closed_object [(js "sections", array_of d section)] ["sections"].

Lemma tool_schema_shape : ∃ d1 d2 d3 d4 d5,
  reportToolInputSchema = tool_report d1 (tool_section d2 d3 (tool_finding d4 d5)).
Proof. do 5 eexists. reflexivity. Qed.

Lemma conforms_severity v d :
  conforms v (severity_type d) = true ↔ v ∈ (λ v, JStr (api_text v)) <$> API_SEVERITIES.
Proof.
  split.
  - destruct v; try discriminate. cbn [conforms severity_type]. rewrite !andb_true_iff.
    intros [[_ H] _]. unfold enum_ok in H. by apply bool_decide_eq_true in H.
  - intros (w & -> & _)%list_elem_of_fmap. by destruct w.
Qed.

Lemma conforms_is_object v ps required : conforms v (closed_object ps required) = true → ∃ fs, v = JObj fs.
Proof. rewrite conforms_object. destruct v; try discriminate. by eexists. Qed.

Section Agreement.
Context `{Zo : Zod}.

Lemma accepts_text b v : accepts (ZString [CTrim; CMin 1; CMax b]) (Some v) ↔ text_within b (Some v) = true.
Proof.
  rewrite accepts_trimmed. destruct v; try done. unfold text_within. by rewrite andb_true_iff, !Nat.leb_le.
Qed.

Lemma accepts_list {A} (t : ztype A) m l ok :
  Forall (λ x, accepts t (Some x) ↔ ok x = true) l →
  accepts (ZArray t (Some m)) (Some (JArr l)) ↔ list_within m ok (Some (JArr l)) = true.
Proof.
  intros H. rewrite accepts_array. unfold list_within. rewrite andb_true_iff, Nat.leb_le. apply and_iff_compat_l.
  induction H as [|x l Hx _ IH]; [done|]. rewrite Forall_cons. simpl. by rewrite andb_true_iff, Hx, IH.
Qed.

Lemma finding_agrees v d e :
  conforms v (tool_finding d e) = true → accepts compiledFindingSchema (Some v) ↔ finding_within v = true.
Proof.
  intros H. destruct (conforms_is_object _ _ _ H) as [fs ->].
  destruct (conforms_field _ _ _ "text" _ H ltac:(by left) eq_refl) as (t & Ht & _).
  destruct (conforms_field _ _ _ "severity" _ H ltac:(right; by left) eq_refl) as (w & Hw & Hsev).
  unfold compiledFindingSchema. rewrite accepts_object, !accepts_key. cbn [finding_within object_within].
  rewrite Ht, Hw, accepts_text, accepts_severity. apply conforms_severity in Hsev. split; [tauto|].
  intros. split_and!; [by eexists|done|done].
Qed.

Lemma section_agrees v d e d' e' :
  conforms v (tool_section d e (tool_finding d' e')) = true →
  accepts compiledSectionSchema (Some v) ↔ section_within v = true.
Proof.
  intros H. destruct (conforms_is_object _ _ _ H) as [fs ->].
  destruct (conforms_field _ _ _ "title" _ H ltac:(by left) eq_refl) as (t & Ht & _).
  destruct (conforms_field _ _ _ "findings" _ H ltac:(right; by left) eq_refl) as (l & Hl & Hfs).
  rewrite conforms_array in Hfs. destruct l as [| | | |l|]; try done.
  unfold compiledSectionSchema. rewrite accepts_object, !accepts_key. cbn [section_within object_within].
  rewrite Ht, Hl, accepts_text, andb_true_iff. rewrite (accepts_list _ 200 l finding_within).
  - split; [tauto|]. intros []. split_and!; [by eexists|done|done].
  - apply Forall_forall. intros x Hx%list_elem_of_In. rewrite forallb_forall in Hfs. eapply finding_agrees; auto.
Qed.

(** Whatever obeys the tool schema is accepted exactly when it is within bounds. *)
Lemma report_agrees v :
  conforms v reportToolInputSchema = true → accepts compiledReportSchema (Some v) ↔ report_within v = true.
Proof.
  destruct tool_schema_shape as (d1 & d2 & d3 & d4 & d5 & ->). intros H.
  destruct (conforms_is_object _ _ _ H) as [fs ->].
  destruct (conforms_field _ _ _ "sections" _ H ltac:(by left) eq_refl) as (l & Hl & Hss).
  rewrite conforms_array in Hss. destruct l as [| | | |l|]; try done.
  unfold compiledReportSchema. rewrite accepts_object, !accepts_key. cbn [report_within object_within].
  rewrite Hl. rewrite (accepts_list _ 100 l section_within).
  - split; [tauto|]. intros. split; [by eexists|done].
  - apply Forall_forall. intros x Hx%list_elem_of_In. rewrite forallb_forall in Hss. eapply section_agrees; auto.
Qed.
End Agreement.

(** ** Writing an accepted report back as JSON *)
Definition finding_to_json (x : CompiledFinding) : json :=
  JObj [(js "text", JStr (cf_text x)); (js "severity", JStr (api_text (cf_severity x)))].
Definition section_to_json (x : CompiledSection) : json :=
  JObj [(js "title", JStr (cs_title x)); (js "findings", JArr (finding_to_json <$> cs_findings x))].
Definition report_to_json (x : CompiledReport) : json :=
  JObj [(js "sections", JArr (section_to_json <$> cr_sections x))].

Section RoundTrip.
Context `{Zo : Zod}.
Import ReportCompilerService.

Lemma zeval_text b s : trim s = s → 1 ≤ length s ≤ b → zparses (ZString [CTrim; CMin 1; CMax b]) (Some (JStr s)) s.
Proof.
  intros Ht [Ha Hb]. change ((if decide (1 ≤ length (trim s)) then Some (trim s) else None)
    ≫= (λ s, (if decide (length s ≤ b) then Some s else None) ≫= Some) = Some s).
  rewrite Ht, decide_True by done. simpl. by rewrite decide_True.
Qed.

Lemma zeval_array_map {A} (t : ztype A) m (g : A → json) l :
  length l ≤ m → Forall (λ x, zparses t (Some (g x)) x) l → zparses (ZArray t (Some m)) (Some (JArr (g <$> l))) l.
Proof.
  intros Hm Hl. change ((if bool_decide (length (g <$> l) ≤ m)
    then mapM (λ x, zeval is_url to_integer t (Some x)) (g <$> l) else None) = Some l).
  rewrite length_fmap, bool_decide_true by done. apply mapM_Some. clear Hm. induction Hl; by constructor.
Qed.

Lemma finding_roundtrip x : finding_ok x → zparses compiledFindingSchema (Some (finding_to_json x)) x.
Proof.
  intros [Ht Hl]. destruct x as [t v]. simpl in *. unfold compiledFindingSchema.
  change (match (match zeval is_url to_integer (ZString [CTrim; CMin 1; CMax 2000]) (Some (JStr t)) with
                 | Some a => Some (mkCompiledFinding a) | None => None end),
                zeval is_url to_integer (ZEnum ((λ v, (api_text v, v)) <$> API_SEVERITIES)) (Some (JStr (api_text v)))
          with Some g, Some x => Some (g x) | _, _ => None end = Some (mkCompiledFinding t v)).
  rewrite zeval_text by done. by destruct v.
Qed.

Lemma section_roundtrip x : section_ok x → zparses compiledSectionSchema (Some (section_to_json x)) x.
Proof.
  intros [Ht Hl Hc Hf]. destruct x as [t fs]. simpl in *. unfold compiledSectionSchema.
  change (match (match zeval is_url to_integer (ZString [CTrim; CMin 1; CMax 200]) (Some (JStr t)) with
                 | Some a => Some (mkCompiledSection a) | None => None end),
                zeval is_url to_integer (ZArray compiledFindingSchema (Some 200)) (Some (JArr (finding_to_json <$> fs)))
          with Some g, Some x => Some (g x) | _, _ => None end = Some (mkCompiledSection t fs)).
  rewrite zeval_text by done. rewrite zeval_array_map; [done|done|].
  eapply Forall_impl; [exact Hf|]. apply finding_roundtrip.
Qed.

Lemma report_roundtrip x :
  length (cr_sections x) ≤ 100 → Forall section_ok (cr_sections x) →
  zparses compiledReportSchema (Some (report_to_json x)) x.
Proof.
  intros Hc Hs. destruct x as [ss]. simpl in *. unfold compiledReportSchema.
  change (match zeval is_url to_integer (ZArray compiledSectionSchema (Some 100)) (Some (JArr (section_to_json <$> ss)))
          with Some x => Some (mkCompiledReport x) | _ => None end = Some (mkCompiledReport ss)).
  rewrite zeval_array_map; [done|done|]. eapply Forall_impl; [exact Hs|]. apply section_roundtrip.
Qed.
End RoundTrip.

Lemma forallb_map_true {A} (g : A → json) (ok : json → bool) l :
  (∀ x, ok (g x) = true) → forallb ok (g <$> l) = true.
Proof. intros H. induction l as [|x l IH]; [done|]. rewrite fmap_cons. simpl. by rewrite H, IH. Qed.

Lemma conforms_fields fs ps required :
  forallb (λ k, bool_decide (is_Some (jget (js k) fs))) required = true →
  Forall (λ p, ∃ s, jget p.1 ps = Some s ∧ conforms p.2 s = true) fs →
  conforms (JObj fs) (closed_object ps required) = true.
Proof.
  intros Hreq Hfs. rewrite conforms_object, Hreq. clear Hreq.
  induction Hfs as [|[k v] fs (s & Hs & Hv) _ IH]; [done|]. cbn [forallb fst snd] in *. rewrite Hs, Hv.
  rewrite andb_true_l in *. by rewrite bool_decide_true by (by eexists).
Qed.

Lemma finding_conforms x d e : conforms (finding_to_json x) (tool_finding d e) = true.
Proof.
  apply conforms_fields; [reflexivity|]. repeat constructor.
  - exists (text_type d). split; [reflexivity|]. by rewrite conforms_text.
  - exists (severity_type e). split; [reflexivity|]. apply conforms_severity.
    apply (list_elem_of_fmap_2 (λ v, JStr (api_text v))). destruct (cf_severity x); repeat constructor.
Qed.

Lemma section_conforms x d e d' e' : conforms (section_to_json x) (tool_section d e (tool_finding d' e')) = true.
Proof.
  apply conforms_fields; [reflexivity|]. repeat constructor.
  - exists (text_type d). split; [reflexivity|]. by rewrite conforms_text.
  - exists (array_of e (tool_finding d' e')). split; [reflexivity|]. cbn [snd]. rewrite conforms_array.
    apply forallb_map_true. intros f. apply finding_conforms.
Qed.

Lemma report_conforms x : conforms (report_to_json x) reportToolInputSchema = true.
Proof.
  destruct tool_schema_shape as (d1 & d2 & d3 & d4 & d5 & ->). apply conforms_fields; [reflexivity|]. repeat constructor.
  exists (array_of d1 (tool_section d2 d3 (tool_finding d4 d5))). split; [reflexivity|]. cbn [snd]. rewrite conforms_array.
  apply forallb_map_true. intros f. apply section_conforms.
Qed.

(** C13: The two schemas agree.  A JSON value that obeys the tool's JSON Schema is
    accepted by the zod schema exactly when its texts, trimmed, and its lists are
    within the zod schema's bounds; and a report the zod schema accepts, written
    back as JSON, obeys the tool's schema and is accepted unchanged.  What differs
    are the bounds, unknown keys and surrounding white space, and nothing else. *)
Theorem tool_schema_matches_zod `{Zo : Zod} v :
  (conforms v reportToolInputSchema = true →
     (∃ x, safeParse compiledReportSchema v = inr x) ↔ report_within v = true)
  ∧ (∀ x, safeParse compiledReportSchema v = inr x →
       conforms (report_to_json x) reportToolInputSchema = true
       ∧ safeParse compiledReportSchema (report_to_json x) = inr x).
Proof.
  split.
  - intros H. rewrite <- (report_agrees v H). unfold accepts, is_Some. by setoid_rewrite safeParse_success.
  - intros x Hx%safeParse_success. split; [apply report_conforms|]. apply safeParse_success.
    apply ReportCompilerService.report_schema_ok in Hx as [Hc Hs]. by apply report_roundtrip.
Qed.

(** Outputs the tool schema lets through and zod does not, and the other way. *)
Definition blank_title : json := JObj [(js "sections", JArr [JObj [(js "title", JStr (js "  ")); (js "findings", JArr [])]])].
Definition extra_key : json := JObj [(js "sections", JArr []); (js "note", JStr (js "x"))].

Example blank_title_differs :
  conforms blank_title reportToolInputSchema = true ∧ report_within blank_title = false.
Proof. by vm_compute. Qed.
Example extra_key_differs `{Zo : Zod} :
  conforms extra_key reportToolInputSchema = false ∧ safeParse compiledReportSchema extra_key = inr (mkCompiledReport []).
Proof. split; [by vm_compute|]. by apply safeParse_success. Qed.

Lemma tool_schema_matches_zod_witness :
  conforms CompilerProviders.mock_report reportToolInputSchema = true
  ∧ ((∃ x, safeParse (Zod := reference_zod (λ _, false) (λ _, None)) compiledReportSchema CompilerProviders.mock_report = inr x)
     ↔ report_within CompilerProviders.mock_report = true).
Proof.
  assert (conforms CompilerProviders.mock_report reportToolInputSchema = true) as H by (vm_compute; reflexivity).
  split; [exact H|].
  apply (tool_schema_matches_zod (Zo := reference_zod (λ _, false) (λ _, None)) CompilerProviders.mock_report). exact H.
Defined.
