(* ===== verification/ReportHtml.v ===== *)
(** * The report document

    [server/src/processing/pdf/report-html.ts]: the HTML document a PDF is
    printed from, and its date, count and escaping helpers. *)
From S2P Require Import Prelude Json Program Schema Services JsDate Memory Report.

Record ReportFindingView := mkFindingView { fv_text : jstr; fv_severity : ApiSeverity }.
Record ReportSectionView := mkSectionView { sv_title : jstr; sv_findings : list ReportFindingView }.
Record ReportView := mkReportView {
  rv_jobId : jstr;
  rv_label : jstr;
  rv_generatedAt : Z;
  rv_sections : list ReportSectionView;
}.

Module ReportHtml.
Record SeverityStyle := mkStyle {
  style_label : jstr; style_fg : jstr; style_bg : jstr; style_border : jstr }.

Definition SEVERITY_STYLES (v : ApiSeverity) : SeverityStyle :=
  match v with
  | safety => mkStyle (js "Safety") (js "#7f1d1d") (js "#fee2e2") (js "#fca5a5")
  | repair => mkStyle (js "Repair") (js "#7c2d12") (js "#ffedd5") (js "#fdba74")
  | maintenance => mkStyle (js "Maintenance") (js "#713f12") (js "#fef9c3") (js "#fde047")
  | info => mkStyle (js "Info") (js "#1e3a8a") (js "#dbeafe") (js "#93c5fd")
  end.

Definition SEVERITY_ORDER : list ApiSeverity := [safety; repair; maintenance; info].

(** Each ampersand, angle bracket and quote is replaced by its entity. *)
Definition HTML_ESCAPES (ch : N) : jstr :=
  if decide (ch = 38%N) then js "&amp;"
  else if decide (ch = 60%N) then js "&lt;"
  else if decide (ch = 62%N) then js "&gt;"
  else if decide (ch = 34%N) then js "&quot;"
  else if decide (ch = 39%N) then js "&#39;"
  else [ch].
Definition escapeHtml (value : jstr) : jstr := value ≫= HTML_ESCAPES.

Definition months : list jstr :=
  [js "January"; js "February"; js "March"; js "April"; js "May"; js "June";
   js "July"; js "August"; js "September"; js "October"; js "November"; js "December"].

(** Beyond the array the template would read [undefined]. *)
Definition formatDate (date : Z) : jstr :=
  default (js "undefined") (months !! Z.to_nat (getUTCMonth date)) ++ js " "
  ++ js_of_Z (getUTCDate date) ++ js ", " ++ js_of_Z (getUTCFullYear date) ++ js " at "
  ++ pad 2 (getUTCHours date) ++ js ":" ++ pad 2 (getUTCMinutes date) ++ js " UTC".

(** The record of counters, updated finding by finding. *)
Definition no_counts : ApiSeverity → nat := λ _, 0.
Definition count_one (counts : ApiSeverity → nat) (f : ReportFindingView) : ApiSeverity → nat :=
  λ v, if decide (v = fv_severity f) then S (counts v) else counts v.
Definition countBySeverity (sections : list ReportSectionView) : ApiSeverity → nat :=
  foldl (λ counts section, foldl count_one counts (sv_findings section)) no_counts sections.

Definition totalFindings (view : ReportView) : nat :=
  foldl (λ n s, n + length (sv_findings s)) 0 (rv_sections view).

Definition style_attr (s : SeverityStyle) : jstr :=
  jsq "style=`color:" ++ style_fg s ++ js ";background:" ++ style_bg s
  ++ js ";border-color:" ++ style_border s ++ jsq "`".

Definition chip (counts : ApiSeverity → nat) (v : ApiSeverity) : jstr :=
  jsq "<span class=`chip` " ++ style_attr (SEVERITY_STYLES v) ++ js ">"
  ++ style_label (SEVERITY_STYLES v) ++ js ": " ++ js_of_nat (counts v) ++ js "</span>".

Definition summaryChips (view : ReportView) : jstr :=
  let counts := countBySeverity (rv_sections view) in
  mjoin (chip counts <$> filter (λ v, 0 < counts v) SEVERITY_ORDER).

(** [${summaryChips || '...'}] *)
Definition chips_or_none (view : ReportView) : jstr :=
  if truthy (summaryChips view) then summaryChips view
  else jsq "<span class=`chip` style=`color:#1e3a8a;background:#dbeafe;border-color:#93c5fd`>No findings</span>".

Definition newline : jstr := [10%N].

Definition renderFinding (f : ReportFindingView) : jstr :=
  jsq "      <li class=`finding`>
        <span class=`sev` " ++ style_attr (SEVERITY_STYLES (fv_severity f)) ++ js ">"
  ++ style_label (SEVERITY_STYLES (fv_severity f)) ++ jsq "</span>
        <span class=`finding-text`>" ++ escapeHtml (fv_text f) ++ js "</span>
      </li>".

Definition renderSection (section : ReportSectionView) : jstr :=
  jsq "    <section class=`report-section`>
      <h2>" ++ escapeHtml (sv_title section) ++ jsq "</h2>
      <ul class=`findings`>
" ++ join newline (renderFinding <$> sv_findings section) ++ js "
      </ul>
    </section>".

Definition sectionsHtml (view : ReportView) : jstr :=
  match rv_sections view with
  | [] => jsq "<p class=`empty`>No findings were recorded for this inspection.</p>"
  | sections => join newline (renderSection <$> sections)
  end.

(** The fixed parts of the document, in order. *)
Definition doc_head : jstr := jsq "<!doctype html>
<html lang=`en`>
<head>
<meta charset=`utf-8` />
<meta name=`viewport` content=`width=device-width, initial-scale=1` />
<title>".

Definition doc_style : jstr := jsq " " ++ [8212%N] ++ jsq " Inspection Report</title>
<style>
  :root { color-scheme: light; }
  * { box-sizing: border-box; }
  html, body { margin: 0; padding: 0; }
  body {
    font-family: -apple-system, BlinkMacSystemFont, `Segoe UI`, Roboto, Helvetica, Arial, sans-serif;
    color: #0f172a;
    font-size: 12px;
    line-height: 1.5;
    -webkit-print-color-adjust: exact;
    print-color-adjust: exact;
  }
  .page { padding: 40px 44px; }
  header.report-head {
    border-bottom: 3px solid #0f172a;
    padding-bottom: 16px;
    margin-bottom: 24px;
  }
  .brand { font-size: 13px; font-weight: 700; letter-spacing: 0.14em; text-transform: uppercase; color: #2563eb; }
  h1 { font-size: 24px; margin: 6px 0 2px; line-height: 1.2; }
  .meta { color: #475569; font-size: 11px; margin-top: 4px; }
  .meta strong { color: #0f172a; }
  .summary { margin: 18px 0 28px; }
  .summary-title { font-size: 11px; text-transform: uppercase; letter-spacing: 0.08em; color: #64748b; margin-bottom: 8px; }
  .chips { display: flex; flex-wrap: wrap; gap: 8px; }
  .chip {
    display: inline-block;
    font-size: 11px;
    font-weight: 600;
    padding: 3px 10px;
    border-radius: 999px;
    border: 1px solid transparent;
  }
  section.report-section { margin-bottom: 22px; page-break-inside: avoid; }
  section.report-section > h2 {
    font-size: 15px;
    margin: 0 0 10px;
    padding-bottom: 6px;
    border-bottom: 1px solid #e2e8f0;
  }
  ul.findings { list-style: none; margin: 0; padding: 0; }
  li.finding {
    display: flex;
    gap: 12px;
    align-items: flex-start;
    padding: 9px 0;
    border-bottom: 1px solid #f1f5f9;
    page-break-inside: avoid;
  }
  li.finding:last-child { border-bottom: none; }
  .sev {
    flex: 0 0 auto;
    font-size: 10px;
    font-weight: 700;
    text-transform: uppercase;
    letter-spacing: 0.04em;
    padding: 2px 8px;
    border-radius: 4px;
    border: 1px solid transparent;
    min-width: 74px;
    text-align: center;
  }
  .finding-text { flex: 1 1 auto; }
  .empty { color: #64748b; font-style: italic; }
  footer.report-foot {
    margin-top: 32px;
    padding-top: 12px;
    border-top: 1px solid #e2e8f0;
    color: #94a3b8;
    font-size: 10px;
    display: flex;
    justify-content: space-between;
  }
</style>
</head>
<body>
  <div class=`page`>
    <header class=`report-head`>
      <div class=`brand`>FieldNote</div>
      <h1>".

Definition doc_meta : jstr := jsq "</h1>
      <div class=`meta`>Inspection Report &middot; Generated <strong>".

Definition doc_generated : jstr := jsq "</strong> &middot; ".

Definition doc_findings : jstr := jsq " finding".

Definition doc_summary : jstr := jsq "</div>
    </header>

    <div class=`summary`>
      <div class=`summary-title`>Summary</div>
      <div class=`chips`>".

Definition doc_body : jstr := jsq "</div>
    </div>

    ".

Definition doc_foot : jstr := jsq "

    <footer class=`report-foot`>
      <span>Generated by FieldNote</span>
      <span>Report ".

Definition doc_end : jstr := jsq "</span>
    </footer>
  </div>
</body>
</html>".


Definition buildReportHtml (view : ReportView) : jstr :=
  doc_head
  ++ escapeHtml (rv_label view)
  ++ doc_style
  ++ escapeHtml (rv_label view)
  ++ doc_meta
  ++ escapeHtml (formatDate (rv_generatedAt view))
  ++ doc_generated
  ++ js_of_nat (totalFindings view)
  ++ doc_findings
  ++ (if bool_decide (totalFindings view = 1) then [] else js "s")
  ++ doc_summary
  ++ chips_or_none view
  ++ doc_body
  ++ sectionsHtml view
  ++ doc_foot
  ++ escapeHtml (rv_jobId view)
  ++ doc_end.

(** ** Escaping *)

(** The characters that open, close or delimit markup. *)
Definition is_markup (c : N) : Prop := c ∈ [60%N; 62%N; 34%N; 39%N].
Definition markup (s : jstr) : jstr := filter is_markup s.

Lemma markup_app a b : markup (a ++ b) = markup a ++ markup b.
Proof. apply filter_app. Qed.

Lemma markup_escaped s : markup (escapeHtml s) = [].
Proof.
  unfold escapeHtml. induction s as [|c s IH]; [done|]. cbn [mbind list_bind].
  rewrite markup_app, IH, app_nil_r. unfold HTML_ESCAPES. repeat case_decide; subst; try done.
  unfold markup. rewrite filter_cons_False; [done|]. unfold is_markup. set_solver.
Qed.

(** The escape of a character is a prefix code. *)
Lemma escape_prefix c d x y : HTML_ESCAPES c ++ x = HTML_ESCAPES d ++ y → c = d ∧ x = y.
Proof.
  unfold HTML_ESCAPES. repeat case_decide; subst; simpl; intros Heq; try done;
    try (injection Heq; intros; subst; done); try (discriminate Heq).
Qed.

Lemma escape_inj a b : escapeHtml a = escapeHtml b → a = b.
Proof.
  assert (∀ c, HTML_ESCAPES c ≠ []) as Hne by (intros c; unfold HTML_ESCAPES; repeat case_decide; done).
  revert b. unfold escapeHtml. induction a as [|c a IH]; intros [|d b]; cbn [mbind list_bind].
  - done.
  - intros H. symmetry in H. apply app_eq_nil in H as [H _]. by apply Hne in H.
  - intros H. apply app_eq_nil in H as [H _]. by apply Hne in H.
  - intros [-> H]%escape_prefix. f_equal. by apply IH.
Qed.

(** The view with every text emptied: the same shape, dates and severities. *)
Definition blank_section (x : ReportSectionView) : ReportSectionView :=
  mkSectionView [] ((λ f, mkFindingView [] (fv_severity f)) <$> sv_findings x).
Definition blank (v : ReportView) : ReportView :=
  mkReportView [] [] (rv_generatedAt v) (blank_section <$> rv_sections v).

Lemma count_fold_blank counts (x : ReportSectionView) :
  foldl count_one counts (sv_findings (blank_section x)) = foldl count_one counts (sv_findings x).
Proof.
  destruct x as [t fs]. simpl. revert counts. induction fs as [|f fs IH]; intros counts; [done|].
  rewrite fmap_cons. simpl. apply IH.
Qed.

Lemma countBySeverity_blank sections :
  countBySeverity (blank_section <$> sections) = countBySeverity sections.
Proof.
  unfold countBySeverity. generalize no_counts. induction sections as [|x l IH]; intros counts; [done|].
  rewrite fmap_cons. cbn [foldl]. rewrite count_fold_blank. apply IH.
Qed.

Lemma totalFindings_blank v : totalFindings (blank v) = totalFindings v.
Proof.
  unfold totalFindings. simpl. generalize 0. induction (rv_sections v) as [|x l IH]; intros n; [done|].
  rewrite fmap_cons. simpl. rewrite length_fmap. apply IH.
Qed.

Lemma markup_join sep l l' :
  markup <$> l = markup <$> l' → markup (join sep l) = markup (join sep l').
Proof.
  revert l'. induction l as [|p l IH]; intros [|q l']; try done. rewrite !fmap_cons. intros [= Hp Hl].
  specialize (IH _ Hl). destruct l as [|p2 l], l' as [|q2 l']; try done; cbn [join]; try done.
  rewrite !markup_app, Hp. do 2 f_equal. exact IH.
Qed.

Lemma markup_finding f :
  markup (renderFinding f) = markup (renderFinding (mkFindingView [] (fv_severity f))).
Proof.
  unfold renderFinding. cbn [fv_text fv_severity]. by rewrite !markup_app, !markup_escaped.
Qed.

Lemma markup_section x : markup (renderSection x) = markup (renderSection (blank_section x)).
Proof.
  unfold renderSection. rewrite !markup_app, !markup_escaped.
  assert (markup (join newline (renderFinding <$> sv_findings x))
          = markup (join newline (renderFinding <$> sv_findings (blank_section x)))) as ->; [|done].
  apply markup_join. simpl. rewrite <- !list_fmap_compose. apply list_fmap_ext.
  intros i f _. apply markup_finding.
Qed.

Lemma markup_sections v : markup (sectionsHtml v) = markup (sectionsHtml (blank v)).
Proof.
  unfold sectionsHtml. destruct v as [jid label t [|x l]]; [done|].
  change (markup (join newline (renderSection <$> x :: l))
          = markup (join newline (renderSection <$> (blank_section <$> x :: l)))).
  apply markup_join. rewrite <- !list_fmap_compose. apply list_fmap_ext. intros i y _. apply markup_section.
Qed.

Lemma chips_blank v : chips_or_none (blank v) = chips_or_none v.
Proof. unfold chips_or_none, summaryChips. simpl. by rewrite countBySeverity_blank. Qed.

(** C16: Injection safety.  The angle brackets and quotes of the document, in
    order, are those of the document whose label, id, titles and findings are
    all empty: no text of a user or a model can open, close or alter markup;
    and escaping loses nothing. *)
Theorem report_is_injection_safe v :
  markup (buildReportHtml v) = markup (buildReportHtml (blank v))
  ∧ ∀ a b, escapeHtml a = escapeHtml b ↔ a = b.
Proof.
  split; [|by intros a b; split; [apply escape_inj|intros ->]].
  unfold buildReportHtml. rewrite !markup_app, !markup_escaped, chips_blank, totalFindings_blank.
  by rewrite <- markup_sections.
Qed.

(** ** Counting *)

(** All findings of a report, in order. *)
Definition all_findings (sections : list ReportSectionView) : list ReportFindingView :=
  sections ≫= sv_findings.

Lemma count_fold counts fs v :
  foldl count_one counts fs v = counts v + length (filter (λ f, fv_severity f = v) fs).
Proof.
  revert counts. induction fs as [|f fs IH]; intros counts; simpl; [lia|]. rewrite IH, filter_cons.
  unfold count_one. destruct (decide (v = fv_severity f)) as [->|Hne].
  - rewrite decide_True by done. simpl. lia.
  - rewrite decide_False by done. lia.
Qed.

Lemma countBySeverity_spec sections v :
  countBySeverity sections v = length (filter (λ f, fv_severity f = v) (all_findings sections)).
Proof.
  unfold countBySeverity, all_findings.
  enough (∀ counts, foldl (λ counts section, foldl count_one counts (sv_findings section)) counts sections v
            = counts v + length (filter (λ f, fv_severity f = v) (sections ≫= sv_findings))) as H by apply H.
  induction sections as [|x l IH]; intros counts; [simpl; lia|].
  cbn [foldl]. rewrite bind_cons, IH, count_fold, filter_app, length_app. lia.
Qed.

Lemma totalFindings_spec v : totalFindings v = length (all_findings (rv_sections v)).
Proof.
  unfold totalFindings, all_findings.
  enough (∀ n, foldl (λ n s, n + length (sv_findings s)) n (rv_sections v)
               = n + length (rv_sections v ≫= sv_findings)) as H by apply H.
  induction (rv_sections v) as [|x l IH]; intros n; [simpl; lia|].
  cbn [foldl]. rewrite bind_cons, IH, length_app. lia.
Qed.

(** The summary is right: each severity's counter is the number of findings
    of that severity, the counters add up to the total in the header, and a
    chip is shown for exactly the severities that occur (and the placeholder
    chip exactly when there is no finding at all). *)
Theorem summary_counts_findings view :
  let fs := all_findings (rv_sections view) in
  let counts := countBySeverity (rv_sections view) in
  (∀ v, counts v = length (filter (λ f, fv_severity f = v) fs))
  ∧ totalFindings view = sum_list (counts <$> SEVERITY_ORDER)
  ∧ (∀ v, v ∈ filter (λ v, 0 < counts v) SEVERITY_ORDER ↔ ∃ f, f ∈ fs ∧ fv_severity f = v)
  ∧ (summaryChips view = [] ↔ totalFindings view = 0).
Proof.
  cbv zeta. pose proof (countBySeverity_spec (rv_sections view)) as Hc.
  assert (totalFindings view = sum_list (countBySeverity (rv_sections view) <$> SEVERITY_ORDER)) as Hsum.
  { rewrite totalFindings_spec. simpl. rewrite !Hc. clear Hc.
    induction (all_findings (rv_sections view)) as [|f fs IH]; [done|].
    rewrite !filter_cons. destruct (fv_severity f); repeat case_decide; try done; cbn [length]; lia. }
  assert (∀ v, v ∈ filter (λ v, 0 < countBySeverity (rv_sections view) v) SEVERITY_ORDER
               ↔ 0 < countBySeverity (rv_sections view) v) as Hin.
  { intros v. rewrite list_elem_of_filter. split; [by intros [? _]|]. intros Hv. split; [done|].
    unfold SEVERITY_ORDER. destruct v; set_solver. }
  split_and!; [done|done| |].
  - intros v. rewrite Hin, Hc. split.
    + intros Hl. destruct (filter (λ f, fv_severity f = v) (all_findings (rv_sections view)))
        as [|f fs] eqn:Hf; [simpl in Hl; lia|]. exists f.
      assert (f ∈ filter (λ f, fv_severity f = v) (all_findings (rv_sections view))) as Hff
        by (rewrite Hf; by left).
      by apply list_elem_of_filter in Hff as [? ?].
    + intros (f & Hf & Hv). destruct (filter (λ f, fv_severity f = v) (all_findings (rv_sections view)))
        as [|g fs] eqn:Hg; [|simpl; lia].
      assert (f ∈ filter (λ f, fv_severity f = v) (all_findings (rv_sections view))) as Hff
        by (by apply list_elem_of_filter).
      rewrite Hg in Hff. by apply not_elem_of_nil in Hff.
  - rewrite Hsum. unfold summaryChips. split.
    + intros Hnil. destruct (filter _ SEVERITY_ORDER) as [|v l] eqn:Hf.
      * assert (∀ v, countBySeverity (rv_sections view) v = 0) as Hz.
        { intros v. destruct (countBySeverity (rv_sections view) v) eqn:Hv; [done|].
          assert (v ∈ []) as Hn by (apply Hin; lia). by apply not_elem_of_nil in Hn. }
        simpl. by rewrite !Hz.
      * rewrite fmap_cons in Hnil. simpl in Hnil. done.
    + intros Hz. destruct (filter _ SEVERITY_ORDER) as [|v l] eqn:Hf; [done|].
      assert (0 < countBySeverity (rv_sections view) v) as Hv by (apply Hin; by left).
      simpl in Hz. destruct v; lia.
Qed.
End ReportHtml.
