(* ===== verification/PdfRenderer.v ===== *)
(** * The PDF renderer

    [server/src/processing/pdf/pdf-renderer.service.ts]: one browser, launched
    lazily and kept in the service's [browser] field, and a page per render. *)
From S2P Require Import Prelude Json Program Schema Services JsDate Memory Report Transcription ReportHtml.

Module PdfRendererService.
(** The [browser] field.  ([launching] only collapses concurrent launches: it
    is null whenever no launch is awaited.) *)
Definition Field : Type := option nat.

Definition launch : prog eff (nat * Field) :=
  browser <- await BrowserLaunch;; Ret (browser, Some browser).

Definition getBrowser (field : Field) : prog eff (nat * Field) :=
  match field with
  | Some b =>
      connected <- await (BrowserConnected b);;
      if (connected : bool) then Ret (b, field) else launch
  | None => launch
  end.

(** The page is closed whatever happens to it. *)
Definition render_page (browser : nat) (html : jstr) : prog eff (list N) :=
  page <- await (NewPage browser);;
  try_finally (await (SetContent page html);; await (PagePdf page)) (await (ClosePage page)).

(** The outcome of a render and the field afterwards. *)
Definition render (view : ReportView) (field : Field) : prog eff ((exn + list N) * Field) :=
  let html := ReportHtml.buildReportHtml view in
  r <- attempt (getBrowser field);;
  match r with
  | inl e => Ret (inl e, field)
  | inr (browser, field) => pdf <- attempt (render_page browser html);; Ret (pdf, field)
  end.

Definition onModuleDestroy (field : Field) : prog eff Field :=
  match field with
  | Some b => (TRY (await (BrowserClose b)) CATCH err => Ret tt);; Ret None
  | None => Ret None
  end.

(** ** Rendering touches no stored state *)
Section Laws.
Context `{Cr : Crypto} (f : bool).

(** Only a service's error ends a call early. *)
Definition service_error {A} (r : exn + A) : Prop := ∀ e, r = inl e → f = true ∧ infra e.

Lemma inert_browser {X} (c : call X) :
  (∀ s r s', call_contract f X c s r s' → s' = s ∧ service_error r) →
  inert (eff_contract f) (await c) service_error.
Proof. intros Hc s r s' HC. destruct (Hc _ _ _ HC) as [-> He]. split; [done|]. by destruct r. Qed.

Ltac browser_call :=
  apply inert_browser; intros ? ? ? [(-> & ? & -> & _)|(? & -> & ? & -> & ?)];
    (split; [done|]); [done|]; by intros ? [= <-].

Lemma service_error_inl {A B} e : @service_error A (inl e) → @service_error B (inl e).
Proof. intros He ? [= <-]. by apply He. Qed.

Lemma getBrowser_inert field : inert (eff_contract f) (getBrowser field) service_error.
Proof.
  assert (inert (eff_contract f) launch service_error) as Hl.
  { apply inert_bind. eapply inert_mono; [browser_call|]. intros [e|b] He; [by eapply service_error_inl|done]. }
  unfold getBrowser. destruct field as [b|]; [|done]. apply inert_bind.
  eapply inert_mono; [browser_call|]. intros [e|c] He; [by eapply service_error_inl|by destruct c].
Qed.

Lemma render_page_inert browser html : inert (eff_contract f) (render_page browser html) service_error.
Proof.
  unfold render_page. apply inert_bind. eapply inert_mono; [browser_call|].
  intros [e|page] He; [by eapply service_error_inl|]. unfold try_finally. apply inert_bind, inert_attempt.
  assert (∀ r : exn + list N, service_error r →
    inert (eff_contract f) (await (ClosePage page);; settle r) service_error) as Hclose.
  { intros r Hr. apply inert_bind. eapply inert_mono; [browser_call|].
    intros [e|[]] He'; [by eapply service_error_inl|]. by destruct r. }
  apply inert_bind. eapply inert_mono; [browser_call|].
  intros [e|[]] He'; [by apply Hclose; eapply service_error_inl|].
  eapply inert_mono; [browser_call|]. intros r Hr. by apply Hclose.
Qed.

Lemma render_inert view field :
  inert (eff_contract f) (render view field) (λ r, ∃ o, r = inr o ∧ service_error o.1).
Proof.
  unfold render. apply inert_bind, inert_attempt. eapply inert_mono; [apply getBrowser_inert|].
  intros [e|[b field']] He; [eexists; split; [done|]; by eapply service_error_inl|].
  apply inert_bind, inert_attempt. eapply inert_mono; [apply render_page_inert|].
  intros r Hr. by exists (r, field').
Qed.
End Laws.
End PdfRendererService.

(** The interface the pipeline uses. *)
Class PdfRenderer `{Cr : Crypto} := {
  pdf_render : ReportView → prog eff (list N);
  pdf_render_pure : ∀ view, pure_call (pdf_render view);
}.

(** The service, from a given content of its field. *)
Definition renderer_with `{Cr : Crypto} (field : PdfRendererService.Field) : PdfRenderer.
Proof.
  refine {| pdf_render := λ view, r <- PdfRendererService.render view field;; settle r.1 |}.
  intros view f. apply inert_bind. eapply inert_mono; [apply PdfRendererService.render_inert|].
  intros r (o & -> & Ho). destruct o as [[e|pdf] field']; [|done]. left. by apply Ho.
Defined.
