(* ===== verification/Browser.v ===== *)
(** * One browser for all renders

    [PdfRendererService.getBrowser] and [onModuleDestroy] of
    [server/src/processing/pdf/pdf-renderer.service.ts] when several renders run at a
    time: every call runs alone up to its next await, launches settle in between,
    and the browser may die at any time. *)
From S2P Require Import Prelude Json Program Schema Services JsDate Memory Report Transcription ReportHtml PdfRenderer.

Module SharedBrowser.

(** ** State *)

(** How far a call is.  A launch is known by its promise. *)
Inductive Call :=
  | Starting
  | Waiting (launch : nat)
  | Rendering (browser : nat)
  | Rendered
  | Refused
  | Destroying
  | Closing (browser : nat)
  | Destroyed.

(** The fields [browser] and [launching]; the browsers that are connected; the launches
    that are under way and how the others ended; how many there have been; and the calls. *)
Record World := mkWorld {
  browser : option nat;
  launching : option nat;
  connected : gset nat;
  pending : gset nat;
  settled : gmap nat (option nat);
  launches : nat;
  calls : list Call;
}.

Definition start : World := mkWorld None None ∅ ∅ ∅ 0 [].

Definition with_browser b w := mkWorld b (launching w) (connected w) (pending w) (settled w) (launches w) (calls w).
Definition with_connected c w := mkWorld (browser w) (launching w) c (pending w) (settled w) (launches w) (calls w).
Definition with_calls cs w := mkWorld (browser w) (launching w) (connected w) (pending w) (settled w) (launches w) cs.

(** ** The code between awaits *)

(** [this.launching = puppeteer.launch(...)]: launches are numbered in order. *)
Definition launch (w : World) : World :=
  mkWorld (browser w) (Some (launches w)) (connected w) ({[launches w]} ∪ pending w) (settled w) (S (launches w)) (calls w).

(** From the entry to the browser, or to the promise that is awaited. *)
Definition getBrowser (w : World) : World * Call :=
  let await_launch := match launching w with
                      | Some p => (w, Waiting p)
                      | None => (launch w, Waiting (launches w))
                      end in
  match browser w with
  | Some b => if decide (b ∈ connected w) then (w, Rendering b) else await_launch
  | None => await_launch
  end.

(** The [then] handler: launch [p] gives browser [p]. *)
Definition launched (p : nat) (w : World) : World :=
  mkWorld (Some p) None ({[p]} ∪ connected w) (pending w ∖ {[p]}) (<[p := Some p]> (settled w)) (launches w) (calls w).
(** The [catch] handler. *)
Definition launch_failed (p : nat) (w : World) : World :=
  mkWorld (browser w) None (connected w) (pending w ∖ {[p]}) (<[p := None]> (settled w)) (launches w) (calls w).

(** [onModuleDestroy] to its await, and after it; an error of [close] is caught. *)
Definition onModuleDestroy (w : World) : Call :=
  match browser w with Some b => Closing b | None => Destroyed end.
Definition closed (b : nat) (ok : bool) (w : World) : World :=
  with_browser None (if ok then with_connected (connected w ∖ {[b]}) w else w).

(** ** Runs *)
Inductive Event :=
  | RenderCalled
  | DestroyCalled
  | Runs (call : nat) (ok : bool)
  | LaunchSettles (launch : nat) (ok : bool)
  | Dies (browser : nat).
#[export] Instance Event_eq_dec : EqDecision Event.
Proof. solve_decision. Defined.

Definition segment (i : nat) (ok : bool) (w : World) : option World :=
  let becomes (c : Call) (w : World) := Some (with_calls (<[i := c]> (calls w)) w) in
  match calls w !! i with
  | Some Starting => let '(w, c) := getBrowser w in becomes c w
  | Some (Waiting p) =>
      match settled w !! p with
      | Some (Some b) => becomes (Rendering b) w
      | Some None => becomes Refused w
      | None => None
      end
  | Some (Rendering _) => becomes Rendered w
  | Some Destroying => becomes (onModuleDestroy w) w
  | Some (Closing b) => becomes Destroyed (closed b ok w)
  | _ => None
  end.

Definition step (e : Event) (w : World) : option World :=
  match e with
  | RenderCalled => Some (with_calls (calls w ++ [Starting]) w)
  | DestroyCalled => Some (with_calls (calls w ++ [Destroying]) w)
  | Runs i ok => segment i ok w
  | LaunchSettles p ok =>
      if decide (p ∈ pending w) then Some (if ok then launched p w else launch_failed p w) else None
  | Dies b => if decide (b ∈ connected w) then Some (with_connected (connected w ∖ {[b]}) w) else None
  end.

Fixpoint run (es : list Event) (w : World) : option World :=
  match es with
  | [] => Some w
  | e :: es => w ← step e w; run es w
  end.

(** ** Invariants *)

(** One launch at a time, and every launch that is awaited is under way or settled. *)
Record orderly (w : World) : Prop := {
  one_launch : pending w = match launching w with Some p => {[p]} | None => ∅ end;
  launches_numbered : ∀ p, p ∈ pending w ∨ is_Some (settled w !! p) ↔ p < launches w;
  no_lost_wakeup : ∀ i p, calls w !! i = Some (Waiting p) → p < launches w;
}.

(** While nothing is destroyed: one browser, and none beside a launch. *)
Record shared (w : World) : Prop := {
  one_browser : ∀ b, b ∈ connected w → browser w = Some b;
  none_while_launching : launching w ≠ None → connected w = ∅;
  not_destroyed : ∀ c, c ∈ calls w → c ≠ Destroying ∧ (∀ b, c ≠ Closing b);
}.

Lemma waiting_insert i c w p k (cs : list Call) :
  (∀ i p, cs !! i = Some (Waiting p) → p < k) → (∀ p, c = Waiting p → p < k) →
  <[i := c]> cs !! w = Some (Waiting p) → p < k.
Proof.
  intros Hcs Hc [(<- & -> & _)|[_ Hw]]%list_lookup_insert_Some; [by apply Hc|by eapply Hcs].
Qed.

Lemma getBrowser_cases w :
  (∃ b, browser w = Some b ∧ b ∈ connected w ∧ getBrowser w = (w, Rendering b))
  ∨ (∀ b, browser w = Some b → b ∉ connected w)
    ∧ ((∃ p, launching w = Some p ∧ getBrowser w = (w, Waiting p))
       ∨ launching w = None ∧ getBrowser w = (launch w, Waiting (launches w))).
Proof.
  unfold getBrowser. destruct (browser w) as [b|].
  - case_decide; [left; by exists b|right]. split; [congruence|]. destruct (launching w) as [p|]; [left; by exists p|by right].
  - right. split; [done|]. destruct (launching w) as [p|]; [left; by exists p|by right].
Qed.

Lemma orderly_launch w : orderly w → launching w = None → orderly (launch w).
Proof.
  intros [H1 H2 H3] Hn. rewrite Hn in H1. split; cbn [launch pending launching settled launches calls].
  - rewrite H1. set_solver.
  - intros p. rewrite elem_of_union, elem_of_singleton. specialize (H2 p). destruct (decide (p = launches w)) as [->|]; [split; [lia|by left; left]|].
    split; [intros [[->|?]|?]|]; [done|..]; [| |intros ?]; try (assert (p < launches w) by (apply H2; tauto); lia).
    assert (p < launches w) as Hp%H2 by lia. tauto.
  - intros i p Hp%H3. lia.
Qed.

Lemma orderly_settle w p (r : option nat) w' :
  orderly w → p ∈ pending w →
  launching w' = None → pending w' = pending w ∖ {[p]} → settled w' = <[p := r]> (settled w) →
  launches w' = launches w → calls w' = calls w → orderly w'.
Proof.
  intros [H1 H2 H3] Hp Hl Hpe Hs Hn Hc. destruct (launching w) as [q|]; rewrite H1 in Hp; [|set_solver].
  apply elem_of_singleton in Hp as ->. split; rewrite ?Hl, ?Hpe, ?Hs, ?Hn, ?Hc, ?H1; [set_solver| |done].
  intros p. rewrite <-H2, H1, lookup_insert_is_Some'. destruct (decide (p = q)) as [->|]; set_solver.
Qed.

Lemma orderly_segment i ok w w' : orderly w → segment i ok w = Some w' → orderly w'.
Proof.
  intros Hw. unfold segment. destruct (calls w !! i) as [c|] eqn:Hi; [|done].
  assert (∀ v d, orderly v → calls v = calls w → (∀ p, d = Waiting p → p < launches v) →
    orderly (with_calls (<[i := d]> (calls v)) v)) as Hset.
  { intros v d [H1 H2 H3] Hv Hd. split; cbn [with_calls pending launching settled launches calls]; [done..|].
    intros j p Hj. by eapply waiting_insert. }
  destruct c as [|p|b| | | |b|]; try done.
  - destruct (getBrowser_cases w) as [(b & _ & _ & ->)|[_ [(p & Hp & ->)|[Hp ->]]]]; intros [= <-].
    + by apply Hset.
    + apply Hset; [done..|]. intros q [= <-]. destruct Hw as [H1 H2 _]. apply H2. left. rewrite H1, Hp. set_solver.
    + apply (Hset (launch w)); [by apply orderly_launch|done|]. intros q [= <-]. cbn. lia.
  - destruct (settled w !! p) as [[b|]|]; intros [= <-]; by apply Hset.
  - intros [= <-]. by apply Hset.
  - intros [= <-]. apply Hset; [done..|]. unfold onModuleDestroy. by destruct (browser w).
  - intros [= <-]. apply (Hset (closed b ok w)); [destruct ok; by destruct Hw|by destruct ok|done].
Qed.

Lemma orderly_step e w w' : orderly w → step e w = Some w' → orderly w'.
Proof.
  intros Hw. assert (∀ c, (∀ p, c ≠ Waiting p) → orderly (with_calls (calls w ++ [c]) w)) as Hnew.
  { intros c Hc. destruct Hw as [H1 H2 H3]. split; cbn [with_calls pending launching settled launches calls]; [done..|].
    intros i p [Hi|[_ [_ He]%list_lookup_singleton_Some]]%lookup_app_Some; [by eapply H3|by destruct (Hc p)]. }
  destruct e as [| |i ok|p ok|b]; cbn [step].
  - intros [= <-]. by apply Hnew.
  - intros [= <-]. by apply Hnew.
  - by apply orderly_segment.
  - case_decide; [|done]. intros [= <-]. destruct ok; by eapply orderly_settle.
  - case_decide; [|done]. intros [= <-]. by destruct Hw.
Qed.

(** ** While nothing is destroyed *)
Lemma shared_calls w i c :
  shared w → c ≠ Destroying → (∀ b, c ≠ Closing b) → shared (with_calls (<[i := c]> (calls w)) w).
Proof.
  intros [H1 H2 H3] Hd Hc. split; cbn [with_calls connected browser launching calls]; [done..|].
  intros d [k Hk]%list_elem_of_lookup. apply list_lookup_insert_Some in Hk as [(<- & -> & _)|[_ Hk]]; [done|].
  apply H3. by eapply list_elem_of_lookup_2.
Qed.

Lemma shared_launch w : shared w → (∀ b, browser w = Some b → b ∉ connected w) → shared (launch w).
Proof.
  intros [H1 H2 H3] Hdead. split; cbn [launch connected browser launching calls]; [done| |done].
  intros _. apply set_eq. intros b. split; [|set_solver]. intros Hb. by destruct (Hdead b (H1 b Hb)).
Qed.

Lemma shared_step e w w' : shared w → orderly w → e ≠ DestroyCalled → step e w = Some w' → shared w'.
Proof.
  intros Hw Ho He. pose proof Hw as [H1 H2 H3]. destruct e as [| |i ok|p ok|b]; cbn [step]; [|done|..].
  - intros [= <-]. split; cbn [with_calls connected browser launching calls]; [done..|].
    intros c [Hc| ->%list_elem_of_singleton]%elem_of_app; [by apply H3|done].
  - unfold segment. destruct (calls w !! i) as [c|] eqn:Hi; [|done].
    destruct (H3 c (list_elem_of_lookup_2 _ _ _ Hi)) as [Hnd Hnc].
    destruct c as [|p|b| | | |b|]; try done; [..|by destruct (Hnc b)].
    + destruct (getBrowser_cases w) as [(b & _ & _ & ->)|[Hdead [(p & Hp & ->)|[Hp ->]]]]; intros [= <-].
      * by apply shared_calls.
      * by apply shared_calls.
      * apply (shared_calls (launch w)); [by apply shared_launch|done..].
    + destruct (settled w !! p) as [[b|]|]; intros [= <-]; by apply shared_calls.
    + intros [= <-]. by apply shared_calls.
  - case_decide as Hp; [|done]. intros [= <-].
    assert (connected w = ∅) as Hc.
    { apply H2. intros Hn. destruct Ho as [O1 _ _]. rewrite O1, Hn in Hp. set_solver. }
    destruct ok; split; cbn [launched launch_failed connected browser launching calls]; rewrite ?Hc; try done; set_solver.
  - case_decide; [|done]. intros [= <-]. split; cbn [with_connected connected browser launching calls]; [|..|done].
    + intros b' Hb'. apply H1. set_solver.
    + intros Hl. rewrite (H2 Hl). set_solver.
Qed.

(** Launches are paid for: by a failure, by a death, or by the browser at hand. *)
Definition paid (e : Event) : bool := match e with LaunchSettles _ false | Dies _ => true | _ => false end.
Definition at_hand (w : World) : nat :=
  if decide (launching w = None ∧ connected w = ∅) then 0 else 1.

Lemma at_hand_le w : at_hand w ≤ 1.
Proof. unfold at_hand. case_decide; lia. Qed.
Lemma at_hand_launching w p : launching w = Some p → at_hand w = 1.
Proof. intros Hp. unfold at_hand. rewrite decide_False; [done|]. rewrite Hp. by intros []. Qed.

Lemma at_hand_calls cs w : at_hand (with_calls cs w) = at_hand w.
Proof. done. Qed.

Lemma launches_step e w w' :
  shared w → orderly w → e ≠ DestroyCalled → step e w = Some w' →
  launches w' + at_hand w ≤ launches w + at_hand w' + (if paid e then 1 else 0).
Proof.
  intros Hw Ho He. destruct e as [| |i ok|p ok|b]; cbn [step paid]; [|done|..].
  - intros [= <-]. rewrite at_hand_calls. cbn. lia.
  - unfold segment. destruct (calls w !! i) as [c|] eqn:Hi; [|done].
    destruct Hw as [H1 H2 H3]. destruct (H3 c (list_elem_of_lookup_2 _ _ _ Hi)) as [Hnd Hnc].
    destruct c as [|p|b| | | |b|]; try done; [..|by destruct (Hnc b)].
    + destruct (getBrowser_cases w) as [(b & _ & _ & ->)|[Hdead [(p & Hp & ->)|[Hp ->]]]]; intros [= <-]; [rewrite at_hand_calls; cbn; lia..|].
      assert (at_hand w = 0) as ->.
      { unfold at_hand. rewrite decide_True; [done|]. split; [done|]. apply set_eq. intros b. split; [|set_solver].
        intros Hb. by destruct (Hdead b (H1 b Hb)). }
      rewrite (at_hand_launching (with_calls _ (launch w)) (launches w)) by done. cbn. lia.
    + destruct (settled w !! p) as [[b|]|]; intros [= <-]; rewrite at_hand_calls; cbn; lia.
    + intros [= <-]. rewrite at_hand_calls. cbn. lia.
  - case_decide as Hp; [|done]. intros [= <-]. pose proof (at_hand_le w). destruct ok; [|cbn; lia].
    assert (at_hand (launched p w) = 1) as ->; [|cbn; lia]. unfold at_hand. rewrite decide_False; [done|].
    cbn [launched connected]. intros [_ Hc]. set_solver.
  - case_decide; [|done]. intros [= <-]. pose proof (at_hand_le w). cbn. lia.
Qed.

Lemma start_orderly : orderly start.
Proof. split; [done| |by intros i p]. intros p. cbn. rewrite lookup_empty. split; [intros [?|[x [=]]]; set_solver|lia]. Qed.
Lemma start_shared : shared start.
Proof. split; cbn; [set_solver|done|intros c ?%not_elem_of_nil; done]. Qed.

Lemma run_orderly es w w' : orderly w → run es w = Some w' → orderly w'.
Proof.
  revert w. induction es as [|e es IH]; intros w Hw; cbn [run]; [by intros [= <-]|].
  destruct (step e w) as [w1|] eqn:He; [|done]. apply IH. by eapply orderly_step.
Qed.

Lemma run_shared es w w' :
  shared w → orderly w → DestroyCalled ∉ es → run es w = Some w' →
  shared w' ∧ launches w' + at_hand w ≤ launches w + at_hand w' + length (List.filter paid es).
Proof.
  revert w. induction es as [|e es IH]; intros w Hw Ho Hd; cbn [run List.filter]; [intros [= <-]; cbn; split; [done|lia]|].
  apply not_elem_of_cons in Hd as [He Hd]. destruct (step e w) as [w1|] eqn:Hs; [|done]. intros Hr.
  destruct (IH w1) as [Hw' Hl]; [by eapply shared_step|by eapply orderly_step|done..|]. split; [done|].
  pose proof (launches_step e w w1 Hw Ho ltac:(congruence) Hs). destruct (paid e); cbn [length]; lia.
Qed.

(** C17: One browser for all renders.  However many renders run at a time, however their
    steps interleave, and whenever a launch succeeds, fails, or a browser dies: at
    most one launch is under way; a render that waits for a launch is woken - the
    launch it waits for is under way, or settled and then the render can go on -; and
    until the service is destroyed at most one browser is connected, the one in the
    field, none while another is being launched, and there were at most as many
    launches as failures and deaths, and one more. *)
Theorem browser_is_shared es w :
  run es start = Some w →
  (∀ p q, p ∈ pending w → q ∈ pending w → p = q ∧ launching w = Some p)
  ∧ (∀ i p, calls w !! i = Some (Waiting p) → p ∈ pending w ∨ is_Some (step (Runs i true) w))
  ∧ (DestroyCalled ∉ es →
       (∀ b b', b ∈ connected w → b' ∈ connected w → b = b' ∧ browser w = Some b ∧ launching w = None)
       ∧ launches w ≤ 1 + length (List.filter paid es)).
Proof.
  intros Hr. pose proof (run_orderly _ _ _ start_orderly Hr) as [O1 O2 O3]. split_and!.
  - intros p q. rewrite O1. destruct (launching w) as [x|]; set_solver.
  - intros i p Hi. pose proof (proj2 (O2 p) (O3 i p Hi)) as [Hp|[r Hs]]; [by left|right].
    cbn [step]. unfold segment. rewrite Hi, Hs. by destruct r; eexists.
  - intros Hd. destruct (run_shared _ _ _ start_shared start_orderly Hd Hr) as [[S1 S2 _] Hl]. split.
    + intros b b' Hb Hb'. pose proof (S1 b Hb) as Eb. pose proof (S1 b' Hb'). split; [congruence|]. split; [done|].
      destruct (launching w) as [x|]; [|done]. rewrite S2 in Hb by done. set_solver.
    + pose proof (at_hand_le w). cbn in Hl. lia.
Qed.

(** Three renders at once, a failed launch, and a browser that dies. *)
Definition busy_renders : list Event :=
  [RenderCalled; RenderCalled; Runs 0 true; Runs 1 true; LaunchSettles 0 false; RenderCalled; Runs 2 true; Runs 0 true;
   Runs 1 true; LaunchSettles 1 true; Runs 2 true; RenderCalled; Runs 3 true; Dies 1; RenderCalled; Runs 4 true].

Lemma browser_is_shared_witness :
  ∃ w, run busy_renders start = Some w ∧ calls w !! 4 = Some (Waiting 2) ∧ 2 ∈ pending w ∧ launches w ≤ 3.
Proof.
  destruct (run busy_renders start) as [w|] eqn:Hr; [|vm_compute in Hr; discriminate Hr]. exists w. split; [reflexivity|].
  destruct (browser_is_shared busy_renders w Hr) as (_ & _ & H).
  assert (calls w !! 4 = Some (Waiting 2) ∧ 2 ∈ pending w) as [H4 Hp].
  { split; [|apply (bool_decide_unpack _)]; vm_compute in Hr; injection Hr as <-; vm_compute; [reflexivity|exact I]. }
  split; [exact H4|]. split; [exact Hp|]. apply H. apply (bool_decide_unpack _). vm_compute. exact I.
Defined.

(** Destroyed during a launch, the service ends with a browser that nothing closes. *)
Example destroyed_during_launch :
  ∃ w, run [RenderCalled; Runs 0 true; DestroyCalled; Runs 1 true; LaunchSettles 0 true; Runs 0 true; Runs 0 true] start
    = Some w ∧ calls w = [Rendered; Destroyed] ∧ 0 ∈ connected w.
Proof. eexists. split; [vm_compute; reflexivity|]. split; [reflexivity|]. apply (bool_decide_unpack _). by vm_compute. Qed.

(** ** One render alone *)

(** The calls of the sequential model, answered by this world. *)
Definition alone_call : handler call World := λ X c,
  match c in call X return World → (exn + X) * World with
  | BrowserConnected b => λ w, (inr (bool_decide (b ∈ connected w)), w)
  | BrowserLaunch => λ w, (inr (launches w), launched (launches w) (launch w))
  | _ => λ w, (inl (JsError []), w)
  end.
Definition alone : handler eff World := λ X c,
  match c in eff X return World → (exn + X) * World with
  | Do c => alone_call _ c
  | Transaction _ => λ w, (inl (JsError []), w)
  end.

(** A render that nothing interleaves with gets the browser, and leaves the field, that
    the sequential [getBrowser] gives. *)
Lemma getBrowser_alone w i :
  launching w = None → calls w !! i = Some Starting →
  ∃ es w' b, run es w = Some w' ∧ calls w' !! i = Some (Rendering b)
    ∧ (exec alone (PdfRendererService.getBrowser (browser w)) w).1 = inr (b, browser w').
Proof.
  intros Hl Hi. assert (i < length (calls w)) as Hlen by (by eapply lookup_lt_Some).
  destruct (getBrowser_cases w) as [(b & Hb & Hc & Hg)|[Hdead [(p & Hp & _)|[_ Hg]]]]; [|congruence|].
  - exists [Runs i true], (with_calls (<[i := Rendering b]> (calls w)) w), b.
    cbn [run step]. unfold segment. rewrite Hi, Hg. split; [done|]. cbn [with_calls calls]. split; [by apply list_lookup_insert_eq|].
    cbn [with_calls browser]. rewrite Hb. cbn. by rewrite bool_decide_true.
  - exists [Runs i true; LaunchSettles (launches w) true; Runs i true].
    assert (segment i true w = Some (with_calls (<[i := Waiting (launches w)]> (calls w)) (launch w))) as Hs
      by (unfold segment; by rewrite Hi, Hg).
    eexists _, (launches w). cbn [run step]. rewrite Hs. cbn [mbind option_bind].
    rewrite decide_True by (cbn; set_solver). cbn [mbind option_bind]. unfold segment.
    cbn [launched with_calls launch calls settled launches]. rewrite list_lookup_insert_eq by done. rewrite lookup_insert_eq.
    split; [reflexivity|]. cbn [with_calls launched launch calls browser].
    split; [apply list_lookup_insert_eq; by rewrite length_insert|].
    unfold PdfRendererService.getBrowser. destruct (browser w) as [b|] eqn:Hb; [|done].
    cbn. by rewrite bool_decide_false by by apply Hdead.
Qed.
End SharedBrowser.
