(* ===== verification/Pipeline.v ===== *)
(** * The processing pipeline

    [server/src/processing/pipeline/pipeline.service.ts]: the stages
    transcribe, compile and render, with their status transitions, events,
    timeouts and resumability. *)
From S2P Require Import Prelude Json Program Schema Services Memory JsDate Report Zod Config Media JobsRepository Transcription Compiler ReportHtml PdfRenderer.

(** ** Timeouts

    [Promise.race([fn(), timer])] settles with whichever is first.  The timer is
    observed at the awaits of [fn()]: [race] returns the result of the body, or,
    when the timer is due at one of its awaits, what remains of the body - which
    the race abandons but does not stop. *)
Fixpoint race {A} (ms : Z) (p : prog eff A) : prog eff (A + prog eff A) :=
  match p with
  | Ret a => Ret (inl a)
  | Throw e => Throw e
  | Vis c k =>
      Vis (Do (TimerFired ms)) (λ due,
        match due with
        | inr true => Ret (inr (Vis c k))
        | _ => Vis c (λ r, race ms (k r))
        end)
  end.

Definition withTimeout {A} (p : prog eff A) (ms : Z) (stage : jstr) : prog eff A :=
  r <- race ms p;;
  match r with
  | inl a => Ret a
  | inr _ => Throw (StageTimeoutError stage ms)
  end.

(** [(err as { permanent?: boolean })?.permanent] or an [UnrecoverableError] *)
Definition isPermanent (e : exn) : bool :=
  match e with
  | EmptyTranscriptError | MalformedReportError _ | UnrecoverableError _ => true
  | External f => f_permanent f
  | _ => false
  end.

Module STAGE.
Definition TRANSCRIBE : jstr := js "transcribe".
Definition COMPILE : jstr := js "compile".
Definition RENDER : jstr := js "render".
End STAGE.

Module PipelineService.
Section Service.
Context `{Cr : Crypto} {TP : TranscriptionProvider} {CP : ReportCompilerProvider} `{Zo : Zod}
  {PR : PdfRenderer} (cfg : AppConfig).

Definition runStage {T} (jobId stage : jstr) (status : JobStatus) (fn : prog eff T) : prog eff T :=
  JobsRepository.setStatus jobId status None;;
  JobsRepository.addEvent jobId stage (js "started") None;;
  TRY (result <- withTimeout fn (stageTimeoutMs (cfg_ai cfg)) stage;;
       JobsRepository.addEvent jobId stage (js "completed") None;;
       Ret result)
  CATCH err =>
    (JobsRepository.addEvent jobId stage (js "failed") (Some (slice0 1000 (exn_message err)));;
     Throw err).

Definition transcribe_body (jobId audioKey : jstr) : prog eff jstr :=
  stream <- MediaService.getObjectStream audioKey;;
  transcript <- TranscriptionService.transcribe stream (mkTranscriptionOptions None (Some audioKey));;
  JobsRepository.saveTranscript jobId transcript;;
  Ret transcript.

Definition transcribeStage (jobId audioKey : jstr) (existingTranscript : option jstr) : prog eff jstr :=
  match existingTranscript with
  | Some t => if truthy t && bool_decide (0 < length (trim t)) then Ret t
              else runStage jobId STAGE.TRANSCRIBE TRANSCRIBING (transcribe_body jobId audioKey)
  | None => runStage jobId STAGE.TRANSCRIBE TRANSCRIBING (transcribe_body jobId audioKey)
  end.

Definition existingReport (job : JobWithReport) : list ReportSectionInput :=
  (λ section, mkSectionInput (section_title (swf_section section))
     ((λ f, mkFindingInput (finding_text f) (finding_severity f))
      <$> sortOn finding_sortOrder (swf_findings section)))
  <$> sortOn (λ x, section_sortOrder (swf_section x)) (jwr_sections job).

Definition compile_body (jobId label transcript : jstr) : prog eff (list ReportSectionInput) :=
  sections <- ReportCompilerService.compile (mkCompileInput label transcript);;
  JobsRepository.replaceReport jobId sections;;
  Ret sections.

Definition compileStage (jobId label transcript : jstr) (existing : list ReportSectionInput)
    : prog eff (list ReportSectionInput) :=
  if bool_decide (0 < length existing) then Ret existing
  else runStage jobId STAGE.COMPILE COMPILING (compile_body jobId label transcript).

Definition toReportView (jobId label : jstr) (sections : list ReportSectionInput)
    : prog eff ReportView :=
  now <- await DateNow;;
  Ret (mkReportView jobId label now
         ((λ section, mkSectionView (si_title section)
             ((λ f, mkFindingView (fi_text f) (severityToApi (fi_severity f)))
              <$> si_findings section)) <$> sections)).

Definition render_body (jobId userId label : jstr) (sections : list ReportSectionInput) : prog eff unit :=
  view <- toReportView jobId label sections;;
  pdf <- pdf_render view;;
  let pdfKey := MediaService.pdfKey userId jobId in
  MediaService.putObject pdfKey pdf PDF_CONTENT_TYPE;;
  JobsRepository.setPdfReady jobId pdfKey.

Definition renderStage (jobId userId label : jstr) (sections : list ReportSectionInput) : prog eff unit :=
  runStage jobId STAGE.RENDER RENDERING (render_body jobId userId label sections).

Definition markFailed (jobId message : jstr) : prog eff unit :=
  job <- JobsRepository.rawById jobId;;
  match job with
  | None => Ret tt
  | Some job =>
      if bool_decide (job_status job = FAILED) then Ret tt
      else
        let trimmed := slice0 1000 message in
        JobsRepository.setStatus jobId FAILED (Some (Some trimmed));;
        JobsRepository.addEvent jobId (js "pipeline") (js "failed") (Some trimmed)
  end.

(** The stages of a job that may be processed. *)
Definition stages (data : ProcessJobData) (job : JobWithReport) (audioKey : jstr) : prog eff unit :=
  transcript <- transcribeStage (data_jobId data) audioKey (job_transcript (jwr_job job));;
  sections <- compileStage (data_jobId data) (job_label (jwr_job job)) transcript (existingReport job);;
  renderStage (data_jobId data) (data_userId data) (job_label (jwr_job job)) sections.

Definition process (data : ProcessJobData) : prog eff unit :=
  job <- JobsRepository.findById (data_jobId data);;
  match job with
  | None => Ret tt
  | Some job =>
      let j := jwr_job job in
      match job_deletedAt j with
      | Some _ => Ret tt
      | None =>
          if negb (bool_decide (job_userId j = data_userId data)) then
            Throw (UnrecoverableError (js "Job " ++ data_jobId data ++ js " owner mismatch; refusing to process."))
          else if bool_decide (job_status j = READY) then Ret tt
          else match (match job_audioKey j with
                      | Some k => if truthy k then Some k else None
                      | None => None
                      end) with
               | None => Throw (UnrecoverableError (js "Job " ++ data_jobId data
                                                      ++ js " has no audio key; cannot process."))
               | Some audioKey =>
                   TRY (stages data job audioKey)
                   CATCH err =>
                     if isPermanent err then
                       (markFailed (data_jobId data) (exn_message err);;
                        Throw (match err with
                               | UnrecoverableError _ => err
                               | _ => UnrecoverableError (exn_message err)
                               end))
                     else Throw err
               end
      end
  end.
End Service.
End PipelineService.

(** ** What a worker may do to the database between two awaits *)

(** The status machine, as the worker drives it. *)
Inductive stage_step : JobStatus → JobStatus → Prop :=
  | step_stay st : stage_step st st
  | step_transcribe st : st ≠ READY → stage_step st TRANSCRIBING
  | step_compile st : st ≠ READY → stage_step st COMPILING
  | step_render st : st ≠ READY → stage_step st RENDERING
  | step_ready : stage_step RENDERING READY
  | step_failed st : st = TRANSCRIBING ∨ st = COMPILING → stage_step st FAILED.

Definition blank_text (o : option jstr) : Prop :=
  match o with Some t => trim t = [] | None => True end.

Record advances (u id : jstr) (j j' : Job) : Prop := {
  adv_identity : job_userId j' = job_userId j ∧ job_label j' = job_label j
    ∧ job_audioKey j' = job_audioKey j ∧ job_idempotencyKey j' = job_idempotencyKey j
    ∧ job_createdAt j' = job_createdAt j ∧ job_deletedAt j' = job_deletedAt j;
  adv_status : stage_step (job_status j) (job_status j');
  adv_transcript : job_transcript j' = job_transcript j
    ∨ blank_text (job_transcript j) ∧ ∃ t, job_transcript j' = Some t ∧ trim t = t ∧ t ≠ [];
  adv_pdf : job_pdfKey j' = job_pdfKey j
    ∨ job_pdfKey j' = Some (MediaService.pdfKey u id) ∧ job_status j' = READY;
}.

Record worker_step (u id : jstr) (s s' : Store) : Prop := {
  ws_clock : (clock s ≤ clock s')%Z;
  ws_others : ∀ i, i ≠ id → jobs s' !! i = jobs s !! i;
  ws_job : match jobs s !! id, jobs s' !! id with
           | Some j, Some j' => advances u id j j'
           | None, None => True
           | _, _ => False
           end;
  ws_reports : consistent s → consistent s' ∧ ∀ i t, i ≠ id → report_of s' i t ↔ report_of s i t;
  ws_objects : ∀ k, k ≠ MediaService.pdfKey u id → objects s' !! k = objects s !! k;
  ws_rest : users s' = users s ∧ refreshTokens s' = refreshTokens s ∧ presigned s' = presigned s
            ∧ queue s' = queue s ∧ dlq s' = dlq s;
  ws_events : ∃ new, processingEvents s' = processingEvents s ++ new
                     ∧ Forall (λ e, event_jobId e = id) new;
}.

Section Steps.
Context (u id : jstr).
Abbreviation G := (worker_step u id).

Lemma advances_refl j : advances u id j j.
Proof. split; [done|constructor|by left|by left]. Qed.

Lemma ws_same s s' :
  (clock s ≤ clock s')%Z → jobs s' = jobs s → reportSections s' = reportSections s →
  findings s' = findings s → objects s' = objects s →
  users s' = users s ∧ refreshTokens s' = refreshTokens s ∧ presigned s' = presigned s
    ∧ queue s' = queue s ∧ dlq s' = dlq s →
  (∃ new, processingEvents s' = processingEvents s ++ new ∧ Forall (λ e, event_jobId e = id) new) → G s s'.
Proof.
  intros Hc Hj Hs Hf Ho Hr He. split; try done.
  - by rewrite Hj.
  - rewrite Hj. destruct (jobs s !! id); [apply advances_refl|done].
  - intros Hcs. unfold consistent, report_of, findings_of. by rewrite Hs, Hf.
  - by rewrite Ho.
Qed.

#[export] Instance worker_step_refl : Reflexive G.
Proof. intros s. apply ws_same; try done. exists []. by rewrite app_nil_r. Qed.

Lemma ws_clock_step t s : (clock s ≤ t)%Z → G s (with_clock t s).
Proof. intros Ht. apply ws_same; try done. exists []. by rewrite app_nil_r. Qed.

Lemma ws_event e s : event_jobId e = id → G s (with_events (processingEvents s ++ [e]) s).
Proof. intros He. apply ws_same; try done. exists [e]. split; [done|]. by repeat constructor. Qed.

Lemma ws_update d t j s :
  jobs s !! id = Some j → (clock s ≤ t)%Z → advances u id j (apply_data d t j) →
  G s (with_clock t (with_jobs (<[id := apply_data d t j]> (jobs s)) s)).
Proof.
  intros Hj Ht Ha. split; try done.
  - intros i Hi. simpl. by rewrite lookup_insert_ne.
  - simpl. by rewrite Hj, lookup_insert_eq.
  - exists []. by rewrite app_nil_r.
Qed.

Lemma ws_replaced sections s s' : replaced id sections s s' → report_frame s s' → G s s'.
Proof.
  intros Hr Hfr. assert (jobs s' = jobs s ∧ objects s' = objects s ∧ queue s' = queue s ∧ presigned s' = presigned s
    ∧ users s' = users s ∧ refreshTokens s' = refreshTokens s ∧ clock s' = clock s ∧ dlq s' = dlq s
    ∧ processingEvents s' = processingEvents s) as (Hj & Ho & Hq & Hp & Hus & Ht & Hc & Hd & He) by (by rewrite Hfr).
  split; rewrite ?Hj, ?Ho, ?Hq, ?Hp, ?Hus, ?Ht, ?Hc, ?Hd, ?He; try done.
  - destruct (jobs s !! id); [apply advances_refl|done].
  - intros Hcs. split; [|intros i t Hi; by apply (replaced_other id sections)].
    destruct Hr as [t [_ Hs _ _ Hnt Hap]]. unfold consistent. rewrite Hs, fmap_app. apply NoDup_app.
    split_and!; [|intros i Hi Hit|done].
    + eapply sublist_NoDup; [exact Hcs|]. by apply fmap_sublist, sublist_filter.
    + apply list_elem_of_fmap in Hi as (x & -> & Hx). apply list_elem_of_fmap in Hit as (y' & Heq & Hy).
      apply list_elem_of_fmap in Hy as (y & -> & Hy). by eapply Hap.
  - exists []. by rewrite app_nil_r.
Qed.

Lemma ws_put pdf s :
  G s (with_objects (<[MediaService.pdfKey u id := pdf]> (objects s)) s).
Proof.
  split; try done.
  - destruct (jobs s !! id) eqn:Hj; simpl; rewrite Hj; [apply advances_refl|done].
  - intros k Hk. simpl. by rewrite lookup_insert_ne.
  - exists []. by rewrite app_nil_r.
Qed.
End Steps.

(** ** Specifications of the stages, with the guarantee *)
Section Specs.
Context `{Cr : Crypto} (f : bool) (u id : jstr).
Abbreviation G := (worker_step u id).
Abbreviation wpg := (wpg (eff_contract f) G).

Definition down (e : exn) : Prop := f = true ∧ infra e.

(** An update of the job's row. *)
Lemma wpg_update d j s :
  jobs s !! id = Some j → (∀ t, advances u id j (apply_data d t j)) →
  wpg (await (JobUpdate (JobsRepository.by_id id) d);; Ret tt) s (λ r s',
    match r with
    | inr _ => ∃ t, (clock s ≤ t)%Z ∧ s' = with_clock t (with_jobs (<[id := apply_data d t j]> (jobs s)) s)
    | inl e => s' = s ∧ down e
    end).
Proof.
  intros Hj Ha. apply wpg_single; [by intros []| |].
  - eapply wp_mono; [apply update_by_id_spec|]. intros [e|[]] s'.
    + intros [-> [?|[Hn _]]]; [done|congruence].
    + intros (j' & t & Hj' & Ht & ->). rewrite Hj in Hj'. injection Hj' as <-. by exists t.
  - intros [e|[]] s'; [by intros [-> _]|]. intros (t & Ht & ->). by apply ws_update.
Qed.

Lemma wpg_addEvent stage status message s :
  is_Some (jobs s !! id) →
  wpg (JobsRepository.addEvent id stage status message) s (λ r s',
    match r with
    | inr _ => s' = with_events (processingEvents s ++ [mkProcessingEvent id stage status message]) s
    | inl e => s' = s ∧ down e
    end).
Proof.
  intros [j Hj]. apply wpg_single; [by intros []| |].
  - unfold JobsRepository.addEvent. wp_call.
    intros r s' [[(_ & -> & ->)|(Hn & _)]|[Hf [-> (e & -> & He)]]]; [done| |done].
    simpl in Hn. congruence.
  - intros [e|[]] s'; [by intros [-> _]|]. intros ->. by apply ws_event.
Qed.

(** Timeouts: the body's specification, or the timer at one of its awaits. *)
Lemma wpg_withTimeout {A} (p : prog eff A) ms stage s Q :
  wpg p s Q →
  (∀ s', rtc G s s' → f = true → Q (inl (StageTimeoutError stage ms)) s') →
  wpg (withTimeout p ms stage) s Q.
Proof.
  intros Hp Ht. assert (rtc G s s) as Hs by done. revert Ht Hs. generalize s at 1 2 as s0.
  intros s0 Ht Hs. unfold withTimeout. revert s Hp Hs.
  induction p as [a|e|X c k IH]; intros s Hp Hs; simpl; [done..|].
  intros r s' HC.
  assert (s' = s ∧ (r = inr false ∨ f = true ∧ r = inr true)) as [-> Hr].
  { destruct HC as [(-> & x & -> & ->)|(Hf & -> & x & -> & ->)]; auto. }
  split; [done|].
  assert (wpg (bind (Vis c (λ r, race ms (k r))) (λ r, match r with
            | inl a => Ret a | inr _ => Throw (StageTimeoutError stage ms) end)) s Q) as Hgo.
  { simpl. intros r2 s2 HC2. destruct (Hp _ _ HC2) as [HG Hk]. split; [done|].
    apply (IH r2 s2); [done|]. by eapply rtc_r. }
  destruct Hr as [->|[Hf ->]]; [exact Hgo|]. simpl. by apply Ht.
Qed.

Definition status_data (st : JobStatus) (err : option (option jstr)) : JobData :=
  mkJobData None (Some st) None None err None None.
Definition logged (stage status : jstr) (message : option jstr) (s : Store) : Store :=
  with_events (processingEvents s ++ [mkProcessingEvent id stage status message]) s.

(** The state in which a stage's body starts. *)
Definition entered (stage : jstr) (st : JobStatus) (j : Job) (s s1 : Store) : Prop :=
  ∃ t, (clock s ≤ t)%Z
    ∧ s1 = logged stage (js "started") None
             (with_clock t (with_jobs (<[id := apply_data (status_data st None) t j]> (jobs s)) s)).

Lemma rtc_present s s' : rtc G s s' → is_Some (jobs s !! id) → is_Some (jobs s' !! id).
Proof.
  induction 1 as [s|s1 s2 s3 Hs _ IH]; [done|]. intros [j Hj]. apply IH.
  pose proof (ws_job _ _ _ _ Hs) as Hw. rewrite Hj in Hw. by destruct (jobs s2 !! id).
Qed.

Lemma wpg_runStage {T} cfg stage st (fn : prog eff T) j s (B : Store → exn + T → Store → Prop) :
  jobs s !! id = Some j → stage_step (job_status j) st → st ≠ READY →
  (∀ s1, entered stage st j s s1 → wpg fn s1 (B s1)) →
  wpg (PipelineService.runStage cfg id stage st fn) s (λ r s',
    match r with
    | inr a => ∃ s1 s2, entered stage st j s s1 ∧ B s1 (inr a) s2 ∧ rtc G s1 s2
                        ∧ s' = logged stage (js "completed") None s2
    | inl e => down e ∨ (f = true ∧ ∃ ms, e = StageTimeoutError stage ms)
               ∨ ∃ s1 s2 m, entered stage st j s s1 ∧ B s1 (inl e) s2 ∧ rtc G s1 s2
                            ∧ s' = logged stage (js "failed") m s2
    end).
Proof.
  intros Hj Hst Hne HB. unfold PipelineService.runStage.
  wpg_focus. eapply wpg_mono; [apply (wpg_update (status_data st None) j s Hj)|].
  { intros t. split; [done|exact Hst|by left|by left]. }
  intros [e|[]] s1; [by intros [-> He]; left|]. intros (t & Ht & ->). wpg_focus.
  eapply wpg_mono; [apply wpg_addEvent; simpl; by rewrite lookup_insert_eq|].
  intros [e|[]] s1; [by intros [-> He]; left|]. intros ->.
  match goal with |- Program.wpg _ _ _ ?x _ => set (s1 := x) end.
  assert (entered stage st j s s1) as Hen by (by exists t).
  assert (is_Some (jobs s1 !! id)) as Hp1 by (simpl; by rewrite lookup_insert_eq).
  wpg_focus.
  eapply wpg_mono; [apply (wpg_withTimeout fn (stageTimeoutMs (cfg_ai cfg)) stage s1
    (λ r s2, (B s1 r s2 ∧ rtc G s1 s2
              ∨ f = true ∧ (∃ ms, r = inl (StageTimeoutError stage ms)) ∧ rtc G s1 s2)))|].
  - eapply wpg_mono; [apply wpg_reach, HB, Hen|]. intros r s2 [? ?]. by left.
  - intros s2 Hr Hf. right. split_and!; [done|by eexists|done].
  - intros r s2 Hr.
    assert (is_Some (jobs s2 !! id)) as Hp2.
    { destruct Hr as [[_ Hr]|(_ & _ & Hr)]; by eapply rtc_present. }
    destruct r as [e|a].
    + wpg_focus. eapply wpg_mono; [by apply wpg_addEvent|].
      intros [e'|[]] s3; [by intros [-> He]; left|]. intros ->. simpl. right.
      destruct Hr as [[HB' Hr]|(Hf & (ms & [= ->]) & _)]; [|left; by eauto].
      right. by exists s1, s2, (Some (slice0 1000 (exn_message e))).
    + destruct Hr as [[HB' Hr]|(_ & (ms & ?) & _)]; [|done].
      wpg_focus. eapply wpg_mono; [by apply wpg_addEvent|]. intros [e'|[]] s3.
      * intros [-> He]. wpg_focus. eapply wpg_mono; [by apply wpg_addEvent|].
        intros [e''|[]] s4; [by intros [-> He']; left|]. intros ->. simpl. by left.
      * intros ->. simpl. by exists s1, s2.
Qed.

Lemma wpg_frozen {A} (p : prog eff A) s Q :
  Program.wpg (eff_contract f) (λ s s', s' = s) p s Q → wpg p s Q.
Proof. apply wpg_weaken. by intros s1 s2 ->. Qed.

Definition same_report (s s' : Store) : Prop :=
  reportSections s' = reportSections s ∧ findings s' = findings s.

(** What the providers promise in a given situation: the errors each stage may
    end with.  The renderer's are not permanent. *)
Context {TP : TranscriptionProvider} {CP : ReportCompilerProvider} `{Zo : Zod} {PR : PdfRenderer}.
Context (cfg : AppConfig) (Terr Cerr Rerr : exn → Prop).
Hypothesis transcribes : ∀ audio opts s,
  Program.wpg (eff_contract f) (λ s s', s' = s) (TranscriptionService.transcribe audio opts) s
    (λ r s', s' = s ∧ match r with inr t => t ≠ [] ∧ trim t = t | inl e => Terr e end).
Hypothesis compiles : ∀ input s,
  Program.wpg (eff_contract f) (λ s s', s' = s) (ReportCompilerService.compile input) s
    (λ r s', s' = s ∧ match r with inr out => ReportCompilerService.report_ok out | inl e => Cerr e end).
Hypothesis renders : ∀ view s,
  Program.wpg (eff_contract f) (λ s s', s' = s) (pdf_render view) s
    (λ r s', s' = s ∧ match r with inr _ => True | inl e => Rerr e end).
Hypothesis render_errors : ∀ e, Rerr e → isPermanent e = false.

(** Failures that BullMQ retries: a service, or the clock. *)
Definition transient (e : exn) : Prop :=
  f = true ∧ (infra e ∨ ∃ stage ms, e = StageTimeoutError stage ms).

Definition nonblank (o : option jstr) : bool :=
  match o with Some t => bool_decide (trim t ≠ []) | None => false end.

Lemma entered_row stage st j s s1 :
  entered stage st j s s1 →
  ∃ j1, jobs s1 !! id = Some j1 ∧ job_status j1 = st ∧ job_transcript j1 = job_transcript j
        ∧ job_pdfKey j1 = job_pdfKey j ∧ same_report s s1 ∧ objects s1 = objects s.
Proof.
  intros (t & _ & ->). eexists. simpl. rewrite lookup_insert_eq. split; [done|]. by split_and!.
Qed.

Definition transcribed (j : Job) (t : jstr) (s s' : Store) : Prop :=
  ∃ j', jobs s' !! id = Some j' ∧ job_transcript j' = Some t ∧ trim t ≠ []
    ∧ job_status j' ≠ READY ∧ same_report s s'
    ∧ (nonblank (job_transcript j) = true → s' = s ∧ job_transcript j = Some t).

Lemma transcribe_run audioKey j s :
  jobs s !! id = Some j → job_status j ≠ READY → nonblank (job_transcript j) = false →
  wpg (PipelineService.runStage cfg id STAGE.TRANSCRIBE TRANSCRIBING
         (PipelineService.transcribe_body id audioKey)) s (λ r s',
    match r with
    | inr t => transcribed j t s s'
    | inl e => transient e ∨ (Terr e ∨ objects s !! audioKey = None ∧ not_found e)
                 ∧ ∃ j', jobs s' !! id = Some j' ∧ job_status j' = TRANSCRIBING
    end).
Proof.
  intros Hj Hne Hb. eapply wpg_mono.
  - apply (wpg_runStage cfg STAGE.TRANSCRIBE TRANSCRIBING _ j s (λ s1 r s2,
      match r with
      | inr t => t ≠ [] ∧ trim t = t ∧ same_report s1 s2
          ∧ ∃ j', jobs s2 !! id = Some j' ∧ job_transcript j' = Some t ∧ job_status j' = TRANSCRIBING
      | inl e => down e ∨ (Terr e ∨ objects s1 !! audioKey = None ∧ not_found e) ∧ s2 = s1
      end) Hj (step_transcribe _ Hne) ltac:(done)).
    intros s1 Hen. destruct (entered_row _ _ _ _ _ Hen) as (j1 & Hj1 & Hst & Htr & Hpdf & _).
    unfold PipelineService.transcribe_body. wpg_focus.
    eapply wpg_mono; [apply wpg_single;
      [by intros [e|[]]|apply MediaService.getObjectStream_spec|by intros r s' [-> _]]|].
    intros [e|body] s2 [-> Hbody]; [destruct Hbody; auto|]. wpg_focus.
    eapply wpg_mono; [apply wpg_frozen, transcribes|]. intros [e|t] s2 [-> Ht]; [by auto|].
    destruct Ht as [Hne' Htrim]. wpg_focus.
    eapply wpg_mono; [apply (wpg_update _ j1); [done|]|].
    + intros t'. split; [done|apply step_stay|right|by left].
      rewrite Htr. split; [|by exists t]. destruct (job_transcript j); [|done].
      simpl in Hb. apply bool_decide_eq_false in Hb. by apply dec_stable.
    + intros [e|[]] s3; [intros [-> He]; by left|]. intros (t' & _ & ->). simpl.
      split_and!; [done|done|done|]. eexists. rewrite lookup_insert_eq. by split_and!.
  - intros [e|t] s'.
    + intros [[Hf He]|[(Hf & ms & ->)|(s1 & s2 & m & Hen & HB & _ & ->)]].
      * left. split; [done|]. by left.
      * left. split; [done|]. right. by eexists _, _.
      * destruct (entered_row _ _ _ _ _ Hen) as (j1 & Hj1 & Hst & _ & _ & _ & Ho).
        destruct HB as [[Hf He]|[HB ->]]; [left; split; [done|]; by left|].
        right. rewrite <- Ho. split; [done|]. by exists j1.
    + intros (s1 & s2 & Hen & (Hne' & Htrim & Hsr & j2 & Hj2 & Ht2 & Hs2) & _ & ->).
      destruct (entered_row _ _ _ _ _ Hen) as (j1 & _ & _ & _ & _ & Hsr1 & _).
      exists j2. split_and!; [done|done|congruence|congruence| |congruence].
      destruct Hsr, Hsr1. split; simpl; congruence.
Qed.

Lemma transcribeStage_spec audioKey j s :
  jobs s !! id = Some j → job_status j ≠ READY →
  wpg (PipelineService.transcribeStage cfg id audioKey (job_transcript j)) s (λ r s',
    match r with
    | inr t => transcribed j t s s'
    | inl e => transient e ∨ (Terr e ∨ objects s !! audioKey = None ∧ not_found e)
                 ∧ ∃ j', jobs s' !! id = Some j' ∧ job_status j' = TRANSCRIBING
    end).
Proof.
  intros Hj Hne. unfold PipelineService.transcribeStage.
  destruct (job_transcript j) as [t|] eqn:Ht; [|apply transcribe_run; [done|done|by rewrite Ht]].
  destruct (truthy t && bool_decide (0 < length (trim t))) eqn:Hb.
  - apply andb_true_iff in Hb as [_ Hb]. apply bool_decide_eq_true in Hb.
    assert (trim t ≠ []) by (intros Hz; rewrite Hz in Hb; simpl in Hb; lia).
    simpl. exists j. split_and!; done.
  - apply transcribe_run; [done|done|]. rewrite Ht. simpl. apply bool_decide_eq_false.
    intros Hnb. apply andb_false_iff in Hb as [Hb|Hb].
    + destruct t; [by apply Hnb|done].
    + apply bool_decide_eq_false in Hb. destruct (trim t); [done|simpl in Hb; lia].
Qed.

Definition compiled (j : Job) (existing out : list ReportSectionInput) (s s' : Store) : Prop :=
  ∃ j', jobs s' !! id = Some j' ∧ job_transcript j' = job_transcript j ∧ job_status j' ≠ READY
    ∧ (existing ≠ [] → s' = s ∧ out = existing)
    ∧ (existing = [] → ReportCompilerService.report_ok out ∧ ∀ t, report_of s' id t → report_tree t = out).

Lemma replaced_tree sections s s' t : replaced id sections s s' → report_of s' id t → report_tree t = sections.
Proof.
  intros [tr Hst] Hr. replace t with tr; [eapply section_rows_tree, stored_rows, Hst|].
  symmetry. eapply stored_report; [exact Hst| |exact Hr].
  apply Forall_forall. intros y Hy. by apply list_elem_of_filter in Hy as [? _].
Qed.

Lemma compileStage_spec label transcript existing j s :
  jobs s !! id = Some j → job_status j ≠ READY →
  wpg (PipelineService.compileStage cfg id label transcript existing) s (λ r s',
    match r with
    | inr out => compiled j existing out s s'
    | inl e => transient e ∨ Cerr e ∧ ∃ j', jobs s' !! id = Some j' ∧ job_status j' = COMPILING
    end).
Proof.
  intros Hj Hne. unfold PipelineService.compileStage. case_bool_decide as Hl.
  { simpl. exists j. split_and!; try done. intros ->. simpl in Hl. lia. }
  assert (existing = []) as -> by (destruct existing; [done|simpl in Hl; lia]).
  eapply wpg_mono.
  - apply (wpg_runStage cfg STAGE.COMPILE COMPILING _ j s (λ s1 r s2,
      match r with
      | inr out => ReportCompilerService.report_ok out ∧ replaced id out s1 s2 ∧ report_frame s1 s2
      | inl e => down e ∨ Cerr e ∧ s2 = s1
      end) Hj (step_compile _ Hne) ltac:(done)).
    intros s1 Hen. destruct (entered_row _ _ _ _ _ Hen) as (j1 & Hj1 & _).
    unfold PipelineService.compile_body. wpg_focus.
    eapply wpg_mono; [apply wpg_frozen, compiles|]. intros [e|out] s2 [-> Hout]; [by auto|]. wpg_focus.
    eapply wpg_mono; [apply wpg_single; [by intros [e|[]]|apply replaceReport_spec|]|].
    + intros [e|[]] s2; [by intros [-> _]|]. intros [Hr Hfr]. by eapply ws_replaced.
    + intros [e|[]] s2; [|by intros [Hr Hfr]]. intros [-> [[Hf He]|[Hn _]]]; [by left|congruence].
  - intros [e|out] s'.
    + intros [[Hf He]|[(Hf & ms & ->)|(s1 & s2 & m & Hen & HB & _ & ->)]].
      * left. split; [done|]. by left.
      * left. split; [done|]. right. by eexists _, _.
      * destruct (entered_row _ _ _ _ _ Hen) as (j1 & Hj1 & Hst & _).
        destruct HB as [[Hf He]|[HB ->]]; [left; split; [done|]; by left|]. right. split; [done|]. by exists j1.
    + intros (s1 & s2 & Hen & (Hok & Hr & Hfr) & _ & ->).
      destruct (entered_row _ _ _ _ _ Hen) as (j1 & Hj1 & Hst & Htr & _).
      exists j1. split_and!; [|done|congruence|done|].
      * change (jobs s2 !! id = Some j1). by rewrite Hfr.
      * intros _. split; [done|]. intros t Ht. by eapply (replaced_tree _ s1 s2).
Qed.

Definition rendered (j : Job) (s s' : Store) : Prop :=
  ∃ j' pdf, jobs s' !! id = Some j' ∧ job_status j' = READY ∧ job_errorMessage j' = None
    ∧ job_pdfKey j' = Some (MediaService.pdfKey u id) ∧ job_transcript j' = job_transcript j
    ∧ objects s' !! MediaService.pdfKey u id = Some (mkStoredObject pdf PDF_CONTENT_TYPE)
    ∧ same_report s s'.

Lemma renderStage_spec label sections j s :
  jobs s !! id = Some j → job_status j ≠ READY →
  wpg (PipelineService.renderStage cfg id u label sections) s (λ r s',
    match r with
    | inr _ => rendered j s s'
    | inl e => transient e ∨ Rerr e
    end).
Proof.
  intros Hj Hne. unfold PipelineService.renderStage. eapply wpg_mono.
  - apply (wpg_runStage cfg STAGE.RENDER RENDERING _ j s (λ s1 r s2,
      match r with inr _ => rendered j s1 s2 | inl e => down e ∨ Rerr e end)
      Hj (step_render _ Hne) ltac:(done)).
    intros s1 Hen. destruct (entered_row _ _ _ _ _ Hen) as (j1 & Hj1 & Hst & Htr & _).
    unfold PipelineService.render_body, PipelineService.toReportView. wpg_focus.
    intros r s2 [(t & Ht & -> & ->)|[Hf []]]. split; [by apply ws_clock_step|]. cbn [Program.wpg bind]. wpg_focus.
    eapply wpg_mono; [apply wpg_frozen, renders|]. intros [e|pdf] s2 [-> Hpdf]; [by right|]. wpg_focus.
    eapply wpg_mono; [apply wpg_single; [by intros []|apply MediaService.putObject_spec|]|].
    { intros [e|[]] s2; [by intros [-> _]|]. intros ->. apply ws_put. }
    intros [e|[]] s2; [intros [-> He]; by left|]. intros ->.
    eapply wpg_mono; [apply (wpg_update _ j1); [done|]|].
    + intros t'. split; [done|simpl; rewrite Hst; constructor|by left|by right].
    + intros [e|[]] s3; [intros [-> He]; by left|]. intros (t' & _ & ->).
      eexists _, pdf. simpl. rewrite !lookup_insert_eq. split_and!; try done.
  - intros [e|[]] s'.
    + intros [[Hf He]|[(Hf & ms & ->)|(s1 & s2 & m & Hen & HB & _ & ->)]].
      * left. split; [done|]. by left.
      * left. split; [done|]. right. by eexists _, _.
      * destruct HB as [[Hf He]|HB]; [left; split; [done|]; by left|by right].
    + intros (s1 & s2 & Hen & (j' & pdf & H1 & H2 & H3 & H4 & H5 & H6 & [H7 H8]) & _ & ->).
      destruct (entered_row _ _ _ _ _ Hen) as (j1 & _ & _ & _ & _ & [Hs1 Hs2] & _).
      exists j', pdf. split_and!; try done. split; simpl; congruence.
Qed.

(** What a completed run leaves. *)
Definition completed (x : JobWithReport) (s s' : Store) : Prop :=
  ∃ j' pdf t, jobs s' !! id = Some j' ∧ job_status j' = READY ∧ job_errorMessage j' = None
    ∧ job_pdfKey j' = Some (MediaService.pdfKey u id)
    ∧ objects s' !! MediaService.pdfKey u id = Some (mkStoredObject pdf PDF_CONTENT_TYPE)
    ∧ job_transcript j' = Some t ∧ trim t ≠ []
    ∧ (nonblank (job_transcript (jwr_job x)) = true → job_transcript (jwr_job x) = Some t)
    ∧ if bool_decide (jwr_sections x = [])
      then ∃ out, ReportCompilerService.report_ok out ∧ ∀ t, report_of s' id t → report_tree t = out
      else same_report s s'.

(** The errors of the providers, and of a recording that is not in the store. *)
Definition input_error (audioKey : jstr) (s : Store) (e : exn) : Prop :=
  Terr e ∨ Cerr e ∨ objects s !! audioKey = None ∧ not_found e.

Lemma same_report_of s s' i t : same_report s s' → report_of s' i t ↔ report_of s i t.
Proof. intros [Hs Hf]. unfold report_of, findings_of. by rewrite Hs, Hf. Qed.

Lemma existingReport_nil x : PipelineService.existingReport x = [] ↔ jwr_sections x = [].
Proof.
  unfold PipelineService.existingReport. split; [|by intros ->].
  intros H%fmap_nil_inv. pose proof (sortOn_perm (λ y, section_sortOrder (swf_section y)) (jwr_sections x)) as Hp.
  rewrite H in Hp. by apply Permutation_nil in Hp.
Qed.

Lemma stages_spec x audioKey s :
  jobs s !! id = Some (jwr_job x) → job_status (jwr_job x) ≠ READY →
  wpg (PipelineService.stages cfg (mkProcessJobData id u) x audioKey) s (λ r s',
    match r with
    | inr _ => completed x s s'
    | inl e => transient e ∨ Rerr e ∨ input_error audioKey s e
                 ∧ ∃ j', jobs s' !! id = Some j' ∧ (job_status j' = TRANSCRIBING ∨ job_status j' = COMPILING)
    end).
Proof.
  intros Hj Hne. unfold PipelineService.stages, input_error. cbn [data_jobId data_userId]. wpg_focus.
  eapply wpg_mono; [by apply transcribeStage_spec|]. intros [e|t] s1.
  { intros [He|[He (j' & Hj' & Hs)]]; [by left|]. right. right. split; [tauto|]. exists j'. auto. }
  intros (j1 & Hj1 & Ht1 & Hnb & Hst1 & Hsr1 & Hre1). wpg_focus.
  eapply wpg_mono; [by apply compileStage_spec|]. intros [e|out] s2.
  { intros [He|[He (j' & Hj' & Hs)]]; [by left|]. right. right. split; [tauto|]. exists j'. auto. }
  intros (j2 & Hj2 & Ht2 & Hst2 & Hex & Hnew).
  eapply wpg_mono; [by apply renderStage_spec|]. intros [e|[]] s3; [by intros [He|He]; auto|].
  intros (j3 & pdf & Hj3 & Hst3 & Herr & Hpdf & Ht3 & Ho & Hsr3).
  exists j3, pdf, t. split_and!; try done; [congruence|by intros Hb; destruct (Hre1 Hb)|].
  case_bool_decide as Hsec.
  - apply existingReport_nil in Hsec. destruct (Hnew Hsec) as [Hok Htree]. exists out. split; [done|].
    intros tr Htr. apply Htree. by apply (same_report_of s2 s3).
  - destruct Hex as [-> _]; [by intros ?%existingReport_nil|].
    destruct Hsr1, Hsr3. split; congruence.
Qed.

(** Marking a job FAILED from a stage that may fail it. *)
Lemma wpg_markFailed message j s :
  jobs s !! id = Some j → job_status j = TRANSCRIBING ∨ job_status j = COMPILING →
  wpg (PipelineService.markFailed id message) s (λ r s',
    match r with
    | inr _ => ∃ j', jobs s' !! id = Some j' ∧ job_status j' = FAILED
                     ∧ job_errorMessage j' = Some (slice0 1000 message)
    | inl e => down e
    end).
Proof.
  intros Hj Hs. unfold PipelineService.markFailed, JobsRepository.rawById. wpg_focus.
  intros r s1 HC. assert (s1 = s ∧ (r = inr (Some j) ∨ ∃ e, r = inl e ∧ down e)) as [-> Hr].
  { destruct HC as [(-> & o & -> & ->)|(Hf & -> & e & -> & He)]; [rewrite Hj; by auto|].
    split; [done|]. right. by exists e. }
  split; [done|]. destruct Hr as [->|(e & -> & He)]; [|done]. cbn [Program.wpg bind].
  rewrite bool_decide_false by (destruct Hs; congruence). wpg_focus.
  eapply wpg_mono; [apply (wpg_update _ j s Hj)|].
  { intros t. split; [done|by apply step_failed|by left|by left]. }
  intros [e|[]] s1; [by intros [_ He]|]. intros (t & _ & ->).
  eapply wpg_mono; [apply wpg_addEvent; simpl; by rewrite lookup_insert_eq|].
  intros [e|[]] s1; [by intros [_ He]|]. intros ->. eexists. simpl. rewrite lookup_insert_eq. by split_and!.
Qed.

(** The guards of [process]: the audio key of a job that is to be processed. *)
Definition to_process (j : Job) : option jstr :=
  match job_deletedAt j, job_audioKey j with
  | None, Some k =>
      if bool_decide (job_userId j = u) && negb (bool_decide (job_status j = READY)) && truthy k
      then Some k else None
  | _, _ => None
  end.

Definition process_result (s : Store) (r : exn + unit) (s' : Store) : Prop :=
  match jobs s !! id with
  | None => s' = s ∧ (r = inr tt ∨ ∃ e, r = inl e ∧ down e)
  | Some j =>
      match to_process j with
      | None => s' = s ∧ ((∃ e, r = inl e ∧ down e)
          ∨ r = inr tt ∧ (is_Some (job_deletedAt j) ∨ job_userId j = u ∧ job_status j = READY)
          ∨ job_deletedAt j = None ∧ ∃ m, r = inl (UnrecoverableError m)
              ∧ (job_userId j ≠ u ∨ job_status j ≠ READY ∧ (job_audioKey j = None ∨ job_audioKey j = Some [])))
      | Some audioKey =>
          match r with
          | inr _ => ∃ x, jwr_job x = j ∧ report_of s id (jwr_sections x) ∧ completed x s s'
          | inl e => transient e ∨ Rerr e
              ∨ isPermanent e = false ∧ input_error audioKey s e
              ∨ ∃ e0 m j', isPermanent e0 = true ∧ input_error audioKey s e0 ∧ m = exn_message e0
                  ∧ e = UnrecoverableError m ∧ jobs s' !! id = Some j' ∧ job_status j' = FAILED
                  ∧ job_errorMessage j' = Some (slice0 1000 m)
          end
      end
  end.

Lemma pipeline_process_spec s :
  wpg (PipelineService.process cfg (mkProcessJobData id u)) s (process_result s).
Proof.
  unfold PipelineService.process, process_result. cbn [data_jobId data_userId]. wpg_focus.
  eapply wpg_mono; [apply wpg_single; [by intros [e|o]|apply findById_spec|by intros r s' [-> _]]|].
  intros r s1 [-> Hr]. destruct r as [e|[x|]].
  - destruct (jobs s !! id) as [j|]; [|by eauto]. destruct (to_process j); [|by eauto].
    left. destruct Hr. split; [done|by left].
  - destruct Hr as (Hid & Hj & Hrep). rewrite Hj. unfold to_process. set (j := jwr_job x) in *.
    destruct (job_deletedAt j) as [d|]; [cbn [Program.wpg negb andb truthy]; split; [done|]; right; left; by eauto|].
    destruct (bool_decide (job_userId j = u)) eqn:Hu; cbn [Program.wpg negb andb truthy].
    2:{ apply bool_decide_eq_false in Hu. destruct (job_audioKey j); cbn [Program.wpg negb andb truthy];
          (split; [done|]; right; right; split; [done|]; eexists; split; [done|by left]). }
    apply bool_decide_eq_true in Hu. destruct (bool_decide (job_status j = READY)) eqn:Hst; cbn [Program.wpg negb andb truthy].
    { apply bool_decide_eq_true in Hst. destruct (job_audioKey j); cbn [Program.wpg negb andb truthy];
        (split; [done|]; right; left; split; [done|by right]). }
    apply bool_decide_eq_false in Hst.
    destruct (job_audioKey j) as [[|c k]|]; cbn [Program.wpg negb andb truthy];
      [split; [done|]; right; right; split; [done|]; eexists; split; [done|]; right; auto| |
       split; [done|]; right; right; split; [done|]; eexists; split; [done|]; right; auto].
    set (audioKey := c :: k). wpg_focus. eapply wpg_mono; [by apply stages_spec|].
    intros [e|[]] s1; [|by intros Hc; exists x].
    intros [He|[He|[He (j1 & Hj1 & Hs1)]]].
    + assert (isPermanent e = false) as ->; [|by left].
      destruct He as [_ [(g & -> & _ & Hp & _)|(stage & ms & ->)]]; done.
    + rewrite render_errors by done. cbn [Program.wpg negb andb truthy]. by right; left.
    + destruct (isPermanent e) eqn:Hperm; [|cbn [Program.wpg negb andb truthy]; right; right; left; done].
      wpg_focus. eapply wpg_mono; [by apply (wpg_markFailed _ j1)|]. intros [e'|[]] s2.
      * intros [Hf He']. left. split; [done|by left].
      * intros (j2 & Hj2 & Hs2 & Hm2). right. right. right. exists e, (exn_message e), j2.
        split_and!; try done. by destruct e.
  - rewrite Hr. cbn [Program.wpg negb andb truthy]. by auto.
Qed.
End Specs.
