(* ===== verification/PipelineProperties.v ===== *)
(** * Properties of the pipeline

    Safety, outcome, failure and resumption of a pipeline run, for any
    implementation of the services and any providers that keep their interfaces. *)
From S2P Require Import Prelude Json Program Schema Services Memory JsDate Report Zod Config Media JobsRepository Transcription Compiler ReportHtml PdfRenderer Pipeline.

(** ** The errors of providers that only keep their interface *)
Section AnyProviders.
Context `{Cr : Crypto} (f : bool) {TP : TranscriptionProvider} {CP : ReportCompilerProvider}
  `{Zo : Zod} {PR : PdfRenderer}.

Definition provider_error (e : exn) : Prop := f = true ∧ infra e ∨ ∃ m, e = JsError m.
Definition transcription_error (e : exn) : Prop := provider_error e ∨ e = EmptyTranscriptError.
Definition compilation_error (e : exn) : Prop := provider_error e ∨ ∃ i, e = MalformedReportError i.

Lemma any_transcribes audio opts s :
  wpg (eff_contract f) (λ s s', s' = s) (TranscriptionService.transcribe audio opts) s
    (λ r s', s' = s ∧ match r with inr t => t ≠ [] ∧ trim t = t | inl e => transcription_error e end).
Proof.
  eapply wpg_mono; [apply TranscriptionService.transcribe_spec|]. intros [e|t] s' [-> Hr]; (split; [done|]); [|done].
  destruct Hr as [?|[?|?]]; [by left; left|by left; right|by right].
Qed.

Lemma any_compiles input s :
  wpg (eff_contract f) (λ s s', s' = s) (ReportCompilerService.compile input) s
    (λ r s', s' = s ∧ match r with inr out => ReportCompilerService.report_ok out | inl e => compilation_error e end).
Proof.
  eapply wpg_mono; [apply ReportCompilerService.compile_spec|].
  intros [e|out] s' [-> Hr]; (split; [done|]); [|by destruct Hr].
  destruct Hr as [?|[?|?]]; [by left; left|by left; right|by right].
Qed.

Lemma any_renders view s :
  wpg (eff_contract f) (λ s s', s' = s) (pdf_render view) s
    (λ r s', s' = s ∧ match r with inr _ => True | inl e => provider_error e end).
Proof. eapply wpg_mono; [apply pure_call_wpg, pdf_render_pure|]. intros [e|pdf] s' [-> Hr]; done. Qed.

Lemma provider_error_transient e : provider_error e → isPermanent e = false.
Proof. by intros [[_ (g & -> & _ & ? & _)]|[m ->]]. Qed.

Definition any_process cfg u id :=
  pipeline_process_spec f u id cfg transcription_error compilation_error provider_error
    any_transcribes any_compiles any_renders provider_error_transient.
End AnyProviders.


(** C23: The guards of a run.  A job that is gone, deleted or READY is left alone
    and the run returns; a payload that names another owner, or a job without
    audio, is refused with an [UnrecoverableError], before the READY shortcut,
    and nothing changes either. *)
Theorem process_guards `{Hs : Services} {TP : TranscriptionProvider}
    {CP : ReportCompilerProvider} `{Zo : Zod} {PR : PdfRenderer} cfg data w :
  (∀ j, jobs (view w) !! data_jobId data = Some j → to_process (data_userId data) j = None) →
  ensures (PipelineService.process cfg data) w (λ r s', s' = view w ∧
    (match jobs (view w) !! data_jobId data with
     | None => r = inr tt
     | Some j =>
         r = inr tt ∧ (is_Some (job_deletedAt j) ∨ job_userId j = data_userId data ∧ job_status j = READY)
         ∨ job_deletedAt j = None ∧ ∃ m, r = inl (UnrecoverableError m)
             ∧ (job_userId j ≠ data_userId data
                ∨ job_status j ≠ READY ∧ (job_audioKey j = None ∨ job_audioKey j = Some []))
     end ∨ ∃ e, r = inl e ∧ faults = true ∧ infra e)).
Proof.
  intros Hg. destruct data as [id u]. apply ensures_wp. eapply wpg_wp, wpg_mono; [apply any_process|].
  intros r s' Hr. unfold process_result in Hr. cbn [data_jobId data_userId] in *.
  destruct (jobs (view w) !! id) as [j|] eqn:Hj.
  - rewrite (Hg _ eq_refl) in Hr. destruct Hr as [-> [?|?]]; auto.
  - destruct Hr as [-> [?|?]]; auto.
Qed.



(** ** Resumption *)

(** Providers that answer usefully when the services they use do not fail. *)
Record dependable `{Cr : Crypto} (TP : TranscriptionProvider) (CP : ReportCompilerProvider)
    (PR : PdfRenderer) (Zo : Zod) : Prop := {
  dep_transcribe : ∀ audio opts s,
    wpg (eff_contract false) (λ s s', s' = s) (provider_transcribe audio opts) s
      (λ r s', s' = s ∧ ∃ t, r = inr t ∧ trim t ≠ []);
  dep_compile : ∀ input s,
    wpg (eff_contract false) (λ s s', s' = s) (provider_compile input None) s
      (λ r s', s' = s ∧ ∃ raw data, r = inr raw ∧ zparses ReportSchema.compiledReportSchema (Some raw) data);
  dep_render : ∀ view s,
    wpg (eff_contract false) (λ s s', s' = s) (pdf_render view) s (λ r s', s' = s ∧ ∃ pdf, r = inr pdf);
}.

Section Dependable.
Context `{Cr : Crypto} {TP : TranscriptionProvider} {CP : ReportCompilerProvider} {PR : PdfRenderer}
  {Zo : Zod} (D : dependable TP CP PR Zo).
Abbreviation none := (λ _ : exn, False).

Lemma dependable_transcribes audio opts s :
  wpg (eff_contract false) (λ s s', s' = s) (TranscriptionService.transcribe audio opts) s
    (λ r s', s' = s ∧ match r with inr t => t ≠ [] ∧ trim t = t | inl e => False end).
Proof.
  unfold TranscriptionService.transcribe. wpg_focus. eapply wpg_mono; [apply (dep_transcribe _ _ _ _ D)|].
  intros r s' [-> (t & -> & Ht)]. rewrite bool_decide_false by (by destruct (trim t)).
  simpl. split; [done|]. split; [done|apply trim_idemp].
Qed.

Lemma dependable_compiles input s :
  wpg (eff_contract false) (λ s s', s' = s) (ReportCompilerService.compile input) s
    (λ r s', s' = s ∧ match r with inr out => ReportCompilerService.report_ok out | inl e => False end).
Proof.
  unfold ReportCompilerService.compile. wpg_focus. eapply wpg_mono; [apply (dep_compile _ _ _ _ D)|].
  intros r s' [-> (raw & data & -> & Hp)]. pose proof Hp as Hs%safeParse_success. rewrite Hs.
  destruct (ReportCompilerService.report_schema_ok _ _ Hp) as [Hn Hok]. simpl. split; [done|].
  eapply ReportCompilerService.faithful_ok; [exact Hn|exact Hok|by apply ReportCompilerService.normalize_faithful].
Qed.

Lemma dependable_renders view s :
  wpg (eff_contract false) (λ s s', s' = s) (pdf_render view) s
    (λ r s', s' = s ∧ match r with inr _ => True | inl e => False end).
Proof. eapply wpg_mono; [apply (dep_render _ _ _ _ D)|]. by intros r s' [-> (pdf & ->)]. Qed.

Definition dependable_process cfg u id :=
  pipeline_process_spec false u id cfg none none none dependable_transcribes dependable_compiles
    dependable_renders (λ e (H : False), False_ind _ H).

(** On services that do not fail, a run of a job whose audio is stored returns. *)
Lemma dependable_run cfg u id j key s :
  jobs s !! id = Some j → to_process u j = Some key → is_Some (objects s !! key) →
  wp (eff_contract false) (PipelineService.process cfg (mkProcessJobData id u)) s (λ r s',
    r = inr tt ∧ ∃ x, jwr_job x = j ∧ report_of s id (jwr_sections x) ∧ completed u id x s s').
Proof.
  intros Hj Hp [o Ho]. eapply wpg_wp, wpg_mono; [apply dependable_process|].
  intros r s' Hr. unfold process_result in Hr. rewrite Hj, Hp in Hr.
  destruct r as [e|[]]; [|done]. exfalso.
  destruct Hr as [[? _]|[[]|[[_ [[]|[[]|[? _]]]]|(e0 & m & j' & _ & [[]|[[]|[? _]]] & _)]]]; [done|congruence..].
Qed.
End Dependable.

(** What the steps of a run keep of the job's row. *)
Lemma reached_row u id s s' j :
  rtc (worker_step u id) s s' → jobs s !! id = Some j →
  ∃ j', jobs s' !! id = Some j' ∧ job_userId j' = job_userId j ∧ job_deletedAt j' = job_deletedAt j
    ∧ job_audioKey j' = job_audioKey j
    ∧ ∀ k, k ≠ MediaService.pdfKey u id → objects s' !! k = objects s !! k.
Proof.
  intros Hr. revert j. induction Hr as [s|s1 s2 s3 Hs _ IH]; intros j Hj; [by exists j|].
  pose proof (ws_job _ _ _ _ Hs) as Hw. rewrite Hj in Hw. destruct (jobs s2 !! id) as [j2|] eqn:Hj2; [|done].
  destruct (adv_identity _ _ _ _ Hw) as (Hu & _ & Ha & _ & _ & Hd).
  destruct (IH _ eq_refl) as (j3 & Hj3 & Hu3 & Hd3 & Ha3 & Ho). exists j3.
  split_and!; [done|congruence..|]. intros k Hk. rewrite (Ho k Hk). by apply (ws_objects _ _ _ _ Hs).
Qed.

(** C14: Resumption.  However a run ends - complete, failed or cut off by any
    service failure, timeout or provider error, at any point - the next run, on
    services that work and with providers that answer, returns with the job READY
    and its PDF stored, without losing work: a transcript that was saved is the
    one the finished job has. *)
Theorem interrupted_run_resumes `{Cr : Crypto} {TP : TranscriptionProvider}
    {CP : ReportCompilerProvider} {PR : PdfRenderer} {Zo : Zod} cfg u id j key s r1 s1 :
  dependable TP CP PR Zo →
  jobs s !! id = Some j → to_process u j = Some key →
  is_Some (objects s !! key) → key ≠ MediaService.pdfKey u id →
  runs (eff_contract true) (PipelineService.process cfg (mkProcessJobData id u)) s r1 s1 →
  ∃ j1, jobs s1 !! id = Some j1 ∧
  wp (eff_contract false) (PipelineService.process cfg (mkProcessJobData id u)) s1 (λ r2 s2,
    r2 = inr tt ∧ ∃ j2, jobs s2 !! id = Some j2 ∧ job_status j2 = READY
      ∧ (nonblank (job_transcript j1) = true → job_transcript j2 = job_transcript j1)
      ∧ (job_status j1 = READY → s2 = s1)
      ∧ (job_status j1 ≠ READY → job_pdfKey j2 = Some (MediaService.pdfKey u id)
                                 ∧ is_Some (objects s2 !! MediaService.pdfKey u id))).
Proof.
  intros D Hj Hp Ho Hkey Hrun.
  assert (rtc (worker_step u id) s s1) as Hreach.
  { pose proof (wpg_wp _ _ _ _ _ (wpg_reach _ _ _ _ _ (any_process true cfg u id s))) as Hw.
    apply wp_runs with (r := r1) (s' := s1) in Hw; [|done]. apply Hw. }
  destruct (reached_row _ _ _ _ _ Hreach Hj) as (j1 & Hj1 & Hu & Hd & Ha & Hobj).
  exists j1. split; [done|].
  unfold to_process in Hp. destruct (job_deletedAt j) as [d|]; [done|].
  destruct (job_audioKey j) as [k|]; [|done].
  destruct (bool_decide (job_userId j = u) && negb (bool_decide (job_status j = READY)) && truthy k)
    eqn:Hb; [|done].
  injection Hp as ->. apply andb_true_iff in Hb as [Hb Htk]. apply andb_true_iff in Hb as [Hbu _].
  apply bool_decide_eq_true in Hbu.
  destruct (decide (job_status j1 = READY)) as [Hr|Hnr].
  - assert (to_process u j1 = None) as Hg.
    { unfold to_process. rewrite Hd, Ha. rewrite (bool_decide_true (job_status j1 = READY)) by done.
      by rewrite andb_false_r. }
    eapply wpg_wp, wpg_mono; [apply (dependable_process D cfg u id)|]. intros r2 s2 H2.
    unfold process_result in H2. rewrite Hj1, Hg in H2. destruct H2 as [-> H2].
    destruct H2 as [(e & _ & Hf & _)|[[-> _]|(_ & m & _ & [?|[? _]])]]; [done| |congruence..].
    split; [done|]. exists j1. by split_and!.
  - assert (to_process u j1 = Some key) as Hg.
    { unfold to_process. rewrite Hd, Ha, bool_decide_true by congruence.
      rewrite (bool_decide_false (job_status j1 = READY)) by done. simpl. by rewrite Htk. }
    eapply wp_mono; [eapply (dependable_run D cfg u id j1 key s1); [done|done|by rewrite Hobj]|].
    intros r2 s2 [-> (x & <- & _ & (j2 & pdf & t & Hj2 & Hs2 & _ & Hpdf & Hob & Ht & _ & Hkeep & _))].
    split; [done|]. exists j2. split_and!; [done|done|..].
    + intros Hb. by rewrite Ht, (Hkeep Hb).
    + congruence.
    + intros _. split; [done|]. by eexists.
Qed.

(** ** Concrete runs with the mock providers *)
Section Mocks.
Context `{Cr : Crypto}.

Lemma mocks_dependable (Zo : Zod) :
  dependable TranscriptionProviders.MockTranscriptionProvider CompilerProviders.MockReportCompiler
    (renderer_with None) Zo.
Proof.
  split.
  - intros audio opts s r s' [(-> & [] & -> & _)|[? _]]; [|done]. split; [done|]. split; [done|].
    eexists. split; [done|]. vm_compute. discriminate.
  - intros input s. split; [done|]. eexists CompilerProviders.mock_report, _. split; [done|].
    vm_compute. reflexivity.
  - intros view s. unfold pdf_render, renderer_with. wpg_focus.
    eapply wpg_mono; [apply inert_wpg, (PdfRendererService.render_inert false)|].
    intros r s' [-> (o & -> & Ho)]. destruct o as [[e|pdf] field]; simpl; (split; [done|]); [|by exists pdf].
    by destruct (Ho e eq_refl).
Qed.
End Mocks.

#[local] Existing Instance TranscriptionProviders.MockTranscriptionProvider.
#[local] Existing Instance CompilerProviders.MockReportCompiler.
Definition mock_renderer : PdfRenderer := renderer_with None.
#[local] Existing Instance mock_renderer.
Definition mock_zod : Zod := reference_zod sample_url sample_number.
#[local] Existing Instance mock_zod.

Definition alice_job (st : JobStatus) (owner : string) : Job :=
  mkJob (js owner) (js "House") st None (Some (MediaService.audioKey (js "alice") (js "j1"))) None None None 7 7 None.
Definition alice_data : ProcessJobData := mkProcessJobData (js "j1") (js "alice").
Definition queued_store (st : JobStatus) (owner : string) : Store :=
  with_objects {[MediaService.audioKey (js "alice") (js "j1") := mkStoredObject [1%N] AUDIO_CONTENT_TYPE]}
    (with_jobs {[js "j1" := alice_job st owner]} empty_store).
Definition run_cfg : AppConfig := config_of prod_parsed.


Lemma process_guards_witness :
  ensures (Hs := reliable_memory) (PipelineService.process run_cfg alice_data)
    (mkMemory (queued_store READY "mallory") quiet)
    (λ r s', s' = queued_store READY "mallory" ∧ ∃ m, r = inl (UnrecoverableError m)).
Proof.
  assert (jobs (queued_store READY "mallory") !! js "j1" = Some (alice_job READY "mallory")) as Hj
    by apply lookup_insert_eq.
  pose proof (process_guards (Hs := reliable_memory) run_cfg alice_data
    (mkMemory (queued_store READY "mallory") quiet)) as H.
  cbn [view reliable_memory m_store data_jobId alice_data] in H.
  destruct H as [Hs [H|(e & _ & Hf & _)]]; [| |discriminate Hf].
  - intros j Hj'. rewrite Hj in Hj'. injection Hj' as <-. reflexivity.
  - split; [exact Hs|]. rewrite Hj in H. destruct H as [(_ & [[d Hd]|[Hu _]])|(_ & m & Hm & _)];
      [discriminate Hd|discriminate Hu|]. exists m. exact Hm.
Defined.



(** The run is cut off right after the transcript was saved. *)
Definition cut_off : memory :=
  mkMemory (queued_store QUEUED "alice") (mkScript [] [] [] [] (replicate 10 false ++ [true])).

Lemma interrupted_run_resumes_witness :
  let r := exec (mem_handle true) (PipelineService.process run_cfg alice_data) cut_off in
  (∃ e, r.1 = inl e ∧ isPermanent e = false)
  ∧ ∃ j1, jobs (m_store r.2) !! js "j1" = Some j1
     ∧ nonblank (job_transcript j1) = true
     ∧ wp (eff_contract false) (PipelineService.process run_cfg alice_data) (m_store r.2) (λ r2 s2,
         r2 = inr tt ∧ ∃ j2, jobs s2 !! js "j1" = Some j2 ∧ job_status j2 = READY
                             ∧ job_transcript j2 = job_transcript j1).
Proof.
  intros r.
  destruct (interrupted_run_resumes run_cfg (js "alice") (js "j1") (alice_job QUEUED "alice")
    (MediaService.audioKey (js "alice") (js "j1")) (queued_store QUEUED "alice") r.1 (m_store r.2))
    as (j1 & Hj1 & Hw).
  - apply mocks_dependable.
  - apply lookup_insert_eq.
  - reflexivity.
  - eexists. apply lookup_insert_eq.
  - discriminate.
  - exact (exec_runs (eff_contract true) (mem_handle true) m_store (mem_handle_ok true)
             (PipelineService.process run_cfg alice_data) cut_off).
  - split.
    + vm_compute (r.1). eexists. split; reflexivity.
    + exists j1. split; [exact Hj1|]. assert (nonblank (job_transcript j1) = true) as Hn.
      { revert Hj1. vm_compute (jobs _ !! _). intros [= <-]. vm_compute. reflexivity. }
      split; [exact Hn|]. eapply wp_mono; [exact Hw|].
      intros r2 s2 [-> (j2 & Hj2 & Hs2 & Hk & _)]. split; [reflexivity|]. exists j2.
      split; [exact Hj2|]. split; [exact Hs2|apply Hk, Hn].
Defined.

(** ** Abandoned bodies *)

Definition status_of (m : memory) (id : string) : option JobStatus := job_status <$> jobs (m_store m) !! js id.

(** The render stage's timer is due when only the last call of its body is left. *)
Definition slow_render : memory :=
  mkMemory (queued_store RENDERING "alice") (mkScript [] [] [] [] (replicate 14 false ++ [true])).

(** A timeout abandons the body of a stage without stopping it.  On this
    schedule the render stage times out before its last write, the job is marked
    FAILED (as the processor does when retries are exhausted), and the body, still
    running, then turns the FAILED job into a READY one. *)
Theorem abandoned_render_revives_job :
  match exec (mem_handle true)
          (race (stageTimeoutMs (cfg_ai run_cfg))
             (PipelineService.render_body (js "j1") (js "alice") (js "House") [])) slow_render with
  | (inr (inr rest), m1) =>
      let m2 := (exec (mem_handle true) (PipelineService.markFailed (js "j1") (js "timeout")) m1).2 in
      let m3 := (exec (mem_handle true) rest m2).2 in
      status_of m1 "j1" = Some RENDERING ∧ status_of m2 "j1" = Some FAILED
      ∧ status_of m3 "j1" = Some READY
  | _ => False
  end.
Proof. vm_compute. repeat split. Qed.
