(* ===== verification/Processor.v ===== *)
(** * The queue's consumer

    [server/src/processing/worker/processing.processor.ts]: the worker callback,
    the terminal-failure handler with its dead-letter queue, and the deliveries
    of one queue entry. *)
From S2P Require Import Prelude Json Program Schema Services Memory JsDate Report Zod Config Media JobsRepository Transcription Compiler ReportHtml PdfRenderer Pipeline PipelineProperties.

(** What BullMQ hands to the [failed] listener. *)
Record FailedJob := mkFailedJob {
  fj_data : ProcessJobData;
  fj_attempts : option Z;
  fj_attemptsMade : Z;
}.

Module ProcessingProcessor.
Section Processor.
Context `{Cr : Crypto} {TP : TranscriptionProvider} {CP : ReportCompilerProvider} `{Zo : Zod}
  {PR : PdfRenderer} (cfg : AppConfig).

(** The worker's callback. *)
Definition work (data : ProcessJobData) : prog eff unit := PipelineService.process cfg data.

Definition unrecoverable (err : exn) : bool :=
  match err with UnrecoverableError _ => true | _ => false end
  || bool_decide (exn_name err = js "UnrecoverableError").

Definition terminal (job : FailedJob) (err : exn) : bool :=
  unrecoverable err || bool_decide (default 1 (fj_attempts job) ≤ fj_attemptsMade job)%Z.

Definition handleFailure (job : option FailedJob) (err : exn) : prog eff unit :=
  match job with
  | None => Ret tt
  | Some job =>
      if negb (terminal job err) then Ret tt
      else
        TRY (PipelineService.markFailed (data_jobId (fj_data job)) (exn_message err);;
             await (DlqAdd (js "failed-job")
                      (mkDeadLetter (data_jobId (fj_data job)) (data_userId (fj_data job))
                         (exn_message err) (fj_attemptsMade job))))
        CATCH recordErr => Ret tt
  end.

(** The deliveries of one entry, as BullMQ documents them: a failed attempt is
    counted, reported to the listener, and followed by another one unless the
    error is unrecoverable or the attempts are used up. *)
Fixpoint deliveries (data : ProcessJobData) (attempts : Z) (made : Z) (fuel : nat) : prog eff unit :=
  match fuel with
  | 0 => Ret tt
  | S fuel =>
      r <- attempt (work data);;
      match r with
      | inr _ => Ret tt
      | inl err =>
          handleFailure (Some (mkFailedJob data (Some attempts) (made + 1))) err;;
          if unrecoverable err || bool_decide (attempts ≤ made + 1)%Z then Ret tt
          else deliveries data attempts (made + 1) fuel
      end
  end.
End Processor.
End ProcessingProcessor.

(** ** Recording a failure *)
Section Specs.
Context `{Cr : Crypto} (f : bool).
Import ProcessingProcessor.

(** [markFailed] on any job: FAILED with the cut message, unless it is already
    FAILED or gone. *)
Definition marked (id message : jstr) (s s' : Store) : Prop :=
  match jobs s !! id with
  | None => s' = s
  | Some j =>
      if bool_decide (job_status j = FAILED) then s' = s
      else ∃ t, s' = logged id (js "pipeline") (js "failed") (Some (slice0 1000 message))
                       (with_clock t (with_jobs (<[id := apply_data
                          (status_data FAILED (Some (Some (slice0 1000 message)))) t j]> (jobs s)) s))
  end.

Lemma markFailed_spec id message s :
  wp (eff_contract f) (PipelineService.markFailed id message) s (λ r s',
    match r with inr _ => marked id message s s' | inl e => f = true ∧ infra e end).
Proof.
  unfold PipelineService.markFailed, JobsRepository.rawById, marked. wp_call.
  intros r s1 [(-> & o & -> & ->)|(Hf & -> & e & -> & He)]; [|done].
  destruct (jobs s !! id) as [j|] eqn:Hj; [|done]. case_bool_decide as Hs; [done|].
  wp_apply update_by_id_spec. intros [e|[]] s1.
  { intros [_ [?|[Hn _]]]; [done|congruence]. }
  intros (j' & t & Hj' & _ & ->). rewrite Hj in Hj'. injection Hj' as <-.
  wp_simpl. unfold JobsRepository.addEvent. wp_call.
  intros r s2 [[(_ & -> & ->)|(Hn & _)]|[Hf [-> (e & -> & He)]]]; [|simpl in Hn|done].
  - by exists t.
  - by rewrite lookup_insert_eq in Hn.
Qed.

(** The row after the recording: FAILED in any case. *)
Lemma marked_failed id message s s' :
  marked id message s s' → dlq s' = dlq s ∧
  match jobs s !! id with
  | None => s' = s
  | Some j => ∃ j', jobs s' !! id = Some j' ∧ job_status j' = FAILED ∧ job_pdfKey j' = job_pdfKey j
  end.
Proof.
  unfold marked. destruct (jobs s !! id) as [j|] eqn:Hj; [|by intros ->].
  case_bool_decide as Hs; [intros ->; by eauto|]. intros (t & ->). split; [done|].
  eexists. simpl. rewrite lookup_insert_eq. by split_and!.
Qed.

Lemma handleFailure_spec job err s :
  wp (eff_contract f) (handleFailure (Some job) err) s (λ r s', r = inr tt ∧
    (if terminal job err
     then (∃ s1, marked (data_jobId (fj_data job)) (exn_message err) s s1
            ∧ s' = with_dlq (dlq s1 ++ [mkDeadLetter (data_jobId (fj_data job)) (data_userId (fj_data job))
                               (exn_message err) (fj_attemptsMade job)]) s1)
          ∨ f = true
     else s' = s)).
Proof.
  unfold handleFailure. destruct (terminal job err); simpl negb; [|done].
  cbn [negb]. wp_focus. eapply wp_mono; [apply markFailed_spec|]. intros [e|[]] s1.
  { intros [Hf _]. simpl. split; [done|by right]. }
  intros Hm. wp_call. intros r s2 [[-> ->]|[Hf [-> (e & -> & _)]]]; simpl; split; [done| |done|by right].
  left. by exists s1.
Qed.
End Specs.


(** A queue entry whose payload names another owner is refused by the
    pipeline without touching the job; but the refusal is an unrecoverable error,
    whose terminal handling marks the very job as FAILED, even when it is READY
    (on services that work): the job keeps its PDF and loses its READY status. *)
Theorem owner_mismatch_fails_ready_job `{Hs : Services} {TP : TranscriptionProvider}
    {CP : ReportCompilerProvider} `{Zo : Zod} {PR : PdfRenderer} cfg data attempts n j w :
  faults = false → jobs (view w) !! data_jobId data = Some j → job_deletedAt j = None →
  job_status j = READY → job_userId j ≠ data_userId data →
  ensures (ProcessingProcessor.deliveries cfg data attempts 0 (S n)) w (λ r s', r = inr tt ∧
    ∃ j', jobs s' !! data_jobId data = Some j' ∧ job_status j' = FAILED ∧ job_pdfKey j' = job_pdfKey j).
Proof.
  intros Hf Hj Hd Hst Hu. destruct data as [id u]. cbn [data_jobId data_userId] in *. apply ensures_wp.
  cbn [ProcessingProcessor.deliveries]. unfold attempt. wp_focus.
  eapply wp_mono; [eapply wpg_wp, any_process|].
  assert (to_process u j = None) as Hg.
  { unfold to_process. rewrite Hd. destruct (job_audioKey j); [|done].
    by rewrite (bool_decide_false (job_userId j = u)) by done. }
  intros r s1 Hr. unfold process_result in Hr. rewrite Hj, Hg in Hr.
  destruct Hr as [-> [(e & _ & Hfe & _)|[(_ & [[d Hd']|[? _]])|(_ & m & -> & _)]]]; [|congruence..|].
  { rewrite Hf in Hfe. done. }
  wp_simpl. wp_apply handleFailure_spec. intros r s2 [-> Hr2].
  cbn [ProcessingProcessor.terminal ProcessingProcessor.unrecoverable orb] in Hr2. wp_simpl.
  destruct Hr2 as [(s3 & Hm & ->)|Hfe]; [|rewrite Hf in Hfe; done].
  cbn [fj_data data_jobId] in Hm. destruct (marked_failed _ _ _ _ Hm) as [_ Hmf]. rewrite Hj in Hmf.
  cbn. split; [done|]. exact Hmf.
Qed.

Lemma owner_mismatch_fails_ready_job_witness :
  ensures (Hs := reliable_memory)
    (ProcessingProcessor.deliveries (TP := TranscriptionProviders.MockTranscriptionProvider)
       (CP := CompilerProviders.MockReportCompiler) (Zo := mock_zod) (PR := mock_renderer)
       run_cfg alice_data 3 0 1)
    (mkMemory (queued_store READY "mallory") quiet)
    (λ r s', ∃ j', jobs s' !! js "j1" = Some j' ∧ job_status j' = FAILED).
Proof.
  destruct (owner_mismatch_fails_ready_job (Hs := reliable_memory)
    (TP := TranscriptionProviders.MockTranscriptionProvider) (CP := CompilerProviders.MockReportCompiler)
    (Zo := mock_zod) (PR := mock_renderer) run_cfg alice_data 3 0 (alice_job READY "mallory")
    (mkMemory (queued_store READY "mallory") quiet)) as (_ & j' & Hj' & Hs' & _).
  - reflexivity.
  - apply lookup_insert_eq.
  - reflexivity.
  - reflexivity.
  - discriminate.
  - exists j'. split; [exact Hj'|exact Hs'].
Defined.

(** ** No job is left in limbo *)
Section Deliveries.
Context `{Cr : Crypto} {TP : TranscriptionProvider} {CP : ReportCompilerProvider} `{Zo : Zod}
  {PR : PdfRenderer} (cfg : AppConfig) (u id : jstr).

(** A live job of the payload's owner with audio, in any status. *)
Definition deliverable (s : Store) : Prop :=
  ∃ j, jobs s !! id = Some j ∧ job_userId j = u ∧ job_deletedAt j = None
       ∧ ∃ k, job_audioKey j = Some k ∧ truthy k = true.

Definition settled (s s' : Store) : Prop :=
  ∃ j', jobs s' !! id = Some j' ∧
    (job_status j' = READY ∧ dlq s' = dlq s
     ∨ job_status j' = FAILED ∧ ∃ d, dlq s' = dlq s ++ [d] ∧ dead_jobId d = id ∧ dead_userId d = u).

Lemma rtc_dlq s s' : rtc (worker_step u id) s s' → dlq s' = dlq s.
Proof.
  induction 1 as [|s1 s2 s3 Hs _ IH]; [done|]. rewrite IH. by destruct (ws_rest _ _ _ _ Hs) as (_ & _ & _ & _ & ?).
Qed.

(** One attempt on working services ends READY, or with an error and the job
    still deliverable. *)
Lemma attempt_spec s :
  deliverable s →
  wp (eff_contract false) (PipelineService.process cfg (mkProcessJobData id u)) s (λ r s',
    dlq s' = dlq s ∧ deliverable s' ∧
    match r with
    | inr _ => ∃ j', jobs s' !! id = Some j' ∧ job_status j' = READY
    | inl e => True
    end).
Proof.
  intros (j & Hj & Hu & Hd & k & Hk & Ht).
  eapply wpg_wp, wpg_mono; [apply wpg_reach, any_process|]. intros r s' [Hr Hreach].
  split; [by eapply rtc_dlq|]. destruct (reached_row _ _ _ _ _ Hreach Hj) as (j' & Hj' & Hu' & Hd' & Ha' & _).
  split; [exists j'; split_and!; [done|congruence|congruence|exists k; split; [congruence|done]]|].
  destruct r as [e|[]]; [done|]. unfold process_result in Hr. rewrite Hj in Hr.
  destruct (to_process u j) as [key|] eqn:Hp.
  - destruct Hr as (x & _ & _ & (j2 & pdf & t & Hj2 & Hs2 & _)). by exists j2.
  - destruct Hr as [-> [(e & ? & _)|[(_ & [[d ?]|[_ Hs]])|(_ & m & ? & _)]]]; try done; [congruence|].
    by exists j.
Qed.

Lemma deliveries_spec attempts made fuel s :
  deliverable s → (attempts - made ≤ Z.of_nat fuel)%Z → (made < attempts)%Z →
  wp (eff_contract false) (ProcessingProcessor.deliveries cfg (mkProcessJobData id u) attempts made fuel) s
    (λ r s', r = inr tt ∧ settled s s').
Proof.
  revert made s. induction fuel as [|fuel IH]; intros made s Hdel Hfuel Hmade; [lia|].
  cbn [ProcessingProcessor.deliveries]. unfold attempt. wp_focus.
  eapply wp_mono; [by apply attempt_spec|]. intros [e|[]] s1 (Hdlq & Hdel1 & Hr).
  2:{ wp_simpl. split; [done|]. destruct Hr as (j' & Hj' & Hs'). exists j'. split; [done|]. by left. }
  wp_simpl. wp_focus. eapply wp_mono; [apply handleFailure_spec|]. intros r s2 [-> Hr2].
  change (ProcessingProcessor.terminal _ e)
    with (ProcessingProcessor.unrecoverable e || bool_decide (attempts ≤ made + 1)%Z) in Hr2.
  destruct (ProcessingProcessor.unrecoverable e || bool_decide (attempts ≤ made + 1)%Z) eqn:Ht; wp_simpl.
  - cbn. split; [done|]. destruct Hr2 as [(s3 & Hm & ->)|?]; [|done].
    destruct Hdel1 as (j1 & Hj1 & _). destruct (marked_failed _ _ _ _ Hm) as [Hd3 Hmf].
    cbn [fj_data data_jobId data_userId] in *. rewrite Hj1 in Hmf. destruct Hmf as (j' & Hj' & Hs' & _).
    exists j'. split; [done|]. right. split; [done|].
    eexists (mkDeadLetter id u (exn_message e) (made + 1)). simpl. by rewrite Hd3, Hdlq.
  - subst s2. apply orb_false_iff in Ht as [_ Ht]. apply bool_decide_eq_false in Ht.
    eapply wp_mono; [apply (IH (made + 1)%Z s1); [done|lia|lia]|]. intros r s' [-> (j' & Hj' & Hs')].
    split; [done|]. exists j'. split; [done|]. by rewrite Hdlq in Hs'.
Qed.
End Deliveries.



(** ** A late failure *)
#[local] Existing Instance TranscriptionProviders.MockTranscriptionProvider.
#[local] Existing Instance CompilerProviders.MockReportCompiler.
#[local] Existing Instance mock_renderer.
#[local] Existing Instance mock_zod.

(** The event that records the end of the render is lost: the 53rd call fails. *)
Definition late_fault : memory :=
  mkMemory (queued_store QUEUED "alice") (mkScript [] [] [] [] (replicate 52 false ++ [true])).

(** C38: A failure after the job became READY fails the job: whenever a last attempt
    throws and the job is READY, the terminal handling marks it FAILED, and only
    its PDF key is left.  Such a failure exists: the render stage stores the PDF
    and sets READY, then its [completed] event is lost, the run throws, and after
    its only attempt the job with the finished report is FAILED and dead-lettered. *)
Theorem late_failure_fails_ready_job :
  (∀ `{Cr : Crypto} (data : ProcessJobData) attempts made err s j,
     (attempts ≤ made)%Z → jobs s !! data_jobId data = Some j → job_status j = READY →
     wp (eff_contract false) (ProcessingProcessor.handleFailure (Some (mkFailedJob data (Some attempts) made)) err) s
       (λ r s', r = inr tt ∧ ∃ j', jobs s' !! data_jobId data = Some j' ∧ job_status j' = FAILED
          ∧ job_pdfKey j' = job_pdfKey j))
  ∧ (let run := exec (mem_handle true) (PipelineService.process run_cfg alice_data) late_fault in
     let life := exec (mem_handle true) (ProcessingProcessor.deliveries run_cfg alice_data 1 0 1) late_fault in
     run.1 = inl service_down
     ∧ (job_status <$> jobs (m_store run.2) !! js "j1") = Some READY
     ∧ is_Some (objects (m_store life.2) !! MediaService.pdfKey (js "alice") (js "j1"))
     ∧ (job_status <$> jobs (m_store life.2) !! js "j1") = Some FAILED
     ∧ length (dlq (m_store life.2)) = 1).
Proof.
  split.
  - intros Cr data attempts made err s j Hle Hj Hst. eapply wp_mono; [apply handleFailure_spec|].
    intros r s' [-> Hr]. split; [done|].
    assert (ProcessingProcessor.terminal (mkFailedJob data (Some attempts) made) err = true) as Ht.
    { unfold ProcessingProcessor.terminal. cbn. rewrite (bool_decide_eq_true_2 (attempts ≤ made)%Z) by done. apply orb_true_r. }
    rewrite Ht in Hr. destruct Hr as [(s1 & Hm & ->)|]; [|done]. cbn [fj_data] in Hm.
    destruct (marked_failed _ _ _ _ Hm) as [_ Hf]. by rewrite Hj in Hf.
  - cbv zeta. split; [vm_compute; reflexivity|]. split; [vm_compute; reflexivity|].
    split; [|split; vm_compute; reflexivity]. vm_compute. eexists. reflexivity.
Qed.
