(* ===== verification/Bootstrap.v ===== *)
(** * The two processes

    [server/src/main.ts] (the API), [server/src/openapi.ts] (the export of its document),
    [server/src/worker.ts] and the lifecycle hooks of
    [server/src/processing/worker/processing.processor.ts] (the worker): what is
    constructed and set up, with which settings, in which order, and what is closed
    again.  With them the constructors and factories that make clients:
    [server/src/common/prisma/prisma.service.ts], [server/src/media/media.service.ts],
    [server/src/queue/queue.module.ts] and the providers of the transcription,
    compiler and auth modules. *)
From S2P Require Import Prelude Nest Modules Json Program Schema Services Memory JsDate Report Zod Config Media Queue BullBoard Transcription Compiler ReportHtml PdfRenderer Pipeline PipelineProperties Processor.

(** ** Settings *)

Inductive CorsOrigin := AnyOrigin | AllowList (origins : list jstr).
Record CorsOptions := mkCors { cors_origin : CorsOrigin; cors_methods : list jstr; cors_allowedHeaders : list jstr }.

Record ValidationPipeOptions := mkPipe {
  whitelist : bool; forbidNonWhitelisted : bool; pipe_transform : bool; enableImplicitConversion : bool }.

(** [x-request-id]: absent, one value, or several. *)
Inductive HeaderValue := NoHeader | OneHeader (s : jstr) | ManyHeaders (ss : list jstr).

Record PinoOptions := mkPino {
  pino_level : jstr;
  pino_redact : list jstr;
  pino_remove : bool;
  pino_autoLogging : bool;
  pino_pretty : bool;
}.

Record OpenApi := mkOpenApi {
  api_title : jstr; api_description : jstr; api_version : jstr;
  bearer_type : jstr; bearer_scheme : jstr; bearerFormat : jstr;
  api_servers : list (jstr * jstr) }.

Record WorkerSpec := mkWorker {
  worker_queue : jstr;
  worker_process : ProcessJobData → prog eff unit;
  worker_connection : ConnectionOptions;
  worker_concurrency : Z;
}.

(** The clients that constructors and factories make. *)
Inductive SdkClient :=
  | PrismaClient (url : jstr) (log : list jstr)
  | S3Client (region endpoint : jstr) (forcePathStyle : bool) (accessKeyId secretAccessKey : jstr)
      (requestChecksumCalculation responseChecksumValidation : jstr)
  | RemoteJWKSet (url : jstr) (cacheMaxAge cooldownDuration : Z)
  | DeepgramClient (apiKey : jstr)
  | OpenAI (apiKey : jstr) (baseURL : option jstr).

(** One step of setting a process up. *)
Inductive Setup :=
  | NewClient (c : SdkClient)
  | ConnectDatabase
  | DisconnectDatabase
  | CreateApp
  | CreateContext
  | UseLogger
  | FlushLogs
  | SetTrustProxy (hops : Z)
  | UseHelmet
  | EnableCors (options : CorsOptions)
  | UseGlobalPipes (options : ValidationPipeOptions)
  | EnableShutdownHooks
  | ServeDocs (path : jstr) (document : OpenApi) (persistAuthorization : bool)
  | MountBoard (m : BullBoard.Mount)
  | Listen (port : Z) (host : jstr)
  | OpenQueue (name : jstr) (connection : ConnectionOptions)
  | OpenWorker (w : WorkerSpec)
  | OnCompleted
  | OnFailed (handler : option FailedJob → exn → prog eff unit)
  | OnError
  | CloseWorker
  | CloseQueue (name : jstr)
  | WriteFile (path : jstr) (document : OpenApi)
  | Log (message context : jstr)
  | Exit (code : Z).

(** ** The calls: steps, and calls of the services *)
Inductive boot : Type → Type :=
  | Step (s : Setup) : boot unit
  | Service {X} (c : eff X) : boot X.

Definition step_of (s : Setup) : prog boot unit := perform (Step s).
Fixpoint lift {A} (p : prog eff A) : prog boot A :=
  match p with
  | Ret a => Ret a
  | Throw e => Throw e
  | Vis c k => Vis (Service c) (λ r, lift (k r))
  end.

(** ** [common/logger/logger.module.ts] *)
Module LoggerModule.
Section Logger.
Context (isPrettyTransportAvailable : bool) (cfg : AppConfig).

(** The id of a request: the first one its header gives, or a fresh one; it is
    returned and set on the response. *)
Definition genReqId (existing : HeaderValue) (randomUUID : jstr) : jstr * (jstr * jstr) :=
  let id := match existing with
            | OneHeader s => s
            | ManyHeaders (s :: _) => s
            | _ => randomUUID
            end in
  (id, (js "x-request-id", id)).

Definition pinoHttp : PinoOptions := {|
  pino_level := logLevel cfg;
  pino_redact := [js "req.headers.authorization"; js "req.headers.cookie"; jsq "res.headers[`set-cookie`]"];
  pino_remove := true;
  pino_autoLogging := true;
  pino_pretty := negb (isProduction cfg || negb isPrettyTransportAvailable);
|}.
End Logger.
End LoggerModule.

(** ** [swagger.ts] *)
Definition buildOpenApiDocument : OpenApi := {|
  api_title := js "FieldNote API";
  api_description := js "Voice-to-report backend for field inspections.";
  api_version := js "1.0.0";
  bearer_type := js "http";
  bearer_scheme := js "bearer";
  bearerFormat := js "JWT";
  api_servers := [(js "/", js "current host")];
|}.

Definition setupSwagger : prog boot unit := step_of (ServeDocs (js "docs") buildOpenApiDocument true).

(** ** [queue.module.ts] *)
Module QueueModule.
Section QueueModule.
Context {UP : UrlParser} (cfg : AppConfig).

Definition useFactory : prog boot unit :=
  connection <- settle (createBullConnection (redis_url cfg));;
  step_of (OpenQueue PROCESSING_QUEUE connection).

Definition onApplicationShutdown : prog boot unit := step_of (CloseQueue PROCESSING_QUEUE).
End QueueModule.
End QueueModule.

(** ** [common/prisma/prisma.service.ts] *)
Module PrismaService.
Definition client (cfg : AppConfig) : SdkClient :=
  PrismaClient (database_url cfg) (if isProduction cfg then [js "warn"; js "error"] else [js "warn"; js "error"]).
Definition onModuleInit : prog boot unit := step_of ConnectDatabase.
Definition onModuleDestroy : prog boot unit := step_of DisconnectDatabase.
End PrismaService.

(** ** The clients *)
Module Clients.
Section Clients.
Context (cfg : AppConfig).

(** [MediaService] *)
Definition media : SdkClient :=
  S3Client (js "auto") (endpoint (cfg_r2 cfg)) (forcePathStyle (cfg_r2 cfg)) (accessKeyId (cfg_r2 cfg))
    (secretAccessKey (cfg_r2 cfg)) (js "WHEN_REQUIRED") (js "WHEN_REQUIRED").

(** The constructors of the providers. *)
Definition RealAppleTokenVerifier : SdkClient :=
  RemoteJWKSet (js "https://appleid.apple.com/auth/keys") (10 * 60 * 1000) (30 * 1000).
Definition OpenAiTranscriptionProvider (apiKey : jstr) : SdkClient := OpenAI apiKey None.
Definition DeepgramTranscriptionProvider (apiKey : jstr) : SdkClient := DeepgramClient apiKey.
Definition DeepSeekReportCompiler (apiKey baseURL : jstr) : SdkClient := OpenAI apiKey (Some baseURL).

(** The providers that the factories choose; the bypass and the mocks have no client. *)
Definition apple : option SdkClient :=
  if devBypass (cfg_apple cfg) then None else Some RealAppleTokenVerifier.
Definition transcription : option SdkClient :=
  if useMock (cfg_ai cfg) then None
  else if bool_decide (transcriptionProvider (cfg_ai cfg) = openai)
  then Some (OpenAiTranscriptionProvider (openaiApiKey (cfg_ai cfg)))
  else Some (DeepgramTranscriptionProvider (deepgramApiKey (cfg_ai cfg))).
Definition compiler : option SdkClient :=
  if useMock (cfg_ai cfg) then None
  else Some (DeepSeekReportCompiler (deepseekApiKey (cfg_ai cfg)) (deepseekBaseUrl (cfg_ai cfg))).

(** What constructing a part makes, if it makes a client. *)
Definition of_part (t : Token) : option SdkClient :=
  if decide (t = service "PrismaService") then Some (PrismaService.client cfg)
  else if decide (t = service "MediaService") then Some media
  else if decide (t = APPLE_TOKEN_VERIFIER) then apple
  else if decide (t = Modules.TRANSCRIPTION_PROVIDER) then transcription
  else if decide (t = REPORT_COMPILER_PROVIDER) then compiler
  else None.
End Clients.
End Clients.

(** ** Construction *)
Section Construction.
Context {UP : UrlParser} (cfg : AppConfig).

Definition construct (n : Node) : prog boot unit :=
  match Clients.of_part cfg n.2 with
  | Some c => step_of (NewClient c)
  | None => if decide (n.2 = PROCESSING_QUEUE_TOKEN) then QueueModule.useFactory cfg else Ret tt
  end.

(** In the order [o]. *)
Fixpoint create (o : list Node) : prog boot unit :=
  match o with
  | [] => Ret tt
  | n :: o => construct n;; create o
  end.
End Construction.

(** ** [main.ts] *)
Module Api.
Section Main.
Context {UP : UrlParser} (cfg : AppConfig).

Definition cors : CorsOptions := {|
  cors_origin := if bool_decide (js "*" ∈ corsOrigins cfg) then AnyOrigin else AllowList (corsOrigins cfg);
  cors_methods := [js "GET"; js "POST"; js "PATCH"; js "DELETE"; js "OPTIONS"];
  cors_allowedHeaders := [js "Authorization"; js "Content-Type"; js "Idempotency-Key"];
|}.

Definition pipe : ValidationPipeOptions := mkPipe true true true true.

(** [NestFactory.create] constructs the parts, in the order [o]; [listen] runs the
    [onModuleInit] hooks before it opens the port. *)
Definition bootstrap (o : list Node) : prog boot unit :=
  create cfg o;;
  step_of CreateApp;;
  step_of UseLogger;;
  step_of FlushLogs;;
  step_of (SetTrustProxy 1);;
  step_of UseHelmet;;
  step_of (EnableCors cors);;
  step_of (UseGlobalPipes pipe);;
  step_of EnableShutdownHooks;;
  setupSwagger;;
  board <- settle (BullBoard.mountBullBoard cfg);;
  match board with Some m => step_of (MountBoard m) | None => Ret tt end;;
  (if negb (isProduction cfg) then lift (MediaService.ensureBucketExists cfg) else Ret tt);;
  PrismaService.onModuleInit;;
  step_of (Listen (port cfg) (js "0.0.0.0"));;
  step_of (Log (js "API listening on :" ++ js_of_Z (port cfg) ++ js " (docs at " ++ appBaseUrl cfg ++ js "/docs)") (js "Bootstrap")).

(** [close], or a signal: the [onModuleDestroy] hooks, then [onApplicationShutdown]. *)
Definition close : prog boot unit :=
  PrismaService.onModuleDestroy;; QueueModule.onApplicationShutdown.

(** [openapi.ts] *)
Definition generate (o : list Node) (outPath : jstr) : prog boot unit :=
  create cfg o;;
  step_of CreateApp;;
  PrismaService.onModuleInit;;
  step_of (WriteFile outPath buildOpenApiDocument);;
  close;;
  step_of (Log (js "Wrote " ++ outPath) []);;
  step_of (Exit 0).
End Main.
End Api.

(** ** The worker *)
Module WorkerProcess.
Section Worker.
Context `{Cr : Crypto} {TP : TranscriptionProvider} {CP : ReportCompilerProvider} `{Zo : Zod} {PR : PdfRenderer}.
Context {UP : UrlParser} (cfg : AppConfig).

(** The fields [worker] and [dlq] of the processor: set or [null]. *)
Record Processor := mkProcessor { worker : bool; dlq_queue : bool }.

Definition onModuleInit : prog boot Processor :=
  connection <- settle (createBullConnection (redis_url cfg));;
  step_of (OpenQueue PROCESSING_DLQ connection);;
  connection2 <- settle (createBullConnection (redis_url cfg));;
  step_of (OpenWorker (mkWorker PROCESSING_QUEUE (ProcessingProcessor.work cfg) connection2
                         (workerConcurrency (cfg_ai cfg))));;
  step_of OnCompleted;;
  step_of (OnFailed ProcessingProcessor.handleFailure);;
  step_of OnError;;
  step_of (Log (js "Processing worker started (queue=" ++ PROCESSING_QUEUE ++ js ", concurrency="
                ++ js_of_Z (workerConcurrency (cfg_ai cfg)) ++ js ")") (js "ProcessingProcessor"));;
  Ret (mkProcessor true true).

Definition onApplicationShutdown (p : Processor) : prog boot unit :=
  (if worker p then step_of CloseWorker else Ret tt);;
  (if dlq_queue p then step_of (CloseQueue PROCESSING_DLQ) else Ret tt).

(** [worker.ts]: the parts are constructed, and their hooks run while the context is
    created, those of imported modules first. *)
Definition bootstrap (o : list Node) : prog boot Processor :=
  create cfg o;;
  PrismaService.onModuleInit;;
  p <- onModuleInit;;
  step_of CreateContext;;
  step_of UseLogger;;
  step_of FlushLogs;;
  step_of EnableShutdownHooks;;
  (if negb (isProduction cfg) then lift (MediaService.ensureBucketExists cfg) else Ret tt);;
  step_of (Log (js "Worker context booted; processing jobs.") (js "WorkerBootstrap"));;
  Ret p.

(** The [onModuleDestroy] hooks, in the order the framework runs them. *)
Inductive DestroyHook := PrismaHook | PdfRendererHook.
Definition destroy_hooks : list DestroyHook := [PrismaHook; PdfRendererHook].
Fixpoint destroy (field : PdfRendererService.Field) (hooks : list DestroyHook) : prog boot unit :=
  match hooks with
  | [] => Ret tt
  | PrismaHook :: hooks => PrismaService.onModuleDestroy;; destroy field hooks
  | PdfRendererHook :: hooks => lift (PdfRendererService.onModuleDestroy field);; destroy field hooks
  end.

(** On a signal: [onModuleDestroy] everywhere, then [onApplicationShutdown]. *)
Definition close (hooks : list DestroyHook) (field : PdfRendererService.Field) (p : Processor) : prog boot unit :=
  destroy field hooks;; onApplicationShutdown p.
End Worker.
End WorkerProcess.

(** ** The world of a process that starts: the steps done, and the services *)
Definition World : Type := list Setup * Store.

Section Contract.
Context `{Cr : Crypto} (f : bool).

(** A step is done, or (on an unreliable host) fails; the services answer as ever. *)
Definition boot_contract : contract boot World := λ X c,
  match c in boot X return World → exn + X → World → Prop with
  | Step s => λ w r w',
      r = inr tt ∧ w' = (w.1 ++ [s], w.2) ∨ f = true ∧ (∃ e, r = inl e) ∧ w' = w
  | Service c => λ w r w', w'.1 = w.1 ∧ eff_contract f _ c w.2 r w'.2
  end.

Lemma wp_lift {A} (p : prog eff A) l s Q :
  wp (eff_contract f) p s Q → wp boot_contract (lift p) (l, s) (λ r w', w'.1 = l ∧ Q r w'.2).
Proof.
  revert s. induction p as [a|e|X c k IH]; intros s Hp; simpl in *; [done..|].
  intros r [l' s'] [Hl HC]. simpl in *. subst l'. by apply IH, Hp.
Qed.

(** [follows plan P p]: [p] does the steps of [plan] in their order and no others, leaves
    the services' state alone, and either a step fails or all are done and a value of
    [P] is returned. *)
Definition follows {A} (plan : list Setup) (P : A → Prop) (p : prog boot A) : Prop :=
  ∀ l s, wp boot_contract p (l, s) (λ r w', w'.2 = s ∧ ∃ k, w'.1 = l ++ take k plan
    ∧ match r with inr a => take k plan = plan ∧ P a | inl _ => f = true end).

Lemma follows_ret {A} (P : A → Prop) a : P a → follows [] P (Ret a).
Proof. intros Ha l s. split; [done|]. exists 0. by rewrite app_nil_r. Qed.

Lemma follows_step s : follows [s] (λ _, True) (step_of s).
Proof.
  intros l st r w' [[-> ->]|[Hf [(e & ->) ->]]]; cbn [wp]; (split; [done|]).
  - exists 1. done.
  - exists 0. by rewrite app_nil_r.
Qed.

Lemma follows_bind {A B} plan1 plan2 (P1 : A → Prop) (P2 : B → Prop) (p : prog boot A) (q : A → prog boot B) :
  follows plan1 P1 p → (∀ a, P1 a → follows plan2 P2 (q a)) → follows (plan1 ++ plan2) P2 (bind p q).
Proof.
  intros Hp Hq l s. apply wp_bind. eapply wp_mono; [apply Hp|]. intros [e|a] [l1 s1] [Hs (k & Hl & Hk)]; simpl in *.
  - split; [done|]. exists (min k (length plan1)). rewrite take_app_le by lia. split; [|done].
    rewrite Hl. f_equal. destruct (decide (k ≤ length plan1)); [by rewrite Nat.min_l|].
    rewrite Nat.min_r, !take_ge by lia. done.
  - destruct Hk as [Hk Ha]. subst s1 l1. rewrite Hk. eapply wp_mono; [by apply Hq|].
    intros r [l2 s2] [Hs (k2 & Hl & Hk2)]; simpl in *.
    split; [done|]. exists (length plan1 + k2). rewrite take_app_add. rewrite Hl, app_assoc. split; [done|].
    destruct r; [done|]. by destruct Hk2 as [-> ?].
Qed.

Lemma follows_then {A} s plan (P : A → Prop) (p : prog boot A) :
  follows plan P p → follows (s :: plan) P (bind (step_of s) (λ _, p)).
Proof. intros Hp. by eapply (follows_bind [s]); [apply follows_step|]. Qed.

(** A call of the services that always succeeds and changes nothing the model sees. *)
Lemma follows_quiet {A B} plan (P : B → Prop) (c : prog eff A) (p : prog boot B) :
  (∀ s, wp (eff_contract f) c s (λ r s', s' = s ∧ ∃ a, r = inr a)) → follows plan P p →
  follows plan P (bind (lift c) (λ _, p)).
Proof.
  intros Hc Hp. apply (follows_bind [] plan (λ _, True)); [|done]. intros l s.
  eapply wp_mono; [apply wp_lift, Hc|]. intros r [l' s'] [-> [-> [a ->]]]. split; [done|].
  exists 0. by rewrite app_nil_r.
Qed.

Lemma follows_bucket {A} cfg plan (P : A → Prop) (p : prog boot A) :
  follows plan P p →
  follows plan P (bind (if negb (isProduction cfg) then lift (MediaService.ensureBucketExists cfg) else Ret tt) (λ _, p)).
Proof.
  intros Hp. destruct (negb (isProduction cfg)); [|done]. apply follows_quiet; [|done]. intros s.
  unfold MediaService.ensureBucketExists. destruct (isProduction cfg); [by split; [|eexists]|]. apply wp_try_catch. wp_call.
  intros r s' [[[-> (x & -> & _)]|[-> (e & -> & _)]]|[_ [-> (e & -> & _)]]]; (split; [done|]); by eexists.
Qed.

Lemma follows_browser {A} field plan (P : A → Prop) (p : prog boot A) :
  follows plan P p → follows plan P (bind (lift (PdfRendererService.onModuleDestroy field)) (λ _, p)).
Proof.
  intros Hp. apply follows_quiet; [|done]. intros s. unfold PdfRendererService.onModuleDestroy.
  destruct field as [b|]; [|by split; [|eexists]]. wp_focus.
  intros r s' [(-> & x & -> & _)|(_ & -> & e & -> & _)]; (split; [done|]); by eexists.
Qed.
End Contract.

(** ** Construction *)
Section Construct.
Context `{Cr : Crypto} {UP : UrlParser} (f : bool) (cfg : AppConfig).

(** The steps of a part's construction, for a connection. *)
Definition made (c : ConnectionOptions) (n : Node) : list Setup :=
  match Clients.of_part cfg n.2 with
  | Some client => [NewClient client]
  | None => if decide (n.2 = PROCESSING_QUEUE_TOKEN) then [OpenQueue PROCESSING_QUEUE c] else []
  end.

Lemma create_follows c o :
  createBullConnection (redis_url cfg) = inr c → follows f (o ≫= made c) (λ _, True) (create cfg o).
Proof.
  intros Hc. induction o as [|n o IH]; [by apply follows_ret|]. cbn [create mbind list_bind].
  eapply follows_bind; [|by intros _ _]. unfold construct, made. destruct (Clients.of_part cfg n.2) as [x|]; [apply follows_step|].
  destruct (decide _); [|by apply follows_ret]. unfold QueueModule.useFactory. rewrite Hc. apply follows_step.
Qed.

(** Without a connection the queue's factory throws. *)
Lemma create_aborts e o l s :
  createBullConnection (redis_url cfg) = inl e →
  wp (boot_contract f) (create cfg o) (l, s) (λ r w, w.2 = s
    ∧ (∃ l', w.1 = l ++ l' ∧ Forall (λ x, ∃ c, x = NewClient c) l')
    ∧ match r with inl _ => True | inr _ => Forall (λ n, n.2 ≠ PROCESSING_QUEUE_TOKEN) o end).
Proof.
  intros Hc. revert l. induction o as [|n o IH]; intros l.
  { split; [done|]. split; [|constructor]. exists []. by rewrite app_nil_r. }
  cbn [create]. unfold construct. destruct (Clients.of_part cfg n.2) as [x|] eqn:Hx.
  - intros r w [[-> ->]|[_ [(e' & ->) ->]]]; cbn [fst snd].
    + eapply wp_mono; [apply IH|]. intros r w (Hw & (l' & -> & Hl) & Hr). split; [done|]. split.
      * exists (NewClient x :: l'). rewrite <-app_assoc. split; [done|]. by constructor; [eexists|].
      * destruct r; [done|]. constructor; [|done]. intros Hn. by rewrite Hn in Hx.
    + split; [done|]. split; [|done]. exists []. by rewrite app_nil_r.
  - destruct (decide _) as [|Hn].
    + unfold QueueModule.useFactory. rewrite Hc. split; [done|]. split; [|done]. exists []. by rewrite app_nil_r.
    + eapply wp_mono; [apply IH|]. intros r w (Hw & Hl & Hr). split; [done|]. split; [done|]. destruct r; [done|by constructor].
Qed.

Lemma made_steps c o x : x ∈ o ≫= made c → (∃ n client, n ∈ o ∧ Clients.of_part cfg n.2 = Some client ∧ x = NewClient client)
  ∨ x = OpenQueue PROCESSING_QUEUE c ∧ ∃ n, n ∈ o ∧ n.2 = PROCESSING_QUEUE_TOKEN.
Proof.
  intros (n & Hx & Hn)%list_elem_of_bind. unfold made in Hx. destruct (Clients.of_part cfg n.2) as [y|] eqn:Hy.
  - apply list_elem_of_singleton in Hx as ->. left. by exists n, y.
  - destruct (decide _); [|by apply not_elem_of_nil in Hx]. apply list_elem_of_singleton in Hx as ->. right. eauto.
Qed.

Lemma made_queue c n o : n ∈ o → n.2 = PROCESSING_QUEUE_TOKEN → OpenQueue PROCESSING_QUEUE c ∈ o ≫= made c.
Proof.
  intros Hn He. apply list_elem_of_bind. exists n. split; [|done]. unfold made. rewrite He.
  assert (Clients.of_part cfg PROCESSING_QUEUE_TOKEN = None) as -> by done. rewrite decide_True by done. by left.
Qed.

Lemma made_client c n client o : n ∈ o → Clients.of_part cfg n.2 = Some client → NewClient client ∈ o ≫= made c.
Proof. intros Hn He. apply list_elem_of_bind. exists n. split; [|done]. unfold made. rewrite He. by left. Qed.
End Construct.

(** A part that every construction of a process has. *)
Lemma constructed_part packages root m t o :
  root ∈ roots → constructed modules packages root o → bool_decide ((m, t) ∈ parts_of root) = true → (m, t) ∈ o.
Proof. intros Hr [_ Ho] Hn. apply Ho, parts_instances; [done|]. exact (proj1 (bool_decide_eq_true _) Hn). Qed.

Lemma root_api : js "AppModule" ∈ roots.
Proof. by left. Qed.
Lemma root_worker : js "WorkerModule" ∈ roots.
Proof. right. by left. Qed.

(** A step of a plan is in the log with everything before it. *)
Lemma in_prefix (before : list Setup) x after k :
  x ∉ before → x ∈ take k (before ++ x :: after) →
  ∃ rest, take k (before ++ x :: after) = before ++ x :: rest.
Proof.
  intros Hno Hin. destruct (decide (length before < k)) as [Hlt|Hge].
  - exists (take (k - length before - 1) after). replace k with (length before + S (k - length before - 1)) at 1 by lia.
    by rewrite take_app_add.
  - exfalso. apply Hno. rewrite take_app_le in Hin by lia. apply list_elem_of_lookup in Hin as [i Hi].
    apply lookup_take_Some in Hi as [Hi _]. by eapply list_elem_of_lookup_2.
Qed.

Lemma in_take {A} (x : A) k l : x ∈ take k l → x ∈ l.
Proof. intros [i Hi]%list_elem_of_lookup. apply lookup_take_Some in Hi as [Hi _]. by eapply list_elem_of_lookup_2. Qed.

(** ** The API *)
Definition board_steps (board : option BullBoard.Mount) : list Setup :=
  match board with Some m => [MountBoard m] | None => [] end.

(** What stands before the port, for an order, a connection and a dashboard. *)
Definition api_prelude (cfg : AppConfig) (o : list Node) (c : ConnectionOptions) (board : option BullBoard.Mount) : list Setup :=
  (o ≫= made cfg c)
  ++ [CreateApp; UseLogger; FlushLogs; SetTrustProxy 1; UseHelmet; EnableCors (Api.cors cfg);
      UseGlobalPipes Api.pipe; EnableShutdownHooks; ServeDocs (js "docs") buildOpenApiDocument true]
  ++ board_steps board ++ [ConnectDatabase].
Definition api_plan (cfg : AppConfig) (o : list Node) (c : ConnectionOptions) (board : option BullBoard.Mount) : list Setup :=
  api_prelude cfg o c board
  ++ [Listen (port cfg) (js "0.0.0.0");
      Log (js "API listening on :" ++ js_of_Z (port cfg) ++ js " (docs at " ++ appBaseUrl cfg ++ js "/docs)") (js "Bootstrap")].

Lemma api_follows `{Cr : Crypto} {UP : UrlParser} f cfg o c board :
  createBullConnection (redis_url cfg) = inr c → BullBoard.mountBullBoard cfg = inr board →
  follows f (api_plan cfg o c board) (λ _, True) (Api.bootstrap cfg o).
Proof.
  intros Hc Hb. unfold Api.bootstrap, setupSwagger, api_plan, api_prelude. rewrite Hb. rewrite <-!app_assoc.
  eapply follows_bind; [by apply create_follows|]. intros _ _. cbn [settle bind app]. do 9 apply follows_then. cbn [bind].
  eapply (follows_bind f (board_steps board)); [destruct board; [apply follows_step|by apply follows_ret]|].
  intros _ _. apply follows_bucket, follows_then, follows_then, follows_step.
Qed.

Lemma board_connection {UP : UrlParser} cfg e :
  BullBoard.mountBullBoard cfg = inl e → createBullConnection (redis_url cfg) = inl e.
Proof. unfold BullBoard.mountBullBoard. case_match; [done|]. case_match; [congruence|done]. Qed.

Lemma in_prelude cfg o c board x :
  x ∈ api_prelude cfg o c board → x ∈ o ≫= made cfg c
    ∨ x ∈ [CreateApp; UseLogger; FlushLogs; SetTrustProxy 1; UseHelmet; EnableCors (Api.cors cfg);
           UseGlobalPipes Api.pipe; EnableShutdownHooks; ServeDocs (js "docs") buildOpenApiDocument true; ConnectDatabase]
    ∨ ∃ m, board = Some m ∧ x = MountBoard m.
Proof.
  unfold api_prelude. rewrite !elem_of_app. destruct board as [m|]; cbn [board_steps]; rewrite !elem_of_cons; naive_solver.
Qed.

Lemma prelude_no_port cfg o c board p h : Listen p h ∉ api_prelude cfg o c board.
Proof.
  intros [Hm|[Hx|(m & _ & [=])]]%in_prelude.
  - destruct (made_steps _ _ _ _ Hm) as [(n & client & _ & _ & [=])|[[=] _]].
  - rewrite !elem_of_cons in Hx. repeat (destruct Hx as [[=]|Hx]). by apply not_elem_of_nil in Hx.
Qed.

(** C33: The API opens its port only behind its guards: in every run of the bootstrap
    from a configuration that was loaded - in whatever order the parts are
    constructed, whatever step fails - a port that is opened is the configured one,
    and before it stand the database and object store clients with the configured
    credentials, the queue's and the database's connection, one trusted proxy hop,
    the security headers, the whitelisting validation pipe, the shutdown hooks, CORS -
    with an explicit allow-list in production - and, when its credentials are
    configured, the guarded dashboard.  The rows, objects and queues are untouched,
    and a run that returns has opened the port. *)
Theorem api_opens_guarded `{Cr : Crypto} `{Zo : Zod} {UP : UrlParser} f source cfg packages o s :
  loadConfig source = inr cfg → constructed modules packages (js "AppModule") o →
  wp (boot_contract f) (Api.bootstrap cfg o) ([], s) (λ r w, w.2 = s
    ∧ (∀ p h, Listen p h ∈ w.1 → p = port cfg ∧ ∃ before after,
         w.1 = before ++ Listen p h :: after
         ∧ NewClient (PrismaService.client cfg) ∈ before ∧ NewClient (Clients.media cfg) ∈ before
         ∧ (∃ c, createBullConnection (redis_url cfg) = inr c ∧ OpenQueue PROCESSING_QUEUE c ∈ before)
         ∧ ConnectDatabase ∈ before ∧ SetTrustProxy 1 ∈ before ∧ UseHelmet ∈ before
         ∧ UseGlobalPipes (mkPipe true true true true) ∈ before ∧ EnableShutdownHooks ∈ before
         ∧ (∃ o, EnableCors o ∈ before ∧ (isProduction cfg = true →
              ∃ origins, cors_origin o = AllowList origins ∧ (js "*" ∉ origins)))
         ∧ (board_enabled (cfg_bullBoard cfg) = true → ∃ m, MountBoard m ∈ before
              ∧ BullBoard.mount_guard m = BullBoard.basicAuth cfg))
    ∧ match r with
      | inr _ => Listen (port cfg) (js "0.0.0.0") ∈ w.1
      | inl _ => True
      end).
Proof.
  intros Hcfg Ho.
  assert ((js "QueueModule", PROCESSING_QUEUE_TOKEN) ∈ o) as Hqueue by (by apply (constructed_part _ _ _ _ _ root_api Ho)).
  destruct (createBullConnection (redis_url cfg)) as [e|c] eqn:Hc.
  { unfold Api.bootstrap. apply wp_bind. eapply wp_mono; [by eapply create_aborts|].
    intros [e'|[]] [l s'] (Hs & (l' & Hl & Hno) & Hr); cbn [fst snd] in *.
    - split; [done|]. split; [|done]. intros p h Hin. rewrite Hl, app_nil_l in Hin. rewrite Forall_forall in Hno.
      by destruct (Hno _ Hin).
    - rewrite Forall_forall in Hr. by destruct (Hr _ Hqueue). }
  destruct (BullBoard.mountBullBoard cfg) as [e|board] eqn:Hb; [by rewrite (board_connection cfg e Hb) in Hc|].
  eapply wp_mono; [by apply (api_follows f cfg o c board Hc Hb)|]. intros r [l s'] [-> (k & Hl & Hk)]. cbn [fst snd] in *. subst l.
  rewrite app_nil_l. split; [done|]. split.
  - intros p h Hin. assert (p = port cfg ∧ h = js "0.0.0.0") as [-> ->].
    { apply in_take, elem_of_app in Hin as [Hin|Hin]; [by apply prelude_no_port in Hin|].
      rewrite !elem_of_cons in Hin. destruct Hin as [[= -> ->]|[[=]|[]%not_elem_of_nil]]. done. }
    split; [done|]. destruct (in_prefix (api_prelude cfg o c board) _ _ k (prelude_no_port _ _ _ _ _ _) Hin) as [after Htake].
    eexists _, after. split; [exact Htake|].
    assert (isProduction cfg = true → js "*" ∉ corsOrigins cfg) as Hcors.
    { intros Hprod. apply loadConfig_inv in Hcfg as (e & _ & Hd & ->).
      apply bool_decide_eq_true in Hprod. by destruct (rule_production _ Hd Hprod) as (_ & _ & _ & _ & _ & ?). }
    assert (∀ x, x ∈ o ≫= made cfg c → x ∈ api_prelude cfg o c board) as Hmade by (intros x Hx; apply elem_of_app; by left).
    assert (∀ x, x ∈ [SetTrustProxy 1; UseHelmet; EnableCors (Api.cors cfg); UseGlobalPipes Api.pipe; EnableShutdownHooks;
      ConnectDatabase] → x ∈ api_prelude cfg o c board) as Hbefore.
    { intros x. unfold api_prelude. rewrite !elem_of_app, !elem_of_cons. tauto. }
    split_and!; try (apply Hbefore; rewrite !elem_of_cons; tauto).
    + apply Hmade, (made_client cfg c (js "PrismaModule", service "PrismaService")); [|done].
      by apply (constructed_part _ _ _ _ _ root_api Ho).
    + apply Hmade, (made_client cfg c (js "MediaModule", service "MediaService")); [|done].
      by apply (constructed_part _ _ _ _ _ root_api Ho).
    + exists c. split; [done|]. by apply Hmade, (made_queue cfg c (js "QueueModule", PROCESSING_QUEUE_TOKEN)).
    + exists (Api.cors cfg). split; [apply Hbefore; rewrite !elem_of_cons; tauto|]. intros Hprod. exists (corsOrigins cfg).
      split; [|by apply Hcors]. simpl. by rewrite bool_decide_eq_false_2 by by apply Hcors.
    + intros Hen. unfold BullBoard.mountBullBoard in Hb. rewrite Hen, Hc in Hb. injection Hb as <-.
      exists (BullBoard.mkMount BullBoard.BASE_PATH (BullBoard.basicAuth cfg) [PROCESSING_QUEUE; PROCESSING_DLQ] c).
      split; [|done]. unfold api_prelude. rewrite !elem_of_app. right; right; left. by left.
  - destruct r; [done|]. destruct Hk as [-> _]. apply elem_of_app. right. by left.
Qed.

(** The export of the document: written between connecting and disconnecting, and
    everything is closed before the process exits. *)
Lemma generate_follows `{Cr : Crypto} {UP : UrlParser} f cfg o path c :
  createBullConnection (redis_url cfg) = inr c →
  follows f ((o ≫= made cfg c) ++ [CreateApp; ConnectDatabase; WriteFile path buildOpenApiDocument; DisconnectDatabase;
               CloseQueue PROCESSING_QUEUE; Log (js "Wrote " ++ path) []; Exit 0]) (λ _, True) (Api.generate cfg o path).
Proof.
  intros Hc. unfold Api.generate, Api.close. eapply follows_bind; [by apply create_follows|]. intros _ _.
  do 3 apply follows_then. apply (follows_bind f [_; _] [_; _] (λ _, True)); [apply follows_then, follows_step|].
  intros _ _. apply follows_then, follows_step.
Qed.

(** ** The worker *)
Section Worker.
Context `{Cr : Crypto} {TP : TranscriptionProvider} {CP : ReportCompilerProvider} `{Zo : Zod} {PR : PdfRenderer}.
Context {UP : UrlParser} (f : bool) (cfg : AppConfig) (o : list Node) (c : ConnectionOptions).

Definition worker_spec : WorkerSpec :=
  mkWorker PROCESSING_QUEUE (ProcessingProcessor.work cfg) c (workerConcurrency (cfg_ai cfg)).

(** What stands before the worker, and what is set up after it. *)
Definition worker_prelude : list Setup := (o ≫= made cfg c) ++ [ConnectDatabase; OpenQueue PROCESSING_DLQ c].
Definition worker_rest : list Setup :=
  [OnCompleted; OnFailed ProcessingProcessor.handleFailure; OnError;
   Log (js "Processing worker started (queue=" ++ PROCESSING_QUEUE ++ js ", concurrency="
        ++ js_of_Z (workerConcurrency (cfg_ai cfg)) ++ js ")") (js "ProcessingProcessor"); CreateContext; UseLogger; FlushLogs;
   EnableShutdownHooks; Log (js "Worker context booted; processing jobs.") (js "WorkerBootstrap")].
Definition worker_plan : list Setup := worker_prelude ++ OpenWorker worker_spec :: worker_rest.

(** The whole life of a worker. *)
Definition life (hooks : list WorkerProcess.DestroyHook) (field : PdfRendererService.Field) : prog boot unit :=
  p <- WorkerProcess.bootstrap cfg o;; WorkerProcess.close hooks field p.

Definition life_plan : list Setup := worker_plan ++ [DisconnectDatabase; CloseWorker; CloseQueue PROCESSING_DLQ].

Lemma worker_follows :
  createBullConnection (redis_url cfg) = inr c →
  follows f worker_plan (λ p, p = WorkerProcess.mkProcessor true true) (WorkerProcess.bootstrap cfg o).
Proof.
  intros Hc. unfold WorkerProcess.bootstrap, worker_plan, worker_prelude. rewrite <-app_assoc.
  eapply follows_bind; [by apply create_follows|]. intros _ _. cbn [app]. apply follows_then.
  apply (follows_bind f [_; _; _; _; _; _] _ (λ p, p = WorkerProcess.mkProcessor true true)).
  - unfold WorkerProcess.onModuleInit. rewrite Hc. cbn [settle bind]. do 6 apply follows_then. by apply follows_ret.
  - intros p ->. do 4 apply follows_then. apply follows_bucket, follows_then. by apply follows_ret.
Qed.

Lemma life_follows hooks field :
  createBullConnection (redis_url cfg) = inr c → hooks ≡ₚ WorkerProcess.destroy_hooks →
  follows f life_plan (λ _, True) (life hooks field).
Proof.
  intros Hc Hh. unfold life, life_plan. eapply follows_bind; [by apply worker_follows|]. intros p ->. unfold WorkerProcess.close.
  apply (follows_bind f [DisconnectDatabase] _ (λ _, True)).
  - symmetry in Hh. apply Permutation_length_2_inv in Hh as [->| ->]; cbn [WorkerProcess.destroy].
    + apply (follows_then f DisconnectDatabase []), follows_browser. by apply follows_ret.
    + apply follows_browser, (follows_then f DisconnectDatabase []). by apply follows_ret.
  - intros _ _. unfold WorkerProcess.onApplicationShutdown. cbn [WorkerProcess.worker WorkerProcess.dlq_queue].
    apply follows_then, follows_step.
Qed.

(** The clients a worker makes. *)
Definition worker_clients : list SdkClient :=
  PrismaService.client cfg :: Clients.media cfg :: omap id [Clients.transcription cfg; Clients.compiler cfg].

Lemma worker_made packages client :
  constructed modules packages (js "WorkerModule") o →
  NewClient client ∈ o ≫= made cfg c ↔ client ∈ worker_clients.
Proof.
  intros Ho.
  assert (∀ t m, bool_decide ((m, t) ∈ parts_of (js "WorkerModule")) = true → Clients.of_part cfg t = Some client →
    NewClient client ∈ o ≫= made cfg c) as Hin.
  { intros t m Hp Hc. apply (made_client cfg c (m, t)); [|done]. by apply (constructed_part _ _ _ _ _ root_worker Ho). }
  unfold worker_clients. rewrite !elem_of_cons. split.
  - intros [(n & x & Hn & Hx & [= ->])|[[=] _]]%made_steps. destruct Ho as [Hcon _].
    pose proof (construction_instances _ _ _ _ Hcon n Hn) as Hinst.
    destruct (apart _ _ root_worker Hinst) as [Hno _]. specialize (Hno eq_refl).
    unfold Clients.of_part in Hx. repeat case_decide; simplify_eq; auto.
    + exfalso. apply Hno. match goal with H : n.2 = _ |- _ => rewrite H end. by apply (bool_decide_unpack _); vm_compute.
    + right; right. cbn [omap list_omap id]. rewrite Hx. by left.
    + right; right. cbn [omap list_omap id]. rewrite Hx. destruct (Clients.transcription cfg); [right; left|left]; done.
  - intros [->|[->|Ht]].
    + by apply (Hin (service "PrismaService") (js "PrismaModule")).
    + by apply (Hin (service "MediaService") (js "MediaModule")).
    + apply list_elem_of_omap in Ht as (x & Hx & Hs). unfold id in Hs. subst x.
      rewrite !elem_of_cons in Hx. destruct Hx as [Hx|[Hx|[]%not_elem_of_nil]].
      * by apply (Hin Modules.TRANSCRIPTION_PROVIDER (js "TranscriptionModule")).
      * by apply (Hin Modules.REPORT_COMPILER_PROVIDER (js "CompilerModule")).
Qed.

(** A worker fills no queue. *)
Lemma worker_no_producer packages c' :
  constructed modules packages (js "WorkerModule") o → OpenQueue PROCESSING_QUEUE c' ∉ o ≫= made cfg c.
Proof.
  intros [Ho _] [(n & x & _ & _ & [=])|(_ & n & Hn & Ht)]%made_steps.
  destruct (apart _ _ root_worker (construction_instances _ _ _ _ Ho n Hn)) as [Hno _]. apply Hno; [done|].
  rewrite Ht. by apply (bool_decide_unpack _); vm_compute.
Qed.

Lemma prelude_no_worker spec : OpenWorker spec ∉ worker_prelude.
Proof.
  unfold worker_prelude. intros [Hm|Hx]%elem_of_app.
  - destruct (made_steps _ _ _ _ Hm) as [(n & client & _ & _ & [=])|[[=] _]].
  - rewrite !elem_of_cons in Hx. destruct Hx as [[=]|[[=]|[]%not_elem_of_nil]].
Qed.

Lemma plan_no_close x : x = CloseWorker ∨ x = CloseQueue PROCESSING_DLQ → x ∉ worker_plan ++ [DisconnectDatabase].
Proof.
  intros Hx. unfold worker_plan, worker_prelude. rewrite !elem_of_app. intros [[[Hm|Hp]|Hp]|Hp].
  - destruct (made_steps _ _ _ _ Hm) as [(n & client & _ & _ & ->)|[-> _]]; by destruct Hx.
  - rewrite !elem_of_cons, elem_of_nil in Hp. destruct Hx as [->| ->]; naive_solver.
  - unfold worker_rest in Hp. rewrite !elem_of_cons, elem_of_nil in Hp. destruct Hx as [->| ->]; naive_solver.
  - apply list_elem_of_singleton in Hp. destruct Hx; congruence.
Qed.
End Worker.

(** No client is made without its key. *)
Definition keyed (client : SdkClient) : Prop :=
  match client with OpenAI key _ | DeepgramClient key => key ≠ [] | _ => True end.

Lemma worker_keys `{Zo : Zod} source cfg client :
  loadConfig source = inr cfg → client ∈ worker_clients cfg → keyed client.
Proof.
  intros (e & _ & Hd & ->)%loadConfig_inv. pose proof (rule_ai _ Hd) as Hai. unfold worker_clients.
  intros [->|[->|(x & Hx & Hs)%list_elem_of_omap]%elem_of_cons]%elem_of_cons; [done..|]. unfold id in Hs. subst x.
  assert (useMock (cfg_ai (config_of e)) = false →
    ¬ (USE_MOCK_AI e = true ∨ NODE_ENV e = test)) as Hmock.
  { intros [Hu Ht%bool_decide_eq_false]%orb_false_iff [?|?]; congruence. }
  rewrite !elem_of_cons in Hx. destruct Hx as [Hx|[Hx|[]%not_elem_of_nil]];
    unfold Clients.transcription, Clients.compiler in Hx; destruct (useMock _); try done; specialize (Hmock eq_refl);
    (destruct Hai as [?|[?|(Hdg & Hoa & Hds)]]; [tauto..|]); cbn in Hx.
  - case_bool_decide; injection Hx as ->; cbn [keyed]; [by apply Hoa|]. apply Hdg. by destruct (TRANSCRIPTION_PROVIDER e).
  - by injection Hx as ->.
Qed.

(** C34: The worker from boot to shutdown.  It consumes the very queue the API fills, over
    the same connection, with the configured concurrency, running the pipeline, and
    fills none; before it starts, the database is connected, and exactly the clients
    of the selected providers are made, none without its key; when it is closed its
    failure handler was listening.  Shutting down closes the worker before the
    dead-letter queue - but the database is disconnected before the worker is
    closed, so before the jobs it is running are done.  Only a step that fails cuts
    this short, and then nothing later is done. *)
Theorem worker_life `{Cr : Crypto} {TP : TranscriptionProvider} {CP : ReportCompilerProvider} `{Zo : Zod}
    {PR : PdfRenderer} {UP : UrlParser} f source cfg packages o c hooks field s :
  loadConfig source = inr cfg → createBullConnection (redis_url cfg) = inr c →
  constructed modules packages (js "WorkerModule") o → hooks ≡ₚ WorkerProcess.destroy_hooks →
  wp (boot_contract f) (life cfg o hooks field) ([], s) (λ r w, w.2 = s
    ∧ (∀ spec, OpenWorker spec ∈ w.1 →
         worker_process spec = ProcessingProcessor.work cfg
         ∧ worker_concurrency spec = workerConcurrency (cfg_ai cfg)
         ∧ wp (boot_contract false) (QueueModule.useFactory cfg) ([], s) (λ r' w',
             r' = inr tt ∧ w'.1 = [OpenQueue (worker_queue spec) (worker_connection spec)])
         ∧ ∃ before after, w.1 = before ++ OpenWorker spec :: after ∧ ConnectDatabase ∈ before
             ∧ ∀ client, NewClient client ∈ before ↔ client ∈ worker_clients cfg)
    ∧ (∀ key base, NewClient (OpenAI key base) ∈ w.1 ∨ NewClient (DeepgramClient key) ∈ w.1 → key ≠ [])
    ∧ (∀ c', OpenQueue PROCESSING_QUEUE c' ∉ w.1)
    ∧ (CloseWorker ∈ w.1 → ∃ before after, w.1 = before ++ CloseWorker :: after
         ∧ OnFailed ProcessingProcessor.handleFailure ∈ before ∧ DisconnectDatabase ∈ before)
    ∧ (CloseQueue PROCESSING_DLQ ∈ w.1 → ∃ before after,
         w.1 = before ++ CloseQueue PROCESSING_DLQ :: after ∧ CloseWorker ∈ before)
    ∧ match r with
      | inr _ => CloseQueue PROCESSING_DLQ ∈ w.1
      | inl _ => f = true
      end).
Proof.
  intros Hcfg Hc Ho Hh. eapply wp_mono; [by apply (life_follows f cfg o c hooks field Hc Hh)|].
  intros r [l s'] [-> (k & Hl & Hk)]. cbn [fst snd] in *. subst l. rewrite app_nil_l. split; [done|].
  set (plan := life_plan cfg o c) in *.
  assert (∀ x, x ∈ take k plan → x ∈ o ≫= made cfg c ∨ x ∈ ConnectDatabase :: OpenQueue PROCESSING_DLQ c
    :: OpenWorker (worker_spec cfg c) :: worker_rest cfg ++ [DisconnectDatabase; CloseWorker; CloseQueue PROCESSING_DLQ]) as Hin.
  { intros x Hx%in_take. unfold plan, life_plan, worker_plan, worker_prelude in Hx. rewrite <-!app_assoc in Hx.
    apply elem_of_app in Hx. exact Hx. }
  split_and!.
  - intros spec Hw. destruct (Hin _ Hw) as [Hm|Hx]; [by destruct (made_steps _ _ _ _ Hm) as [(? & ? & _ & _ & [=])|[[=] _]]|].
    assert (spec = worker_spec cfg c) as -> by (unfold worker_rest in Hx; cbn [app] in Hx; rewrite !elem_of_cons, elem_of_nil in Hx; naive_solver).
    split; [done|]. split; [done|]. split.
    { unfold QueueModule.useFactory. rewrite Hc. cbn [settle bind]. by intros r' w' [[-> ->]|[? _]]. }
    destruct (in_prefix (worker_prelude cfg o c) (OpenWorker (worker_spec cfg c))
      (worker_rest cfg ++ [DisconnectDatabase; CloseWorker; CloseQueue PROCESSING_DLQ]) k) as [rest Hrest];
      [apply prelude_no_worker|by unfold plan, life_plan, worker_plan in Hw; rewrite <-app_assoc in Hw|].
    eexists _, rest. unfold plan, life_plan, worker_plan. rewrite <-app_assoc. cbn [app]. split; [exact Hrest|].
    unfold worker_prelude. split; [rewrite elem_of_app, !elem_of_cons; tauto|]. intros client.
    rewrite <-(worker_made cfg o c packages client Ho), elem_of_app, !elem_of_cons, elem_of_nil. naive_solver.
  - intros key base Hkey. assert (∀ x, NewClient x ∈ take k plan → keyed x) as Hkeyed.
    { intros x Hx. eapply worker_keys; [exact Hcfg|]. apply (worker_made cfg o c packages x Ho).
      destruct (Hin _ Hx) as [|Hn]; [done|]. unfold worker_rest in Hn. cbn [app] in Hn. rewrite !elem_of_cons, elem_of_nil in Hn. naive_solver. }
    destruct Hkey as [Hk1|Hk1]; apply (Hkeyed _ Hk1).
  - intros c' Hx. destruct (Hin _ Hx) as [Hm|Hn]; [by eapply worker_no_producer|].
    unfold worker_rest in Hn. cbn [app] in Hn. rewrite !elem_of_cons, elem_of_nil in Hn. naive_solver.
  - intros Hx. destruct (in_prefix (worker_plan cfg o c ++ [DisconnectDatabase]) CloseWorker [CloseQueue PROCESSING_DLQ] k)
      as [rest Hrest]; [by apply plan_no_close; left|by unfold plan, life_plan in Hx; rewrite <-app_assoc|].
    unfold plan, life_plan. rewrite <-app_assoc in Hrest. eexists _, rest. split; [exact Hrest|].
    rewrite !elem_of_app. split; [left|right; by left]. unfold worker_plan, worker_rest. rewrite elem_of_app, !elem_of_cons. tauto.
  - assert (plan = ((worker_plan cfg o c ++ [DisconnectDatabase]) ++ [CloseWorker]) ++ [CloseQueue PROCESSING_DLQ]) as ->
      by (unfold plan, life_plan; by rewrite <-!app_assoc).
    intros Hx. destruct (in_prefix ((worker_plan cfg o c ++ [DisconnectDatabase]) ++ [CloseWorker]) (CloseQueue PROCESSING_DLQ) [] k)
      as [rest Hrest]; [|done|].
    + intros [Hp|Hp]%elem_of_app; [by apply plan_no_close in Hp; [|right]|]. by apply list_elem_of_singleton in Hp.
    + eexists _, rest. split; [exact Hrest|]. rewrite !elem_of_app. right. by left.
  - destruct r; [done|]. destruct Hk as [-> _]. unfold plan, life_plan. rewrite elem_of_app, !elem_of_cons. tauto.
Qed.

(** ** Runs *)
#[local] Existing Instance sample_parser.
#[local] Existing Instance sample_zod.
#[local] Existing Instance TranscriptionProviders.MockTranscriptionProvider.
#[local] Existing Instance CompilerProviders.MockReportCompiler.
#[local] Existing Instance mock_renderer.

Lemma sample_construction root :
  root ∈ roots → constructed modules (promised (forRoot None)) root (build_order root).
Proof. intros Hr. apply (build_order_constructed root None); [done|]. by split; [|split]. Qed.

Lemma api_opens_guarded_witness :
  wp (boot_contract true) (Api.bootstrap (config_of prod_parsed) (build_order (js "AppModule"))) ([], empty_store) (λ r w,
    w.2 = empty_store ∧ ∀ p h, Listen p h ∈ w.1 → p = 8080%Z).
Proof.
  eapply wp_mono.
  - apply (api_opens_guarded true prod_env (config_of prod_parsed) (promised (forRoot None)) (build_order (js "AppModule")));
      [vm_compute; reflexivity|]. apply sample_construction, root_api.
  - intros r w (Hs & Hl & _). split; [exact Hs|]. intros p h Hin. destruct (Hl p h Hin) as (-> & _). reflexivity.
Defined.

Lemma worker_life_witness :
  wp (boot_contract false) (life (config_of prod_parsed) (build_order (js "WorkerModule"))
    [WorkerProcess.PdfRendererHook; WorkerProcess.PrismaHook] (Some 1)) ([], empty_store) (λ r w,
    r = inr tt ∧ CloseQueue PROCESSING_DLQ ∈ w.1).
Proof.
  eapply wp_mono.
  - apply (worker_life false prod_env (config_of prod_parsed) (promised (forRoot None)) (build_order (js "WorkerModule"))
      (mkConnection (js "cache") (NumberOf (js "6379")) None None None None false false));
      [vm_compute; reflexivity|vm_compute; reflexivity|apply sample_construction, root_worker|apply perm_swap].
  - intros [e|[]] w (_ & _ & _ & _ & _ & _ & Hr); [discriminate Hr|]. split; [reflexivity|exact Hr].
Defined.
