(* ===== verification/Wire.v ===== *)
(** * Request bodies on the wire

    What a client sends and what a handler gets.  [Body] is a DTO class as its
    declaration reads: its fields with their types, and the constraints of its
    decorators; each instance is proved to read back what it writes.
    [ValidationPipe] is what the code relies on of Nest's pipe and of [ParseUUIDPipe],
    for the options [main.ts] gives. *)
From S2P Require Import Prelude Json Program Schema Services JsDate Report Zod Config Dto Bootstrap.

(** ** Fields *)
Definition read_str (v : json) : option jstr := match v with JStr s => Some s | _ => None end.
Definition read_int (v : json) : option Z := match v with JNum n => Some n | _ => None end.
Definition read_list {A} (r : json → option A) (v : json) : option (list A) :=
  match v with JArr l => mapM r l | _ => None end.
Definition read_obj {A} (r : claims → option A) (v : json) : option A :=
  match v with JObj fs => r fs | _ => None end.

Definition required {A} (r : json → option A) (k : string) (fs : claims) : option A := jget (js k) fs ≫= r.
Definition nullable_field {A} (r : json → option A) (k : string) (fs : claims) : option (nullable A) :=
  match jget (js k) fs with
  | None => Some Undefined
  | Some JNull => Some Null
  | Some v => Value <$> r v
  end.

Definition put {A} (w : A → json) (k : string) (x : nullable A) : claims :=
  match x with Undefined => [] | Null => [(js k, JNull)] | Value a => [(js k, w a)] end.

(** A reader that gives back what a writer wrote. *)
Definition inverse {A B} (r : B → option A) (w : A → B) : Prop := ∀ a, r (w a) = Some a.

Lemma inverse_str : inverse read_str JStr.
Proof. done. Qed.
Lemma inverse_list {A} (r : json → option A) (w : A → json) :
  inverse r w → inverse (read_list r) (λ l, JArr (w <$> l)).
Proof. intros H l. cbn [read_list]. apply mapM_Some. apply Forall2_fmap_l. by apply Forall_Forall2_diag, Forall_true. Qed.
Lemma inverse_obj {A} (r : claims → option A) (w : A → claims) : inverse r w → inverse (read_obj r) (λ a, JObj (w a)).
Proof. intros H a. apply H. Qed.

Lemma nullable_put {A} (r : json → option A) (w : A → json) k x :
  inverse r w → (∀ a, w a ≠ JNull) → nullable_field r k (put w k x) = Some x.
Proof.
  intros H Hn. unfold nullable_field, put. destruct x as [| |a]; cbn [jget]; [done|by rewrite decide_True by done|].
  rewrite decide_True by done. specialize (Hn a). pose proof (H a) as Ha. destruct (w a); by rewrite ?Ha.
Qed.

(** ** The DTO classes *)
Class Body (D : Type) := {
  allowed : D → bool;
  field_names : list jstr;
  to_wire : D → claims;
  of_wire : claims → option D;
  of_to_wire : ∀ d, allowed d = true → of_wire (to_wire d) = Some d;
  to_wire_fields : ∀ d, Forall (λ p, p.1 ∈ field_names) (to_wire d);
}.

Section Bodies.
Context {V : Validator}.

Definition finding_to_wire (d : UpdateFindingDto) : claims :=
  [(js "text", JStr (uf_text d)); (js "severity", JStr (api_text (uf_severity d)));
   (js "sortOrder", JNum (uf_sortOrder d))].
Definition finding_of_wire (fs : claims) : option UpdateFindingDto :=
  text ← required read_str "text" fs;
  severity ← required (λ v, read_str v ≫= api_of_text) "severity" fs;
  sortOrder ← required read_int "sortOrder" fs;
  Some (mkUpdateFindingDto text severity sortOrder).

Definition section_to_wire (d : UpdateSectionDto) : claims :=
  [(js "title", JStr (us_title d)); (js "sortOrder", JNum (us_sortOrder d));
   (js "findings", JArr ((λ f, JObj (finding_to_wire f)) <$> us_findings d))].
Definition section_of_wire (fs : claims) : option UpdateSectionDto :=
  title ← required read_str "title" fs;
  sortOrder ← required read_int "sortOrder" fs;
  findings ← required (read_list (read_obj finding_of_wire)) "findings" fs;
  Some (mkUpdateSectionDto title sortOrder findings).

Definition update_to_wire (d : UpdateJobDto) : claims :=
  put JStr "label" (uj_label d) ++ put (λ l, JArr ((λ x, JObj (section_to_wire x)) <$> l)) "sections" (uj_sections d).
Definition update_of_wire (fs : claims) : option UpdateJobDto :=
  label ← nullable_field read_str "label" fs;
  sections ← nullable_field (read_list (read_obj section_of_wire)) "sections" fs;
  Some (mkUpdateJobDto label sections).

Definition apple_to_wire (d : AppleSignInDto) : claims :=
  (js "identityToken", JStr (as_identityToken d)) :: put JStr "nonce" (as_nonce d) ++ put JStr "email" (as_email d).
Definition apple_of_wire (fs : claims) : option AppleSignInDto :=
  identityToken ← required read_str "identityToken" fs;
  nonce ← nullable_field read_str "nonce" fs;
  email ← nullable_field read_str "email" fs;
  Some (mkAppleSignInDto identityToken nonce email).

(** A query string holds texts; [@Type(() => Number)] reads the limit. *)
Definition digit (c : N) : option Z :=
  if ((48 <=? c) && (c <=? 57))%N then Some (Z.of_N (c - 48)) else None.
Definition read_number (v : json) : option Z :=
  match v with
  | JStr s => ds ← mapM digit s; Some (foldl (λ n d, 10 * n + d)%Z 0%Z ds)
  | _ => None
  end.
Definition query_to_wire (d : PaginationQueryDto) : claims :=
  match pq_cursor d with Some c => [(js "cursor", JStr c)] | None => [] end
  ++ [(js "limit", JStr (js_of_Z (pq_limit d)))].
Definition query_of_wire (fs : claims) : option PaginationQueryDto :=
  cursor ← (match jget (js "cursor") fs with None => Some None | Some v => Some <$> read_str v end);
  limit ← (match jget (js "limit") fs with None => Some default_limit | Some v => read_number v end);
  Some (mkPaginationQueryDto cursor limit).

Lemma inverse_severity : inverse (λ v, read_str v ≫= api_of_text) (λ x, JStr (api_text x)).
Proof. by intros []. Qed.
Lemma inverse_finding : inverse finding_of_wire finding_to_wire.
Proof. by intros [t [] n]. Qed.
Lemma inverse_section : inverse section_of_wire section_to_wire.
Proof.
  intros [t n l]. unfold section_of_wire, section_to_wire, required. cbn [us_title us_sortOrder us_findings].
  jget_fields. cbn [mbind option_bind read_str read_int].
  by rewrite (inverse_list _ _ (inverse_obj _ _ inverse_finding)).
Qed.

Lemma put_elsewhere {A} (w : A → json) k k' x : js k' ≠ js k → jget (js k) (put w k' x) = None.
Proof. intros H. destruct x; cbn [put]; rewrite ?jget_there by done; done. Qed.

Lemma nullable_app {A} (r : json → option A) (w : A → json) k x a b :
  inverse r w → (∀ y, w y ≠ JNull) → jget (js k) a = None → jget (js k) b = None →
  nullable_field r k (a ++ put w k x ++ b) = Some x.
Proof.
  intros Hr Hn Ha Hb. rewrite <-(nullable_put r w k x Hr Hn). unfold nullable_field. rewrite !jget_app, Ha, Hb.
  by destruct (jget (js k) (put w k x)).
Qed.

Lemma inverse_update : inverse update_of_wire update_to_wire.
Proof.
  intros [label sections]. unfold update_of_wire, update_to_wire. cbn [uj_label uj_sections].
  set (b := put _ "sections" sections).
  assert (nullable_field read_str "label" (put JStr "label" label ++ b) = Some label) as ->.
  { apply (nullable_app read_str JStr "label" label [] b); [done..|by apply put_elsewhere]. }
  assert (nullable_field (read_list (read_obj section_of_wire)) "sections" (put JStr "label" label ++ b ++ []) = Some sections) as Hs.
  { apply nullable_app; [|done|by apply put_elsewhere|done]. apply inverse_list, inverse_obj, inverse_section. }
  rewrite app_nil_r in Hs. cbn [mbind option_bind]. by rewrite Hs.
Qed.

Lemma inverse_apple : inverse apple_of_wire apple_to_wire.
Proof.
  intros [tok nonce mail]. unfold apple_of_wire, apple_to_wire, required. cbn [as_identityToken as_nonce as_email].
  jget_fields. cbn [mbind option_bind read_str].
  set (a := (js "identityToken", JStr tok)). set (b := put JStr "email" mail).
  assert (nullable_field read_str "nonce" (a :: put JStr "nonce" nonce ++ b) = Some nonce) as ->.
  { apply (nullable_app read_str JStr "nonce" nonce [a] b); [done..|by apply put_elsewhere]. }
  assert (nullable_field read_str "email" ((a :: put JStr "nonce" nonce) ++ b ++ []) = Some mail) as He.
  { apply nullable_app; [done..| |done]. unfold a. rewrite jget_there by (by vm_compute). by apply put_elsewhere. }
  rewrite app_nil_r, <-app_comm_cons in He. cbn [mbind option_bind]. by rewrite He.
Qed.

(** The limits that are allowed, one by one. *)
Lemma read_limits : forallb (λ n, bool_decide (read_number (JStr (js_of_Z n)) = Some n)) (seqZ 1 100) = true.
Proof. by vm_compute. Qed.

Lemma inverse_query d : valid_query d = true → query_of_wire (query_to_wire d) = Some d.
Proof.
  destruct d as [cursor limit]. unfold valid_query, query_of_wire, query_to_wire. cbn [pq_cursor pq_limit].
  rewrite andb_true_iff, !bool_decide_eq_true. intros [Hlo Hhi].
  assert (read_number (JStr (js_of_Z limit)) = Some limit) as Hl.
  { pose proof read_limits as H. rewrite forallb_forall in H. apply (proj1 (bool_decide_eq_true _)), H.
    apply list_elem_of_In, elem_of_seqZ. lia. }
  destruct cursor; cbn [app]; jget_fields; [cbn [fmap option_fmap option_map read_str]|cbn [jget]];
    cbn [mbind option_bind]; by rewrite Hl.
Qed.

(** The constraints and fields of each class. *)
Lemma put_fields {A} (w : A → json) k x (names : list jstr) :
  js k ∈ names → Forall (λ p, p.1 ∈ names) (put w k x).
Proof. destruct x; repeat constructor; done. Qed.

#[export, program] Instance create_body : Body CreateJobDto := {|
  allowed := valid_create;
  field_names := [js "label"];
  to_wire := λ d, [(js "label", JStr (cj_label d))];
  of_wire := λ fs, mkCreateJobDto <$> required read_str "label" fs;
|}.
Next Obligation. by intros [l]. Qed.
Next Obligation. intros [l]. repeat constructor. Qed.

#[export, program] Instance update_body : Body UpdateJobDto := {|
  allowed := valid_update;
  field_names := [js "label"; js "sections"];
  to_wire := update_to_wire;
  of_wire := update_of_wire;
|}.
Next Obligation. intros d _. apply inverse_update. Qed.
Next Obligation. intros d. apply Forall_app. split; apply put_fields; set_solver. Qed.

#[export, program] Instance apple_body : Body AppleSignInDto := {|
  allowed := valid_apple_sign_in;
  field_names := [js "identityToken"; js "nonce"; js "email"];
  to_wire := apple_to_wire;
  of_wire := apple_of_wire;
|}.
Next Obligation. intros d _. apply inverse_apple. Qed.
Next Obligation. intros d. constructor; [set_solver|]. apply Forall_app. split; apply put_fields; set_solver. Qed.

#[export, program] Instance refresh_body : Body RefreshDto := {|
  allowed := valid_refresh;
  field_names := [js "refreshToken"];
  to_wire := λ d, [(js "refreshToken", JStr (rd_refreshToken d))];
  of_wire := λ fs, mkRefreshDto <$> required read_str "refreshToken" fs;
|}.
Next Obligation. by intros [t]. Qed.
Next Obligation. intros [t]. repeat constructor. Qed.

#[export, program] Instance query_body : Body PaginationQueryDto := {|
  allowed := valid_query;
  field_names := [js "cursor"; js "limit"];
  to_wire := query_to_wire;
  of_wire := query_of_wire;
|}.
Next Obligation. apply inverse_query. Qed.
Next Obligation. intros [[c|] n]; repeat constructor; set_solver. Qed.
End Bodies.

(** ** The pipes *)

(** [new ValidationPipe(options)] and [ParseUUIDPipe]: an object that a valid DTO
    writes is accepted as that DTO, what is accepted is valid, and where unknown
    properties are forbidden an object with one is refused; a UUID is made of
    hexadecimal digits and dashes. *)
Class Pipes := {
  transform : ValidationPipeOptions → ∀ {D} `{Body D}, json → list jstr + D;
  transform_valid : ∀ o {D} `{Body D} j d, transform o j = inr d → allowed d = true;
  transform_wire : ∀ o {D} `{Body D} d, allowed d = true → transform o (JObj (to_wire d)) = inr d;
  transform_unknown : ∀ o {D} `{Body D} fs k,
    whitelist o = true → forbidNonWhitelisted o = true → is_Some (jget k fs) → k ∉ field_names →
    ∃ msgs, transform o (JObj fs) = inl msgs;
  is_uuid : jstr → bool;
  is_uuid_chars : ∀ s c, is_uuid s = true → c ∈ s → c ≠ 47%N;
  is_uuid_nonempty : is_uuid [] = false;
}.

(** A reference implementation: the DTO must read as it was written. *)
Section Reference.
Definition only_known `{Body D} (fs : claims) : bool := forallb (λ k, bool_decide (k ∈ field_names)) fs.*1.

Definition ref_transform (o : ValidationPipeOptions) {D} `{Body D} (j : json) : list jstr + D :=
  match j with
  | JObj fs =>
      match of_wire fs with
      | Some d => if allowed d && (negb (forbidNonWhitelisted o) || only_known fs) then inr d else inl [js "invalid"]
      | None => inl [js "invalid"]
      end
  | _ => inl [js "invalid"]
  end.

Definition uuid_char (c : N) : bool :=
  ((48 <=? c) && (c <=? 57) || (65 <=? c) && (c <=? 70) || (97 <=? c) && (c <=? 102))%N.
Definition uuid_format (s : jstr) : bool :=
  match split 45 s with
  | [a; b; c; d; e] =>
      bool_decide ((length a, length b, length c, length d, length e) = (8, 4, 4, 4, 12))
      && forallb uuid_char (a ++ b ++ c ++ d ++ e)
  | _ => false
  end.

Lemma split_chars c s x : x ∈ s → x = c ∨ x ∈ concat (split c s).
Proof.
  induction s as [|y s IH]; intros Hx; [by apply not_elem_of_nil in Hx|]. cbn [split].
  apply elem_of_cons in Hx as [->|Hx].
  - case_decide; [by left|right]. destruct (split c s); cbn [concat]; set_solver.
  - destruct (IH Hx) as [->|Hc]; [by left|right]. case_decide; [done|].
    destruct (split c s); cbn [concat] in *; set_solver.
Qed.

Lemma uuid_format_chars s x : uuid_format s = true → x ∈ s → x ≠ 47%N.
Proof.
  unfold uuid_format. intros Hs Hx ->. destruct (split_chars 45 s 47%N Hx) as [?|Hc]; [done|].
  destruct (split 45 s) as [|a [|b [|c [|d [|e [|]]]]]]; try done.
  apply andb_true_iff in Hs as [_ Hs]. rewrite forallb_forall in Hs. cbn [concat] in Hc. rewrite app_nil_r in Hc.
  by specialize (Hs 47%N (proj1 (list_elem_of_In _ _) Hc)).
Qed.

#[program] Definition reference_pipes : Pipes := {|
  transform := @ref_transform;
  is_uuid := uuid_format;
|}.
Next Obligation.
  unfold ref_transform. intros o D HB j d H. destruct j; try done. destruct (of_wire fields) as [d'|]; [|done].
  destruct (allowed d') eqn:Ha; [|done]. cbn [andb] in H. case_match; [by injection H as <-|done].
Qed.
Next Obligation.
  unfold ref_transform. intros o D HB d Ha. rewrite of_to_wire by done. rewrite Ha. cbn [andb].
  assert (only_known (to_wire d) = true) as ->; [|by rewrite orb_true_r].
  apply forallb_forall. intros k Hk%list_elem_of_In. apply bool_decide_eq_true.
  apply list_elem_of_fmap in Hk as (p & -> & Hp). pose proof (to_wire_fields d) as Hf. rewrite Forall_forall in Hf. by apply Hf.
Qed.
Next Obligation.
  unfold ref_transform. intros o D HB fs k _ Ho [v Hv] Hk. destruct (of_wire fs) as [d|]; [|by eexists]. rewrite Ho.
  assert (only_known fs = false) as ->; [|rewrite andb_false_r; by eexists].
  apply not_true_iff_false. intros Hf. unfold only_known in Hf. rewrite forallb_forall in Hf. apply Hk.
  specialize (Hf k). rewrite <-list_elem_of_In, bool_decide_eq_true in Hf. apply Hf. by eapply jget_Some_in.
Qed.
Next Obligation. apply uuid_format_chars. Qed.
Next Obligation. done. Qed.
End Reference.
