(* ===== verification/Http.v ===== *)
(** * The HTTP API

    The routes of the three controllers as their decorators declare them, the
    metadata the guards read, and one raw request from the router through the guards,
    the pipes and the handler to the response or the exception filter. *)
From S2P Require Import Prelude Json Program Schema Services Memory JsDate Report Zod Config Media Queue JobsRepository Dto Auth JobsService Tenancy Api Health Modules Bootstrap Wire.

(** ** Requests *)
Inductive Verb := Get | Head | Post | Patch | Delete | OtherVerb (name : jstr).
#[export] Instance Verb_eq_dec : EqDecision Verb.
Proof. solve_decision. Defined.

Definition verb_text (v : Verb) : jstr :=
  match v with
  | Get => js "GET" | Head => js "HEAD" | Post => js "POST" | Patch => js "PATCH" | Delete => js "DELETE"
  | OtherVerb name => name
  end.

(** A request as Express hands it over: the segments of its path, the parsed query
    and body. *)
Record HttpRequest := mkHttpRequest {
  rq_verb : Verb;
  rq_path : list jstr;
  rq_query : json;
  rq_authorization : option jstr;
  rq_idempotencyKey : option jstr;
  rq_body : json;
  rq_id : option jstr;
  rq_url : jstr;
}.

(** ** The controllers *)
Inductive JobsHandler := HList | HCreate | HFindOne | HUpdate | HProcess | HPdf | HRemove.
Inductive Handler := Jobs (h : JobsHandler) | SignInWithApple | Refresh | Liveness | Readiness.

Record Throttle := mkThrottle { limit : Z; ttl : Z }.

(** One decorated method: its verb and path, [@Public()], [@HttpCode()]. *)
Record Endpoint := mkEndpoint {
  verb : Verb;
  path : jstr;
  is_public_key : option bool;
  httpCode : option Z;
  handler : Handler;
}.

(** One decorated class: its prefix, [@Public()], [@Throttle()], and its methods. *)
Record Controller := mkController {
  prefix : jstr;
  class_public_key : option bool;
  class_throttle : option Throttle;
  endpoints : list Endpoint;
}.

Module Controllers.
Definition HealthController : Controller := mkController [] None None
  [mkEndpoint Get (js "health") (Some true) None Liveness;
   mkEndpoint Get (js "ready") (Some true) None Readiness].

Definition AuthController : Controller := mkController (js "auth") None (Some (mkThrottle 10 60000))
  [mkEndpoint Post (js "apple") (Some true) (Some 200%Z) SignInWithApple;
   mkEndpoint Post (js "refresh") (Some true) (Some 200%Z) Refresh].

Definition JobsController : Controller := mkController (js "jobs") None None
  [mkEndpoint Get [] None None (Jobs HList);
   mkEndpoint Post [] None None (Jobs HCreate);
   mkEndpoint Get (js ":id") None None (Jobs HFindOne);
   mkEndpoint Patch (js ":id") None None (Jobs HUpdate);
   mkEndpoint Post (js ":id/process") None (Some 200%Z) (Jobs HProcess);
   mkEndpoint Get (js ":id/pdf") None None (Jobs HPdf);
   mkEndpoint Delete (js ":id") None (Some 204%Z) (Jobs HRemove)].

(** In the order [AppModule] imports their modules. *)
Definition all : list Controller := [HealthController; AuthController; JobsController].
End Controllers.

(** ** Routing *)
Module Router.
Record Route := mkRoute { controller : Controller; endpoint : Endpoint }.

Definition routes : list Route := c ← Controllers.all; mkRoute c <$> endpoints c.

Definition segments (p : jstr) : list jstr := match p with [] => [] | _ => split 47 p end.
Definition pattern (r : Route) : list jstr := segments (prefix (controller r)) ++ segments (path (endpoint r)).

(** Every segment is the pattern's own, or stands for its parameter. *)
Fixpoint filled (pattern path : list jstr) : option (list jstr) :=
  match pattern, path with
  | [], [] => Some []
  | p :: pattern, s :: path =>
      if truthy s then
        if startsWith (js ":") p then cons s <$> filled pattern path
        else if decide (p = s) then filled pattern path else None
      else None
  | _, _ => None
  end.

(** Two patterns that may match the same path: literals match in any case. *)
Fixpoint overlap (p q : list jstr) : bool :=
  match p, q with
  | [], [] => true
  | a :: p, b :: q =>
      (startsWith (js ":") a || startsWith (js ":") b || bool_decide (toLowerCase a = toLowerCase b)) && overlap p q
  | _, _ => false
  end.

(** What the code relies on of Express: a request for the pattern itself matches, with
    the parameters it gives; and declarations that match the same request have the
    same verb and overlapping patterns ([HEAD] is served by [GET] routes). *)
Class Express := {
  match_route : Verb → list jstr → Verb → list jstr → option (list jstr);
  match_filled : ∀ v p path ps, filled p path = Some ps → match_route v p v path = Some ps;
  match_overlap : ∀ v p w q rv path ps qs, v ≠ Head → w ≠ Head →
    match_route v p rv path = Some ps → match_route w q rv path = Some qs → v = w ∧ overlap p q = true;
}.

Section Routing.
Context {Ex : Express}.

Definition matches (rq : HttpRequest) (r : Route) : option (list jstr) :=
  match_route (verb (endpoint r)) (pattern r) (rq_verb rq) (rq_path rq).

Fixpoint find (rq : HttpRequest) (rs : list Route) : option (Route * list jstr) :=
  match rs with
  | [] => None
  | r :: rs => match matches rq r with Some params => Some (r, params) | None => find rq rs end
  end.
Definition route (rq : HttpRequest) : option (Route * list jstr) := find rq routes.
End Routing.

(** [reflector.getAllAndOverride]: the method's metadata, or else the class's. *)
Definition getAllAndOverride {A} (method class : option A) : option A :=
  match method with Some a => Some a | None => class end.
Definition isPublic (r : Route) : bool :=
  default false (getAllAndOverride (is_public_key (endpoint r)) (class_public_key (controller r))).
Definition throttle (r : Route) : Throttle :=
  default (mkThrottle (hd 0%Z (AppModule.throttlers.*2)) (hd 0%Z (AppModule.throttlers.*1))) (class_throttle (controller r)).

(** [@HttpCode], or Nest's default. *)
Definition status (r : Route) : Z :=
  default (if decide (verb (endpoint r) = Post) then 201%Z else 200%Z) (httpCode (endpoint r)).
End Router.

(** ** Arguments of the handlers *)
Section Arguments.
Context {V : Validator} {P : Pipes}.

Definition refused (msgs : list jstr) : exn :=
  HttpException 400 (js "BadRequestException") (js "Bad Request Exception")
    (inr [(js "message", JArr (JStr <$> msgs)); (js "error", JStr (js "Bad Request")); (js "statusCode", JNum 400)]).

Definition piped {D} `{Body D} (j : json) : exn + D :=
  match transform Bootstrap.Api.pipe j with inl msgs => inl (refused msgs) | inr d => inr d end.

Definition parse_uuid (id : jstr) : exn + jstr :=
  if is_uuid id then inr id else inl (BadRequestException (js "Validation failed (uuid is expected)")).

Definition on_success {E A B} (f : A → B) (r : E + A) : E + B := match r with inl e => inl e | inr a => inr (f a) end.

(** Of an id and a body that are both refused, the id is reported. *)
Definition jobs_request (h : JobsHandler) (params : list jstr) (rq : HttpRequest) : exn + JobsController.Request :=
  let id := parse_uuid (hd [] params) in
  match h with
  | HList => on_success JobsController.GetJobs (piped (rq_query rq))
  | HCreate => on_success (λ dto, JobsController.PostJob dto (rq_idempotencyKey rq)) (piped (rq_body rq))
  | HFindOne => on_success JobsController.GetJob id
  | HUpdate => match id with
               | inl e => inl e
               | inr id => on_success (JobsController.PatchJob id) (piped (rq_body rq))
               end
  | HProcess => on_success JobsController.PostProcess id
  | HPdf => on_success JobsController.GetPdf id
  | HRemove => on_success JobsController.DeleteJob id
  end.
End Arguments.

(** ** One request *)
Inductive Payload :=
  | JobsAnswer (x : JobsController.Response)
  | Tokens (x : TokenResponseDto)
  | Alive (x : HealthController.Liveness)
  | Ready (report : json).

Inductive HttpResponse :=
  | Reply (status : Z) (body : Payload)
  | Problem (p : ProblemResponse).

Definition too_many : exn :=
  let text := js "ThrottlerException: Too Many Requests" in
  HttpException 429 (js "ThrottlerException") text (inl text).

(** What a request finds outside the services: the throttler's verdict for its address
    under a limit, the uptime, and how the probed backends answer. *)
Record Ambient := mkAmbient { throttled : Throttle → bool; uptime : Z; backends : Backends }.

Module Http.
Section Request.
Context `{Cr : Crypto} {V : Validator} {P : Pipes} {Ex : Router.Express} {Th : Throwables} {Te : Terminus}.
Context (cfg : AppConfig) (amb : Ambient).
Import Router.

Fixpoint pass (guards : list AppModule.Guard) (r : Route) (authorization : option jstr)
    (user : option AuthenticatedUser) : prog eff (option AuthenticatedUser) :=
  match guards with
  | [] => Ret user
  | AppModule.ThrottlerGuard :: guards =>
      if throttled amb (throttle r) then Throw too_many else pass guards r authorization user
  | AppModule.JwtAuthGuard :: guards =>
      user <- JwtAuthGuard.canActivate cfg (isPublic r) authorization;; pass guards r authorization user
  end.

Definition invoke (h : Handler) (params : list jstr) (user : option AuthenticatedUser) (rq : HttpRequest)
    : prog eff Payload :=
  match h with
  | Jobs h =>
      user <- settle (JwtAuthGuard.CurrentUser user);;
      req <- settle (jobs_request h params rq);;
      x <- JobsController.serve cfg (auth_userId user) req;;
      Ret (JobsAnswer x)
  | SignInWithApple =>
      dto <- settle (piped (rq_body rq));;
      x <- AuthController.signInWithApple (AV := AppleVerifiers.apple_verifier cfg) cfg dto;;
      Ret (Tokens x)
  | Refresh =>
      dto <- settle (piped (rq_body rq));;
      x <- AuthController.refresh cfg dto;;
      Ret (Tokens x)
  | Liveness => Ret (Alive (HealthController.liveness (uptime amb)))
  | Readiness =>
      report <- settle (HealthController.readiness cfg
                  (λ probes, check ((λ p, (exec (probe_handle (backends amb)) p None).1) <$> probes)));;
      Ret (Ready report)
  end.

Definition serve (rq : HttpRequest) : prog eff HttpResponse :=
  match route rq with
  | None => Throw (NotFoundException (js "Cannot " ++ verb_text (rq_verb rq) ++ js " " ++ rq_url rq))
  | Some (r, params) =>
      user <- pass AppModule.guards r (rq_authorization rq) None;;
      body <- invoke (handler (endpoint r)) params user rq;;
      Ret (Reply (status r) body)
  end.

Definition respond (rq : HttpRequest) : prog eff HttpResponse :=
  TRY (serve rq)
  CATCH e => (p <- AllExceptionsFilter.catch e (rq_id rq) (rq_url rq);; Ret (Problem p)).

(** The middleware in front of the router names the request: by its [x-request-id]
    header, or afresh; the answer carries the name. *)
Definition identified (id : jstr) (rq : HttpRequest) : HttpRequest :=
  mkHttpRequest (rq_verb rq) (rq_path rq) (rq_query rq) (rq_authorization rq) (rq_idempotencyKey rq) (rq_body rq)
    (Some id) (rq_url rq).

Definition answer (existing : HeaderValue) (rq : HttpRequest) : prog eff (HttpResponse * (jstr * jstr)) :=
  uuid <- match existing with OneHeader _ | ManyHeaders (_ :: _) => Ret [] | _ => await RandomUUID end;;
  let (id, header) := LoggerModule.genReqId existing uuid in
  x <- respond (identified id rq);;
  Ret (x, header).
End Request.
End Http.

(** ** A reference router *)
Module ReferenceRouter.
Import Router.

(** Literals match in any case, a parameter matches any segment. *)
Fixpoint match_path (pattern path : list jstr) : option (list jstr) :=
  match pattern, path with
  | [], [] => Some []
  | p :: pattern, s :: path =>
      if startsWith (js ":") p then (if truthy s then cons s <$> match_path pattern path else None)
      else if decide (toLowerCase p = toLowerCase s) then match_path pattern path else None
  | _, _ => None
  end.

(** A trailing slash is ignored. *)
Definition trimmed (path : list jstr) : list jstr :=
  match last path with Some [] => removelast path | _ => path end.

Definition match_verb (declared requested : Verb) : bool :=
  bool_decide (declared = requested) || bool_decide (declared = Get ∧ requested = Head).
Definition ref_match (v : Verb) (p : list jstr) (rv : Verb) (path : list jstr) : option (list jstr) :=
  if match_verb v rv then match_path p (trimmed path) else None.

Lemma filled_path p path ps : filled p path = Some ps → match_path p path = Some ps ∧ [] ∉ path.
Proof.
  revert path ps. induction p as [|a p IH]; intros [|s path] ps; cbn [filled match_path]; try done.
  - intros [= <-]. split; [done|apply not_elem_of_nil].
  - destruct (truthy s) eqn:Ht; [|done]. rewrite not_elem_of_cons. destruct (startsWith _ a).
    + destruct (filled p path) as [qs|] eqn:Hf; [|done]. intros [= <-]. destruct (IH _ _ Hf) as [-> ?].
      split; [done|]. split; [|done]. by intros <-.
    + destruct (decide (a = s)) as [->|]; [|done]. intros Hf. destruct (IH _ _ Hf) as [-> ?].
      rewrite decide_True by done. split; [done|]. split; [|done]. by intros <-.
Qed.

Lemma path_overlap p q path ps qs :
  match_path p path = Some ps → match_path q path = Some qs → overlap p q = true.
Proof.
  revert q path ps qs. induction p as [|a p IH]; intros [|b q] [|s path] ps qs; cbn [match_path overlap]; try done.
  intros Hp Hq.
  assert (∃ ps', match_path p path = Some ps') as [ps' Hp'].
  { destruct (startsWith _ a); [destruct (truthy s); [|done]; destruct (match_path p path); [eauto|done]|].
    destruct (decide (toLowerCase a = _)); [eauto|done]. }
  assert (∃ qs', match_path q path = Some qs') as [qs' Hq'].
  { destruct (startsWith _ b); [destruct (truthy s); [|done]; destruct (match_path q path); [eauto|done]|].
    destruct (decide (toLowerCase b = _)); [eauto|done]. }
  rewrite (IH _ _ _ _ Hp' Hq'), andb_true_r.
  destruct (startsWith _ a); [done|]. destruct (startsWith _ b); [done|].
  repeat case_decide; try done. apply bool_decide_eq_true. congruence.
Qed.

#[program] Definition reference_express : Express := {| match_route := ref_match |}.
Next Obligation.
  intros v p path ps [Hp Hne]%filled_path. unfold ref_match, match_verb, trimmed.
  rewrite bool_decide_true by done. cbn [orb]. destruct (last path) as [[|c s]|] eqn:Hl; [|done..].
  apply last_Some in Hl as [l ->]. exfalso. apply Hne, elem_of_app. right. by left.
Qed.
Next Obligation.
  unfold ref_match, match_verb. intros v p w q rv path ps qs Hv Hw Hp Hq.
  destruct (bool_decide (v = rv) || _) eqn:E1; [|done]. destruct (bool_decide (w = rv) || _) eqn:E2; [|done].
  rewrite orb_true_iff, !bool_decide_eq_true in E1, E2. split; [|by eapply path_overlap].
  destruct E1 as [E1|[E1 E1']], E2 as [E2|[E2 E2']]; congruence.
Qed.
End ReferenceRouter.
