(* ===== verification/HttpProperties.v ===== *)
(** * The HTTP API: what it lets through and what it answers *)
From S2P Require Import Prelude Json Program Schema Services Memory JsDate Report Zod Config Media Queue JobsRepository Dto Auth JobsService Tenancy Api Health Modules Bootstrap Wire Http.
Import Router.

(** ** Routing *)
Section Routing.
Context {Ex : Express}.

Lemma find_Some rq rs r ps : find rq rs = Some (r, ps) → r ∈ rs ∧ matches rq r = Some ps.
Proof.
  induction rs as [|r' rs IH]; cbn [find]; [done|]. destruct (matches rq r') as [ps'|] eqn:Hm.
  - intros [= -> ->]. split; [by left|done].
  - intros [Hr Hps]%IH. split; [by right|done].
Qed.

Lemma find_None rq rs r : find rq rs = None → r ∈ rs → matches rq r = None.
Proof.
  induction rs as [|r' rs IH]; cbn [find]; [by intros _ ?%not_elem_of_nil|].
  destruct (matches rq r') eqn:Hm; [done|]. intros Hf [->|Hr]%elem_of_cons; auto.
Qed.

(** Two routes some request may match. *)
Definition clash (r1 r2 : Route) : bool :=
  bool_decide (verb (endpoint r1) = verb (endpoint r2)) && overlap (pattern r1) (pattern r2).

Lemma routes_apart :
  forallb (λ p : nat * Route, forallb (λ q : nat * Route, bool_decide (p.1 = q.1) || negb (clash p.2 q.2))
             (imap pair routes)) (imap pair routes) = true
  ∧ forallb (λ r, negb (bool_decide (verb (endpoint r) = Head))) routes = true.
Proof. by vm_compute. Qed.

Lemma routes_disjoint rq r1 r2 :
  r1 ∈ routes → r2 ∈ routes → is_Some (matches rq r1) → is_Some (matches rq r2) → r1 = r2.
Proof.
  intros H1 H2 [ps1 M1] [ps2 M2]. destruct routes_apart as [Ha Hh].
  rewrite forallb_forall in Hh.
  pose proof (Hh r1 (proj1 (list_elem_of_In _ _) H1)) as V1. pose proof (Hh r2 (proj1 (list_elem_of_In _ _) H2)) as V2.
  apply list_elem_of_lookup in H1 as [i Hi]. apply list_elem_of_lookup in H2 as [k Hk].
  rewrite forallb_forall in Ha.
  assert (∀ n r, routes !! n = Some r → In (n, r) (imap pair routes)) as Hin.
  { intros n r Hn. apply list_elem_of_In, list_elem_of_lookup. exists n. by rewrite list_lookup_imap, Hn. }
  pose proof (Ha _ (Hin _ _ Hi)) as Hb. cbn beta in Hb. rewrite forallb_forall in Hb.
  specialize (Hb _ (Hin _ _ Hk)). cbn [fst snd] in Hb.
  apply orb_true_iff in Hb as [->%bool_decide_eq_true|Hc]; [congruence|].
  exfalso. unfold matches in M1, M2. apply negb_true_iff, bool_decide_eq_false in V1, V2.
  destruct (match_overlap _ _ _ _ _ _ _ _ V1 V2 M1 M2) as [Hv Ho].
  unfold clash in Hc. by rewrite Hv, Ho, bool_decide_true in Hc.
Qed.

(** A request for a route's own pattern gets there. *)
Lemma route_filled n rq r ps :
  routes !! n = Some r → rq_verb rq = verb (endpoint r) → filled (pattern r) (rq_path rq) = Some ps →
  route rq = Some (r, ps).
Proof.
  intros Hn Hv Hf. assert (matches rq r = Some ps) as Hm by (unfold matches; rewrite Hv; by apply match_filled).
  apply list_elem_of_lookup_2 in Hn. unfold route. destruct (find rq routes) as [[r' ps']|] eqn:Hr.
  - apply find_Some in Hr as [Hr' Hm']. assert (r' = r) as -> by (eapply routes_disjoint; by eauto). congruence.
  - pose proof (find_None _ _ _ Hr Hn). congruence.
Qed.
End Routing.

(** Routing is unambiguous.  At most one of the declared routes matches a request,
    so which handler runs does not depend on the order in which modules, controllers
    and methods are registered. *)
Theorem routing_ignores_order {Ex : Express} rq rs : rs ≡ₚ routes → find rq rs = route rq.
Proof.
  intros Hp. unfold route. destruct (find rq rs) as [[r ps]|] eqn:H1, (find rq routes) as [[r' ps']|] eqn:H2; try done.
  - apply find_Some in H1 as [R1 M1]. apply find_Some in H2 as [R2 M2]. rewrite Hp in R1.
    assert (r = r') as -> by (eapply routes_disjoint; by eauto). congruence.
  - apply find_Some in H1 as [R1 M1]. rewrite Hp in R1. pose proof (find_None _ _ _ H2 R1). congruence.
  - apply find_Some in H2 as [R2 M2]. rewrite <-Hp in R2. pose proof (find_None _ _ _ H1 R2). congruence.
Qed.

(** The routes without a token, and the limits. *)
Definition is_jobs (h : Handler) : bool := match h with Jobs _ => true | _ => false end.

Lemma routes_policy r :
  r ∈ routes → isPublic r = negb (is_jobs (handler (endpoint r)))
    ∧ throttle r = match handler (endpoint r) with
                   | SignInWithApple | Refresh => mkThrottle 10 60000
                   | _ => mkThrottle 100 60000
                   end
    ∧ status r = match handler (endpoint r) with
                 | Jobs HCreate => 201%Z
                 | Jobs HRemove => 204%Z
                 | _ => 200%Z
                 end.
Proof.
  revert r. apply Forall_forall. unfold routes. cbn. repeat (constructor; [by vm_compute|]). constructor.
Qed.

(** ** Access *)
Section Access.
Context `{Cr : Crypto} {V : Validator} {P : Pipes} {Ex : Express} {Th : Throwables} {Te : Terminus}.
Context (cfg : AppConfig) (amb : Ambient) (f : bool).

(** The bearer of a header, at a time. *)
Definition bears (authorization : option jstr) (now : Z) (u : jstr) : Prop :=
  ∃ tok c a, JwtAuthGuard.extractToken authorization = Some tok
    ∧ jwt_payload (accessSecret (cfg_jwt cfg)) tok = Some c
    ∧ jwt_accepts c (appBaseUrl cfg) TokenService.JWT_AUDIENCE now
    ∧ jget (js "type") c = Some (JStr (js "access")) ∧ jget (js "sub") c = Some (JStr u)
    ∧ a = mkAuthenticatedUser u (default [] (string_claim (jget (js "appleSub") c)))
    ∧ JwtAuthGuard.user_of c = Some a.

Definition turned_away (e : exn) : Prop :=
  e ∈ [too_many; UnauthorizedException (js "Missing bearer token.");
       UnauthorizedException (js "Invalid or expired access token.")].

Lemma pass_spec r authorization s :
  wp (eff_contract f) (Http.pass cfg amb AppModule.guards r authorization None) s (λ res s', s' = s ∧
    match res with
    | inl e => turned_away e
    | inr user => throttled amb (throttle r) = false ∧
        if isPublic r then user = None
        else ∃ u a, user = Some a ∧ auth_userId a = u ∧ bears authorization (clock s) u
    end).
Proof.
  unfold AppModule.guards. cbn [Http.pass]. destruct (throttled amb (throttle r)); [split; [done|set_solver]|].
  destruct (isPublic r).
  - by cbn.
  - wp_apply canActivate_spec. intros [e|o] s1 [-> Ho]; wp_simpl.
    + split; [done|]. unfold turned_away. destruct Ho as [[_ ->]|[-> _]]; set_solver.
    + split; [done|]. split; [done|]. destruct Ho as (tok & c & a & He & Hp & Ha & Hu & ->).
      exists (auth_userId a), a. split; [done|]. split; [done|]. exists tok, c, a. pose proof Hu as Hu'.
      unfold JwtAuthGuard.user_of in Hu'. case_bool_decide; [|done]. cbn [negb] in Hu'.
      destruct (jget (js "sub") c) as [[| | |sub| |]|] eqn:Hsub; try done. injection Hu' as <-. by split_and!.
Qed.
End Access.

(** C9: No token, no jobs.  A request - any verb, path, query, headers and body, under
    any verdict of the throttler - that no route matches is answered 404 and changes
    nothing.  Otherwise its route is one of the four public ones, or a jobs route;
    and then it is turned away by a guard, or refused by a pipe, without a trace, or
    it carries a bearer token signed with the access secret for this issuer and
    audience, of type access and not expired, and what happens is exactly the
    handler's run, on the arguments the pipes accepted, for the user the token
    names. *)
Theorem jobs_routes_require_token `{Hs : Services} {V : Validator} {P : Pipes} {Ex : Express} {Th : Throwables} {Te : Terminus}
    cfg amb rq w :
  ensures (Http.serve cfg amb rq) w (λ res s',
    match route rq with
    | None => res = inl (NotFoundException (js "Cannot " ++ verb_text (rq_verb rq) ++ js " " ++ rq_url rq)) ∧ s' = view w
    | Some (r, params) =>
        match handler (endpoint r) with
        | Jobs h =>
            (∃ e, res = inl e ∧ (turned_away e ∨ jobs_request h params rq = inl e)) ∧ s' = view w
            ∨ ∃ u req res', bears cfg (rq_authorization rq) (clock (view w)) u
                ∧ jobs_request h params rq = inr req
                ∧ runs (eff_contract faults) (JobsController.serve cfg u req) (view w) res' s'
                ∧ res = on_success (λ x, Reply (status r) (JobsAnswer x)) res'
        | SignInWithApple | Refresh | Liveness | Readiness => isPublic r = true
        end
    end).
Proof.
  apply ensures_wp. unfold Http.serve. destruct (route rq) as [[r params]|] eqn:Hr; [|done].
  apply find_Some in Hr as [Hr _]. destruct (routes_policy r Hr) as [Hpub _].
  destruct (handler (endpoint r)) as [h| | | |];
    [|by apply wp_runs; intros; rewrite Hpub..].
  wp_apply (pass_spec cfg). rewrite Hpub. cbn [is_jobs negb]. intros [e|user] s1 [-> H].
  { left. split; [|done]. exists e. auto. }
  destruct H as (_ & u & a & -> & <- & Hb). cbn [Http.invoke JwtAuthGuard.CurrentUser settle bind].
  destruct (jobs_request h params rq) as [e|req] eqn:Hq; cbn [settle]; wp_simpl.
  { left. split; [|done]. exists e. auto. }
  wp_focus. apply wp_runs. intros res' s' Hrun.
  assert (∀ res, res = on_success (λ x, Reply (status r) (JobsAnswer x)) res' →
    (∃ e, res = inl e ∧ (turned_away e ∨ inr req = inl e)) ∧ s' = view w
    ∨ ∃ u req0 res0, bears cfg (rq_authorization rq) (clock (view w)) u ∧ inr req = @inr exn _ req0
        ∧ runs (eff_contract faults) (JobsController.serve cfg u req0) (view w) res0 s'
        ∧ res = on_success (λ x, Reply (status r) (JobsAnswer x)) res0) as Hdone.
  { intros res Hres. right. by exists (auth_userId a), req, res'. }
  destruct res'; by apply Hdone.
Qed.

(** ** Answers *)

(** What a client can be told besides the answers of its own handler: fixed texts. *)
Definition fixed_texts : list (Z * json) :=
  problem_texts ++ ((λ p, (p.1, JStr (js p.2))) <$>
    [(401, "Apple identity token failed verification."); (401, "Apple identity token missing subject.");
     (401, "Apple sign-in is missing the required nonce."); (401, "Apple identity token nonce mismatch.");
     (401, "Invalid refresh token."); (401, "Refresh token already used."); (401, "Refresh token expired.");
     (401, "User no longer exists."); (429, "ThrottlerException: Too Many Requests");
     (400, "Validation failed (uuid is expected)")])%Z.

Definition told (e : exn) : Prop :=
  ((AllExceptionsFilter.normalize e).1.1, (AllExceptionsFilter.normalize e).2) ∈ fixed_texts.

Lemma told_api e : api_error e → told e.
Proof. intros He. apply elem_of_app. left. by apply public_of_error. Qed.
Lemma told_infra e : infra e → told e.
Proof. intros He. by apply told_api, api_infra. Qed.
Ltac told_now := apply (bool_decide_unpack _); vm_compute; exact I.

Section Answers.
Context `{Cr : Crypto} {V : Validator} {P : Pipes} {Ex : Express} {Th : Throwables} {Te : Terminus}.
Context (cfg : AppConfig) (amb : Ambient) (f : bool).

(** Every exception of a program is one a client may be told. *)
Definition safe {A} (p : prog eff A) : Prop :=
  ∀ s, wp (eff_contract f) p s (λ r _, match r with inl e => told e | inr _ => True end).

Lemma safe_seq {A B} (p : prog eff A) (q : A → prog eff B) : safe p → (∀ a, safe (q a)) → safe (bind p q).
Proof. intros Hp Hq s. apply wp_bind. eapply wp_mono; [apply Hp|]. intros [e|a] s' H; [done|apply Hq]. Qed.

Lemma safe_await {X} (c : call X) :
  (∀ s e s', eff_contract f X (Do c) s (inl e) s' → told e) → safe (await c).
Proof. intros H s. apply wp_await. intros [e|x] s' HC; [by eapply H|done]. Qed.

Lemma safe_issue uid sub : safe (AuthService.issueTokenPair cfg uid sub).
Proof.
  apply safe_seq; [intros s; eapply wp_mono; [apply generateRefreshToken_spec|];
    intros r s' (tok & t & _ & _ & _ & ->); done|intros x].
  apply safe_seq; [apply safe_await|intros y].
  - intros s e s' [[(_ & _ & [=] & _)|[(_ & _ & e' & [= <-] & He)|(_ & _ & e' & [= <-] & He)]]|[_ [_ (e' & [= <-] & He)]]];
      [by apply told_api, api_duplicate|by apply told_api, api_unrelated|by apply told_infra].
  - apply safe_seq; [|done]. intros s. eapply wp_mono; [apply issueAccessToken_spec|].
    intros [e|tok] s' (t & _ & _ & Hr); [apply told_infra, Hr|done].
Qed.

Lemma safe_verify idt nonce : safe (verify (AppleTokenVerifier := AppleVerifiers.apple_verifier cfg) idt nonce).
Proof.
  unfold verify, AppleVerifiers.apple_verifier. destruct (devBypass (cfg_apple cfg)).
  - intros s. unfold AppleVerifiers.dev_verify. wp_call. intros r s1 _. by destruct r.
  - intros s. unfold AppleVerifiers.real_verify. wp_call. intros [e|c] s1 _; wp_simpl; [told_now|].
    destruct (json_truthy _); cbn [negb]; wp_simpl; [|told_now].
    destruct nonce as [[|x n]|]; wp_simpl; [told_now| |told_now].
    destruct (AppleVerifiers.nonce_matches _ c); cbn [negb]; wp_simpl; [done|told_now].
Qed.

Lemma safe_sign_in dto :
  safe (AuthController.signInWithApple (AV := AppleVerifiers.apple_verifier cfg) cfg dto).
Proof.
  apply safe_seq; [apply safe_verify|intros i]. apply safe_seq; [|intros u; apply safe_issue].
  intros s. eapply wp_mono; [apply upsert_spec|]. intros [e|p] s'; [intros [_ He]; by apply told_infra|done].
Qed.

Lemma safe_refresh dto : safe (AuthController.refresh cfg dto).
Proof.
  intros s. eapply wp_mono; [apply refresh_spec|]. intros [e|resp] s'; [|done].
  destruct (refreshTokens s !! _) as [x|].
  - intros [(_ & He & _)|[(_ & -> & _)|(_ & _ & [[-> _]|[-> _]])]]; [by apply told_infra|told_now..].
  - intros [(_ & He & _)|[-> _]]; [by apply told_infra|told_now].
Qed.

Lemma safe_jobs u req : safe (JobsController.serve cfg u req).
Proof. intros s. eapply wp_mono; [apply serve_errors|]. intros [e|x] s'; [apply told_api|done]. Qed.

(** What the readiness report is, or how it fails. *)
Definition readiness : exn + json :=
  HealthController.readiness cfg
    (λ probes, check ((λ p, (exec (probe_handle (backends amb)) p None).1) <$> probes)).

(** An exception of a route: a fixed text, the pipe's list of what is wrong with the
    request, or a readiness failure. *)
Definition route_error (h : Handler) (e : exn) : Prop :=
  told e ∨ (∃ msgs, e = refused msgs) ∨ (h = Readiness ∧ readiness = inl e).

Lemma piped_error {D} `{Body D} j e : piped (D := D) j = inl e → ∃ msgs, e = refused msgs.
Proof. unfold piped. destruct (transform _ j) as [msgs|d]; [|done]. intros [= <-]. by exists msgs. Qed.

Lemma uuid_error id e : parse_uuid id = inl e → told e.
Proof. unfold parse_uuid. destruct (is_uuid id); [done|]. intros [= <-]. told_now. Qed.

Lemma request_error h params rq e :
  jobs_request h params rq = inl e → told e ∨ ∃ msgs, e = refused msgs.
Proof.
  unfold jobs_request.
  assert (∀ {D} `{Body D} {B} (g : D → B) j, on_success g (piped j) = inl e → ∃ msgs, e = refused msgs) as Hp.
  { intros D HB B g j. destruct (piped j) eqn:Hj; [|done]. intros [= <-]. by eapply piped_error. }
  assert (∀ (g : jstr → JobsController.Request) id, on_success g (parse_uuid id) = inl e → told e) as Hu.
  { intros g id. destruct (parse_uuid id) eqn:Hj; [|done]. intros [= <-]. by eapply uuid_error. }
  destruct h; try (intros He; first [left; exact (Hu _ _ He)|right; exact (Hp _ _ _ _ _ He)]).
  destruct (parse_uuid (hd [] params)) as [e'|id] eqn:Hj; intros He; [|right; exact (Hp _ _ _ _ _ He)].
  injection He as <-. left. by eapply uuid_error.
Qed.

Lemma serve_errors_http rq s :
  wp (eff_contract f) (Http.serve cfg amb rq) s (λ res _,
    match route rq, res with
    | None, res => res = inl (NotFoundException (js "Cannot " ++ verb_text (rq_verb rq) ++ js " " ++ rq_url rq))
    | Some (r, _), inl e => route_error (handler (endpoint r)) e
    | Some (r, _), inr x => ∃ body, x = Reply (status r) body
    end).
Proof.
  unfold Http.serve. destruct (route rq) as [[r params]|] eqn:Hr; [|done].
  apply find_Some in Hr as [Hr _]. destruct (routes_policy r Hr) as [Hpub _].
  remember (handler (endpoint r)) as hd eqn:Hhd.
  wp_apply (pass_spec cfg). intros [e|user] s1 [_ H].
  { left. unfold turned_away in H. rewrite !elem_of_cons in H. destruct H as [->|[->|[->|[]%not_elem_of_nil]]]; told_now. }
  assert (∀ {A} (p : prog eff A) (g : A → Payload) s,
    wp (eff_contract f) p s (λ res _, match res with inl e => route_error hd e | inr _ => True end) →
    wp (eff_contract f) (body <- (a <- p;; Ret (g a));; Ret (Reply (status r) body)) s (λ res _,
      match res with inl e => route_error hd e | inr x => ∃ body, x = Reply (status r) body end)) as Hgo.
  { intros A p g s0 Hp. wp_focus. eapply wp_mono; [exact Hp|]. intros [e|a] s2 He; [done|]. by eexists. }
  assert (∀ {A} (p : prog eff A) s, safe p →
    wp (eff_contract f) p s (λ res _, match res with inl e => route_error hd e | inr _ => True end)) as Hsafe.
  { intros A p s0 Hp. eapply wp_mono; [apply Hp|]. intros [e|a] s2 He; [by left|done]. }
  destruct hd as [h| | | |]; cbn [Http.invoke].
  - destruct H as [_ H]. rewrite Hpub in H. cbn [is_jobs negb] in H. destruct H as (u & a & -> & _ & _).
    cbn [JwtAuthGuard.CurrentUser settle bind].
    destruct (jobs_request h params rq) as [e|req] eqn:Hq; cbn [settle bind].
    { apply request_error in Hq as [Hq|Hq]; [by left|by right; left]. }
    apply Hgo, Hsafe, safe_jobs.
  - destruct (piped (rq_body rq)) as [e|dto] eqn:Hq; cbn [settle bind].
    { right; left. exact (piped_error _ _ Hq). }
    apply Hgo, Hsafe, safe_sign_in.
  - destruct (piped (rq_body rq)) as [e|dto] eqn:Hq; cbn [settle bind].
    { right; left. exact (piped_error _ _ Hq). }
    apply Hgo, Hsafe, safe_refresh.
  - by eexists.
  - fold readiness. destruct readiness as [e|report] eqn:Hq; cbn [settle bind]; [by right; right|by eexists].
Qed.
End Answers.

(** What a problem document says. *)
Definition says (p : ProblemResponse) (e : exn) : Prop :=
  (statusCode p, problem_error p, problem_message p) = AllExceptionsFilter.normalize e.

Section Accounts.
Context `{Cr : Crypto} {V : Validator} {P : Pipes} {Ex : Express} {Th : Throwables} {Te : Terminus}.
Context (cfg : AppConfig) (amb : Ambient).

(** The answer is the handler's with the status of its route, or a problem document
    for this request. *)
Definition accounted (rq : HttpRequest) (reply : HttpResponse) : Prop :=
  match reply with
  | Reply st _ => ∃ r params, route rq = Some (r, params) ∧ st = status r
  | Problem p => requestId p = rq_id rq ∧ problem_path p = rq_url rq ∧
      match route rq with
      | None => statusCode p = 404%Z
          ∧ problem_message p = JStr (js "Cannot " ++ verb_text (rq_verb rq) ++ js " " ++ rq_url rq)
      | Some (r, _) =>
          (statusCode p, problem_message p) ∈ fixed_texts
          ∨ (∃ msgs, statusCode p = 400%Z ∧ problem_message p = JArr (JStr <$> msgs))
          ∨ handler (endpoint r) = Readiness ∧ ∃ e, readiness cfg amb = inl e ∧ says p e
      end
  end.

Lemma respond_accounted f rq s :
  wp (eff_contract f) (Http.respond cfg amb rq) s (λ res _, ∃ reply, res = inr reply ∧ accounted rq reply).
Proof.
  unfold Http.respond, accounted. apply wp_try_catch. eapply wp_mono; [apply serve_errors_http|].
  intros [e|x] s1 He.
  - unfold AllExceptionsFilter.catch. destruct (AllExceptionsFilter.normalize e) as [[st er] m] eqn:Hn.
    wp_call. intros res s2 [(t & _ & -> & _)|[_ []]]. wp_simpl. eexists. split; [done|]. cbn [requestId problem_path].
    split; [done|]. split; [done|]. cbn [statusCode problem_message].
    destruct (route rq) as [[r params]|]; [|injection He as ->; cbn in Hn; injection Hn as <- <- <-; done].
    destruct He as [Ht|[[msgs ->]|[Hh Hq]]].
    + left. unfold told in Ht. by rewrite Hn in Ht.
    + right; left. exists msgs. cbn in Hn. by injection Hn as <- <- <-.
    + right; right. split; [done|]. exists e. by split.
  - wp_simpl. eexists. split; [done|]. destruct (route rq) as [[r params]|]; [|done].
    destruct He as [body ->]. by exists r, params.
Qed.
End Accounts.

(** The name a client gives its request. *)
Definition given_id (existing : HeaderValue) : option jstr :=
  match existing with OneHeader s | ManyHeaders (s :: _) => Some s | _ => None end.


(** C37: Readiness.  [GET /ready] needs no token, reads and changes no table, and answers
    200 exactly when Postgres answers the query and Redis the ping; otherwise the
    answer is 503, and its [error] field is an object that names each backend that
    is down, with the text of the error its driver threw: text of an internal error
    does reach the client here. *)
Theorem readiness_reports_backends `{Hs : Services} {V : Validator} {P : Pipes} {Ex : Express} {Th : Throwables} {Te : Terminus}
    cfg amb query headers body rid url w :
  on_new (backends amb) = inr tt → throttled amb (mkThrottle 100 60000) = false →
  let postgres := match on_query (backends amb) with
                  | inr _ => Up
                  | inl e => Down (if is_Error e then exn_message e else js "postgres unreachable")
                  end in
  let redis := redis_status (backends amb) in
  let results := [mkHealth (js "postgres") postgres; mkHealth (js "redis") redis] in
  ensures (Http.respond cfg amb (mkHttpRequest Get [js "ready"] query headers None body rid url)) w (λ res s',
    (∃ t, s' = with_clock t (view w)) ∧
    match res with
    | inr (Reply st (Ready report)) => st = 200%Z ∧ postgres = Up ∧ redis = Up
    | inr (Problem p) => statusCode p = 503%Z ∧ ¬ (postgres = Up ∧ redis = Up)
        ∧ problem_error p = JObj (health_entry <$> List.filter (λ r, negb (is_up r)) results)
    | _ => False
    end).
Proof.
  intros Hnew Hthr postgres redis results. apply ensures_wp. unfold Http.respond, Http.serve.
  assert (∃ r, route (mkHttpRequest Get [js "ready"] query headers None body rid url) = Some (r, [])
    ∧ handler (endpoint r) = Readiness ∧ r ∈ routes) as (r & Hroute & Hh & Hr).
  { assert (∃ r, routes !! 1 = Some r ∧ verb (endpoint r) = Get ∧ filled (pattern r) [js "ready"] = Some []
      ∧ handler (endpoint r) = Readiness) as (r & Hn & Hv & Hf & Hh) by (eexists; split; [reflexivity|by vm_compute]).
    exists r. split; [by eapply route_filled|]. split; [done|]. by eapply list_elem_of_lookup_2. }
  rewrite Hroute, Hh. destruct (routes_policy r Hr) as (Hpub & Hlim & Hst). rewrite Hh in *.
  unfold AppModule.guards. cbn [Http.pass rq_authorization]. rewrite Hlim, Hthr, Hpub. cbn [is_jobs negb JwtAuthGuard.canActivate bind Http.invoke].
  assert (∀ s1 : Store, ∃ t, s1 = with_clock t s1) as Hsame by (intros s1; exists (clock s1); by destruct s1).
  unfold HealthController.readiness. cbn [fmap list_fmap].
  rewrite prisma_probe, redis_probe, Hnew. cbn [fst].
  lazymatch goal with |- context [check ?l] => change l with (@inr exn _ <$> results) end.
  destruct (forallb is_up results) eqn:Hup.
  - rewrite (check_up results Hup). cbn [settle bind wp try_catch]. rewrite Hst. split; [apply Hsame|]. split; [done|].
    unfold results in Hup. cbn in Hup. by destruct postgres, redis.
  - rewrite (check_down results Hup). cbn [settle bind wp try_catch]. unfold AllExceptionsFilter.catch.
    destruct (AllExceptionsFilter.normalize _) as [[st er] m] eqn:Hn.
    wp_call. intros res s2 [(t & _ & -> & ->)|[_ []]]. wp_simpl. split; [by exists t|].
    cbn [statusCode problem_error]. unfold AllExceptionsFilter.normalize in Hn. cbn [AllExceptionsFilter.http_exception] in Hn.
    injection Hn as <- <- _. split; [done|]. split; [|reflexivity].
    intros [Hp Hq]. unfold results in Hup. cbn in Hup. by rewrite Hp, Hq in Hup.
Qed.

(** ** Requests on the wire *)

(** The request that asks for [req]: its verb, path, query and body. *)
Definition request_of {V : Validator} (authorization rid : option jstr) (url : jstr) (req : JobsController.Request)
    : HttpRequest :=
  let at_job id rest := js "jobs" :: id :: rest in
  let send v p q k b := mkHttpRequest v p q authorization k b rid url in
  match req with
  | JobsController.GetJobs q => send Get [js "jobs"] (JObj (to_wire q)) None JNull
  | JobsController.PostJob dto key => send Post [js "jobs"] JNull key (JObj (to_wire dto))
  | JobsController.GetJob id => send Get (at_job id []) JNull None JNull
  | JobsController.PatchJob id dto => send Patch (at_job id []) JNull None (JObj (to_wire dto))
  | JobsController.PostProcess id => send Post (at_job id [js "process"]) JNull None JNull
  | JobsController.GetPdf id => send Get (at_job id [js "pdf"]) JNull None JNull
  | JobsController.DeleteJob id => send Delete (at_job id []) JNull None JNull
  end.

Definition sendable {V : Validator} {P : Pipes} (req : JobsController.Request) : bool :=
  match req with
  | JobsController.GetJobs q => allowed q
  | JobsController.PostJob dto _ => allowed dto
  | JobsController.PatchJob id dto => is_uuid id && allowed dto
  | JobsController.GetJob id | JobsController.PostProcess id | JobsController.GetPdf id | JobsController.DeleteJob id =>
      is_uuid id
  end.

Definition success_status (req : JobsController.Request) : Z :=
  match req with
  | JobsController.PostJob _ _ => 201%Z
  | JobsController.DeleteJob _ => 204%Z
  | _ => 200%Z
  end.

Section Wire.
Context `{Cr : Crypto} {V : Validator} {P : Pipes} {Ex : Express} {Th : Throwables} {Te : Terminus} (cfg : AppConfig) (amb : Ambient).

Lemma uuid_truthy id : is_uuid id = true → truthy id = true.
Proof. destruct id; [by rewrite is_uuid_nonempty|done]. Qed.

(** The router finds the handler, and the pipes give back the arguments. *)
Lemma request_routed authorization rid url req :
  sendable req = true →
  ∃ r params h, route (request_of authorization rid url req) = Some (r, params)
    ∧ handler (endpoint r) = Jobs h ∧ jobs_request h params (request_of authorization rid url req) = inr req
    ∧ status r = success_status req ∧ isPublic r = false ∧ throttle r = mkThrottle 100 60000.
Proof.
  assert (∀ {D} `{Body D} (d : D), allowed d = true → piped (JObj (to_wire d)) = inr d) as Hbody.
  { intros D HB d Hd. unfold piped. by rewrite transform_wire. }
  assert (∀ id, is_uuid id = true → parse_uuid id = inr id) as Hid by (intros id H; unfold parse_uuid; by rewrite H).
  assert (∀ n r h params, let rq := request_of authorization rid url req in
    routes !! n = Some r → rq_verb rq = verb (endpoint r) ∧ filled (pattern r) (rq_path rq) = Some params → handler (endpoint r) = Jobs h →
    jobs_request h params rq = inr req →
    status r = success_status req ∧ isPublic r = false ∧ throttle r = mkThrottle 100 60000 →
    ∃ r params h, route rq = Some (r, params) ∧ handler (endpoint r) = Jobs h ∧ jobs_request h params rq = inr req
      ∧ status r = success_status req ∧ isPublic r = false ∧ throttle r = mkThrottle 100 60000) as Hgo.
  { intros n r h params rq Hn [Hv Hf] Hh Hj Hpol. exists r, params, h. split; [by eapply route_filled|done]. }
  destruct req as [q|dto key|[|c id]|[|c id] dto|[|c id]|[|c id]|[|c id]]; cbn [sendable]; intros Hs;
    try (rewrite is_uuid_nonempty in Hs; discriminate Hs);
    [eapply (Hgo 4)|eapply (Hgo 5)|eapply (Hgo 6)|eapply (Hgo 7)|eapply (Hgo 8)|eapply (Hgo 9)|eapply (Hgo 10)];
    try (by vm_compute); cbn [jobs_request request_of rq_query rq_body rq_idempotencyKey hd].
  - by rewrite Hbody.
  - by rewrite Hbody.
  - by rewrite Hid.
  - apply andb_true_iff in Hs as [Hi Hd]. by rewrite Hid, Hbody.
  - by rewrite Hid.
  - by rewrite Hid.
  - by rewrite Hid.
Qed.
End Wire.

(** C10: Round trip over HTTP.  A request of the API's vocabulary with a valid body and a
    UUID, written as verb, path, query and JSON, is routed to its handler, gets past
    the pipes as the very arguments it was written from, and is served exactly as the
    guarded handler serves it, with status 201 for a creation, 204 for a deletion and
    200 otherwise - on any services, and as long as the throttler admits it. *)
Theorem http_roundtrip `{Cr : Crypto} {V : Validator} {P : Pipes} {Ex : Express} {Th : Throwables} {Te : Terminus}
    cfg amb authorization rid url req {W} (h : Program.handler eff W) w :
  sendable req = true → throttled amb (mkThrottle 100 60000) = false →
  exec h (Http.serve cfg amb (request_of authorization rid url req)) w =
  exec h (x <- Api.Api.handle cfg authorization req;; Ret (Reply (success_status req) (JobsAnswer x))) w.
Proof.
  intros Hs Ht.
  destruct (request_routed authorization rid url req Hs) as (r & params & k & Hr & Hh & Hq & Hst & Hpub & Hlim).
  assert (rq_authorization (request_of authorization rid url req) = authorization) as Ha by (by destruct req).
  unfold Http.serve. rewrite Hr, Hh, Ha. unfold AppModule.guards. cbn [Http.pass]. rewrite Hlim, Ht, Hpub.
  unfold Api.Api.handle. rewrite !exec_bind.
  destruct (exec h (JwtAuthGuard.canActivate cfg false authorization) w) as [[e|user] w1]; [done|]. cbn [exec].
  cbn [Http.invoke]. rewrite !exec_bind. destruct (JwtAuthGuard.CurrentUser user) as [e|u]; cbn [settle exec]; [done|].
  rewrite !exec_bind. rewrite Hq. cbn [settle exec]. rewrite exec_bind.
  destruct (exec h (JobsController.serve cfg (auth_userId u) req) w1) as [[e|x] w2]; cbn [exec]; [done|]. by rewrite Hst.
Qed.

(** ** Runs *)
#[local] Existing Instance reference_pipes.
#[local] Existing Instance ReferenceRouter.reference_express.
#[local] Existing Instance reference_terminus.
#[local] Existing Instance reference_throwables.
#[local] Instance code_units : Validator := {| str_length := @length N |}.

Definition quiet_ambient : Ambient :=
  mkAmbient (λ _, false) 1000000000 (mkBackends (inr tt) (inr tt) (inr tt) (inr (js "PONG"))).
Definition redis_gone : Ambient :=
  mkAmbient (λ _, false) 1000000000
    (mkBackends (inr tt) (inr tt) (inl (JsError (js "connect ECONNREFUSED 10.0.0.5:6379"))) (inr (js "PONG"))).

Definition new_job : JobsController.Request := JobsController.PostJob (mkCreateJobDto (js "12 High Street")) None.

Lemma http_roundtrip_witness :
  exec (mem_handle false) (Http.serve auth_cfg quiet_ambient (request_of None None (js "/jobs") new_job))
      (mkMemory alice_session quiet)
  = (inl (UnauthorizedException (js "Missing bearer token.")), mkMemory alice_session quiet).
Proof.
  rewrite (http_roundtrip auth_cfg quiet_ambient None None (js "/jobs") new_job); [|reflexivity|reflexivity].
  reflexivity.
Defined.

Lemma readiness_reports_backends_witness :
  ensures (Hs := reliable_memory)
    (Http.respond auth_cfg redis_gone (mkHttpRequest Get [js "ready"] (JObj []) None None JNull None (js "/ready")))
    (mkMemory alice_session quiet) (λ res _, ∃ p, res = inr (Problem p) ∧ statusCode p = 503%Z
      ∧ problem_error p = JObj [(js "redis", JObj [(js "status", JStr (js "down"));
                                                   (js "message", JStr (js "connect ECONNREFUSED 10.0.0.5:6379"))])]).
Proof.
  pose proof (readiness_reports_backends (Hs := reliable_memory) auth_cfg redis_gone (JObj []) None JNull None
                (js "/ready") (mkMemory alice_session quiet) eq_refl eq_refl) as H.
  unfold ensures in *. destruct H as [_ H].
  destruct (exec _ _ _) as [[e|[st [x|x|x|x]|p]] m]; cbn [fst] in *; try contradiction.
  - destruct H as (_ & _ & H). vm_compute in H. discriminate H.
  - exists p. destruct H as (H1 & _ & H2). split; [reflexivity|]. split; [exact H1|].
    rewrite H2. vm_compute. reflexivity.
Defined.

Lemma routing_ignores_order_witness :
  find (mkHttpRequest Head [js "Jobs"; []] JNull None None JNull None (js "/Jobs/")) (rev routes)
  = route (mkHttpRequest Head [js "Jobs"; []] JNull None None JNull None (js "/Jobs/")).
Proof. apply routing_ignores_order. symmetry. apply Permutation_rev. Defined.
