(* ===== verification/Contract.v ===== *)
(** * The published contract

    [openapi.json], from which clients generate their types, against the routes. *)
From S2P Require Import Prelude Json Program Schema Services Memory JsDate Report Zod Config Media Queue JobsRepository Dto Auth JobsService Tenancy Api Health Modules Bootstrap Wire Http HttpProperties.
Import Router.

(** An operation: its verb and path, the status of its success, whether it needs the
    bearer token, and the headers it marks as required. *)
Record Operation := mkOperation {
  op_verb : Verb;
  op_path : list jstr;
  op_status : Z;
  op_bearer : bool;
  op_required : list jstr;
}.

Definition openapi : list Operation :=
  let path (l : list string) := js <$> l in
  [mkOperation Get (path ["health"]) 200 false [];
   mkOperation Get (path ["ready"]) 200 false [];
   mkOperation Post (path ["auth"; "apple"]) 200 false [];
   mkOperation Post (path ["auth"; "refresh"]) 200 false [];
   mkOperation Get (path ["jobs"]) 200 true [];
   mkOperation Post (path ["jobs"]) 201 true [js "idempotency-key"];
   mkOperation Get (path ["jobs"; "{id}"]) 200 true [];
   mkOperation Patch (path ["jobs"; "{id}"]) 200 true [];
   mkOperation Delete (path ["jobs"; "{id}"]) 204 true [];
   mkOperation Post (path ["jobs"; "{id}"; "process"]) 200 true [];
   mkOperation Get (path ["jobs"; "{id}"; "pdf"]) 200 true []].

(** A path template in the router's notation. *)
Definition template (op : Operation) : list jstr :=
  (λ s, if startsWith (js "{") s then js ":" ++ removelast (drop 1 s) else s) <$> op_path op.

Definition describes (op : Operation) (r : Route) : bool :=
  bool_decide (op_verb op = verb (endpoint r)) && bool_decide (template op = pattern r)
  && bool_decide (op_status op = status r) && bool_decide (op_bearer op = negb (isPublic r)).

Lemma contract_complete :
  forallb (λ op, existsb (describes op) routes) openapi && forallb (λ r, existsb (λ op, describes op r) openapi) routes = true.
Proof. by vm_compute. Qed.

Lemma described op r :
  describes op r = true → op_verb op = verb (endpoint r) ∧ template op = pattern r ∧ op_status op = status r
    ∧ op_bearer op = negb (isPublic r).
Proof. unfold describes. rewrite !andb_true_iff, !bool_decide_eq_true. tauto. Qed.

Lemma operation_routed {Ex : Express} op rq params :
  op ∈ openapi → rq_verb rq = op_verb op → filled (template op) (rq_path rq) = Some params →
  ∃ r, route rq = Some (r, params) ∧ describes op r = true.
Proof.
  intros Hop Hv Hf. pose proof contract_complete as H. apply andb_true_iff in H as [H _]. rewrite forallb_forall in H.
  apply list_elem_of_In, H, existsb_exists in Hop as (r & Hr & Hd). exists r. split; [|done].
  apply described in Hd as (Dv & Dt & _). apply list_elem_of_In, list_elem_of_lookup in Hr as [n Hn].
  eapply route_filled; [done|congruence|]. by rewrite <-Dt.
Qed.


(** The header that [openapi.json] marks as required is not: a creation without it is
    served. *)
#[local] Existing Instance reference_pipes.
#[local] Existing Instance ReferenceRouter.reference_express.
#[local] Existing Instance reference_terminus.
#[local] Existing Instance reference_throwables.
#[local] Existing Instance code_units.

Definition creation : HttpRequest := request_of None None (js "/jobs") new_job.

