(* ===== verification/Deliveries.v ===== *)
(** * Deliveries under interference

    The worker's pipeline, call by call, next to any requests and deliveries; and
    the stage bodies that a timeout has abandoned, which run on. *)
From S2P Require Import Prelude Json Program RelyGuarantee Schema Services Memory JsDate Report Zod Config Media Queue JobsRepository Dto JobsService Tenancy Concurrent Transcription Compiler ReportHtml PdfRenderer Pipeline PipelineProperties Processor.

(** ** The repository's unscoped methods, for a job of the payload's owner *)
Section Worker.
Context `{Cr : Crypto} (f : bool) (u id : jstr) (Hslash : MediaService.slash_free u).
Abbreviation rg := (rg (eff_contract f) server_inv kept (acts u)).

Lemma tenant_events new s : tenant_step u s (with_events new s).
Proof. intros [Hc Hk Hu Ha Hb Hty]. split; [by split|]. split; try done; [by eauto|]. exists []. by rewrite app_nil_r. Qed.
Lemma tenant_dlq d s : tenant_step u s (with_dlq d s).
Proof. intros [Hc Hk Hu Ha Hb Hty]. split; [by split|]. split; try done; [by eauto|]. exists []. by rewrite app_nil_r. Qed.

Lemma rg_row d s :
  owned u id s → typed_data d → data_status d ≠ Some READY →
  data_pdfKey d = None ∨ data_pdfKey d = Some (MediaService.pdfKey u id) →
  rg (await (JobUpdate (JobsRepository.by_id id) d);; Ret tt) s (λ _ _, True).
Proof.
  intros Ho Htd Hst Hd. apply (rg_method f u Hslash); [by intros [e|n]|by intros|]. intros s1 HR HI.
  eapply wp_mono; [apply update_by_id_spec|]. intros [e|[]] s2; [intros [-> _]; by apply still|].
  intros (j & t & Hj & _ & ->). split_and!; [|by apply calm_update|done].
  destruct (owned_kept _ _ _ _ Ho HR) as (j' & Hj' & Hu). apply tenant_row; [done|congruence|done|done].
Qed.

(** The PDF of a job is in the store, or the job was deleted meanwhile. *)
Definition rendered (s : Store) : Prop := owned u id s ∧ (pdf_at u id s ∨ gone u id s).

Lemma rendered_stable : stable server_inv kept rendered.
Proof.
  intros s s' [Ho Hp] HR _. split; [by eapply owned_kept|].
  destruct Hp as [Hp|Hg]; [by apply (kept_pdfs _ _ HR)|right; by eapply gone_kept].
Qed.

Lemma rg_setPdfReady s :
  rendered s → rg (JobsRepository.setPdfReady id (MediaService.pdfKey u id)) s (λ _ _, True).
Proof.
  intros Hr. apply rg_single; [by intros [e|n]|by intros|]. intros s1 HR HI.
  destruct (rendered_stable _ _ Hr HR HI) as [(j & Hj & Hu) Hp].
  eapply wp_mono; [apply update_by_id_spec|]. intros [e|[]] s2; [intros [-> _]; by split_and!|].
  intros (j' & t & Hj' & _ & ->). rewrite Hj in Hj'. injection Hj' as <-.
  pose proof HI as [Hi Hqo Hps Hus].
  destruct (tenant_row u id (mkJobData None (Some READY) None (Some (MediaService.pdfKey u id)) (Some None) None None)
              t j s1 Hj Hu) as [Hi' Ht]; [by repeat split; eexists|by right|done|].
  assert (kept s1 (with_clock t (with_jobs (<[id := apply_data (mkJobData None (Some READY) None
    (Some (MediaService.pdfKey u id)) (Some None) None None) t j]> (jobs s1)) s1))) as HK.
  { split; [apply (tenant_owner _ _ _ Ht)|by left]. }
  split_and!; [split; [done| | |]|done|done].
  - intros i b Hb. destruct (Hqo _ _ Hb) as [Hd Ho]. split; [done|by eapply owned_kept].
  - intros i x. simpl. intros [[<- <-]|[_ Hx]]%lookup_insert_Some Hst Hd; [|by apply (Hps i x)].
    simpl in *. rewrite Hu. destruct Hp as [Hp|(j2 & Hj2 & _ & Hd2)]; [done|congruence].
  - intros i x. simpl. intros [[<- <-]|[_ Hx]]%lookup_insert_Some; [|by eapply Hus]. simpl. by rewrite Hu.
Qed.

Lemma rg_addEvent stage status message s : rg (JobsRepository.addEvent id stage status message) s (λ _ _, True).
Proof.
  apply (rg_method f u Hslash); [by intros [e|n]|by intros|]. intros s1 _ _. unfold JobsRepository.addEvent. wp_call.
  intros r s2 [[(_ & _ & ->)|(_ & -> & _)]|[_ [-> _]]]; [|by apply still..].
  split_and!; [apply tenant_events|by apply calm_same|done].
Qed.

Lemma rg_replaceReport sections s :
  owned u id s → rg (JobsRepository.replaceReport id sections) s (λ _ _, True).
Proof.
  intros Ho. apply (rg_method f u Hslash); [by intros [e|n]|by intros|]. intros s1 HR _.
  eapply wp_mono; [apply replaceReport_spec|]. intros [e|[]] s2; [intros [-> _]; by apply still|]. intros [Hr Hfr].
  destruct (owned_kept _ _ _ _ Ho HR) as (j & Hj & Hu).
  split_and!; [by eapply tenant_replaced|by rewrite Hfr; apply calm_same|done].
Qed.

Lemma rg_findById s : rg (JobsRepository.findById id) s (λ _ _, True).
Proof.
  apply rg_read; [by intros [e|o]|by intros|]. intros s1 _ _.
  eapply wp_mono; [apply findById_spec|]. by intros r s2 [-> _].
Qed.

Lemma rg_getObject k s : rg (MediaService.getObjectStream k) s (λ _ _, True).
Proof.
  apply rg_read; [by intros [e|[o|]]|by intros|]. intros s1 _ _.
  eapply wp_mono; [apply MediaService.getObjectStream_spec|]. by intros r s2 [-> _].
Qed.

Lemma rg_putPdf pdf ct s :
  owned u id s →
  rg (MediaService.putObject (MediaService.pdfKey u id) pdf ct) s (λ r s', ∀ x, r = inr x → rendered s').
Proof.
  intros Ho. apply (rg_method f u Hslash); [by intros [e|o]| |].
  { intros r s1 s2 H HR HI x Hx. eapply rendered_stable; [by eapply H|done..]. }
  intros s1 HR _. eapply wp_mono; [apply MediaService.putObject_spec|].
  intros [e|[]] s2; [intros [-> _]; by apply still|]. intros ->.
  split_and!; [|split; [done| |by eauto]|].
  - apply tenant_objects_put. intros k Hk. rewrite lookup_insert_ne; [done|].
    intros <-. apply Hk. exists id. by right.
  - intros v i _ Hp. left. unfold pdf_at in *. simpl. apply lookup_insert_is_Some'. by right.
  - intros x _. split; [change (owned u id s1); by eapply owned_kept|]. left. unfold pdf_at. simpl. by rewrite lookup_insert_eq.
Qed.

Lemma rg_now s : rg (await DateNow) s (λ _ _, True).
Proof.
  apply (rg_method f u Hslash); [by intros [e|o]|by intros|]. intros s1 _ _. wp_call.
  intros r s2 [(t & _ & -> & ->)|[_ []]]. split_and!; [apply tenant_clock|by apply calm_same|done].
Qed.

Lemma rg_dlqAdd name d s : rg (await (DlqAdd name d)) s (λ _ _, True).
Proof.
  apply (rg_method f u Hslash); [by intros [e|o]|by intros|]. intros s1 _ _. wp_call.
  intros r s2 [[-> ->]|[_ [-> _]]]; [|by apply still]. split_and!; [apply tenant_dlq|by apply calm_same|done].
Qed.

(** A stage under its timer. *)
Lemma rg_withTimeout {A} (P : A → Prop) (p : prog eff A) ms stage s :
  server_inv s → rg p s (λ r _, match r with inr a => P a | inl _ => True end) →
  rg (withTimeout p ms stage) s (λ r _, match r with inr a => P a | inl _ => True end).
Proof.
  intros HI Hp. unfold withTimeout. rg_focus. revert s HI Hp.
  induction p as [a|e|X c k IH]; intros s HI Hp.
  { intros s1 HR HI1. specialize (Hp s1 HR HI1). by intros _ s2. }
  { done. }
  cbn [race].
  intros s1 HR HI1 r s2 HC. assert (s2 = s1) as ->.
  { by destruct HC as [[-> _]|[_ [-> _]]]. }
  split; [done|]. split; [done|].
  assert (rg (Vis c (λ r, race ms (k r))) s1 (λ r s', match r with
    | inr a => server_inv s' → rg (match a with inl a => Ret a | inr _ => Throw (StageTimeoutError stage ms) end)
                 s' (λ r _, match r with inr a => P a | inl _ => True end)
    | inl e => True end)) as Hgo.
  { intros s3 HR3 HI3 r3 s4 HC3. destruct (Hp s3 ltac:(by etrans) HI3 r3 s4 HC3) as (HI4 & HG & Hk).
    split; [done|]. split; [done|]. by apply IH. }
  destruct r as [e|[]]; [exact Hgo|done|exact Hgo].
Qed.
End Worker.

(** ** The pipeline and the deliveries *)
Section Deliveries.
Context `{Cr : Crypto} {TP : TranscriptionProvider} {CP : ReportCompilerProvider} `{Zo : Zod}
  {PR : PdfRenderer} (cfg : AppConfig) (f : bool) (u id : jstr) (Hslash : MediaService.slash_free u).
Abbreviation rg := (rg (eff_contract f) server_inv kept (acts u)).

(** Code that runs safely for a job of [u], from any state, and returns only values
    of [P]. *)
Definition safe_to {A} (P : A → Prop) (p : prog eff A) : Prop :=
  ∀ s, owned u id s → server_inv s → rg p s (λ r _, match r with inr a => P a | inl _ => True end).
Abbreviation safe := (safe_to (λ _, True)).

Lemma safe_ret {A} (P : A → Prop) a : P a → safe_to P (Ret a).
Proof. intros Ha s _ _ s1 _ _. exact Ha. Qed.
Lemma safe_throw {A} (P : A → Prop) e : safe_to P (Throw e).
Proof. by intros s _ _ s1 _ _. Qed.
Lemma safe_mono {A} (P P' : A → Prop) p : safe_to P p → (∀ a, P a → P' a) → safe_to P' p.
Proof. intros Hp HP s Ho HI. eapply rg_mono; [by apply Hp|]. intros [e|a] s'; auto. Qed.
Lemma safe_leaf {A} (p : prog eff A) : (∀ s, rg p s (λ _ _, True)) → safe p.
Proof. intros Hp s _ _. eapply rg_mono; [apply Hp|]. by intros [e|a]. Qed.
Lemma safe_inert {A} (p : prog eff A) Q : inert (eff_contract f) p Q → safe p.
Proof. intros Hp s _ _. eapply rg_mono; [by apply inert_rg; [apply _|exact Hp]|]. by intros [e|a]. Qed.

Lemma safe_bind {A B} (P : A → Prop) (P' : B → Prop) (p : prog eff A) (q : A → prog eff B) :
  safe_to P p → (∀ a, P a → safe_to P' (q a)) → safe_to P' (bind p q).
Proof.
  intros Hp Hq s Ho HI. rg_focus. eapply rg_mono; [by apply (rg_keep_owned f u p id), Hp|].
  intros [e|a] s' [Ho' Ha]; [done|]. intros HI'. by apply Hq.
Qed.
Lemma safe_then {A B} (P' : B → Prop) (p : prog eff A) (q : A → prog eff B) :
  safe p → (∀ a, safe_to P' (q a)) → safe_to P' (bind p q).
Proof. intros Hp Hq. eapply safe_bind; [exact Hp|]. intros a _. apply Hq. Qed.
Lemma safe_try_catch {A} (P : A → Prop) (p : prog eff A) h :
  safe_to P p → (∀ e, safe_to P (h e)) → safe_to P (try_catch p h).
Proof.
  intros Hp Hh s Ho HI. rg_focus. eapply rg_mono; [by apply (rg_keep_owned f u p id), Hp|].
  intros [e|a] s' [Ho' Ha]; [|done]. intros HI'. by apply Hh.
Qed.
Lemma safe_attempt {A} (p : prog eff A) : safe p → safe (attempt p).
Proof. intros Hp. apply safe_try_catch; [|intros e; by apply safe_ret]. apply safe_then; [done|]. intros a. by apply safe_ret. Qed.

#[local] Hint Resolve safe_ret safe_throw : core.

Lemma safe_row d :
  typed_data d → data_status d ≠ Some READY → data_pdfKey d = None ∨ data_pdfKey d = Some (MediaService.pdfKey u id) →
  safe (await (JobUpdate (JobsRepository.by_id id) d);; Ret tt).
Proof. intros Ht Hst Hd s Ho _. eapply rg_mono; [by apply (rg_row f u id)|]. by intros [e|a]. Qed.
Lemma safe_setStatus st err :
  st ≠ READY → typed_data (mkJobData None (Some st) None None err None None) →
  safe (JobsRepository.setStatus id st err).
Proof. intros Hst Ht. apply safe_row; [done|by intros [= ?]|by left]. Qed.
Lemma safe_addEvent stage status message : safe (JobsRepository.addEvent id stage status message).
Proof. apply safe_leaf. intros s. by apply rg_addEvent. Qed.

Lemma safe_runStage {T} (P : T → Prop) stage st (fn : prog eff T) :
  st = TRANSCRIBING ∨ st = COMPILING ∨ st = RENDERING →
  safe_to P fn → safe_to P (PipelineService.runStage cfg id stage st fn).
Proof.
  intros Hst Hfn. unfold PipelineService.runStage.
  apply safe_then; [apply safe_setStatus; by destruct Hst as [->|[->| ->]]|intros _].
  apply safe_then; [apply safe_addEvent|intros _]. apply safe_try_catch.
  - apply safe_bind with P; [intros s Ho HI; apply rg_withTimeout; [done|by apply Hfn]|]. intros x Hx.
    apply safe_then; [apply safe_addEvent|auto].
  - intros e. apply safe_then; [apply safe_addEvent|auto].
Qed.

(** A transcript that is returned may be stored. *)
Lemma safe_transcribe audio opts : safe_to (λ t, trim t = t ∧ t ≠ []) (TranscriptionService.transcribe audio opts).
Proof.
  unfold TranscriptionService.transcribe.
  apply safe_then; [eapply safe_inert, provider_transcribe_pure|]. intros x. cbv zeta. case_bool_decide as Hl; [done|].
  apply safe_ret. split; [apply trim_idemp|]. intros Ht. by rewrite Ht in Hl.
Qed.

Lemma safe_transcribeStage audioKey t : safe (PipelineService.transcribeStage cfg id audioKey t).
Proof.
  assert (safe (PipelineService.runStage cfg id STAGE.TRANSCRIBE TRANSCRIBING
                  (PipelineService.transcribe_body id audioKey))) as Hrun.
  { apply safe_runStage; [auto|]. unfold PipelineService.transcribe_body.
    apply safe_then; [apply safe_leaf; intros s; apply rg_getObject|intros audio].
    eapply safe_bind; [apply safe_transcribe|]. intros x Hx.
    apply safe_then; [apply safe_row; [by split|done|by left]|auto]. }
  unfold PipelineService.transcribeStage. destruct t as [t|]; [|done]. case_match; auto.
Qed.

Lemma safe_compileStage label t existing : safe (PipelineService.compileStage cfg id label t existing).
Proof.
  unfold PipelineService.compileStage. case_bool_decide; [auto|]. apply safe_runStage; [auto|].
  unfold PipelineService.compile_body, ReportCompilerService.compile.
  apply safe_then.
  - apply safe_then; [eapply safe_inert, provider_compile_pure|]. intros raw.
    destruct (safeParse _ raw); [|auto]. apply safe_then; [eapply safe_inert, provider_compile_pure|].
    intros raw2. destruct (safeParse _ raw2); auto.
  - intros x. apply safe_then; [|auto]. intros s Ho _. eapply rg_mono; [by apply rg_replaceReport|]. by intros [e|a].
Qed.

Lemma safe_renderStage label sections : safe (PipelineService.renderStage cfg id u label sections).
Proof.
  apply safe_runStage; [auto|]. unfold PipelineService.render_body, PipelineService.toReportView.
  apply safe_then.
  - apply safe_then; [apply safe_leaf; intros s; by apply rg_now|auto].
  - intros view. apply safe_then; [eapply safe_inert, pdf_render_pure|]. intros pdf.
    intros s Ho HI. rg_apply rg_putPdf; [done..|]. intros [e|[]] s1 Hr; [done|]. intros HI1.
    eapply rg_mono; [by apply (rg_setPdfReady f u id), (Hr tt)|]. by intros [e|[]].
Qed.

Lemma safe_markFailed message : safe (PipelineService.markFailed id message).
Proof.
  unfold PipelineService.markFailed. apply safe_then.
  - apply safe_leaf. intros s. apply rg_queue_read; [by intros s1 r s2 [-> _]|by intros s1 r s2 [-> _]].
  - intros [j|]; [|auto]. case_bool_decide; [auto|].
    apply safe_then; [apply safe_setStatus; [done|]; split; [|done]; eexists; split; [done|apply slice0_length]|intros _].
    apply safe_addEvent.
Qed.

Lemma safe_process : safe (PipelineService.process cfg (mkProcessJobData id u)).
Proof.
  unfold PipelineService.process. cbn [data_jobId data_userId].
  apply safe_then; [apply safe_leaf; intros s; apply rg_findById|]. intros [x|]; [|auto].
  destruct (job_deletedAt _); [auto|]. do 2 (case_bool_decide; cbn [negb]; auto).
  destruct (job_audioKey (jwr_job x)) as [k|]; [|auto]. destruct (truthy k); [|auto].
  apply safe_try_catch.
  - unfold PipelineService.stages. cbn [data_jobId data_userId].
    apply safe_then; [apply safe_transcribeStage|intros t]. apply safe_then; [apply safe_compileStage|intros secs].
    apply safe_renderStage.
  - intros e. destruct (isPermanent e); [|auto]. apply safe_then; [apply safe_markFailed|auto].
Qed.

Lemma safe_deliveries attempts made fuel :
  safe (ProcessingProcessor.deliveries cfg (mkProcessJobData id u) attempts made fuel).
Proof.
  revert made. induction fuel as [|fuel IH]; intros made; [by apply safe_ret|]. cbn [ProcessingProcessor.deliveries].
  apply safe_then; [apply safe_attempt, safe_process|]. intros [e|[]]; [|auto].
  apply safe_then; [|intros _; case_match; auto].
  unfold ProcessingProcessor.handleFailure. case_match; [auto|]. cbn [fj_data data_jobId].
  apply safe_try_catch; [|auto]. apply safe_then; [apply safe_markFailed|intros _].
  apply safe_leaf. intros s. by apply rg_dlqAdd.
Qed.
End Deliveries.

(** ** Bodies abandoned by a timeout

    [abandons p p' q]: a timer of [p] fires, [p] goes on as [p'], and what remains
    of the body, [q], runs on.  The timer may stand under any awaits and handlers. *)
Inductive abandons : ∀ {A B}, prog eff A → prog eff A → prog eff B → Prop :=
  | abandon_race {B X} ms (c : eff X) (k : exn + X → prog eff B) :
      abandons (race ms (Vis c k)) (Ret (inr (Vis c k))) (Vis c k)
  | abandon_bind {A A' B} (p p' : prog eff A) (q : prog eff B) (r : A → prog eff A') :
      abandons p p' q → abandons (bind p r) (bind p' r) q
  | abandon_catch {A B} (p p' : prog eff A) (q : prog eff B) h :
      abandons p p' q → abandons (try_catch p h) (try_catch p' h) q.

Section Abandoned.
Context `{Cr : Crypto} (I : Store → Prop) (R G : Store → Store → Prop) `{!PreOrder R}.
Abbreviation rg := (rg (eff_contract true) I R G).

(** A verified race has a verified body: its timers may never fire. *)
Lemma rg_race_body {A} ms (p : prog eff A) s Q : I s → rg (race ms p) s Q → rg p s (λ _ _, True).
Proof.
  revert s. induction p as [a|e|X c k IH]; intros s HI Hp; [done..|]. cbn [race] in Hp.
  intros s1 HR HI1 r s2 HC.
  destruct (Hp s1 HR HI1 (inr false) s1) as (_ & _ & Hgo); [left; split; [done|by exists false]|].
  destruct (Hgo s1 (reflexivity s1) HI1 r s2 HC) as (HI2 & HG & Hk). split; [done|]. split; [done|]. by apply (IH r).
Qed.

Lemma abandons_rg {A B} (p p' : prog eff A) (q : prog eff B) :
  abandons p p' q → ∀ s Q, I s → rg p s Q → rg p' s Q ∧ rg q s (λ _ _, True).
Proof.
  induction 1 as [B X ms c k|A A' B p p' q r _ IH|A B p p' q h _ IH]; intros s Q HI Hp.
  - split; [|by eapply (rg_race_body ms (Vis c k))].
    intros s1 HR HI1. destruct (Hp s1 HR HI1 (inr true) s1) as (_ & _ & Hgo); [|by apply Hgo].
    right. split; [done|]. split; [done|]. by exists true.
  - apply rg_bind_inv in Hp; [|done]. destruct (IH _ _ HI Hp) as [Hp' Hq]. split; [|done].
    apply rg_bind; [done..|]. eapply rg_mono; [exact Hp'|]. by intros [e|a].
  - apply rg_try_catch_inv in Hp; [|done]. destruct (IH _ _ HI Hp) as [Hp' Hq]. split; [|done].
    apply rg_try_catch; [done..|]. eapply rg_mono; [exact Hp'|]. by intros [e|a].
Qed.
End Abandoned.
