(* ===== verification/Server.v ===== *)
(** * The server under concurrency

    HTTP requests of any users, sign-ins, refreshes and deliveries of queue entries
    run interleaved at their awaits, together with the stage bodies that timeouts
    have abandoned. *)
From S2P Require Import Prelude Json Program RelyGuarantee Schema Services Memory JsDate Report Zod Config Media Queue JobsRepository Dto Auth JobsService Tenancy Concurrent Sessions Api Health Modules Bootstrap Wire Http HttpProperties Transcription Compiler ReportHtml PdfRenderer Pipeline PipelineProperties Processor Deliveries.

(** ** The guard under interference *)
Section Guard.
Context `{Cr : Crypto} (cfg : AppConfig).

(** The user of the access token a header carries, if it is one of ours. *)
Definition names (authorization : option jstr) (u : jstr) : Prop :=
  ∃ tok c a, JwtAuthGuard.extractToken authorization = Some tok
    ∧ jwt_payload (accessSecret (cfg_jwt cfg)) tok = Some c ∧ JwtAuthGuard.user_of c = Some a ∧ auth_userId a = u.

Lemma guard_inert f authorization :
  inert (eff_contract f) (JwtAuthGuard.canActivate cfg false authorization)
    (λ r, ∀ o, r = inr o → ∃ a, o = Some a ∧ names authorization (auth_userId a)).
Proof.
  unfold JwtAuthGuard.canActivate. destruct (JwtAuthGuard.extractToken authorization) as [tok|] eqn:Ht; [|done].
  intros s r s' HC.
  assert (s' = s ∧ ∀ c, r = inr c → jwt_payload (accessSecret (cfg_jwt cfg)) tok = Some c) as [-> Hc].
  { destruct HC as [[[-> (c & -> & Hp & _)]|[[-> (e & -> & _)] _]]|[_ [-> (e & -> & _)]]]; (split; [done|]); by intros ? [= <-]. }
  split; [done|]. destruct r as [e|c]; [done|]. specialize (Hc c eq_refl). cbn [bind try_catch].
  destruct (JwtAuthGuard.user_of c) as [a|] eqn:Ha; [|done]. intros o [= <-]. exists a. split; [done|]. by exists tok, c, a.
Qed.
End Guard.

(** ** The server as an open pool *)
Section Server.
Context `{Cr : Crypto} {TP : TranscriptionProvider} {CP : ReportCompilerProvider} `{Zo : Zod}
  {PR : PdfRenderer} {V : Validator} {P : Pipes} {Ex : Router.Express} {Th : Throwables} {Te : Terminus} (cfg : AppConfig) (f : bool).

(** The users whose requests and jobs are being served, and the refresh tokens and
    identity tokens that clients send. *)
Context (active refreshes identities : jstr → Prop).

(** What a program has done when it ends. *)
Inductive Outcome :=
  | Worked
  | Responded (rq : HttpRequest) (r : HttpResponse).

(** What a request brings: the token in its header, or the token in its body. *)
Definition welcome (rq : HttpRequest) : Prop :=
  ∀ r params, Router.route rq = Some (r, params) →
    match handler (Router.endpoint r) with
    | Jobs _ => ∀ u, names cfg (rq_authorization rq) u → active u
    | SignInWithApple => ∀ dto : AppleSignInDto, piped (rq_body rq) = inr dto → identities (as_identityToken dto)
    | Refresh => ∀ dto : RefreshDto, piped (rq_body rq) = inr dto → refreshes (rd_refreshToken dto)
    | Liveness | Readiness => True
    end.

Inductive arrives (s : Store) : prog eff Outcome → Prop :=
  | request_arrives amb rq :
      welcome rq → arrives s (x <- Http.respond cfg amb rq;; Ret (Responded rq x))
  | entry_delivered id b attempts made fuel :
      queue s !! id = Some b → active (data_userId (bull_data b)) →
      arrives s (ProcessingProcessor.deliveries cfg (bull_data b) attempts made fuel;; Ret Worked).

Definition forks (p p' q : prog eff Outcome) : Prop :=
  f = true ∧ ∃ B (rest : prog eff B), abandons p p' rest ∧ q = (rest;; Ret Worked).

Definition server_step := pool_step (eff_contract f) arrives forks.

(** ** Invariant, rely and guarantee of the whole server *)
Definition all_inv (s : Store) : Prop := server_inv s ∧ session_inv s.
Definition all_kept (s s' : Store) : Prop := kept s s' ∧ sessions_kept s s'.
Abbreviation by_session := (session_act cfg refreshes identities (proves cfg)).
Definition server_act (s s' : Store) : Prop := (∃ u, active u ∧ acts u s s') ∨ by_session s s'.
Abbreviation rg := (rg (eff_contract f) all_inv all_kept server_act).

#[local] Instance all_kept_preorder : PreOrder all_kept.
Proof.
  split; [by intros s; split|]. intros s1 s2 s3 [? ?] [? ?]. split; by etrans.
Qed.

#[local] Instance server_act_refl : Reflexive server_act.
Proof. by right. Qed.

(** Jobs, queue and objects have no part in a session, accounts and tokens none in
    a job. *)
Lemma session_kept s s' : only_sessions s s' → kept s s'.
Proof. intros (us & ts & t & ->). split; [by eauto|]. intros u id _ Hpdf. by left. Qed.

Lemma session_frame s s' : only_sessions s s' → server_inv s → server_inv s'.
Proof. intros (us & ts & t & ->) [[Hc Hk Hu Ha Hb Hty] Hq Hp Hus]. split; [split; done|done..]. Qed.

Lemma acts_sessions u s s' : acts u s s' → sessions_kept s s' ∧ (session_inv s → session_inv s').
Proof.
  intros [Ht _]. destruct (tenant_users _ _ _ Ht) as [Hu Hr].
  split; [by apply kept_same|by apply session_inv_same].
Qed.

Lemma server_act_kept s s' : server_act s s' → all_kept s s'.
Proof.
  intros [(u & _ & Ha)|Hs].
  - split; [by eapply acts_kept|by eapply acts_sessions].
  - split; [by apply session_kept, Hs|by eapply session_act_kept].
Qed.

(** A program verified for its user or for its session is verified for the server. *)
Lemma rg_for_user {A} u (p : prog eff A) s Q :
  active u → RelyGuarantee.rg (eff_contract f) server_inv kept (acts u) p s Q → rg p s Q.
Proof.
  intros Hu. apply rg_frame; [by intros ? []|by intros ?? []|]. intros s1 s2 [_ HJ] HI Ha.
  split; [split; [done|by eapply acts_sessions]|]. left. by exists u.
Qed.

Lemma rg_for_session {A} (p : prog eff A) s Q :
  RelyGuarantee.rg (eff_contract f) session_inv sessions_kept by_session p s Q → rg p s Q.
Proof.
  apply rg_frame; [by intros ? []|by intros ?? []|]. intros s1 s2 [HI _] HJ Ha.
  split; [split; [by eapply session_frame; [apply Ha|]|done]|]. by right.
Qed.

(** User ids hold no slash: they are UUIDs. *)
Hypothesis active_slash_free : ∀ u, active u → MediaService.slash_free u.

(** A response shows jobs of the user whom the request's token names; a sign-in or a
    refresh answers a pair that is stored for its account. *)
Definition own_answer (rq : HttpRequest) (x : HttpResponse) (s : Store) : Prop :=
  match x with
  | Reply _ (JobsAnswer body) => ∃ u, names cfg (rq_authorization rq) u ∧ owns_response u body s
  | Reply _ (Tokens resp) => issued cfg refreshes identities (proves cfg) resp s
  | _ => True
  end.
Definition own_outcome (r : exn + Outcome) (s : Store) : Prop :=
  match r with inr (Responded rq x) => own_answer rq x s | _ => True end.

Lemma own_answer_stable rq x : stable all_inv all_kept (own_answer rq x).
Proof.
  intros s s' H [HR HS] [HI _]. destruct x as [st [body|resp|a|a]|pr]; try done.
  - destruct H as (u & Hn & Ho). exists u. split; [done|]. by eapply owns_response_stable.
  - by eapply issued_kept.
Qed.
Lemma own_outcome_stable r : stable all_inv all_kept (own_outcome r).
Proof. destruct r as [e|[|rq x]]; [done..|]. apply own_answer_stable. Qed.

(** The guards change nothing, and let a jobs route pass only with a user. *)
Lemma pass_inert amb r authorization :
  inert (eff_contract f) (Http.pass cfg amb AppModule.guards r authorization None)
    (λ res, ∀ user, res = inr user →
       if Router.isPublic r then user = None else ∃ a, user = Some a ∧ names cfg authorization (auth_userId a)).
Proof.
  unfold AppModule.guards. cbn [Http.pass]. destruct (throttled amb (Router.throttle r)); [done|].
  destruct (Router.isPublic r); [by intros user [= <-]|].
  apply inert_bind. eapply inert_mono; [apply guard_inert|]. intros [e|o] Ho; [done|].
  intros user [= <-]. by apply Ho.
Qed.

(** A handler's program, its answer wrapped. *)
Lemma wrapped_verified {A} rq (p : prog eff A) (g : A → Payload) st s :
  all_inv s →
  rg p s (λ r s', ∀ a, r = inr a → own_answer rq (Reply st (g a)) s') →
  rg (body <- (a <- p;; Ret (g a));; Ret (Reply st body)) s
    (λ r s', ∀ x, r = inr x → own_answer rq x s').
Proof.
  intros HI Hp. rg_focus. eapply rg_mono; [exact Hp|]. intros [e|a] s' Ha; [done|]. intros HI'.
  intros s1 HR1 HI1 _ s2 HR2 HI2 x [= <-]. do 2 (eapply own_answer_stable; [|done..]). by apply Ha.
Qed.

Lemma serve_verified amb rq s :
  all_inv s → welcome rq → rg (Http.serve cfg amb rq) s (λ r s', ∀ x, r = inr x → own_answer rq x s').
Proof.
  intros HI Hw. unfold Http.serve. destruct (Router.route rq) as [[r params]|] eqn:Hr; [|done].
  specialize (Hw _ _ Hr). apply find_Some in Hr as [Hr _]. destruct (routes_policy r Hr) as [Hpub _].
  apply rg_bind; [apply _|done|]. eapply rg_mono; [apply inert_rg; [apply _|apply pass_inert]|].
  intros [e|user] s1 Hu; [done|]. intros HI1. specialize (Hu user eq_refl). rewrite Hpub in Hu.
  destruct (handler (Router.endpoint r)) as [h| | | |]; cbn [is_jobs negb] in Hu; cbn [Http.invoke].
  - destruct Hu as (a & -> & Hn). cbn [JwtAuthGuard.CurrentUser settle bind].
    destruct (jobs_request h params rq) as [e|req]; [done|]. cbn [settle bind].
    apply wrapped_verified; [done|]. eapply rg_mono.
    { apply (rg_for_user (auth_userId a)); [by apply Hw|]. apply rg_serve; [by apply active_slash_free, Hw|apply HI1]. }
    intros [e|x] s' Hx y [= <-]. exists (auth_userId a). split; [done|by apply Hx].
  - destruct (piped (rq_body rq)) as [e|dto] eqn:Hq; [done|]. cbn [settle bind].
    apply wrapped_verified; [done|]. eapply rg_mono.
    { apply rg_for_session, rg_signIn; [apply apple_verified|apply HI1|by apply Hw]. }
    intros [e|x] s' Hx y [= <-]. by apply Hx.
  - destruct (piped (rq_body rq)) as [e|dto] eqn:Hq; [done|]. cbn [settle bind].
    apply wrapped_verified; [done|]. eapply rg_mono; [apply rg_for_session, rg_refresh; [apply HI1|by apply Hw]|].
    intros [e|x] s' Hx y [= <-]. by apply Hx.
  - by intros s2 _ _ x [= <-].
  - destruct (HealthController.readiness _ _) as [e|report]; cbn [settle bind]; [done|]. by intros s2 _ _ x [= <-].
Qed.

Lemma respond_verified amb rq s :
  all_inv s → welcome rq → rg (Http.respond cfg amb rq) s (λ r s', ∀ x, r = inr x → own_answer rq x s').
Proof.
  intros HI Hw. unfold Http.respond. apply rg_try_catch; [apply _|done|].
  eapply rg_mono; [by apply serve_verified|]. intros [e|x] s1 Hx; [|exact Hx]. intros HI1.
  unfold AllExceptionsFilter.catch. destruct (AllExceptionsFilter.normalize e) as [[st er] m].
  rg_focus. eapply rg_mono; [apply rg_for_session, rg_clock|]. by intros [e'|t] s2 _; [|intros _ s3 _ _ _ s4 _ _ x [= <-]].
Qed.

Lemma arrives_verified s p : all_inv s → arrives s p → rg p s own_outcome.
Proof.
  intros HI [amb rq Hw|id b attempts made fuel Hb Hu].
  - rg_focus. eapply rg_mono; [by apply respond_verified|]. intros [e|x] s' Hx; [done|]. intros _.
    apply rg_ret; [apply own_outcome_stable|by apply Hx].
  - pose proof HI as [HIs _]. destruct (inv_queue _ HIs _ _ Hb) as [Hid Ho].
    destruct (bull_data b) as [id' u]. cbn [data_jobId data_userId] in *. subst id'. rg_focus.
    eapply rg_mono; [by apply (rg_for_user u), (safe_deliveries cfg f u id); [|apply active_slash_free|..]|].
    by intros [e|[]].
Qed.

Lemma forks_verified s p p' q :
  all_inv s → rg p s own_outcome → forks p p' q → rg p' s own_outcome ∧ rg q s own_outcome.
Proof.
  intros HI Hp (Hf & B & rest & Ha & ->). rewrite Hf in *.
  destruct (abandons_rg _ _ _ _ _ _ Ha _ _ HI Hp) as [Hp' Hq]. split; [done|].
  rg_focus. eapply rg_mono; [exact Hq|]. by intros [e|a].
Qed.

(** Every reached state. *)
Lemma server_reaches s ts s' :
  all_inv s → rtc server_step ([], s) (ts, s') →
  all_inv s' ∧ rtc server_act s s' ∧ ∀ p r, p ∈ ts → ended p = Some r → own_outcome r s'.
Proof.
  intros HI. apply (pool_sound _ _ _ all_inv all_kept server_act own_outcome server_act_kept arrives_verified
    forks_verified []). by split.
Qed.

Lemma server_kept s s' : rtc server_act s s' → all_kept s s'.
Proof. induction 1 as [s|s1 s2 s3 Hs _ IH]; [done|]. etrans; [by apply server_act_kept|done]. Qed.
(** What the others keep: a user [v] none of whose requests or jobs is served. *)
Record spared (v : jstr) (s s' : Store) : Prop := {
  spared_jobs : ∀ id j, job_userId j = v → jobs s' !! id = Some j ↔ jobs s !! id = Some j;
  spared_reports : ∀ id t, owned v id s → report_of s' id t ↔ report_of s id t;
  spared_queue : ∀ id, owned v id s → queue s' !! id = queue s !! id;
  spared_objects : ∀ k, own_key v k → MediaService.slash_free v → objects s' !! k = objects s !! k;
}.

(** Keys name their user. *)
Lemma own_key_user u v k :
  MediaService.slash_free u → MediaService.slash_free v → own_key u k → own_key v k → u = v.
Proof.
  intros Hu Hv [i Hi] [j Hj].
  destruct Hi as [->| ->], Hj as [H|H]; try done; injection H as H; by apply MediaService.split_at_slash in H as [? _].
Qed.

Lemma server_spares v s s' : ¬ active v → rtc server_act s s' → spared v s s'.
Proof.
  intros Hv Hr. induction Hr as [s|s1 s2 s3 [(u & Hu & Ht & HK)|Hses] _ IH]; [done| |].
  - assert (u ≠ v) as Hne by (intros ->; done).
    assert (∀ id, owned v id s1 → owned v id s2) as Hown by (intros id Ho; by eapply owned_kept).
    destruct IH as [J3 R3 Q3 O3]. split.
    + intros id j Hj. rewrite J3 by done. split.
      * intros H. eapply (tenant_new _ _ _ Ht); [done|congruence].
      * intros H. eapply (tenant_jobs _ _ _ Ht); [done|congruence].
    + intros id t Ho. rewrite R3 by auto. destruct Ho as (j & Hj & Hju).
      eapply (tenant_reports _ _ _ Ht); [done|congruence].
    + intros id Ho. rewrite Q3 by auto. destruct Ho as (j & Hj & Hju).
      eapply (tenant_queue _ _ _ Ht); [done|congruence].
    + intros k Hk Hsv. rewrite O3 by done. apply (tenant_objects _ _ _ Ht). intros Hku.
      apply Hne. eapply own_key_user; [by apply active_slash_free|done..].
  - destruct Hses as [(us & ts & t & ->) _]. destruct IH as [J3 R3 Q3 O3]. by split.
Qed.

(** What the sessions of others keep: an account [v] that nobody presented. *)
Record unvisited (v : jstr) (s s' : Store) : Prop := {
  unvisited_account : users s' !! v = users s !! v;
  unvisited_tokens : ∀ h x, rt_userId x = v → refreshTokens s' !! h = Some x ↔ refreshTokens s !! h = Some x;
}.

Abbreviation presented := (presented cfg refreshes identities (proves cfg)).

Lemma server_leaves v s s' : rtc server_act s s' → ¬ presented v s' → unvisited v s s'.
Proof.
  intros Hr Hv. induction Hr as [s|s1 s2 s3 Hst Hr IH]; [done|].
  destruct (IH Hv) as [U T]. destruct Hst as [(u & _ & Ht & _)|(_ & _ & Hs)].
  - destruct (tenant_users _ _ _ Ht) as [Hu Hrt]. split; [by rewrite U, Hu|]. intros h x Hx. by rewrite T, Hrt.
  - destruct Hs as [[Hu Hrt]|(w & [Su St] & Hw)]; [split; [by rewrite U, Hu|]; intros h x Hx; by rewrite T, Hrt|].
    assert (v ≠ w) as Hne.
    { intros ->. apply Hv. eapply presented_kept; [exact Hw|]. by apply server_kept. }
    split; [by rewrite U, Su|]. intros h x Hx. rewrite T by done. apply St. congruence.
Qed.


(** C3: Sessions under concurrency.  Whatever requests, deliveries, sign-ins and
    refreshes run interleaved and whatever fails: every Apple subject has one
    account and every refresh token an account; no token is lost, changes its owner
    or its expiry, or becomes active again once it is revoked; an account that was
    not presented - by a refresh token of its own or an identity token that proves
    its subject - keeps exactly its tokens; and every pair that was answered is
    stored for an account that was presented, and its access token names that
    account and its subject. *)
Theorem sessions_stay_apart s ts s' :
  all_inv s → rtc server_step ([], s) (ts, s') →
  unique_subjects s'
  ∧ (∀ h x, refreshTokens s' !! h = Some x → is_Some (users s' !! rt_userId x))
  ∧ (∀ h x, refreshTokens s !! h = Some x → ∃ x', refreshTokens s' !! h = Some x'
       ∧ rt_userId x' = rt_userId x ∧ expiresAt x' = expiresAt x ∧ (revokedAt x ≠ None → revokedAt x' ≠ None))
  ∧ (∀ v, ¬ presented v s' → unvisited v s s')
  ∧ ∀ p rq st resp, p ∈ ts → ended p = Some (inr (Responded rq (Reply st (Tokens resp)))) →
      presented (token_userId resp) s'
      ∧ token_of (TokenService.hashRefreshToken cfg (refreshToken resp)) (token_userId resp) s'
      ∧ ∃ u t, users s' !! token_userId resp = Some u
               ∧ accessToken resp = signed cfg (token_userId resp) (appleSub u) t.
Proof.
  intros HI Hr. destruct (server_reaches s ts s' HI Hr) as ([_ [I1 I2]] & Hst & HQ).
  destruct (server_kept _ _ Hst) as [_ HS].
  split; [done|]. split; [done|]. split; [apply (kept_tokens _ _ HS)|]. split; [intros v; by apply server_leaves|].
  intros p rq st resp Hp He. destruct (HQ p _ Hp He) as (H1 & H2 & sub & t & (u & Hu & <-) & Ha).
  split; [done|]. split; [done|]. by exists u, t.
Qed.


(** C4: In every state the server reaches, a READY job that was not deleted has
    its PDF in the object store; and a PDF that was stored for a job is there
    until the job is deleted, whatever deletions, deliveries and failures ran
    in between. *)
Theorem ready_pdfs_stay_stored s ts s' :
  all_inv s → rtc server_step ([], s) (ts, s') →
  (∀ id j, jobs s' !! id = Some j → job_status j = READY → job_deletedAt j = None →
     is_Some (objects s' !! MediaService.pdfKey (job_userId j) id))
  ∧ (∀ id j j', jobs s !! id = Some j → is_Some (objects s !! MediaService.pdfKey (job_userId j) id) →
       jobs s' !! id = Some j' → job_deletedAt j' = None →
       is_Some (objects s' !! MediaService.pdfKey (job_userId j) id)).
Proof.
  intros HI Hr. destruct (server_reaches s ts s' HI Hr) as ([[_ _ Hps _] _] & Hst & _). split; [apply Hps|].
  intros id j j' Hj Hp Hj' Hd.
  destruct (kept_pdfs _ _ (proj1 (server_kept _ _ Hst)) (job_userId j) id) as [?|(j2 & Hj2 & _ & Hd2)];
    [by exists j|done..|congruence].
Qed.
End Server.

(** Alice's first report is rendered and her second recording is queued; Bob has a
    draft.  Both are signed in. *)
Definition ready_row : Job :=
  apply_data (mkJobData None (Some READY) (Some (js "The roof leaks.")) (Some (MediaService.pdfKey (js "alice") (js "j1")))
    (Some None) None None) 9 (draft "alice" "j1").
Definition queued_row : Job := apply_data (status_data QUEUED None) 9 (draft "alice" "j3").
Definition queued_data : ProcessJobData := mkProcessJobData (js "j3") (js "alice").
Definition hash_in (token : string) : jstr := TokenService.hashRefreshToken run_cfg (js token).
Definition busy_day : Store :=
  with_queue {[js "j3" := mkBullJob PROCESS_JOB queued_data (ProcessingQueue.enqueue_options run_cfg queued_data) (js "waiting")]}
    (with_objects {[MediaService.pdfKey (js "alice") (js "j1") := mkStoredObject [37; 80; 68; 70]%N (js "application/pdf");
                    MediaService.audioKey (js "alice") (js "j3") := mkStoredObject [1]%N AUDIO_CONTENT_TYPE]}
    (with_jobs {[js "j1" := ready_row; js "j2" := draft "bob" "j2"; js "j3" := queued_row]}
    (with_refreshTokens {[hash_in "a0" := mkRefreshToken (js "alice") 5000 None None;
                          hash_in "b0" := mkRefreshToken (js "bob") 5000 None None]} two_users))).

Lemma name_slash_free (u : string) : existsb (N.eqb 47) (js u) = false → MediaService.slash_free (js u).
Proof.
  intros H Hin. assert (existsb (N.eqb 47) (js u) = true) as Ht; [|congruence].
  apply existsb_exists. exists 47%N. split; [by apply list_elem_of_In|done].
Qed.

Lemma busy_day_inv : server_inv busy_day.
Proof.
  assert (∀ id j, jobs busy_day !! id = Some j →
    id = js "j1" ∧ j = ready_row ∨ id = js "j2" ∧ j = draft "bob" "j2" ∨ id = js "j3" ∧ j = queued_row) as H.
  { intros id j Hj. unfold busy_day in Hj. cbn [jobs with_objects with_jobs with_queue] in Hj.
    apply lookup_insert_Some in Hj as [[<- <-]|[_ Hj]]; [by left|right].
    apply lookup_insert_Some in Hj as [[<- <-]|[_ [<- <-]%lookup_singleton_Some]]; auto. }
  destruct (no_reports busy_day eq_refl) as (Hc & Ha & Hb). split; [split; [done| | |done|done|]| | |].
  - intros id j [[-> ->]|[[-> ->]|[-> ->]]]%H; by vm_compute; auto.
  - intros id id' j j' k [[-> ->]|[[-> ->]|[-> ->]]]%H _ _ Hk; vm_compute in Hk; discriminate.
  - intros id j [[-> ->]|[[-> ->]|[-> ->]]]%H; (split; [by try split|by vm_compute]).
  - intros id b Hq. unfold busy_day in Hq. cbn [queue with_queue] in Hq.
    apply lookup_singleton_Some in Hq as [<- <-]. split; [done|]. exists queued_row. by split.
  - intros id j [[-> ->]|[[-> ->]|[-> ->]]]%H; [intros _ _|discriminate..].
    unfold pdf_at, busy_day. cbn [objects with_objects with_queue]. apply lookup_insert_is_Some'. by left.
  - intros id j [[-> ->]|[[-> ->]|[-> ->]]]%H; by apply name_slash_free.
Qed.

(** An empty database satisfies the invariant. *)
Lemma empty_store_inv : server_inv empty_store.
Proof.
  assert (∀ id j, jobs empty_store !! id = Some j → False) as H.
  { intros id j Hj. change (jobs empty_store) with (∅ : gmap jstr Job) in Hj. by rewrite lookup_empty in Hj. }
  destruct (no_reports empty_store eq_refl) as (Hc & Ha & Hb). split; [split; [done| | |done|done|]| | |].
  - intros id j []%H.
  - intros id id' j j' k []%H.
  - intros id j []%H.
  - intros id b Hq. change (queue empty_store) with (∅ : gmap jstr BullJob) in Hq. by rewrite lookup_empty in Hq.
  - intros id j []%H.
  - intros id j []%H.
Qed.

Lemma alice_slash_free u : u = js "alice" → MediaService.slash_free u.
Proof. intros ->. by apply name_slash_free. Qed.

Lemma busy_day_sessions : session_inv busy_day.
Proof.
  assert (∀ id u, users busy_day !! id = Some u →
    id = js "alice" ∧ u = mkUser (js "a") None ∨ id = js "bob" ∧ u = mkUser (js "b") None) as H.
  { intros id u Hu. unfold busy_day, two_users in Hu.
    cbn [users with_objects with_jobs with_queue with_refreshTokens with_users] in Hu.
    apply lookup_insert_Some in Hu as [[<- <-]|[_ [<- <-]%lookup_singleton_Some]]; auto. }
  split.
  - by intros i j u v [[-> ->]|[-> ->]]%H [[-> ->]|[-> ->]]%H Huv.
  - intros h x Hx. unfold busy_day in Hx. cbn [refreshTokens with_objects with_jobs with_queue with_refreshTokens] in Hx.
    apply lookup_insert_Some in Hx as [[<- <-]|[_ [<- <-]%lookup_singleton_Some]]; vm_compute; by eexists.
Qed.

Lemma busy_day_all_inv : all_inv busy_day.
Proof. split; [apply busy_day_inv|apply busy_day_sessions]. Qed.

#[local] Existing Instance TranscriptionProviders.MockTranscriptionProvider.
#[local] Existing Instance CompilerProviders.MockReportCompiler.
#[local] Existing Instance mock_renderer.
#[local] Existing Instance mock_zod.

(** Alice's access token, in a header. *)
Definition alice_token : jstr := signed run_cfg (js "alice") (js "a") 0.
Definition alice_header : option jstr := Some (js "Bearer " ++ alice_token).

Lemma alice_named u : names run_cfg alice_header u → u = js "alice".
Proof.
  intros (tok & c & a & Ht & Hc & Ha & <-). unfold alice_header in Ht.
  destruct (jwt_sign_compact (accessSecret (cfg_jwt run_cfg))
    (TokenService.access_claims run_cfg (js "alice") (js "a") (0 / 1000))) as [Hne Hsp].
  rewrite extract_bearer in Ht by done. injection Ht as <-. unfold alice_token, signed in Hc.
  rewrite jwt_payload_sign in Hc. injection Hc as <-.
  assert (JwtAuthGuard.user_of (TokenService.access_claims run_cfg (js "alice") (js "a") (0 / 1000))
          = Some (mkAuthenticatedUser (js "alice") (js "a"))) as E by (vm_compute; reflexivity).
  rewrite E in Ha. by injection Ha as <-.
Qed.

(** Pipes that take any slash-free text for a job id: the ids of this day are short. *)
#[local, program] Instance short_ids : Pipes := {|
  transform := @transform reference_pipes;
  is_uuid := λ s, truthy s && forallb (λ c, negb (N.eqb 47 c)) s;
|}.
Next Obligation. apply (@transform_valid reference_pipes). Qed.
Next Obligation. apply (@transform_wire reference_pipes). Qed.
Next Obligation. apply (@transform_unknown reference_pipes). Qed.
Next Obligation.
  cbn beta. intros s c [_ Hs]%andb_true_iff Hc ->. rewrite forallb_forall in Hs.
  by specialize (Hs _ (proj1 (list_elem_of_In _ _) Hc)).
Qed.
Next Obligation. done. Qed.
#[local] Existing Instance ReferenceRouter.reference_express.
#[local] Existing Instance reference_terminus.
#[local] Existing Instance reference_throwables.
#[local] Instance code_units : Validator := {| str_length := @length N |}.

(** Alice deletes her finished job and looks at the queued one while the worker processes
    it; she refreshes her session, and somebody signs in for the first time: five
    programs, their calls interleaved. *)
Definition over_http (rq : HttpRequest) : prog eff Outcome :=
  x <- Http.respond run_cfg quiet_ambient rq;; Ret (Responded rq x).
Definition alice_asks : JobsController.Request → HttpRequest := request_of alice_header None (js "/jobs").
Definition post (route : string) (body : claims) : HttpRequest :=
  mkHttpRequest Post [js "auth"; js route] JNull None None (JObj body) None (js "/auth").
Definition newcomer : AppleSignInDto := mkAppleSignInDto apple_token (Value (js "n0")) Undefined.
Definition delete_request : HttpRequest := alice_asks (JobsController.DeleteJob (js "j1")).
Definition get_request : HttpRequest := alice_asks (JobsController.GetJob (js "j3")).
Definition refresh_request : HttpRequest := post "refresh" (to_wire (mkRefreshDto (js "a0"))).
Definition sign_in_request : HttpRequest := post "apple" (to_wire newcomer).
Definition delivery : prog eff Outcome := ProcessingProcessor.deliveries run_cfg queued_data 3 0 3;; Ret Worked.
Definition day : list (prog eff Outcome) :=
  [over_http delete_request; over_http get_request; delivery; over_http refresh_request; over_http sign_in_request].
Definition turns : list nat :=
  [0; 2; 3; 2; 0; 4; 2; 3; 2; 0; 4; 2; 1; 3; 2; 0; 2; 3; 0; 3; 2; 2; 0; 3; 3; 4; 1; 4; 1; 3; 0; 4; 1; 3; 4; 4; 0]
  ++ replicate 60 2.
Definition after_turns : list (prog eff Outcome) * memory :=
  schedule (mem_handle false) turns day (mkMemory busy_day quiet).

Abbreviation is_alice := (λ u, u = js "alice").
Abbreviation is_a0 := (λ t, t = js "a0").
Abbreviation is_apple := (λ t, t = apple_token).
Abbreviation alice_server := (server_step run_cfg false is_alice is_a0 is_apple).

(** The requests bring what they may. *)
Ltac by_route := intros r params Hr; vm_compute in Hr; injection Hr as <- <-; cbn [Router.endpoint handler].

Lemma day_welcome :
  Forall (welcome run_cfg is_alice is_a0 is_apple) [delete_request; get_request; refresh_request; sign_in_request].
Proof.
  repeat constructor; by_route; [exact alice_named|exact alice_named|..]; intros dto Hd; vm_compute in Hd;
    by injection Hd as <-.
Qed.

Lemma busy_arrivals : rtc alice_server ([], busy_day) (day, busy_day).
Proof.
  assert (∀ ts p, arrives run_cfg is_alice is_a0 is_apple busy_day p →
    rtc alice_server (ts, busy_day) (ts ++ [p], busy_day)) as Harr.
  { intros ts p Hp. by apply rtc_once, pool_arrive. }
  destruct (proj1 (Forall_cons _ _ _) day_welcome) as [W1 Hw]. destruct (proj1 (Forall_cons _ _ _) Hw) as [W2 Hw2].
  destruct (proj1 (Forall_cons _ _ _) Hw2) as [W3 Hw3]. destruct (proj1 (Forall_cons _ _ _) Hw3) as [W4 _].
  etrans; [exact (Harr [] _ (request_arrives _ _ _ _ _ quiet_ambient _ W1))|].
  etrans; [exact (Harr _ _ (request_arrives _ _ _ _ _ quiet_ambient _ W2))|].
  etrans; [apply Harr, (entry_delivered _ _ _ _ _ (js "j3")); [apply lookup_singleton_eq|reflexivity]|].
  etrans; [exact (Harr _ _ (request_arrives _ _ _ _ _ quiet_ambient _ W3))|].
  exact (Harr [_; _; _; _] _ (request_arrives _ _ _ _ _ quiet_ambient _ W4)).
Qed.

Lemma busy_run : rtc alice_server ([], busy_day) (after_turns.1, m_store after_turns.2).
Proof.
  exact (transitivity busy_arrivals
    (schedule_steps (eff_contract false) (mem_handle false) m_store (mem_handle_ok false) _ _ turns
       day (mkMemory busy_day quiet))).
Qed.

(** What it comes to: the finished job is deleted with its PDF, the queued one is READY
    with its own, Alice's token is spent, there is a third account, and everything has
    ended. *)
Example busy_outcome :
  (job_deletedAt <$> jobs (m_store after_turns.2) !! js "j1") ≠ Some None
  ∧ objects (m_store after_turns.2) !! MediaService.pdfKey (js "alice") (js "j1") = None
  ∧ (job_status <$> jobs (m_store after_turns.2) !! js "j3") = Some READY
  ∧ (active <$> refreshTokens (m_store after_turns.2) !! hash_in "a0") = Some false
  ∧ size (users (m_store after_turns.2)) = 3 ∧ size (refreshTokens (m_store after_turns.2)) = 4
  ∧ forallb (λ p, match ended p with Some (inr _) => true | _ => false end) after_turns.1 = true.
Proof. vm_compute. split_and!; [discriminate|reflexivity..]. Qed.

(** A creation and its retry with the same key, their calls in turn: the look-ups find
    nothing, one row is stored, and the other request is not replayed but told of a
    conflict. *)
Definition keyed_request : HttpRequest := alice_asks (JobsController.PostJob (mkCreateJobDto (js "12 High Street")) (Some (js "k1"))).
Example create_race :
  let run := schedule (mem_handle false) (concat (replicate 12 [0; 1])) [over_http keyed_request; over_http keyed_request]
               (mkMemory busy_day quiet) in
  match ended <$> run.1 with
  | [Some (inr (Responded _ (Reply 201 _))); Some (inr (Responded _ (Problem p)))] => bool_decide (statusCode p = 409%Z)
  | _ => false
  end = true
  ∧ size (jobs (m_store run.2)) = S (size (jobs busy_day)).
Proof. vm_compute. split; reflexivity. Qed.

(** Nobody presented Bob's account. *)
Lemma bob_not_presented :
  ¬ presented run_cfg is_a0 is_apple (proves run_cfg) (js "bob") (m_store after_turns.2).
Proof.
  intros [(tok & -> & x & Hx & Hu)|(idt & sub & -> & [Hd|(c & Hc & Hs)] & u & Hu & <-)].
  - vm_compute in Hx. injection Hx as <-. vm_compute in Hu. discriminate Hu.
  - vm_compute in Hd. discriminate Hd.
  - vm_compute in Hu. injection Hu as <-. vm_compute in Hc. injection Hc as <-. vm_compute in Hs. discriminate Hs.
Qed.



Lemma ready_pdfs_stay_stored_witness :
  is_Some (objects (m_store after_turns.2) !! MediaService.pdfKey (js "alice") (js "j3")).
Proof.
  destruct (jobs (m_store after_turns.2) !! js "j3") as [j|] eqn:Hj; [|vm_compute in Hj; discriminate Hj].
  assert (job_userId j = js "alice" ∧ job_status j = READY ∧ job_deletedAt j = None) as (Hu & Hs & Hd)
    by (vm_compute in Hj; injection Hj as <-; split; [|split]; vm_compute; reflexivity).
  rewrite <-Hu.
  exact (proj1 (ready_pdfs_stay_stored run_cfg false is_alice is_a0 is_apple alice_slash_free busy_day _ _
           busy_day_all_inv busy_run) (js "j3") j Hj Hs Hd).
Defined.

Lemma sessions_stay_apart_witness :
  refreshTokens (m_store after_turns.2) !! hash_in "b0" = Some (mkRefreshToken (js "bob") 5000 None None)
  ∧ unique_subjects (m_store after_turns.2).
Proof.
  destruct (sessions_stay_apart run_cfg false is_alice is_a0 is_apple alice_slash_free busy_day _ _
              busy_day_all_inv busy_run) as (Hun & _ & _ & Hv & _).
  split; [|exact Hun]. apply (unvisited_tokens _ _ _ (Hv (js "bob") bob_not_presented)); vm_compute; reflexivity.
Defined.
