(* ===== verification/Notebook.v ===== *)
(** * What the API promises: a notebook per user

    An abstract specification of the server as a client sees it, without tables,
    objects, queues or sortOrder columns: each user has a [Notebook] of notes.
    [api_effect] says what a request does to it, [progress] what a delivery may
    do.  The theorem at the end: any history of requests and deliveries on any
    services is a history of notebooks. *)
From S2P Require Import Prelude Json Program RelyGuarantee Schema Services Memory JsDate Report Zod Config Media Queue JobsRepository Dto Auth JobsService Tenancy Concurrent Api JobsProperties Transcription Compiler ReportHtml PdfRenderer Pipeline PipelineProperties Processor Deliveries Server.
Import JobsService.

(** ** The abstract state *)
Record Note := mkNote {
  n_label : jstr;
  n_status : JobStatus;
  n_transcript : option jstr;
  n_error : option jstr;
  n_report : Datatypes.list ReportSectionInput;
  n_pdf : bool;
  n_key : option jstr;
  n_created : Z;
  n_updated : Z;
}.

(** The notes of a user, and the idempotency keys of those that were deleted. *)
Record Notebook := mkNotebook { notes : gmap jstr Note; spent : gset jstr }.

(** ** The abstract operations *)
Definition new_note (label : jstr) (key : option jstr) (t : Z) : Note :=
  mkNote label CREATED None None [] false key t t.

Definition edit_note (dto : UpdateJobDto) (t : Z) (n : Note) : Note :=
  match uj_sections dto, uj_label dto with
  | Undefined, Undefined => n
  | sections, label =>
      mkNote (match label with Value l => l | _ => n_label n end) (n_status n) (n_transcript n) (n_error n)
        (match sections with Undefined => n_report n | _ => toReportInput sections end)
        (n_pdf n) (n_key n) (n_created n) t
  end.

Definition queue_note (t : Z) (n : Note) : Note :=
  mkNote (n_label n) QUEUED (n_transcript n) None (n_report n) (n_pdf n) (n_key n) (n_created n) t.

Definition has_pdf (n : Note) : bool := bool_decide (n_status n = READY) && n_pdf n.

(** Newest first, as pages are cut. *)
Definition newer (a b : jstr * Note) : Prop :=
  (n_created b.2 < n_created a.2)%Z ∨ (n_created a.2 = n_created b.2 ∧ jstr_ltb b.1 a.1 = true).
Definition in_order (nb : Notebook) (full : Datatypes.list (jstr * Note)) : Prop :=
  NoDup full ∧ (∀ p, p ∈ full ↔ notes nb !! p.1 = Some p.2) ∧ StronglySorted (λ a b, ¬ (newer b a)) full.

Definition set_note (id : jstr) (n : Note) (nb : Notebook) : Notebook :=
  mkNotebook (<[id := n]> (notes nb)) (spent nb).
Definition drop_note (id : jstr) (n : Note) (nb : Notebook) : Notebook :=
  mkNotebook (delete id (notes nb)) (match n_key n with Some k => {[k]} ∪ spent nb | None => spent nb end).

(** The key is free: no note has it and no deleted note had it. *)
Definition free_key (key : option jstr) (nb : Notebook) : Prop :=
  ∀ k, key = Some k → ¬ (k ∈ spent nb) ∧ (∀ id n, notes nb !! id = Some n → n_key n ≠ Some k).

Inductive Reply :=
  | Shown (id : jstr) (n : Note) (link : bool)
  | Made (id : jstr) (n : Note)
  | Listed (l : Datatypes.list (jstr * Note)) (next : option jstr)
  | PdfLink
  | Removed
  | Refused (status : Z)
  | Broken.

(** What a request does when no service fails. *)
Inductive api_effect (nb : Notebook) : JobsController.Request → Reply → Notebook → Prop :=
  | eff_list q full l :
      in_order nb full →
      page_of full (Z.to_nat (pq_limit q)) (truthy_opt (pq_cursor q)) l →
      api_effect nb (JobsController.GetJobs q)
        (Listed l (if bool_decide (length l = Z.to_nat (pq_limit q)) then fst <$> last l else None)) nb
  | eff_get id n :
      notes nb !! id = Some n → api_effect nb (JobsController.GetJob id) (Shown id n (has_pdf n)) nb
  | eff_missing req id :
      target req = Some id → notes nb !! id = None → api_effect nb req (Refused 404) nb
  | eff_patch id dto n t :
      notes nb !! id = Some n → uj_label dto ≠ Null →
      let n' := edit_note dto t n in
      api_effect nb (JobsController.PatchJob id dto) (Shown id n' (has_pdf n')) (set_note id n' nb)
  | eff_busy id n :
      notes nb !! id = Some n → n_status n = READY ∨ in_flight (n_status n) = true →
      api_effect nb (JobsController.PostProcess id) (Shown id n (has_pdf n)) nb
  | eff_no_audio id n :
      notes nb !! id = Some n → n_status n ≠ READY → in_flight (n_status n) = false →
      api_effect nb (JobsController.PostProcess id) (Refused 400) nb
  | eff_start id n t :
      notes nb !! id = Some n → n_status n ≠ READY → in_flight (n_status n) = false →
      api_effect nb (JobsController.PostProcess id) (Shown id (queue_note t n) false)
        (set_note id (queue_note t n) nb)
  | eff_pdf id n :
      notes nb !! id = Some n →
      api_effect nb (JobsController.GetPdf id) (if has_pdf n then PdfLink else Refused 409) nb
  | eff_delete id n :
      notes nb !! id = Some n → api_effect nb (JobsController.DeleteJob id) Removed (drop_note id n nb)
  | eff_replay dto header k id n :
      JobsController.idempotency_key header = Some k → notes nb !! id = Some n → n_key n = Some k →
      api_effect nb (JobsController.PostJob dto header) (Made id n) nb
  | eff_spent dto header k :
      JobsController.idempotency_key header = Some k → k ∈ spent nb →
      (∀ id n, notes nb !! id = Some n → n_key n ≠ Some k) →
      api_effect nb (JobsController.PostJob dto header) (Refused 409) nb
  | eff_create dto header id t :
      notes nb !! id = None → free_key (JobsController.idempotency_key header) nb →
      let n := new_note (cj_label dto) (JobsController.idempotency_key header) t in
      api_effect nb (JobsController.PostJob dto header) (Made id n) (set_note id n nb).

Definition null_label (req : JobsController.Request) : bool :=
  match req with
  | JobsController.PatchJob _ dto => match uj_label dto with Null => true | _ => false end
  | _ => false
  end.

(** A failure of a service answers [Broken]: the request has then had no effect, or
    its whole effect.  A [null] label is always such a failure, without effect. *)
Inductive api_step (f : bool) (nb : Notebook) (req : JobsController.Request) : Reply → Notebook → Prop :=
  | step_done r nb' : api_effect nb req r nb' → api_step f nb req r nb'
  | step_broken : f = true ∨ null_label req = true → api_step f nb req Broken nb
  | step_cut_off r nb' : f = true → api_effect nb req r nb' → api_step f nb req Broken nb'.

(** A delivery may move a note through the pipeline: it writes a transcript, a
    report, an error, a PDF and the status, and nothing else; a note that is READY
    stays as it is. *)
Definition progress (n n' : Note) : Prop :=
  n_label n' = n_label n ∧ n_key n' = n_key n ∧ n_created n' = n_created n
  ∧ (n_status n = READY → n' = n)
  ∧ (n_pdf n' = n_pdf n ∨ n_pdf n' = true).
Definition delivery_step (id : jstr) (nb nb' : Notebook) : Prop :=
  nb' = nb ∨ ∃ n n', notes nb !! id = Some n ∧ progress n n' ∧ nb' = set_note id n' nb.

(** ** The notebook of a store *)
Definition note_of (j : Job) (report : Datatypes.list ReportSectionInput) : Note :=
  mkNote (job_label j) (job_status j) (job_transcript j) (job_errorMessage j) report
    (bool_decide (is_Some (truthy_opt (job_pdfKey j)))) (job_idempotencyKey j) (job_createdAt j) (job_updatedAt j).

Definition report_in (s : Store) (id : jstr) : Datatypes.list ReportSectionInput := report_tree (load_report s id).

Definition deleted_key (u : jstr) (j : Job) : option jstr :=
  if bool_decide (job_userId j = u ∧ job_deletedAt j ≠ None) then job_idempotencyKey j else None.

Definition notebook (u : jstr) (s : Store) : Notebook :=
  mkNotebook
    (map_imap (λ id j, if bool_decide (job_userId j = u ∧ job_deletedAt j = None)
                       then Some (note_of j (report_in s id)) else None) (jobs s))
    (list_to_set (omap (λ p, deleted_key u p.2) (map_to_list (jobs s)))).

Lemma notes_lookup u s id :
  notes (notebook u s) !! id = (λ j, note_of j (report_in s id)) <$> live_job s u id.
Proof.
  simpl. rewrite map_lookup_imap. unfold live_job. destruct (jobs s !! id) as [j|]; simpl; [|done].
  by case_bool_decide.
Qed.

Lemma spent_elem u s k :
  k ∈ spent (notebook u s) ↔
  ∃ id j, jobs s !! id = Some j ∧ job_userId j = u ∧ job_deletedAt j ≠ None ∧ job_idempotencyKey j = Some k.
Proof.
  simpl. rewrite elem_of_list_to_set, list_elem_of_omap. unfold deleted_key. split.
  - intros ([id j] & Hj%elem_of_map_to_list & Hk). simpl in Hk. case_bool_decide as Hd; [|done].
    destruct Hd. by exists id, j.
  - intros (id & j & Hj & Hu & Hd & Hk). exists (id, j). split; [by apply elem_of_map_to_list|].
    simpl. by rewrite bool_decide_true.
Qed.

Lemma notebook_eq u s nb :
  (∀ id, notes nb !! id = (λ j, note_of j (report_in s id)) <$> live_job s u id) →
  (∀ k, k ∈ spent nb ↔ ∃ id j, jobs s !! id = Some j ∧ job_userId j = u ∧ job_deletedAt j ≠ None
                               ∧ job_idempotencyKey j = Some k) →
  notebook u s = nb.
Proof.
  intros Hn Hs. destruct nb as [m X]. unfold notebook. f_equal.
  - apply map_eq. intros id. change (notes (notebook u s) !! id = m !! id). rewrite notes_lookup. symmetry. apply Hn.
  - apply set_eq. intros k. change (k ∈ spent (notebook u s) ↔ k ∈ X). rewrite spent_elem. symmetry. apply Hs.
Qed.

(** What is read is what the notebook says. *)
Lemma report_in_eq s id t : unambiguous s → report_of s id t → report_tree t = report_in s id.
Proof. intros Ha Ht. unfold report_in. by rewrite (Ha id t (load_report s id) Ht (load_report_of s id)). Qed.

Lemma report_in_same s s' id :
  unambiguous s' → (∀ t, report_of s' id t ↔ report_of s id t) → report_in s' id = report_in s id.
Proof. intros Ha H. symmetry. apply report_in_eq; [done|]. apply H, load_report_of. Qed.

(** A step of one user leaves the other notebooks as they are. *)
Lemma notebook_frame u v s s' :
  u ≠ v → integrity s → integrity s' → tenant u s s' → notebook v s' = notebook v s.
Proof.
  intros Hne Hi Hi' Ht.
  assert (∀ id j, job_userId j = v → jobs s' !! id = Some j ↔ jobs s !! id = Some j) as Hj.
  { intros id j Hu. split; intros H.
    - eapply (tenant_new _ _ _ Ht); [done|congruence].
    - eapply (tenant_jobs _ _ _ Ht); [done|congruence]. }
  apply notebook_eq.
  - intros id. rewrite notes_lookup. assert (live_job s' v id = live_job s v id) as ->.
    { apply option_eq. intros j. rewrite !live_job_Some. split; intros (H & Hu & Hd); (split; [by apply Hj|done]). }
    destruct (live_job s v id) as [j|] eqn:Hl; simpl; [|done]. apply live_job_Some in Hl as (Hjs & Hu & _).
    do 2 f_equal. symmetry. apply report_in_same; [apply Hi'|]. intros t. eapply (tenant_reports _ _ _ Ht); [done|congruence].
  - intros k. rewrite spent_elem. split; intros (id & j & H & Hu & Hr); exists id, j; (split; [by apply Hj|done]).
Qed.

(** ** Writing a row *)

(** The user's live row at [id] becomes [j'], the other reports stay. *)
Lemma notebook_row u s s' id j' :
  unambiguous s' → (∀ j, jobs s !! id = Some j → job_userId j = u ∧ job_deletedAt j = None) →
  jobs s' = <[id := j']> (jobs s) → job_userId j' = u → job_deletedAt j' = None →
  (∀ i t, i ≠ id → report_of s' i t ↔ report_of s i t) →
  notebook u s' = set_note id (note_of j' (report_in s' id)) (notebook u s).
Proof.
  intros Ha Hold Hj' Hu Hd Hr. apply notebook_eq.
  - intros i. cbn [notes set_note]. unfold live_job. rewrite Hj'. destruct (decide (i = id)) as [->|Hne].
    + rewrite !lookup_insert_eq. by rewrite bool_decide_true.
    + rewrite !lookup_insert_ne by done. rewrite notes_lookup. fold (live_job s u i).
      destruct (live_job s u i); simpl; [|done]. do 2 f_equal. symmetry. apply report_in_same; [done|]. by intros; apply Hr.
  - intros k. cbn [spent set_note]. rewrite spent_elem, Hj'. split.
    + intros (i & j & Hj & Hju & Hjd & Hk). exists i, j. split; [|done]. rewrite lookup_insert_ne; [done|].
      intros <-. by destruct (Hold _ Hj).
    + intros (i & j & [[<- <-]|[_ Hj]]%lookup_insert_Some & Hju & Hjd & Hk); [done|by exists i, j].
Qed.

(** The user's live row at [id] becomes a deleted one. *)
Lemma notebook_delete u s s' id j j' :
  live_job s u id = Some j → jobs s' = <[id := j']> (jobs s) → job_userId j' = u → job_deletedAt j' ≠ None →
  job_idempotencyKey j' = job_idempotencyKey j → reportSections s' = reportSections s → findings s' = findings s →
  notebook u s' = drop_note id (note_of j (report_in s id)) (notebook u s).
Proof.
  intros (Hj & Hju & Hjd)%live_job_Some Hj' Hu Hd Hk Hs Hf. apply notebook_eq.
  - intros i. cbn [notes drop_note]. unfold live_job. rewrite Hj'. destruct (decide (i = id)) as [->|Hne].
    + rewrite lookup_delete_eq, lookup_insert_eq. rewrite bool_decide_false; [done|]. by intros [].
    + rewrite lookup_delete_ne, lookup_insert_ne by done. rewrite notes_lookup. fold (live_job s u i).
      unfold report_in, load_report. by rewrite Hs, Hf.
  - intros k. cbn [spent drop_note note_of n_key]. rewrite Hj'.
    assert (k ∈ match job_idempotencyKey j with Some k => {[k]} ∪ spent (notebook u s) | None => spent (notebook u s) end
            ↔ job_idempotencyKey j = Some k ∨ k ∈ spent (notebook u s)) as ->.
    { destruct (job_idempotencyKey j) as [k'|]; [|naive_solver]. rewrite elem_of_union, elem_of_singleton. naive_solver. }
    rewrite spent_elem. split.
    + intros [Hkj|(i & x & Hx & Hxu & Hxd & Hkx)].
      * exists id, j'. rewrite lookup_insert_eq. split_and!; [done..|congruence].
      * exists i, x. rewrite lookup_insert_ne; [done|]. intros <-. congruence.
    + intros (i & x & [[<- <-]|[_ Hx]]%lookup_insert_Some & Hxu & Hxd & Hkx); [left; congruence|right; by exists i, x].
Qed.

Lemma set_note_id u s id n : notes (notebook u s) !! id = Some n → set_note id n (notebook u s) = notebook u s.
Proof. intros Hn. unfold set_note. rewrite insert_id by done. by destruct (notebook u s). Qed.

(** ** Responses and replies *)
Definition dto_shows (d : JobDto) (id : jstr) (n : Note) (link : bool) : Prop :=
  dto_id d = id ∧ dto_label d = n_label n ∧ dto_status d = n_status n ∧ dto_transcript d = n_transcript n
  ∧ dto_errorMessage d = n_error n ∧ dto_report d = n_report n ∧ dto_createdAt d = toISOString (n_created n)
  ∧ dto_updatedAt d = toISOString (n_updated n) ∧ bool_decide (is_Some (dto_pdfUrl d)) = link.

Definition replies (r : exn + JobsController.Response) (y : Reply) : Prop :=
  match r, y with
  | inr (JobsController.JobShown d), Shown id n link => dto_shows d id n link
  | inr (JobsController.JobCreated c), Made id n => dto_shows (cr_job c) id n false
  | inr (JobsController.JobPage p), Listed l next =>
      Forall2 (λ d q, dto_shows d q.1 q.2 false) (items p) l ∧ nextCursor p = next
  | inr (JobsController.PdfUrlShown _), PdfLink => True
  | inr JobsController.NoContent, Removed => True
  | inl e, Refused status => (AllExceptionsFilter.normalize e).1.1 = status
  | inl e, Broken => infra e
  | _, _ => False
  end.

Lemma dto_shows_note x id r url :
  jwr_id x = id → tree_ordered (jwr_sections x) → report_tree (jwr_sections x) = r →
  dto_shows (jobToDto x url) id (note_of (jwr_job x) r) (bool_decide (is_Some url)).
Proof. intros Hid Ho Hr. split_and!; try done. cbn [note_of n_report]. by rewrite dto_report_tree. Qed.

Lemma has_pdf_note j r : has_pdf (note_of j r) = bool_decide (is_Some (pdf_ready j)).
Proof.
  unfold has_pdf, pdf_ready. cbn [note_of n_status n_pdf].
  destruct (job_status j); try reflexivity. by destruct (truthy_opt (job_pdfKey j)).
Qed.

Lemma sees_shows s u id x url :
  unambiguous s → sees s u id x →
  dto_shows (jobToDto x url) id (note_of (jwr_job x) (report_in s id)) (bool_decide (is_Some url)).
Proof.
  intros Ha (Hid & _ & Hr). apply dto_shows_note; [done|by eapply report_of_ordered|by apply report_in_eq].
Qed.

Lemma sees_note s u id x :
  sees s u id x → notes (notebook u s) !! id = Some (note_of (jwr_job x) (report_in s id)).
Proof. intros (_ & Hl & _). by rewrite notes_lookup, Hl. Qed.

(** ** Each request is a step of the notebook *)
Section Simulation.
Context `{Cr : Crypto} (cfg : AppConfig) (f : bool) (u : jstr).
Abbreviation wp := (wp (eff_contract f)).

(** [simulates req s r s']: the outcome is one the notebook allows. *)
Definition simulates (req : JobsController.Request) (s : Store) (r : exn + JobsController.Response) (s' : Store) : Prop :=
  ∃ y, replies r y ∧ api_step f (notebook u s) req y (notebook u s').

(** A creation for a user without an account: refused, and nothing changes. *)
Definition orphaned (req : JobsController.Request) (s : Store) (r : exn + JobsController.Response) (s' : Store) : Prop :=
  (∃ dto header, req = JobsController.PostJob dto header) ∧ users s !! u = None ∧ s' = s ∧ replies r (Refused 400).

Lemma sim_broken req s s' e :
  infra e → f = true ∨ null_label req = true → notebook u s' = notebook u s → simulates req s (inl e) s'.
Proof. intros He Hf Hnb. exists Broken. split; [done|]. rewrite Hnb. by apply step_broken. Qed.

Lemma sim_refused req s s' e status :
  (AllExceptionsFilter.normalize e).1.1 = status → notebook u s' = notebook u s →
  api_effect (notebook u s) req (Refused status) (notebook u s) → simulates req s (inl e) s'.
Proof. intros He Hnb Hy. exists (Refused status). split; [done|]. rewrite Hnb. by apply step_done. Qed.

Lemma sim_read_error req id s s' e :
  target req = Some id → read_error f s u id e → notebook u s' = notebook u s → simulates req s (inl e) s'.
Proof.
  intros Ht [[Hf He]|[Hl ->]] Hnb; [by apply sim_broken; [|left|]|].
  eapply sim_refused; [done|done|]. apply eff_missing with id; [done|]. by rewrite notes_lookup, Hl.
Qed.

Lemma untouched_notebook v s s' : untouched s s' → notebook v s' = notebook v s.
Proof. by intros (t & _ & ->). Qed.

Lemma shown_sim s s' id x d :
  unambiguous s → sees s u id x → shown cfg x d s s' →
  notebook u s' = notebook u s
  ∧ let n := note_of (jwr_job x) (report_in s id) in dto_shows d id n (has_pdf n).
Proof.
  intros Ha Hx Hs. simpl. rewrite has_pdf_note. unfold shown in Hs. destruct (pdf_ready (jwr_job x)) as [k|].
  - destruct Hs as (url & -> & ->). split; [done|]. rewrite bool_decide_true by done.
    by apply (sees_shows s u id x (Some url)).
  - destruct Hs as [-> ->]. split; [done|]. rewrite bool_decide_false by by intros [].
    by apply (sees_shows s u id x None).
Qed.

(** The outcome of a handler, as the controller answers it. *)
Definition answered {A} (g : A → JobsController.Response) (r : exn + A) : exn + JobsController.Response :=
  match r with inr a => inr (g a) | inl e => inl e end.

Lemma sim_findOne id s :
  integrity s →
  wp (JobsService.findOne cfg u id) s (λ r s',
    simulates (JobsController.GetJob id) s (answered JobsController.JobShown r) s').
Proof.
  intros Hi. eapply wp_mono; [apply findOne_spec|]. intros [e|d] s'.
  - intros [-> He]. by eapply sim_read_error.
  - intros (x & Hx & Hs). destruct (shown_sim s s' id x d (reports_unambiguous _ Hi) Hx Hs) as [Hnb Hd].
    eexists (Shown id _ _). split; [exact Hd|]. rewrite Hnb. apply step_done, eff_get. by apply sees_note.
Qed.

Lemma sim_getPdf id s :
  wp (JobsService.getPdfUrl cfg u id) s (λ r s',
    simulates (JobsController.GetPdf id) s (answered JobsController.PdfUrlShown r) s').
Proof.
  eapply wp_mono; [apply getPdfUrl_spec|].
  assert (∀ j, live_job s u id = Some j →
    api_effect (notebook u s) (JobsController.GetPdf id)
      (if bool_decide (is_Some (pdf_ready j)) then PdfLink else Refused 409) (notebook u s)) as Heff.
  { intros j Hl. rewrite <- (has_pdf_note j (report_in s id)). apply eff_pdf. by rewrite notes_lookup, Hl. }
  intros [e|d] s'.
  - intros [-> [He|(j & Hl & Hp & ->)]]; [by eapply sim_read_error|].
    eapply sim_refused; [done|done|]. specialize (Heff j Hl). by rewrite Hp in Heff.
  - intros (j & key & Hl & Hp & _ & ->). exists PdfLink. split; [done|]. specialize (Heff j Hl).
    rewrite Hp in Heff. by apply step_done.
Qed.

Lemma sim_remove id s :
  wp (JobsService.remove u id) s (λ r s',
    simulates (JobsController.DeleteJob id) s (answered (λ _, JobsController.NoContent) r) s').
Proof.
  eapply wp_mono; [apply remove_spec|]. intros [e|[]] s'.
  - intros [Ht He]. by eapply sim_read_error; [|exact He|apply untouched_notebook].
  - intros (j & now & t & Hl & _ & Hs). exists Removed. split; [done|]. apply step_done.
    assert (∀ s', s' = deleted id now t j s ∨ s' = without_objects (job_object_keys j) (deleted id now t j s) →
      notebook u s' = drop_note id (note_of j (report_in s id)) (notebook u s)) as Hnb.
    { intros s1 Hs1. pose proof Hl as (_ & Hu & _)%live_job_Some.
      destruct Hs1 as [->| ->]; by apply (notebook_delete u s _ id j (deleted_job now t j)). }
    rewrite (Hnb s') by (destruct Hs as [->|[-> _]]; auto). apply eff_delete. by rewrite notes_lookup, Hl.
Qed.

(** ** Editing *)
Lemma edited_notebook id dto j s s1 :
  integrity s → integrity s1 → live_job s u id = Some j → edited u id dto j s s1 →
  uj_label dto ≠ Null
  ∧ ∃ t, notebook u s1 = set_note id (edit_note dto t (note_of j (report_in s id))) (notebook u s).
Proof.
  intros Hi Hi1 Hl He. pose proof Hl as (Hj & Hju & Hjd)%live_job_Some.
  assert (∀ j0, jobs s !! id = Some j0 → job_userId j0 = u ∧ job_deletedAt j0 = None) as Hold by (intros j0 ?; by simplify_eq).
  assert (∀ label sections, replaced_scoped id label sections j s s1 →
    label ≠ Null ∧ ∃ t, notebook u s1 = set_note id
      (mkNote (match label with Value l => l | _ => job_label j end) (job_status j) (job_transcript j)
         (job_errorMessage j) sections (bool_decide (is_Some (truthy_opt (job_pdfKey j)))) (job_idempotencyKey j)
         (job_createdAt j) t) (notebook u s)) as Hrep.
  { intros label sections (Hnn & now & t & _ & Hr & Heq). split; [done|]. exists now.
    rewrite (notebook_row u s s1 id (apply_data (mkJobData (JobsRepository.label_data label) None None None None
               (Some now) None) t j)); [|apply Hi1|done|by rewrite Heq|done|done|].
    - f_equal. unfold note_of. cbn. assert (report_in s1 id = sections) as ->; [|by destruct label].
      destruct Hr as [tr Hst]. rewrite <- (report_in_eq s1 id (load_report s1 id)) by (apply Hi1 || apply load_report_of).
      replace (load_report s1 id) with tr; [eapply section_rows_tree, stored_rows, Hst|].
      symmetry. eapply stored_report; [exact Hst| |apply load_report_of].
      apply Forall_forall. intros y Hy. by apply list_elem_of_filter in Hy as [? _].
    - intros i tr Hne. apply (replaced_other id sections); [apply Hi|done|done]. }
  unfold edited in He. unfold edit_note. destruct (uj_sections dto) as [| |secs], (uj_label dto) as [| |l] eqn:Hlab; try done;
    try (by apply Hrep).
  - subst s1. split; [done|]. exists 0%Z. rewrite set_note_id; [done|]. by rewrite notes_lookup, Hl.
  - split; [done|]. destruct He as (t & _ & ->). exists t.
    rewrite (notebook_row u s _ id (apply_data (JobsRepository.set_label (Some l)) t j)); [|apply Hi1|done| |done|done|done].
    + done.
    + simpl. unfold update_live. by rewrite Hl.
Qed.

Lemma sim_update id dto s :
  integrity s →
  wp (JobsService.update cfg u id dto) s (λ r s', integrity s' →
    simulates (JobsController.PatchJob id dto) s (answered JobsController.JobShown r) s').
Proof.
  intros Hi. eapply wp_mono; [apply update_spec|]. intros [e|d] s' Hr Hi'.
  - destruct Hr as [[Ht [He|(_ & Hlab & He)]]|(Hf & He & j & Hl & Hed)].
    + by eapply sim_read_error; [|exact He|apply untouched_notebook].
    + apply sim_broken; [done| |by apply untouched_notebook]. right. simpl. by rewrite Hlab.
    + destruct (edited_notebook id dto j s s' Hi Hi' Hl Hed) as (Hnn & t & Hnb). exists Broken. split; [done|].
      rewrite Hnb. eapply step_cut_off; [done|]. apply (eff_patch _ id dto _ t); [|done]. by rewrite notes_lookup, Hl.
  - destruct Hr as (j & s1 & x & Hl & Hed & Hx & Hs).
    destruct (tenant_edited u id dto j s s1 Hl Hed Hi) as [Hi1 _].
    destruct (edited_notebook id dto j s s1 Hi Hi1 Hl Hed) as (Hnn & t & Hnb).
    destruct (shown_sim s1 s' id x d (reports_unambiguous _ Hi1) Hx Hs) as [Hnb' Hd].
    assert (note_of (jwr_job x) (report_in s1 id) = edit_note dto t (note_of j (report_in s id))) as Hn.
    { pose proof (sees_note _ _ _ _ Hx) as Hn. rewrite Hnb in Hn. cbn [notes set_note] in Hn.
      rewrite lookup_insert_eq in Hn. by injection Hn. }
    rewrite Hn in Hd. eexists (Shown id _ _). split; [exact Hd|]. rewrite Hnb', Hnb.
    apply step_done, eff_patch; [|done]. by rewrite notes_lookup, Hl.
Qed.

(** ** Creating *)
Lemma idempotency_key_truthy h : truthy_opt (JobsController.idempotency_key h) = JobsController.idempotency_key h.
Proof.
  unfold JobsController.idempotency_key. destruct h as [h|]; [|done]. destruct (truthy (trim h)) eqn:Ht; [|done].
  simpl. by rewrite Ht.
Qed.

Lemma no_job_no_report s id t : integrity s → jobs s !! id = None → report_of s id t → t = [].
Proof.
  intros Hi Hn (Hp & _). rewrite list_filter_none in Hp; [by apply Permutation_nil_r, fmap_nil_inv in Hp|].
  apply Forall_forall. intros x Hx <-. destruct (sections_belong _ Hi x Hx). congruence.
Qed.

Lemma drafted_notebook id label key t s s' :
  integrity s → integrity s' → jobs s !! id = None → jobs s' = jobs (drafted u id label key t s) →
  reportSections s' = reportSections s → findings s' = findings s →
  notebook u s' = set_note id (new_note label key t) (notebook u s).
Proof.
  intros Hi Hi' Hn Hjs Hrs Hfs.
  rewrite (notebook_row u s s' id (created_job (draft_data u id label key) t)); [|apply Hi'|congruence|done..|].
  - f_equal. unfold note_of, new_note. simpl. f_equal.
    replace (report_in s' id) with (report_in s id) by (unfold report_in, load_report; by rewrite Hrs, Hfs).
    unfold report_in. by rewrite (no_job_no_report s id (load_report s id) Hi Hn (load_report_of s id)).
  - intros i tr _. unfold report_of, findings_of. by rewrite Hrs, Hfs.
Qed.

Lemma unused_free s key :
  unused_key s u key → truthy_opt key = key →
  ∀ k, key = Some k → ∀ id n, notes (notebook u s) !! id = Some n → n_key n ≠ Some k.
Proof.
  intros Hun Ht k Hk id n Hn. rewrite notes_lookup in Hn. destruct (live_job s u id) as [j|] eqn:Hl; [|done].
  injection Hn as <-. cbn [note_of n_key]. eapply Hun; [by rewrite Ht|exact Hl].
Qed.

Lemma create_effect dto header id t s s' :
  let key := JobsController.idempotency_key header in
  integrity s → integrity s' → jobs s !! id = None → unused_key s u key →
  ¬ duplicate_job s (draft_data u id (cj_label dto) key) → jobs s' = jobs (drafted u id (cj_label dto) key t s) →
  reportSections s' = reportSections s → findings s' = findings s →
  api_effect (notebook u s) (JobsController.PostJob dto header) (Made id (new_note (cj_label dto) key t)) (notebook u s').
Proof.
  intros key Hi Hi' Hn Hun Hd Hjs Hrs Hfs. rewrite (drafted_notebook id (cj_label dto) key t s s') by done.
  apply eff_create.
  - rewrite notes_lookup. unfold live_job. by rewrite Hn.
  - intros k Hk. split; [|by apply (unused_free s key Hun (idempotency_key_truthy header))].
    intros (i & j & Hj & Hu & _ & Hkj)%spent_elem. apply Hd. right. by exists k, i, j.
Qed.

Lemma sim_create dto header s :
  integrity s →
  wp (JobsService.create cfg u dto (JobsController.idempotency_key header)) s (λ r s', integrity s' →
    let req := JobsController.PostJob dto header in
    orphaned req s (answered JobsController.JobCreated r) s'
    ∨ simulates req s (answered JobsController.JobCreated r) s').
Proof.
  intros Hi. eapply wp_mono; [apply create_spec|]. pose proof (idempotency_key_truthy header) as Htr.
  set (key := JobsController.idempotency_key header) in *. intros [e|resp] s' Hr Hi'.
  - destruct Hr as [[-> [[Hf He]|[(Hun & He & k & id & j & Hk & Hj & Hju & Hkj)|[Hn [m ->]]]]]|(Hf & He & Hun & id & t & Hn & Hd & _ & ->)].
    + right. by apply sim_broken; [|left|].
    + right. apply (sim_refused _ _ _ _ 409); [by destruct He as [m ->]|done|]. apply eff_spent with k; [done| |].
      * apply spent_elem. exists id, j. split_and!; try done. intros Hdel.
        eapply (Hun k id j); [by rewrite Htr| |done]. by apply live_job_Some.
      * by apply (unused_free s key Hun Htr).
    + left. split_and!; [by exists dto, header|done..].
    + right. exists Broken. split; [done|]. eapply step_cut_off; [done|]. by apply (create_effect _ _ id t).
  - right. destruct Hr as [(k & Hk & x & url & Hx & Hkx & -> & ->)|(Hun & id & t & secs & url & Hn & Hd & _ & Hsecs & -> & ->)].
    + rewrite Htr in Hk. eexists (Made (jwr_id x) _). split; [by apply (sees_shows s u (jwr_id x) x None); [apply Hi|]|].
      apply step_done, (eff_replay _ _ _ k); [done|by apply sees_note|done].
    + rewrite (no_job_no_report s id secs Hi Hn Hsecs). exists (Made id (new_note (cj_label dto) key t)).
      split; [|by apply step_done, create_effect].
      by apply (dto_shows_note (mkJobWithReport id (created_job (draft_data u id (cj_label dto) key) t) []) id []);
        [|split; constructor|].
Qed.

(** ** Listing *)
Definition as_note (s : Store) (p : jstr * Job) : jstr * Note := (p.1, note_of p.2 (report_in s p.1)).

Lemma StronglySorted_map {A B} (RA : A → A → Prop) (RB : B → B → Prop) (h : A → B) l :
  (∀ a b, RA a b → RB (h a) (h b)) → StronglySorted RA l → StronglySorted RB (h <$> l).
Proof.
  intros Hh. induction 1 as [|x l Hs IH Hx]; [constructor|]. rewrite fmap_cons. constructor; [done|].
  apply Forall_fmap. eapply Forall_impl; [exact Hx|]. intros y. apply Hh.
Qed.

Lemma user_jobs_in_order s full : user_jobs s u full → in_order (notebook u s) (as_note s <$> full).
Proof.
  intros Hf. pose proof (user_jobs_ids _ _ _ Hf) as Hids. destruct Hf as (Hnd & Hf & Hso). split_and!.
  - apply (NoDup_fmap_1 fst). rewrite <- list_fmap_compose. exact Hids.
  - intros [id n]. rewrite list_elem_of_fmap. cbn [fst snd]. rewrite notes_lookup. split.
    + intros ([i j] & [= -> ->] & Hj). apply Hf in Hj. simpl. by rewrite Hj.
    + destruct (live_job s u id) as [j|] eqn:Hl; [|done]. intros [= <-]. exists (id, j). split; [done|]. by apply Hf.
  - eapply StronglySorted_map; [|exact Hso]. intros [i j] [i' j'] H. exact H.
Qed.

Lemma page_of_map {A B} (h : jstr * A → jstr * B) full n c rows :
  (∀ p, (h p).1 = p.1) → page_of full n c rows → page_of (h <$> full) n c (h <$> rows).
Proof.
  intros Hh. unfold page_of. destruct c as [c|]; [|intros ->; by rewrite firstn_map].
  assert (list_find (λ p : jstr * B, p.1 = c) (h <$> full) = prod_map id h <$> list_find (λ p : jstr * A, p.1 = c) full) as ->.
  { induction full as [|p full IH]; [done|]. rewrite fmap_cons. cbn [list_find]. rewrite Hh. destruct (decide (p.1 = c)); [done|].
    rewrite IH. by destruct (list_find (λ p : jstr * A, p.1 = c) full) as [[k q]|]. }
  destruct (list_find _ full) as [[k q]|]; simpl.
  - intros ->. by rewrite <- firstn_map, skipn_map.
  - intros [Hs Hl]. split; [by apply fmap_sublist|by rewrite length_fmap].
Qed.

Lemma sim_list q s :
  integrity s → 0 < Z.to_nat (pq_limit q) →
  wp (JobsService.list u (pq_cursor q) (Z.to_nat (pq_limit q))) s (λ r s',
    simulates (JobsController.GetJobs q) s (answered JobsController.JobPage r) s').
Proof.
  intros Hi Hlim. eapply wp_mono; [apply list_spec|]. intros r s' [-> Hr]. destruct r as [e|p].
  { destruct Hr as [[Hf He]|[Hz _]]; [by apply sim_broken; [|left|]|lia]. }
  destruct Hr as (full & rows & Hf & Hp & Hld & Hit & Hnext).
  set (l := as_note s <$> ((λ x, (jwr_id x, jwr_job x)) <$> rows)).
  assert (length l = length rows) as Hlen by (unfold l; by rewrite !length_fmap).
  exists (Listed l (if bool_decide (length l = Z.to_nat (pq_limit q)) then fst <$> last l else None)). split.
  - split.
    + rewrite Hit. unfold l. rewrite <- list_fmap_compose. apply Forall2_fmap, Forall2_same_length_lookup_2; [done|].
      intros i x y Hx Hy. rewrite Hx in Hy. injection Hy as <-. rewrite Forall_forall in Hld.
      destruct (Hld x) as [Hj Hrep]; [by eapply list_elem_of_lookup_2|]. cbn.
      apply dto_shows_note; [done|by eapply report_of_ordered|by apply report_in_eq; [apply Hi|]].
    + rewrite Hnext, Hlen. case_bool_decide; [|done]. unfold l. rewrite !fmap_last. by destruct (last rows).
  - apply step_done, eff_list with (as_note s <$> full); [by apply user_jobs_in_order|]. by apply page_of_map.
Qed.

(** ** Starting the pipeline *)
Lemma started_notebook id t j s s' :
  integrity s' → live_job s u id = Some j → jobs s' = jobs (started id t j s) →
  reportSections s' = reportSections s → findings s' = findings s →
  notebook u s' = set_note id (queue_note t (note_of j (report_in s id))) (notebook u s).
Proof.
  intros Hi' Hl Hjs Hrs Hfs. pose proof Hl as (Hj & Hju & Hjd)%live_job_Some.
  rewrite (notebook_row u s s' id (started_job t j)); [|apply Hi'|intros j0 ?; by simplify_eq|done|done|done|].
  - f_equal. unfold report_in, load_report. by rewrite Hrs, Hfs.
  - intros i tr _. unfold report_of, findings_of. by rewrite Hrs, Hfs.
Qed.

Lemma sim_process id s :
  integrity s →
  wp (JobsService.process cfg u id) s (λ r s', integrity s' →
    simulates (JobsController.PostProcess id) s (answered JobsController.JobShown r) s').
Proof.
  intros Hi. eapply wp_mono; [apply process_spec|]. intros [e|d] s' Hr Hi'.
  - destruct Hr as [[-> [He|(j & Hl & [Hs1 Hs2] & _ & ->)]]|(Hf & He & j & t & Hl & [Hs1 Hs2] & _ & Hs)].
    + by eapply sim_read_error.
    + eapply sim_refused; [done|done|]. apply (eff_no_audio _ id (note_of j (report_in s id))); [|done..].
      by rewrite notes_lookup, Hl.
    + exists Broken. split; [done|]. rewrite (started_notebook id t j s s');
        [|done|done|by destruct Hs as [->|[->| ->]]..].
      eapply step_cut_off; [done|]. apply eff_start; [|done..]. by rewrite notes_lookup, Hl.
  - destruct Hr as (x & Hx & [[Hst Hs]|[(Hst & -> & ->)|([Hs1 Hs2] & _ & t & secs & _ & Hsecs & -> & ->)]]).
    + destruct (shown_sim s s' id x d (reports_unambiguous _ Hi) Hx Hs) as [Hnb Hd].
      eexists (Shown id _ _). split; [exact Hd|]. rewrite Hnb. apply step_done, eff_busy; [by apply sees_note|by left].
    + pose proof (sees_shows s u id x None (reports_unambiguous _ Hi) Hx) as Hd.
      eexists (Shown id _ _). split; [exact Hd|].
      replace (bool_decide (is_Some None)) with (has_pdf (note_of (jwr_job x) (report_in s id))).
      * apply step_done, eff_busy; [by apply sees_note|by right].
      * unfold has_pdf. cbn [note_of n_status]. rewrite bool_decide_false; [done|]. intros Hrd. by rewrite Hrd in Hst.
    + pose proof Hx as (Hid & Hl & _). eexists (Shown id _ _). split.
      * apply (dto_shows_note (mkJobWithReport id (started_job t (jwr_job x)) secs) id (report_in s id));
          [done|by eapply report_of_ordered|by apply report_in_eq; [apply Hi|]].
      * rewrite (started_notebook id t (jwr_job x) s (with_queue _ _)); [|done..].
        apply step_done. apply (eff_start _ id (note_of (jwr_job x) (report_in s id)) t); [by apply sees_note|done..].
Qed.
End Simulation.

(** ** All the requests *)

(** What the validation pipe and the guard ensure of a request. *)
Definition valid_request (req : JobsController.Request) : Prop :=
  match req with JobsController.GetJobs q => 0 < Z.to_nat (pq_limit q) | _ => True end.
Definition admitted (s : Store) (u : jstr) (req : JobsController.Request) : Prop :=
  valid_request req ∧ match req with JobsController.PostJob _ _ => is_Some (users s !! u) | _ => True end.

Section Histories.
Context `{Cr : Crypto} {TP : TranscriptionProvider} {CP : ReportCompilerProvider} `{Zo : Zod}
  {PR : PdfRenderer} (cfg : AppConfig) (f : bool).
Abbreviation wp := (wp (eff_contract f)).

Lemma sim_serve u req s :
  integrity s → valid_request req →
  wp (JobsController.serve cfg u req) s (λ r s', integrity s' → orphaned u req s r s' ∨ simulates f u req s r s').
Proof.
  intros Hi Had.
  assert (∀ {A} (p : prog eff A) (g : A → JobsController.Response) (Q : exn + JobsController.Response → Store → Prop),
    wp p s (λ r s', Q (answered g r) s') → wp (x <- p;; Ret (g x)) s Q) as Hg.
  { intros A p g Q Hp. apply wp_bind. eapply wp_mono; [exact Hp|]. by intros [e|x] s'. }
  destruct req as [q|dto header|id|id dto|id|id|id]; cbn [JobsController.serve]; apply Hg; [|by apply sim_create|..];
    (eapply wp_mono; [first [by apply sim_list|by apply sim_findOne|by apply sim_getPdf|by apply sim_remove
                            |by apply sim_update|by apply sim_process]|]);
    intros r s' H Hi'; right; first [by apply H|exact H].
Qed.

Lemma rtc_acts u s s' : rtc (acts u) s s' → acts u s s'.
Proof. induction 1 as [|s1 s2 s3 [Ht Hk] _ [Ht' Hk']]; [by split|]. split; by etrans. Qed.

(** A request of a user is a step of that user's notebook, and of no other. *)
Lemma sim_request u req s :
  server_inv s → MediaService.slash_free u → valid_request req →
  wp (JobsController.serve cfg u req) s (λ r s', server_inv s' ∧ users s' = users s
    ∧ (∀ v, v ≠ u → notebook v s' = notebook v s) ∧ (orphaned u req s r s' ∨ simulates f u req s r s')).
Proof.
  intros HI Hsl Hv. eapply wp_mono; [apply wp_and; [by apply (sim_serve u req s); [apply HI|]|
    apply (rg_wp _ server_inv kept (acts u)); [done|by apply (rg_serve cfg f u Hsl req s)]]|].
  intros r s' [Hsim (HI' & [Ht _]%rtc_acts & _)]. split_and!; [done|apply Ht| |by apply Hsim, HI'].
  intros v Hne. by apply (notebook_frame u); [|apply HI|apply HI'|].
Qed.

(** What a run leaves, as the owner's notebook shows it. *)
Record reached (u id : jstr) (s s' : Store) : Prop := {
  reached_others : ∀ i, i ≠ id → jobs s' !! i = jobs s !! i;
  reached_reports : consistent s → consistent s' ∧ ∀ i t, i ≠ id → report_of s' i t ↔ report_of s i t;
  reached_job : ∀ j, jobs s !! id = Some j → ∃ j', jobs s' !! id = Some j' ∧ job_userId j' = job_userId j
    ∧ job_label j' = job_label j ∧ job_idempotencyKey j' = job_idempotencyKey j ∧ job_createdAt j' = job_createdAt j
    ∧ job_deletedAt j' = job_deletedAt j
    ∧ (job_pdfKey j' = job_pdfKey j ∨ job_pdfKey j' = Some (MediaService.pdfKey u id));
}.

Lemma worker_reached u id s s' : rtc (worker_step u id) s s' → reached u id s s'.
Proof.
  induction 1 as [s|s1 s2 s3 Hs _ [O3 R3 J3]].
  - split; [done|done|]. intros j Hj. exists j. split_and!; try done. by left.
  - pose proof (ws_others _ _ _ _ Hs) as O2. pose proof (ws_reports _ _ _ _ Hs) as R2.
    pose proof (ws_job _ _ _ _ Hs) as J2. split.
    + intros i Hi. by rewrite O3, O2.
    + intros Hc. destruct (R2 Hc) as [Hc2 HR2]. destruct (R3 Hc2) as [Hc3 HR3]. split; [done|].
      intros i t Hi. by rewrite HR3, HR2.
    + intros j Hj. rewrite Hj in J2. destruct (jobs s2 !! id) as [j2|]; [|done].
      destruct (adv_identity _ _ _ _ J2) as (Hu & Hl & _ & Hk & Hc & Hd).
      destruct (J3 j2 eq_refl) as (j3 & Hj3 & Hu3 & Hl3 & Hk3 & Hc3 & Hd3 & Hp3). exists j3.
      split_and!; [done|congruence..|]. destruct Hp3 as [->|?]; [|by right].
      destruct (adv_pdf _ _ _ _ J2) as [?|[? _]]; auto.
Qed.

Lemma reached_notebook u id s s' j :
  integrity s → integrity s' → reached u id s s' → live_job s u id = Some j → job_status j ≠ READY →
  delivery_step id (notebook u s) (notebook u s').
Proof.
  intros Hi Hi' [HO HR HJ] Hl Hst. pose proof Hl as (Hj & Hu & Hd)%live_job_Some.
  destruct (HJ j Hj) as (j' & Hj' & Hu' & Hlab & Hk & Hc & Hd' & Hp).
  right. exists (note_of j (report_in s id)), (note_of j' (report_in s' id)). split_and!.
  - by rewrite notes_lookup, Hl.
  - unfold progress. cbn [note_of n_label n_key n_created n_status n_pdf]. split_and!; [done..|].
    destruct Hp as [->| ->]; [by left|by right].
  - apply (notebook_row u s s' id j'); [apply Hi'|intros j0 ?; by simplify_eq| |congruence|congruence|].
    + apply map_eq. intros i. destruct (decide (i = id)) as [->|Hne]; [by rewrite Hj', lookup_insert_eq|].
      by rewrite lookup_insert_ne, HO.
    + intros i t Hne. by apply HR; [apply Hi|].
Qed.

(** [simulates_run u id s s']: only [u]'s notebook may change, by a delivery's step. *)
Definition simulates_run (u id : jstr) (s s' : Store) : Prop :=
  server_inv s' ∧ kept s s' ∧ (users s' = users s ∧ refreshTokens s' = refreshTokens s) ∧ delivery_step id (notebook u s) (notebook u s')
  ∧ ∀ v, v ≠ u → notebook v s' = notebook v s.

(** A run changes nothing, or it is confined to a live job of its user that is not READY. *)
Lemma run_confined u id s :
  wp (PipelineService.process cfg (mkProcessJobData id u)) s (λ _ s', s' = s
    ∨ rtc (worker_step u id) s s' ∧ ∃ j, live_job s u id = Some j ∧ job_status j ≠ READY).
Proof.
  eapply wp_mono; [eapply wpg_wp, wpg_reach, any_process|]. intros r s' [Hr Hreach]. unfold process_result in Hr.
  destruct (jobs s !! id) as [j|] eqn:Hj; [|left; apply Hr].
  destruct (to_process u j) as [k|] eqn:Hp; [right|left; apply Hr]. split; [done|]. exists j.
  unfold to_process in Hp. destruct (job_deletedAt j) eqn:Hd, (job_audioKey j); try done.
  destruct (bool_decide (job_userId j = u)) eqn:Hu; [|done]. destruct (bool_decide (job_status j = READY)) eqn:Hst; [done|].
  apply bool_decide_eq_true in Hu. apply bool_decide_eq_false in Hst. by split; [apply live_job_Some|].
Qed.

Lemma sim_run u id s :
  server_inv s → wp (PipelineService.process cfg (mkProcessJobData id u)) s (λ _ s', simulates_run u id s s').
Proof.
  intros HI. assert (simulates_run u id s s) as Hsame by (split_and!; try done; by left).
  destruct (live_job s u id) as [j|] eqn:Hl.
  - pose proof Hl as (Hj & Hu & Hd)%live_job_Some. eapply wp_mono; [apply wp_and; [apply run_confined|]|].
    + apply (rg_wp _ server_inv kept (acts u)); [done|].
      apply (safe_process cfg f u id); [rewrite <-Hu; by eapply inv_users|by exists j|done].
    + intros r s' [[->|(Hr & j' & Hj' & Hst)] (HI' & Ht & _)]; [done|]. apply rtc_acts in Ht as [Ht Hk].
      split_and!; [done|done|apply Ht|apply Ht| |].
      * by apply (reached_notebook u id s s' j'); [apply HI|apply HI'|apply worker_reached| |].
      * intros v Hv. by apply (notebook_frame u); [|apply HI|apply HI'|].
  - eapply wp_mono; [apply run_confined|]. intros r s' [->|(_ & j & Hj & _)]; [done|congruence].
Qed.
End Histories.

(** ** Histories *)
Inductive Event :=
  | Request (u : jstr) (req : JobsController.Request)
  | PipelineRun (data : ProcessJobData).
Definition Outcome : Type := option (exn + JobsController.Response).
Definition Notebooks : Type := jstr → Notebook.

(** Only [u]'s notebook changes, and becomes [nb]. *)
Definition updates (u : jstr) (nb : Notebook) (W W' : Notebooks) : Prop := W' u = nb ∧ ∀ v, v ≠ u → W' v = W v.

Inductive abstract_event (f : bool) (W : Notebooks) : Event → Outcome → Notebooks → Prop :=
  | abstract_request u req r y nb W' :
      replies r y → api_step f (W u) req y nb → updates u nb W W' →
      abstract_event f W (Request u req) (Some r) W'
  | abstract_pipeline_run data nb W' :
      delivery_step (data_jobId data) (W (data_userId data)) nb → updates (data_userId data) nb W W' →
      abstract_event f W (PipelineRun data) None W'.

Inductive abstract_history (f : bool) : Notebooks → Datatypes.list Event → Datatypes.list Outcome → Notebooks → Prop :=
  | history_nil W : abstract_history f W [] [] W
  | history_cons W1 W2 W3 e o es os :
      abstract_event f W1 e o W2 → abstract_history f W2 es os W3 →
      abstract_history f W1 (e :: es) (o :: os) W3.

Section Refinement.
Context `{Cr : Crypto} {TP : TranscriptionProvider} {CP : ReportCompilerProvider} `{Zo : Zod}
  {PR : PdfRenderer} (cfg : AppConfig).

Definition happen (e : Event) : prog eff Outcome :=
  match e with
  | Request u req => r <- attempt (JobsController.serve cfg u req);; Ret (Some r)
  | PipelineRun data => attempt (PipelineService.process cfg data);; Ret None
  end.

Fixpoint history (es : Datatypes.list Event) : prog eff (Datatypes.list Outcome) :=
  match es with
  | [] => Ret []
  | e :: es => o <- happen e;; os <- history es;; Ret (o :: os)
  end.

Definition admissible (s : Store) (e : Event) : Prop :=
  match e with Request u req => MediaService.slash_free u ∧ admitted s u req | PipelineRun _ => True end.

Lemma wp_attempt (f : bool) {A} (p : prog eff A) s Q :
  wp (eff_contract f) p s (λ r s', Q (inr r) s') → wp (eff_contract f) (attempt p) s Q.
Proof. intros Hp. unfold attempt. wp_focus. eapply wp_mono; [exact Hp|]. by intros [e|a]. Qed.

Lemma sim_happen f e s :
  server_inv s → admissible s e →
  wp (eff_contract f) (happen e) s (λ r s', ∃ o, r = inr o ∧ server_inv s' ∧ users s' = users s
    ∧ abstract_event f (λ u, notebook u s) e o (λ u, notebook u s')).
Proof.
  intros HI Had. destruct e as [u req|[id u]]; [destruct Had as [Hsl Had]|]; cbn [happen]; wp_focus; apply wp_attempt.
  - destruct Had as [Hv Hus]. eapply wp_mono; [by apply (sim_request cfg f u req s)|].
    intros r s' (HI' & Hu & Hfr & Hsim). wp_simpl. exists (Some r). split_and!; [done..|].
    destruct Hsim as [((dto & header & ->) & Hno & _)|(y & Hy & Hst)].
    { destruct Hus. congruence. }
    by econstructor.
  - eapply wp_mono; [by apply sim_run|]. intros r s' (HI' & _ & [Hus _] & Hst & Hfr). wp_simpl. exists None.
    split_and!; try done. econstructor; [exact Hst|]. by split.
Qed.

Lemma admitted_same s s' u req : users s' = users s → admitted s u req → admitted s' u req.
Proof. intros Hu [? ?]. split; [done|]. destruct req; by rewrite ?Hu. Qed.

Lemma sim_history f es s :
  server_inv s → Forall (admissible s) es →
  wp (eff_contract f) (history es) s (λ r s', ∃ os, r = inr os ∧ server_inv s'
    ∧ abstract_history f (λ u, notebook u s) es os (λ u, notebook u s')).
Proof.
  revert s. induction es as [|e es IH]; intros s HI Hes; cbn [history].
  { exists []. split_and!; [done|done|constructor]. }
  apply Forall_cons in Hes as [He Hes]. wp_focus. eapply wp_mono; [by apply sim_happen|].
  intros r s1 (o & -> & HI1 & Hu & Ho). wp_focus. eapply wp_mono; [apply IH; [done|]|].
  - eapply Forall_impl; [exact Hes|]. intros [v req|]; [|done]. intros [? Had]. split; [done|by eapply admitted_same].
  - intros r s2 (os & -> & HI2 & Hos). wp_simpl. exists (o :: os). split_and!; [done|done|]. by econstructor.
Qed.
End Refinement.

(** The handlers implement the notebook.  Run any sequence of requests of any
    users and pipeline runs, on any services and with any providers: every request
    is answered, and the answers and the tables are those of a history of
    notebooks, in which each request does to its user's notebook what the
    abstract specification says (or is broken by a failing service, without
    effect or after its whole effect), a pipeline run advances at most one note,
    and no event touches the notebook of another user. *)
Theorem api_refines_notebooks `{Hs : Services} {TP : TranscriptionProvider} {CP : ReportCompilerProvider}
    `{Zo : Zod} {PR : PdfRenderer} cfg es w :
  server_inv (view w) → Forall (admissible (view w)) es →
  ensures (history cfg es) w (λ r s', ∃ os, r = inr os ∧
    abstract_history faults (λ u, notebook u (view w)) es os (λ u, notebook u s')).
Proof.
  intros HI Hes. apply ensures_wp. eapply wp_mono; [by apply sim_history|].
  intros r s' (os & -> & _ & Ho). by exists os.
Qed.

#[local] Existing Instance TranscriptionProviders.MockTranscriptionProvider.
#[local] Existing Instance CompilerProviders.MockReportCompiler.
#[local] Existing Instance mock_renderer.
#[local] Existing Instance mock_zod.

(** Alice deletes her job, then asks for it; Bob asks for his. *)
Definition afternoon : Datatypes.list Event :=
  [Request (js "alice") (JobsController.DeleteJob (js "j1")); PipelineRun (mkProcessJobData (js "j2") (js "bob"));
   Request (js "alice") (JobsController.GetJob (js "j1")); Request (js "bob") (JobsController.GetJob (js "j2"))].

Lemma api_refines_notebooks_witness :
  ensures (Hs := reliable_memory) (history run_cfg afternoon) (mkMemory busy_day quiet) (λ r s', ∃ os, r = inr os
    ∧ abstract_history false (λ u, notebook u busy_day) afternoon os (λ u, notebook u s')).
Proof.
  apply (api_refines_notebooks (Hs := reliable_memory) run_cfg afternoon (mkMemory busy_day quiet)).
  - exact busy_day_inv.
  - repeat constructor; by apply name_slash_free.
Defined.

(** What the history answers. *)
Example afternoon_answers :
  returns (λ os, match os with
    | [Some (inr JobsController.NoContent); None; Some (inl (NotFoundException _)); Some (inr (JobsController.JobShown d))] =>
        bool_decide (dto_id d = js "j2")
    | _ => false
    end) (exec (mem_handle false) (history run_cfg afternoon) (mkMemory busy_day quiet)).1 = true.
Proof. vm_compute. reflexivity. Qed.
