(* ===== verification/HttpNotebook.v ===== *)
(** * The notebooks over HTTP

    The specification of [Notebook] for raw requests: what any verb, path, headers and
    body come to, and the theorem that the server answers so. *)
From S2P Require Import Prelude Json Program RelyGuarantee Schema Services Memory JsDate Report Zod Config Media Queue JobsRepository Dto Auth JobsService Tenancy Concurrent Sessions Api Health JobsProperties Transcription Compiler ReportHtml PdfRenderer Pipeline PipelineProperties Processor Modules Bootstrap Deliveries Server Notebook Wire Http HttpProperties.

(** ** Time *)
Section Time.
Context `{Cr : Crypto} (f : bool).

Lemma call_advances {X} (c : call X) s r s' : call_contract f X c s r s' → (clock s ≤ clock s')%Z.
Proof.
  intros [H|[_ H]]; destruct c; cbn [call_spec call_fault] in H; unfold read, rejects, at_time in H;
    repeat match goal with
    | H : False |- _ => destruct H
    | H : _ ∨ _ |- _ => destruct H as [H|H]
    | H : _ ∧ _ |- _ => destruct H
    | H : ∃ _, _ |- _ => destruct H
    end; subst; try done.
  case_match; done.
Qed.

Lemma runs_advance {E A} (C : contract E Store) (p : prog E A) s r s' :
  (∀ X c s r s', C X c s r s' → (clock s ≤ clock s')%Z) → runs C p s r s' → (clock s ≤ clock s')%Z.
Proof.
  intros HC. revert s. induction p as [a|e|X c k IH]; intros s; cbn [runs].
  1,2: intros [_ ->]; done.
  intros (r1 & s1 & Hc%HC & Hr%IH). lia.
Qed.

(** The clock of a program never runs back. *)
Lemma contract_advances X (c : eff X) s r s' : eff_contract f X c s r s' → (clock s ≤ clock s')%Z.
Proof.
  assert (∀ {A} (p : prog call A) s r s', runs (call_contract f) p s r s' → (clock s ≤ clock s')%Z) as Hp.
  { intros A p s0 r0 s0' H. exact (runs_advance _ p s0 r0 s0' (λ X, call_advances) H). }
  destruct c as [X c|A body]; cbn [eff_contract].
  - apply call_advances.
  - intros [(x & _ & H%Hp)|[(e & s1 & _ & H%Hp & ->)|(_ & -> & _)]]; done.
Qed.

Lemma wp_advances {A} (p : prog eff A) s Q :
  wp (eff_contract f) p s Q → wp (eff_contract f) p s (λ r s', (clock s ≤ clock s')%Z ∧ Q r s').
Proof.
  intros Hp. apply wp_and; [|done]. apply wp_runs. intros r s'. apply runs_advance, contract_advances.
Qed.
End Time.

(** ** The abstract server *)

(** A notebook per user, the users who have an account, and the time. *)
Record World := mkWorld { book : jstr → Notebook; accounts : gset jstr; now : Z }.

Definition world (s : Store) : World := mkWorld (λ u, notebook u s) (dom (users s)) (clock s).

Inductive Event :=
  | Arrives (amb : Ambient) (rq : HttpRequest)
  | PipelineRuns (data : ProcessJobData).

(** Nothing changes but the time; or only [u]'s notebook, which becomes [nb]; or only
    the accounts, and none is closed. *)
Definition undisturbed (W W' : World) : Prop := (∀ v, book W' v = book W v) ∧ accounts W' = accounts W.
Definition rewrites (u : jstr) (nb : Notebook) (W W' : World) : Prop :=
  book W' u = nb ∧ (∀ v, v ≠ u → book W' v = book W v) ∧ accounts W' = accounts W.
Definition enrols (W W' : World) : Prop := (∀ v, book W' v = book W v) ∧ accounts W ⊆ accounts W'.

(** An answer that says what the notebook replied. *)
Definition conveys (st : Z) (x : HttpResponse) (y : Notebook.Reply) : Prop :=
  match x with
  | Reply st' (JobsAnswer body) => st' = st ∧ replies (inr body) y
  | Problem p => ∃ e, says p e ∧ replies (inl e) y
  | _ => False
  end.

Section Spec.
Context `{Cr : Crypto} {V : Validator} {P : Pipes} {Ex : Router.Express} (cfg : AppConfig) (f : bool).

(** What a request does to its user's notebook: a step of it; or, for a creation by a
    user without an account, nothing. *)
Definition notebook_step (W : World) (u : jstr) (req : JobsController.Request) (y : Notebook.Reply) (nb : Notebook) : Prop :=
  api_step f (book W u) req y nb
  ∨ (∃ dto header, req = JobsController.PostJob dto header) ∧ (u ∉ accounts W) ∧ y = Refused 400 ∧ nb = book W u.

(** When a jobs route does not get to its handler, and what it says. *)
Inductive refusal (W : World) (amb : Ambient) (rq : HttpRequest) (r : Router.Route) (h : JobsHandler) (params : list jstr) :
    exn → Prop :=
  | refusal_limit : throttled amb (Router.throttle r) = true → refusal W amb rq r h params too_many
  | refusal_missing :
      throttled amb (Router.throttle r) = false → JwtAuthGuard.extractToken (rq_authorization rq) = None →
      refusal W amb rq r h params (UnauthorizedException (js "Missing bearer token."))
  | refusal_token :
      throttled amb (Router.throttle r) = false → f = true ∨ (∀ u, ¬ bears cfg (rq_authorization rq) (now W) u) →
      refusal W amb rq r h params (UnauthorizedException (js "Invalid or expired access token."))
  | refusal_arguments u e :
      throttled amb (Router.throttle r) = false → bears cfg (rq_authorization rq) (now W) u →
      jobs_request h params rq = inl e → refusal W amb rq r h params e.

Inductive abstract_event (W : World) : Event → option HttpResponse → World → Prop :=
  | event_unrouted amb rq p W' :
      Router.route rq = None →
      says p (NotFoundException (js "Cannot " ++ verb_text (rq_verb rq) ++ js " " ++ rq_url rq)) →
      undisturbed W W' → abstract_event W (Arrives amb rq) (Some (Problem p)) W'
  | event_refused amb rq r params h e p W' :
      Router.route rq = Some (r, params) → handler (Router.endpoint r) = Jobs h →
      refusal W amb rq r h params e → says p e →
      undisturbed W W' → abstract_event W (Arrives amb rq) (Some (Problem p)) W'
  | event_served amb rq r params h u req x y nb W' :
      Router.route rq = Some (r, params) → handler (Router.endpoint r) = Jobs h →
      throttled amb (Router.throttle r) = false → bears cfg (rq_authorization rq) (now W) u →
      jobs_request h params rq = inr req →
      conveys (Router.status r) x y → notebook_step W u req y nb →
      rewrites u nb W W' → abstract_event W (Arrives amb rq) (Some x) W'
  | event_elsewhere amb rq r params x W' :
      Router.route rq = Some (r, params) → is_jobs (handler (Router.endpoint r)) = false →
      (∀ st body, x ≠ Reply st (JobsAnswer body)) →
      enrols W W' → abstract_event W (Arrives amb rq) (Some x) W'
  | event_run data nb W' :
      delivery_step (data_jobId data) (book W (data_userId data)) nb →
      rewrites (data_userId data) nb W W' → abstract_event W (PipelineRuns data) None W'.

(** A history: its events, their answers, and a time that never runs back. *)
Inductive abstract_history : World → list Event → list (option HttpResponse) → World → Prop :=
  | history_nil W : abstract_history W [] [] W
  | history_cons W1 W2 W3 e o es os :
      abstract_event W1 e o W2 → (now W1 ≤ now W2)%Z → abstract_history W2 es os W3 →
      abstract_history W1 (e :: es) (o :: os) W3.
End Spec.

(** ** The server implements it *)
Section Refinement.
Context `{Cr : Crypto} {TP : TranscriptionProvider} {CP : ReportCompilerProvider} `{Zo : Zod}
  {PR : PdfRenderer} {V : Validator} {P : Pipes} {Ex : Router.Express} {Th : Throwables} {Te : Terminus} (cfg : AppConfig) (f : bool).
Abbreviation wp := (wp (eff_contract f)).
Abbreviation by_session := (session_act cfg (λ _, True) (λ _, True) (proves cfg)).

Lemma bears_names authorization t u : bears cfg authorization t u → names cfg authorization u.
Proof. intros (tok & c & a & He & Hp & _ & _ & _ & -> & Ha). by exists tok, c, (mkAuthenticatedUser u (default [] (string_claim (jget (js "appleSub") c)))). Qed.

(** The queries the pipe accepts ask for at least one job. *)
Lemma jobs_request_valid h params rq req : jobs_request h params rq = inr req → valid_request req.
Proof.
  destruct req as [q| | | | | |]; try done. unfold jobs_request.
  destruct h; try (destruct (parse_uuid _); cbn [on_success]; intros [=]; fail);
    try (destruct (parse_uuid _); [done|]; destruct (piped _); cbn [on_success]; intros [=]; fail);
    destruct (piped (rq_query rq)) as [e|d] eqn:Hq; cbn [on_success]; try (intros [=]; fail);
    try (destruct (piped (rq_body rq)); cbn [on_success]; intros [=]; fail).
  intros [= ->]. unfold piped in Hq. destruct (transform _ _) as [m|d] eqn:Ht; [done|]. injection Hq as ->.
  apply transform_valid in Ht. cbn [allowed query_body] in Ht. unfold valid_query in Ht.
  apply andb_true_iff in Ht as [Ht%bool_decide_eq_true _]. cbn [valid_request]. lia.
Qed.

(** Why the guards turn a request away. *)
Lemma pass_refuses amb rq r h params s :
  Router.isPublic r = false →
  wp (Http.pass cfg amb AppModule.guards r (rq_authorization rq) None) s (λ res s', s' = s ∧
    match res with
    | inl e => refusal cfg f (world s) amb rq r h params e
    | inr user => throttled amb (Router.throttle r) = false
        ∧ ∃ a, user = Some a ∧ bears cfg (rq_authorization rq) (clock s) (auth_userId a)
    end).
Proof.
  intros Hpub. pose proof (pass_spec cfg amb f r (rq_authorization rq) s) as Hp.
  eapply wp_mono; [apply wp_and; [exact Hp|]|].
  - instantiate (1 := λ res _, match res with inl e => refusal cfg f (world s) amb rq r h params e | inr _ => True end).
    unfold AppModule.guards. cbn [Http.pass]. destruct (throttled amb (Router.throttle r)) eqn:Ht; [by constructor|].
    rewrite Hpub. wp_apply canActivate_spec. intros [e|o] s1 [-> Ho]; wp_simpl; [|done].
    destruct Ho as [[He ->]|[-> (tok & He & Hw)]]; [by constructor|]. apply refusal_token; [done|].
    destruct Hw as [?|Hw]; [by left|right]. intros u (tok' & c & a & He' & Hp' & Ha & _ & _ & _ & Hu).
    assert (tok' = tok) as -> by congruence. by rewrite (Hw c Hp' Ha) in Hu.
  - intros [e|user] s' [[-> H] Hr]; (split; [done|]); [done|]. rewrite Hpub in H.
    destruct H as (Ht & u & a & -> & <- & Hb). split; [done|]. by exists a.
Qed.

(** The problem document of an exception: only time passes. *)
Lemma catch_says e rid url s :
  wp (p <- AllExceptionsFilter.catch e rid url;; Ret (Problem p)) s
    (λ res s', (∃ t, s' = with_clock t s) ∧ ∃ p, res = inr (Problem p) ∧ says p e).
Proof.
  unfold AllExceptionsFilter.catch, says. destruct (AllExceptionsFilter.normalize e) as [[st er] m].
  wp_call. intros res s2 [(t & _ & -> & ->)|[_ []]]. wp_simpl. split; [by exists t|]. by eexists.
Qed.

(** ** A jobs route *)
Lemma sim_jobs amb rq r params h s :
  server_inv s → Router.route rq = Some (r, params) → handler (Router.endpoint r) = Jobs h →
  (∀ u, names cfg (rq_authorization rq) u → MediaService.slash_free u) →
  wp (Http.respond cfg amb rq) s (λ res s', ∃ x, res = inr x ∧
    abstract_event cfg f (world s) (Arrives amb rq) (Some x) (world s')).
Proof.
  intros HI Hr Hh Hsl. pose proof (find_Some _ _ _ _ Hr) as [Hin _]. destruct (routes_policy r Hin) as [Hpub _].
  rewrite Hh in Hpub. unfold Http.respond. apply wp_try_catch. unfold Http.serve. rewrite Hr, Hh.
  assert (∀ e, refusal cfg f (world s) amb rq r h params e →
    wp (p <- AllExceptionsFilter.catch e (rq_id rq) (rq_url rq);; Ret (Problem p)) s (λ res s', ∃ x, res = inr x ∧
      abstract_event cfg f (world s) (Arrives amb rq) (Some x) (world s'))) as Hrefuse.
  { intros e He. eapply wp_mono; [apply catch_says|]. intros res s' [[t ->] (p & -> & Hp)].
    eexists. split; [done|]. by eapply event_refused. }
  wp_focus. eapply wp_mono; [by apply (pass_refuses amb rq r h params)|]. intros [e|user] s1 [-> H]; [by apply Hrefuse|].
  destruct H as (Ht & a & -> & Hb). cbn [Http.invoke JwtAuthGuard.CurrentUser settle bind].
  destruct (jobs_request h params rq) as [e|req] eqn:Hq; cbn [settle bind wp]; [by eapply Hrefuse, refusal_arguments|].
  wp_focus. eapply wp_mono; [apply (sim_request cfg f (auth_userId a) req s); [done|by eapply Hsl, bears_names|by eapply jobs_request_valid]|].
  intros res s1 (_ & Hus & Hfr & Hsim).
  assert (∀ x t y, conveys (Router.status r) x y →
    notebook_step f (world s) (auth_userId a) req y (notebook (auth_userId a) s1) →
    abstract_event cfg f (world s) (Arrives amb rq) (Some x) (world (with_clock t s1))) as Hdone.
  { intros x t y Hc Hn. eapply event_served; try done. split_and!; [done|exact Hfr|by cbn; rewrite Hus]. }
  assert (∃ y, replies res y ∧ notebook_step f (world s) (auth_userId a) req y (notebook (auth_userId a) s1)) as (y & Hy & Hn).
  { destruct Hsim as [(Hpost & Hno & -> & Hy)|(y & Hy & Hst)]; [|exists y; split; [done|by left]].
    exists (Refused 400). split; [done|]. right. split_and!; [done|by apply not_elem_of_dom|done|done]. }
  destruct res as [e|x]; wp_simpl.
  - eapply wp_mono; [apply catch_says|]. intros res s' [[t ->] (p & -> & Hp)]. eexists. split; [done|].
    apply (Hdone _ t y); [|done]. by exists e.
  - eexists. split; [done|]. assert (with_clock (clock s1) s1 = s1) as E by (by destruct s1).
    rewrite <-E. by apply (Hdone _ _ y).
Qed.
(** ** The other routes *)
Lemma sessions_enrol s s' : rtc by_session s s' → enrols (world s) (world s').
Proof.
  assert (∀ s1 s2, by_session s1 s2 → enrols (world s1) (world s2)) as Hone.
  { intros s1 s2 [(us & ts & t & ->) [[Hk _] _]]. split; [done|]. cbn [accounts world]. intros i (v & Hv)%elem_of_dom.
    apply elem_of_dom. destruct (Hk i v Hv) as (v' & Hv' & _). by exists v'. }
  induction 1 as [s|s1 s2 s3 [B1 A1]%Hone _ [B2 A2]]; [by split|]. split; [|by etrans].
  intros v. by rewrite B2, B1.
Qed.

Lemma invoke_session amb h params rq s :
  session_inv s → is_jobs h = false →
  wp (Http.invoke cfg amb h params None rq) s (λ res s', rtc by_session s s'
    ∧ ∀ body, res ≠ inr (JobsAnswer body)).
Proof.
  intros HI Hh.
  assert (∀ {A} (p : prog eff A) (g : A → Payload),
    (∃ Q, rg (eff_contract f) session_inv sessions_kept by_session p s Q) → (∀ a body, g a ≠ JobsAnswer body) →
    wp (a <- p;; Ret (g a)) s (λ res s', rtc by_session s s' ∧ ∀ body, res ≠ inr (JobsAnswer body))) as Hgo.
  { intros A p g [Q Hp] Hg. wp_focus. eapply wp_mono; [apply (rg_wp _ session_inv sessions_kept by_session); [done|exact Hp]|].
    intros [e|a] s' (_ & Hs & _); wp_simpl; (split; [done|]); [done|]. intros body [= Hb]. by eapply Hg. }
  destruct h as [h| | | |]; [done|..]; cbn [Http.invoke].
  - destruct (piped (rq_body rq)) as [e|dto]; cbn [settle bind]; [done|].
    apply Hgo; [|done]. eexists. by apply rg_signIn; [apply apple_verified|..].
  - destruct (piped (rq_body rq)) as [e|dto]; cbn [settle bind]; [done|].
    apply Hgo; [|done]. eexists. by apply rg_refresh.
  - done.
  - by destruct (HealthController.readiness _ _) as [e|report]; cbn [settle bind].
Qed.

Lemma sim_elsewhere amb rq r params s :
  session_inv s → Router.route rq = Some (r, params) → is_jobs (handler (Router.endpoint r)) = false →
  wp (Http.respond cfg amb rq) s (λ res s', ∃ x, res = inr x ∧
    abstract_event cfg f (world s) (Arrives amb rq) (Some x) (world s')).
Proof.
  intros HI Hr Hh. pose proof (find_Some _ _ _ _ Hr) as [Hin _]. destruct (routes_policy r Hin) as [Hpub _].
  rewrite Hh in Hpub. unfold Http.respond. apply wp_try_catch. unfold Http.serve. rewrite Hr.
  assert (∀ e s1, enrols (world s) (world s1) →
    wp (p <- AllExceptionsFilter.catch e (rq_id rq) (rq_url rq);; Ret (Problem p)) s1 (λ res s', ∃ x, res = inr x ∧
      abstract_event cfg f (world s) (Arrives amb rq) (Some x) (world s'))) as Hproblem.
  { intros e s1 He. eapply wp_mono; [apply catch_says|]. intros res s' [[t ->] (p & -> & Hp)].
    eexists. split; [done|]. by eapply event_elsewhere. }
  wp_focus. eapply wp_mono; [apply (pass_spec cfg amb f)|]. intros [e|user] s1 [-> H]; [by apply Hproblem|].
  rewrite Hpub in H. destruct H as [_ ->]. wp_focus. eapply wp_mono; [by apply invoke_session|].
  intros [e|body] s1 [He%sessions_enrol Hb]; [by apply Hproblem|]. wp_simpl. eexists. split; [done|].
  eapply event_elsewhere; [done|done| |done]. intros st b [= _ ->]. by eapply Hb.
Qed.

Lemma sim_unrouted amb rq s :
  Router.route rq = None →
  wp (Http.respond cfg amb rq) s (λ res s', ∃ x, res = inr x ∧
    abstract_event cfg f (world s) (Arrives amb rq) (Some x) (world s')).
Proof.
  intros Hr. unfold Http.respond. apply wp_try_catch. unfold Http.serve. rewrite Hr. wp_simpl.
  eapply wp_mono; [apply catch_says|]. intros res s' [[t ->] (p & -> & Hp)].
  eexists. split; [done|]. by apply event_unrouted.
Qed.

(** ** Any event, any history *)
Definition happen (e : Event) : prog eff (option HttpResponse) :=
  match e with
  | Arrives amb rq => x <- Http.respond cfg amb rq;; Ret (Some x)
  | PipelineRuns data => attempt (PipelineService.process cfg data);; Ret None
  end.

Fixpoint history (es : list Event) : prog eff (list (option HttpResponse)) :=
  match es with
  | [] => Ret []
  | e :: es => o <- happen e;; os <- history es;; Ret (o :: os)
  end.

(** User ids hold no slash: they are UUIDs. *)
Definition admissible (e : Event) : Prop :=
  match e with
  | Arrives _ rq => ∀ u, names cfg (rq_authorization rq) u → MediaService.slash_free u
  | PipelineRuns _ => True
  end.

#[local] Existing Instance all_kept_preorder.

Lemma respond_keeps amb rq s :
  all_inv s → admissible (Arrives amb rq) → wp (Http.respond cfg amb rq) s (λ _ s', all_inv s' ∧ kept s s').
Proof.
  intros HI Had. eapply wp_mono; [apply (rg_wp _ all_inv all_kept (server_act cfg MediaService.slash_free (λ _, True) (λ _, True)));
    [done|apply (respond_verified cfg f); [done|done|]]|by intros r s' (? & [? _]%server_kept & _)].
  intros r params _. by destruct (handler (Router.endpoint r)).
Qed.

Lemma sim_event e s :
  all_inv s → admissible e →
  wp (happen e) s (λ r s', ∃ o, r = inr o ∧ all_inv s' ∧ abstract_event cfg f (world s) e o (world s')).
Proof.
  intros HI Had. destruct e as [amb rq|[id u]]; cbn [happen]; wp_focus.
  - assert (wp (Http.respond cfg amb rq) s (λ res s', ∃ x, res = inr x ∧
      abstract_event cfg f (world s) (Arrives amb rq) (Some x) (world s'))) as Hsim.
    { destruct (Router.route rq) as [[r params]|] eqn:Hr; [|by apply sim_unrouted].
      destruct (handler (Router.endpoint r)) as [h| | | |] eqn:Hh;
        [eapply sim_jobs; [apply HI|done..]|by eapply sim_elsewhere; [apply HI|done|rewrite Hh]..]. }
    eapply wp_mono; [apply wp_and; [by apply respond_keeps|exact Hsim]|].
    intros r s' [[HI' _] (x & -> & Hx)]. wp_simpl. by exists (Some x).
  - apply wp_attempt. eapply wp_mono; [apply (sim_run cfg f u id s), HI|].
    intros r s' (HI' & _ & [Hus Hts] & Hst & Hfr). wp_simpl. exists None. split; [done|]. split.
    + split; [done|]. by apply (session_inv_same s s'), HI.
    + eapply event_run; [exact Hst|]. split_and!; [done|exact Hfr|by cbn; rewrite Hus].
Qed.
Lemma sim_events es s :
  all_inv s → Forall admissible es →
  wp (history es) s (λ r s', ∃ os, r = inr os ∧ all_inv s' ∧ abstract_history cfg f (world s) es os (world s')).
Proof.
  revert s. induction es as [|e es IH]; intros s HI Hes; cbn [history].
  { exists []. split_and!; [done|done|constructor]. }
  apply Forall_cons in Hes as [He Hes]. wp_focus. eapply wp_mono; [by apply wp_advances, sim_event|].
  intros r s1 (Ht & o & -> & HI1 & Ho). wp_focus. eapply wp_mono; [by apply IH|].
  intros r s2 (os & -> & HI2 & Hos). wp_simpl. exists (o :: os). split_and!; [done|done|]. by econstructor.
Qed.
End Refinement.


#[local] Existing Instance TranscriptionProviders.MockTranscriptionProvider.
#[local] Existing Instance CompilerProviders.MockReportCompiler.
#[local] Existing Instance mock_renderer.
#[local] Existing Instance mock_zod.
#[local] Existing Instance short_ids.
#[local] Existing Instance ReferenceRouter.reference_express.
#[local] Existing Instance reference_terminus.
#[local] Existing Instance reference_throwables.
#[local] Existing Instance Server.code_units.

(** Alice deletes her finished job and asks for it, somebody asks without a token and
    for a path that is not there, somebody signs in, and the worker takes Alice's
    queued job, which she then reads. *)
Definition stray_request : HttpRequest := mkHttpRequest Get [js "report"] JNull None None JNull None (js "/report").
Definition evening : list Event :=
  [Arrives quiet_ambient delete_request;
   Arrives quiet_ambient (alice_asks (JobsController.GetJob (js "j1")));
   Arrives quiet_ambient (request_of None None (js "/jobs") (JobsController.GetJob (js "j3")));
   Arrives quiet_ambient stray_request;
   Arrives quiet_ambient sign_in_request;
   PipelineRuns queued_data;
   Arrives quiet_ambient get_request].

Lemma evening_admissible : Forall (admissible run_cfg) evening.
Proof.
  assert (∀ u, names run_cfg alice_header u → MediaService.slash_free u) as Ha.
  { intros u Hu. by apply alice_slash_free, alice_named. }
  assert (∀ u, names run_cfg None u → MediaService.slash_free u) as Hn by (by intros u (tok & c & a & Ht & _)).
  unfold evening. repeat (constructor; [first [exact Ha|exact Hn|done]|]). constructor.
Qed.


(** What the evening answers. *)
Example evening_answers :
  returns (λ os, match os with
    | [Some (Reply 204 (JobsAnswer JobsController.NoContent)); Some (Problem p1); Some (Problem p2); Some (Problem p3);
       Some (Reply 200 (Tokens _)); None; Some (Reply 200 (JobsAnswer (JobsController.JobShown d)))] =>
        bool_decide ((statusCode p1, statusCode p2, statusCode p3) = (404, 401, 404)%Z)
        && bool_decide (dto_status d = READY)
    | _ => false
    end) (exec (mem_handle false) (history run_cfg evening) (mkMemory busy_day quiet)).1 = true.
Proof. vm_compute. reflexivity. Qed.
