(* ===== verification/SharedPdf.v ===== *)
(** * The PDF of a finished report

    The user reviews the report, edits it, and shares the PDF.  What edits do to the
    report is in [JobsProperties]; here is what they do to the PDF. *)
From S2P Require Import Prelude Json Program RelyGuarantee Schema Services Memory JsDate Report Zod Config Media Queue JobsRepository Dto Auth JobsService Tenancy Concurrent Sessions Api Health JobsProperties Transcription Compiler ReportHtml PdfRenderer Pipeline PipelineProperties Processor Modules Bootstrap Deliveries Server Notebook Wire Http HttpProperties HttpNotebook.
Import JobsService.

(** ** In the notebooks: a READY note stays READY while it is there *)
Definition still_ready (id : jstr) (nb nb' : Notebook) : Prop :=
  ∀ n, notes nb !! id = Some n → n_status n = READY →
    notes nb' !! id = None ∨ ∃ n', notes nb' !! id = Some n' ∧ n_status n' = READY.

Lemma still_ready_refl id nb : still_ready id nb nb.
Proof. intros n Hn Hs. right. by exists n. Qed.

Lemma still_ready_set id i n0 nb :
  (∀ n, notes nb !! i = Some n → n_status n = READY → n_status n0 = READY) → still_ready id nb (set_note i n0 nb).
Proof.
  intros H n Hn Hs. right. cbn [notes set_note]. destruct (decide (i = id)) as [->|Hne].
  - exists n0. rewrite lookup_insert_eq. split; [done|]. by apply (H n).
  - exists n. by rewrite lookup_insert_ne.
Qed.

Lemma effect_still_ready id nb req y nb' : api_effect nb req y nb' → still_ready id nb nb'.
Proof.
  destruct 1; try apply still_ready_refl.
  - apply still_ready_set. intros n1 Hn1 Hs. assert (n1 = n) as -> by congruence.
    unfold n', edit_note. by destruct (uj_sections dto), (uj_label dto).
  - apply still_ready_set. intros n1 Hn1 Hs. congruence.
  - intros n1 Hn1 Hs. cbn [notes drop_note]. destruct (decide (id0 = id)) as [->|Hne].
    + left. by rewrite lookup_delete_eq.
    + right. exists n1. by rewrite lookup_delete_ne.
  - apply still_ready_set. intros n1 Hn1. congruence.
Qed.

Lemma step_still_ready f id nb req y nb' : api_step f nb req y nb' → still_ready id nb nb'.
Proof. destruct 1; [by eapply effect_still_ready|apply still_ready_refl|by eapply effect_still_ready]. Qed.

Lemma delivery_still_ready id i nb nb' : delivery_step i nb nb' → still_ready id nb nb'.
Proof.
  intros [->|(n & n' & Hn & (_ & _ & _ & Hr & _) & ->)]; [apply still_ready_refl|].
  apply still_ready_set. intros n1 Hn1 Hs. assert (n1 = n) as -> by congruence. by rewrite (Hr Hs).
Qed.

Lemma event_still_ready `{Cr : Crypto} {V : Validator} {P : Pipes} {Ex : Router.Express} cfg f u id W e o W' :
  abstract_event cfg f W e o W' → still_ready id (book W u) (book W' u).
Proof.
  assert (∀ v nb, still_ready id (book W v) nb → rewrites v nb W W' → still_ready id (book W u) (book W' u)) as Hrw.
  { intros v nb Hs (Hnb & Hfr & _). destruct (decide (u = v)) as [->|Hne]; [by rewrite Hnb|].
    rewrite Hfr by done. apply still_ready_refl. }
  destruct 1 as [amb rq p W' _ _ [Hb _]|amb rq r params h e p W' _ _ _ _ [Hb _]| |amb rq r params x W' _ _ _ [Hb _]|];
    try (rewrite Hb; apply still_ready_refl); (eapply Hrw; [|done]).
  - match goal with H : notebook_step _ _ _ _ _ _ |- _ => destruct H as [H|(_ & _ & _ & ->)] end;
      [by eapply step_still_ready|apply still_ready_refl].
  - by eapply delivery_still_ready.
Qed.

(** ** In the store: who touches the object *)
Section Objects.
Context `{Cr : Crypto} {TP : TranscriptionProvider} {CP : ReportCompilerProvider} `{Zo : Zod}
  {PR : PdfRenderer} {V : Validator} {P : Pipes} {Ex : Router.Express} {Th : Throwables} {Te : Terminus} (cfg : AppConfig) (f : bool).
Abbreviation wp := (wp (eff_contract f)).
Abbreviation by_session := (session_act cfg (λ _, True) (λ _, True) (proves cfg)).

(** Requests write no object, and only a deletion removes some: its job's. *)
Definition spares (u : jstr) (s s' : Store) : Prop :=
  objects s' = objects s
  ∨ ∃ id j, live_job s u id = Some j ∧ live_job s' u id = None
      ∧ ∀ k, k ∉ job_object_keys j → objects s' !! k = objects s !! k.

Lemma edited_objects u id dto j s s1 : live_job s u id = Some j → edited u id dto j s s1 → objects s1 = objects s.
Proof.
  intros Hl He. unfold edited in He.
  destruct (uj_sections dto), (uj_label dto); try done;
    try (destruct He as (_ & now & t & _ & _ & ->); done); [by subst|by destruct He as (t & _ & ->)].
Qed.

Lemma shown_objects x d s s' : shown cfg x d s s' → objects s' = objects s.
Proof. unfold shown. destruct (pdf_ready _); [by intros (url & _ & ->)|by intros [_ ->]]. Qed.

Lemma live_deleted u id now t j s : live_job (deleted id now t j s) u id = None.
Proof. unfold live_job, deleted. cbn [jobs with_clock with_jobs]. by rewrite lookup_insert_eq, bool_decide_false by (by intros []). Qed.

Lemma serve_spares u req s : wp (JobsController.serve cfg u req) s (λ _ s', spares u s s').
Proof.
  assert (∀ {A} (p : prog eff A) (g : A → JobsController.Response),
    wp p s (λ _ s', spares u s s') → wp (x <- p;; Ret (g x)) s (λ _ s', spares u s s')) as Hg.
  { intros A p g Hp. apply wp_bind. eapply wp_mono; [exact Hp|]. by intros [e|x] s'. }
  destruct req as [q|dto header|id|id dto|id|id|id]; cbn [JobsController.serve]; apply Hg.
  - eapply wp_mono; [apply list_spec|]. intros r s' [-> _]. by left.
  - eapply wp_mono; [apply create_spec|]. intros [e|resp] s' Hr; left.
    + by destruct Hr as [[-> _]|(_ & _ & _ & id & t & _ & _ & _ & ->)].
    + by destruct Hr as [(k & _ & x & url & _ & _ & _ & ->)|(_ & id & t & secs & url & _ & _ & _ & _ & _ & ->)].
  - eapply wp_mono; [apply findOne_spec|]. intros [e|d] s' H; left.
    + by destruct H as [-> _].
    + destruct H as (x & _ & Hs). by eapply shown_objects.
  - eapply wp_mono; [apply update_spec|]. intros [e|d] s' H; left.
    + destruct H as [[(t & _ & ->) _]|(_ & _ & j & Hl & He)]; [done|by eapply edited_objects].
    + destruct H as (j & s1 & x & Hl & He & _ & Hs). rewrite (shown_objects _ _ _ _ Hs). by eapply edited_objects.
  - eapply wp_mono; [apply process_spec|]. intros [e|d] s' H; left.
    + destruct H as [[-> _]|(_ & _ & j & t & _ & _ & _ & [->|[->| ->]])]; done.
    + destruct H as (x & _ & [[_ Hs]|[(_ & _ & ->)|(_ & _ & t & secs & _ & _ & _ & ->)]]);
        [by eapply shown_objects|done..].
  - eapply wp_mono; [apply getPdfUrl_spec|]. intros [e|d] s' H; left.
    + by destruct H as [-> _].
    + by destruct H as (j & key & _ & _ & _ & ->).
  - eapply wp_mono; [apply remove_spec|]. intros [e|d] s'.
    + intros [(t & _ & ->) _]. by left.
    + intros (j & now & t & Hl & _ & Hs'). destruct Hs' as [->|[-> _]]; [right|by left].
      exists id, j. split_and!; [done|exact (live_deleted u id now t j s)|].
      intros k Hk. cbn [objects without_objects with_objects deleted with_clock with_jobs].
      apply option_eq. intros o. rewrite map_lookup_filter_Some. cbn [fst]. split; [by intros []|].
      intros Ho. split; [done|]. intros Hin. by apply list_elem_of_filter in Hin as [_ Hin].
Qed.

(** What holds after a request, whatever its route. *)
Lemma respond_wp amb rq s (R : Store → Prop) :
  session_inv s → R s → (∀ t s1, R s1 → R (with_clock t s1)) → (∀ s1, rtc by_session s s1 → R s1) →
  (∀ u req, names cfg (rq_authorization rq) u → wp (JobsController.serve cfg u req) s (λ _ s1, R s1)) →
  wp (Http.respond cfg amb rq) s (λ _ s1, R s1).
Proof.
  intros HI H0 Htick Hses Hserve. unfold Http.respond. apply wp_try_catch.
  apply wp_mono with (λ _ s1, R s1).
  - unfold Http.serve. destruct (Router.route rq) as [[r params]|] eqn:Hr; [|done].
    apply find_Some in Hr as [Hr _]. destruct (routes_policy r Hr) as [Hpub _].
    wp_focus. eapply wp_mono; [apply (pass_spec cfg amb f)|]. intros [e|user] s1 [-> H]; [done|]. rewrite Hpub in H.
    destruct (is_jobs (handler (Router.endpoint r))) eqn:Hh; cbn [negb] in H.
    + destruct (handler (Router.endpoint r)) as [h| | | |]; try done.
      destruct H as (_ & u & a & -> & <- & Hb). cbn [Http.invoke JwtAuthGuard.CurrentUser settle bind].
      destruct (jobs_request h params rq) as [e|req]; [done|]. cbn [settle bind]. wp_focus.
      eapply wp_mono; [by eapply Hserve, bears_names|]. by intros [e|x].
    + destruct H as [_ ->]. wp_focus. eapply wp_mono; [by apply (invoke_session cfg f amb)|].
      intros [e|body] s1 [Hs _]; by apply Hses.
  - intros [e|x] s1 HR; [|done]. eapply wp_mono; [apply catch_says|]. intros r s2 [[t ->] _]. by apply Htick.
Qed.

Lemma session_objects s s' : rtc by_session s s' → objects s' = objects s.
Proof. induction 1 as [|s1 s2 s3 [(us & ts & t & ->) _] _ IH]; [done|exact IH]. Qed.

Section Pdf.
Context (u id : jstr).
Abbreviation pdf := (MediaService.pdfKey u id).

(** The job is gone, or its PDF is the same. *)
Definition same_pdf (s s' : Store) : Prop := live_job s' u id = None ∨ objects s' !! pdf = objects s !! pdf.

Lemma spares_same_pdf s s' : integrity s → MediaService.slash_free u → spares u s s' → same_pdf s s'.
Proof.
  intros HI Hsl [Ho|(i & j & Hl & Hn & Ho)]; [by right; rewrite Ho|]. destruct (decide (i = id)) as [->|Hne]; [by left|right].
  apply Ho. intros Hk. apply live_job_Some in Hl as (Hj & Hju & _). destruct (keys_own _ HI _ _ Hj) as [Ha Hp].
  rewrite Hju in Ha, Hp.
  unfold job_object_keys in Hk. apply list_elem_of_omap in Hk as (x & Hx & Hk). unfold truthy_opt in Hk.
  assert (x = Some pdf) as -> by (destruct x as [x|]; [by destruct (truthy x); [injection Hk as ->|]|done]).
  apply elem_of_cons in Hx as [Hx|[Hx|[]%not_elem_of_nil]%elem_of_cons].
  - rewrite <-Hx in Ha. by destruct Ha.
  - rewrite <-Hx in Hp. destruct Hp as [|Heq%(inj Some)]; [done|].
    by destruct (MediaService.pdfKey_injective _ _ _ _ Hsl Hsl Heq).
Qed.

Lemma respond_same_pdf amb rq s :
  all_inv s → admissible cfg (Arrives amb rq) → MediaService.slash_free u →
  wp (Http.respond cfg amb rq) s (λ _ s', same_pdf s s').
Proof.
  intros HI Had Hsl. apply respond_wp; [apply HI|by right|done|intros s1 Hs; right; by rewrite (session_objects _ _ Hs)|].
  intros a req Ha. destruct (decide (a = u)) as [->|Hne].
  - eapply wp_mono; [apply serve_spares|]. intros r s1. apply spares_same_pdf; [apply HI|done].
  - eapply wp_mono; [apply (rg_wp _ server_inv kept (acts a)); [apply HI|apply (rg_serve cfg f a (Had a Ha) req s), HI]|].
    intros r s1 (_ & [Ht _]%rtc_acts & _). right. apply (tenant_objects _ _ _ Ht). intros Hk. apply Hne.
    eapply own_key_user; [by apply Had|done|done|]. exists id. by right.
Qed.

Lemma worker_objects v i s s' k :
  rtc (worker_step v i) s s' → k ≠ MediaService.pdfKey v i → objects s' !! k = objects s !! k.
Proof. intros Hr Hk. induction Hr as [|s1 s2 s3 Hs _ IH]; [done|]. by rewrite IH, (ws_objects _ _ _ _ Hs). Qed.

Lemma run_same_pdf v i s j :
  server_inv s → live_job s u id = Some j → job_status j = READY →
  wp (PipelineService.process cfg (mkProcessJobData i v)) s (λ _ s', same_pdf s s').
Proof.
  intros HI Hl Hst. eapply wp_mono; [apply run_confined|].
  intros r s' [->|(Hr & ji & Hi & Hns)]; right; [done|]. apply (worker_objects v i); [done|].
  intros Hk. apply live_job_Some in Hl as (Hj & Hu & _). apply live_job_Some in Hi as (Hji & Hv & Hd).
  destruct (MediaService.pdfKey_injective u id v i) as [<- <-]; [rewrite <-Hu|rewrite <-Hv|done|congruence];
    by eapply inv_users.
Qed.

(** READY with the PDF [o], or deleted. *)
Definition settled (o : option StoredObject) (s : Store) : Prop :=
  (∃ j, live_job s u id = Some j ∧ job_status j = READY ∧ objects s !! pdf = o)
  ∨ ∃ j, jobs s !! id = Some j ∧ job_userId j = u ∧ job_deletedAt j ≠ None.

Lemma settled_step o e x s s' :
  settled o s → kept s s' → (∀ j, live_job s u id = Some j → job_status j = READY → same_pdf s s') →
  abstract_event cfg f (world s) e x (world s') → settled o s'.
Proof.
  intros [(j & Hl & Hst & Ho)|(j & Hj & Hu & Hd)] Hk Hsame Hev.
  - destruct (kept_rows _ _ Hk id j) as (j' & Hj' & Hu' & _); [by apply live_job_Some in Hl as [? _]|].
    apply live_job_Some in Hl as Hrow. destruct Hrow as (_ & Hu & _). rewrite Hu in Hu'.
    destruct (live_job s' u id) as [j2|] eqn:Hl'.
    + left. exists j2. split; [done|]. destruct (Hsame j Hl Hst) as [Hn|Hp]; [congruence|]. split; [|congruence].
      assert (notes (book (world s) u) !! id = Some (note_of j (report_in s id))) as Hn by (cbn [book world]; by rewrite notes_lookup, Hl).
      assert (notes (book (world s') u) !! id = Some (note_of j2 (report_in s' id))) as Hn' by (cbn [book world]; by rewrite notes_lookup, Hl').
      destruct (event_still_ready _ _ u id _ _ _ _ Hev _ Hn Hst) as [?|(n' & Hn2 & Hs2)]; [congruence|].
      rewrite Hn' in Hn2. by injection Hn2 as <-.
    + right. exists j'. split_and!; [done..|]. intros Hd.
      assert (live_job s' u id = Some j') as H by (by apply live_job_Some). congruence.
  - right. destruct (kept_rows _ _ Hk id j Hj) as (j' & Hj' & Hu' & Hd'). exists j'. split_and!; [done|congruence|auto].
Qed.

Lemma settled_event o e s :
  all_inv s → admissible cfg e → MediaService.slash_free u → settled o s →
  wp (happen cfg e) s (λ r s', ∃ x, r = inr x ∧ all_inv s' ∧ settled o s').
Proof.
  intros HI Had Hsl Hset.
  assert (wp (happen cfg e) s (λ _ s', kept s s' ∧ ∀ j, live_job s u id = Some j → job_status j = READY → same_pdf s s')) as Hw.
  { destruct e as [amb rq|[i v]]; cbn [happen]; wp_focus.
    - eapply wp_mono; [apply wp_and; [by apply (respond_keeps cfg f)|by apply respond_same_pdf]|].
      intros [e|x] s' [[_ Hk] Hp]; wp_simpl; by split.
    - apply wp_attempt. apply wp_mono with (λ _ s', kept s s' ∧ ∀ j, live_job s u id = Some j → job_status j = READY → same_pdf s s');
        [|by intros]. apply wp_and; [eapply wp_mono; [apply (sim_run cfg f v i s), HI|]; intros r s' (_ & Hk & _); done|].
      apply wp_runs. intros r s' Hr j Hl Hst.
      exact (proj1 (wp_runs _ _ _ _) (run_same_pdf v i s j (proj1 HI) Hl Hst) r s' Hr). }
  eapply wp_mono; [apply wp_and; [by apply (sim_event cfg f)|exact Hw]|].
  intros r s' [(x & -> & HI' & Hev) [Hk Hp]]. exists x. split_and!; [done|done|]. by eapply settled_step.
Qed.

Lemma settled_history o es s :
  all_inv s → Forall (admissible cfg) es → MediaService.slash_free u → settled o s →
  wp (history cfg es) s (λ r s', ∃ os, r = inr os ∧ settled o s').
Proof.
  revert s. induction es as [|e es IH]; intros s HI Hes Hsl Hset; cbn [history].
  { by exists []. }
  apply Forall_cons in Hes as [He Hes]. wp_focus. eapply wp_mono; [by apply settled_event|].
  intros r s1 (x & -> & HI1 & Hset1). wp_focus. eapply wp_mono; [by apply IH|].
  intros r s2 (os & -> & Hset2). wp_simpl. by exists (x :: os).
Qed.
End Pdf.
End Objects.

(** C8: The PDF of a READY report is final.  Whatever requests follow - its owner's
    edits of label and sections and new processing requests among them - and whatever
    pipeline runs, on any services: the job is READY with the very PDF that was rendered
    before, or deleted.  So an edit that is stored and shown never reaches the PDF, and
    no request makes the server render it again. *)
Theorem ready_pdf_is_final `{Hs : Services} {TP : TranscriptionProvider} {CP : ReportCompilerProvider}
    `{Zo : Zod} {PR : PdfRenderer} {V : Validator} {P : Pipes} {Ex : Router.Express} {Th : Throwables} {Te : Terminus}
    cfg es u id j w :
  all_inv (view w) → Forall (admissible cfg) es → live_job (view w) u id = Some j → job_status j = READY →
  ensures (history cfg es) w (λ r s', ∃ os, r = inr os ∧
    ((∃ j' o, live_job s' u id = Some j' ∧ job_status j' = READY
        ∧ objects (view w) !! MediaService.pdfKey u id = Some o ∧ objects s' !! MediaService.pdfKey u id = Some o)
     ∨ ∃ j', jobs s' !! id = Some j' ∧ job_userId j' = u ∧ job_deletedAt j' ≠ None)).
Proof.
  intros HI Hes Hl Hst. pose proof Hl as (Hj & Hu & Hd)%live_job_Some.
  destruct (inv_pdfs _ (proj1 HI) id j Hj Hst Hd) as [o Ho]. rewrite Hu in Ho.
  apply ensures_wp. eapply wp_mono; [apply (settled_history cfg faults u id (Some o)); [done|done| |]|].
  - rewrite <-Hu. by eapply inv_users; [apply HI|].
  - left. by exists j.
  - intros r s' (os & -> & [(j' & Hl' & Hst' & Ho')|Hdel]); exists os; (split; [done|]); [left|by right].
    by exists j', o.
Qed.

#[local] Existing Instance TranscriptionProviders.MockTranscriptionProvider.
#[local] Existing Instance CompilerProviders.MockReportCompiler.
#[local] Existing Instance mock_renderer.
#[local] Existing Instance mock_zod.
#[local] Existing Instance short_ids.
#[local] Existing Instance ReferenceRouter.reference_express.
#[local] Existing Instance reference_terminus.
#[local] Existing Instance reference_throwables.
#[local] Existing Instance Server.code_units.

(** Alice replaces the report of her finished job, asks for its processing, and the
    PDF; an old queue entry of it is run as well. *)
Definition correction : UpdateJobDto :=
  mkUpdateJobDto (Value (js "12 High Street")) (Value [mkUpdateSectionDto (js "Roof") 0 [mkUpdateFindingDto (js "Sound.") info 0]]).
Definition review : Datatypes.list Event :=
  [Arrives quiet_ambient (alice_asks (JobsController.PatchJob (js "j1") correction));
   Arrives quiet_ambient (alice_asks (JobsController.PostProcess (js "j1")));
   PipelineRuns (mkProcessJobData (js "j1") (js "alice"));
   Arrives quiet_ambient (alice_asks (JobsController.GetPdf (js "j1")))].

Lemma review_admissible : Forall (admissible run_cfg) review.
Proof.
  assert (∀ u, names run_cfg alice_header u → MediaService.slash_free u) as Ha.
  { intros u Hu. by apply alice_slash_free, alice_named. }
  unfold review. repeat (constructor; [first [exact Ha|done]|]). constructor.
Qed.

(** The report is the corrected one, and the PDF the one from before. *)
Lemma ready_pdf_is_final_witness :
  ensures (Hs := reliable_memory) (history run_cfg review) (mkMemory busy_day quiet) (λ _ s', ∃ j',
    live_job s' (js "alice") (js "j1") = Some j' ∧ job_label j' = js "12 High Street"
    ∧ report_in s' (js "j1") = toReportInput (uj_sections correction)
    ∧ objects s' !! MediaService.pdfKey (js "alice") (js "j1") = Some (mkStoredObject [37; 80; 68; 70]%N (js "application/pdf"))).
Proof.
  pose proof (ready_pdf_is_final (Hs := reliable_memory) run_cfg review (js "alice") (js "j1") ready_row
    (mkMemory busy_day quiet) busy_day_all_inv review_admissible ltac:(reflexivity) ltac:(reflexivity)) as H.
  unfold ensures in *. remember (exec _ _ _) as run eqn:Hrun in H |- *.
  assert (job_label <$> live_job (view run.2) (js "alice") (js "j1") = Some (js "12 High Street")
    ∧ job_deletedAt <$> jobs (view run.2) !! js "j1" = Some None
    ∧ report_in (view run.2) (js "j1") = toReportInput (uj_sections correction)) as (Hlab & Hdel & Hrep)
    by (rewrite Hrun; vm_compute; split_and!; reflexivity).
  destruct H as (os & _ & [(j' & o & Hl & _ & Ho & Ho')|(j' & Hj & _ & Hd)]).
  - exists j'. rewrite Hl in Hlab. injection Hlab as Hlab. split_and!; [exact Hl|exact Hlab|exact Hrep|].
    rewrite Ho', <-Ho. vm_compute. reflexivity.
  - exfalso. rewrite Hj in Hdel. injection Hdel as Hdel. by apply Hd.
Defined.

(** What Alice is answered: the corrected report, READY still, and a link. *)
Example review_answers :
  returns (λ os, match os with
    | [Some (Reply 200 (JobsAnswer (JobsController.JobShown d1))); Some (Reply 200 (JobsAnswer (JobsController.JobShown d2))); None;
       Some (Reply 200 (JobsAnswer (JobsController.PdfUrlShown _)))] =>
        bool_decide (dto_label d1 = js "12 High Street" ∧ dto_status d1 = READY ∧ dto_label d2 = js "12 High Street" ∧ dto_status d2 = READY)
    | _ => false
    end) (exec (mem_handle false) (history run_cfg review) (mkMemory busy_day quiet)).1 = true.
Proof. vm_compute. reflexivity. Qed.
